(* ===== verification/_CoqProject ===== *)
-Q . S2P
Prelude.v
Text.v
Hlc.v
Json.v
RegistryRow.v
RegistryDoc.v
Entities.v
RegistryApi.v
PinKeys.v
Sidebar.v
SidebarSpec.v
SidebarSections.v
Commands.v
Queue.v
QueueHost.v
View.v
Agent.v
Parts.v
PartsSpec.v
ToolJson.v
Schema.v
SchemaSpec.v
SegmentSpec.v
Rebuild.v
Transcript.v
Frames.v
ChatClient.v
ChatSync.v
ChatSyncSpec.v
ChatOutbox.v
ChatRecovery.v
HostDrain.v
