(* ===== verification/Prelude.v ===== *)
(** * axecode: a model of the state a device keeps and the decisions it takes

    ** The program

    axecode controls coding agents from several devices.  A device runs an
    _engine_ (crates/engine), which starts agents, hosts chats and serves
    _viewports_ (the gpui app, the mobile crates) over a local protocol.  Two
    kinds of state are shared between devices:

    - the _workspace registry_ (crates/doc/src/registry.rs): devices, spaces,
      chats, sessions and sidebar preferences as rows of last-writer-wins
      fields, each field with a hybrid logical clock.  A device keeps the rows
      the server has confirmed plus a queue of its own unacked operations, and
      displays the queue laid over the rows.  A server orders the operations;
    - one _session document_ per chat (crates/doc: schema, commands, queue,
      parts): the transcript, the ledger of commands to the chat's host, and
      the queue of messages typed ahead.  The host device alone executes
      commands and delivers queued messages (crates/engine/src/doc_host.rs),
      and writes the transcript by folding the agent's event stream.

    A chat document is synchronised through a _room_ on the edge: a log of
    update rows with a checkpoint that covers a prefix.  A chat client
    (crates/sync/src/chat_client.rs) follows it over a websocket and, when that
    is down, over HTTPS.  It keeps a _cursor_, the sequence number up to which
    its document contains the log, and an outbox of unacknowledged batches.

    A viewport watches a transcript as delta frames (transcript_delta.rs) and
    derives statuses and orders from the rows (crates/proto/src/view.rs).

    ** Files

    - Prelude: results, machine integers, the byte order of strings, list and
      sorting lemmas.  Text: what the crates use of Rust's string library.
    - Hlc: [encode_hlc], [hlc_newer], [HlcClock] of registry.rs and the
      observation of foreign clocks of registry/sidebar_sections.rs.
    - Json: serde_json's [Value] and its accessors.
    - RegistryRow: [RegistryRow], [RowOp], [apply_op], [coalesce_ops] of
      registry.rs.
    - RegistryDoc: the replica.  Record [RegistryDoc] has the fields of the
      struct; [enqueue_ops], [coalesce_unsent], [take_pushable], [ack_batch],
      [apply_state], [apply_rows], [overlay] are the methods of that name, and
      [to_persisted]/[from_persisted] the content of a snapshot; [doc_step]
      and [doc_reachable] are its histories.
    - Entities: [Device], [Space], [Chat], [Session] (proto/src/entities.rs)
      and their rows (doc/src/workspace.rs, registry.rs).
    - RegistryApi: the typed upserts, updates, claims, deletes and reads.
    - PinKeys: proto/src/sidebar_pins.rs.
    - Sidebar: doc/src/registry/sidebar_pins.rs and sidebar_sections.rs, with
      [sidebar_preferences] and [reconcile_sidebar_pins] of registry.rs, over
      the replica.  SidebarSpec: local changes of pins under clocks of any
      device.  SidebarSections: changes of sections, refusals, sequences of
      changes.
    - Commands: doc/src/commands.rs; [evaluate_command] decides what the host
      does with a command.
    - Queue: doc/src/queue.rs, on the maps the document stores, with a
      specification on lists of messages and the refinement between them.
    - QueueHost: the queue operations of engine/src/doc_host.rs; its state
      is the document queue with the leases, and [QueueAction] has the
      operations in the interleavings the drain lock allows.
    - View: proto/src/view.rs.
    - Agent, Parts, PartsSpec: the event types of proto/src/agent.rs and
      doc/src/parts.rs (the fold, the privacy policy, sidecar references,
      continuation splitting).
    - Transcript: doc/src/transcript_delta.rs.
    - Frames: the binary frames of sync/src/chat_frames.rs and of the device
      relay (rpc/src/device_room.rs).
    - ChatClient: [Shared], the cursor rules, the outbox and the frame handlers
      of sync/src/chat_client.rs.  ChatSync: [run_session] and
      [spawn_offline_sync] of that file as two tasks over one client and a
      room; a step of [ws_actor] or [http_actor] is what a task does between
      two points where the other may run.  ChatSyncSpec: the invariant of the
      two tasks and what the cursor and a completed catch-up mean.  ChatOutbox:
      the batches.  ChatRecovery: the way back to a caught-up client.
    - HostDrain: [drain_command_kind] and [ingest_relayed_command] of
      doc_host.rs as workers of one process over a shared command list, the
      persistent ledger (sync/src/store.rs) and the in-flight set.

    RegistryRow uses Hlc and Json; RegistryDoc uses RegistryRow; RegistryApi
    writes through RegistryDoc and reads through Entities; Sidebar uses
    RegistryApi and PinKeys; QueueHost uses
    Queue; HostDrain uses Commands; Transcript uses Parts, which uses Agent;
    the Chat files use Frames, each the one before.

    ** What the theorems show

    - Registry.  The clock order is the order of (ms, counter, device) and a
      source never goes back.  Applying an op is idempotent, concurrent writes
      converge, a delete wins exactly over older rows, and a re-seed rebuilds a
      lost row.  Coalescing is exact: the merged op acts on every row as the
      two ops did, and compaction of the queue changes no displayed row and no
      batch already sent.  In every reachable replica the queue is well formed;
      the cursor never skips a broadcast; no local row is lost to a full state
      frame; batches are pushed once per connection; snapshots reload to the
      same display.  The typed operations read back what they wrote, cascades
      delete what they should and nothing else, and a claim does not shadow an
      older full write.
    - Sidebar.  A minted key lies strictly between its neighbours, and minting
      succeeds while the key fits.  On the replica, a local change of a pin and
      an assignment to a section have exactly the effect the viewports project,
      whatever clocks other devices wrote; no session is ever in two places;
      deleted sections stay deleted; a refused change shows nothing.
    - Commands.  The evaluation is characterised on every branch.  Under every
      interleaving of drains, relays, document merges and crashes no prompt
      starts twice while the ledger can be read, and the in-flight set is
      exactly what live workers hold.
    - Queue.  The map operations refine list operations; no host operation
      loses, duplicates or rewrites a message it is not about; a message under
      an open edit lease is never sent; the drain sends the head.
    - Transcript.  The fold shows exactly the current turn's deltas and latest
      calls; sanitizing keeps no content; splitting loses nothing and respects
      the limit; applying a diff reproduces the target.
    - Chat client.  Whatever the two tasks, the room and failures do, the cursor
      claims no row the document lacks (but for what a checkpoint covers while
      no session has joined), a completed ticket fences the rows that existed
      when it was taken, no batch leaves the outbox unsettled, and every
      reachable state leads back to a caught-up one.  Frames decode back.
    - View.  Statuses go stale, sort orders do not depend on arrival order, and
      a repository has one representative on every device.

    ** Modelling choices

    A Rust [String] is the Rocq string of its bytes; Rust compares strings
    bytewise, so [str_ltb] is its order, and slicing is only defined at the
    character boundaries of Parts.  Instants are epoch milliseconds.  Counters
    that can wrap ([u32], [u64], [i64] in release builds) are wrapped where the
    code computes them.  A method with [&mut self] is a function to the new
    state (and its return value); an async handler that yields is split into
    steps at the points where another task may run.

    Third-party code is a parameter: the serialized length of an op or of a
    part (serde_json), chrono's range and RFC 3339 text (class [Chrono] with
    its laws [ChronoLaws]), the line diff of [similar], the text hash (sha2).
    The document library (loro) appears as the state of its containers on one
    device; merges of remote edits are steps that replace that state.
    The chat room is an environment that keeps its log: heads and checkpoints
    grow, header frames are snapshots, a rows request has one end marker; rows
    may come in any order or not at all, and a session may end at any step.
    Its document is the set of sequence numbers imported.
    The wall clock is a function from the index of a reading to its value, and
    answers of the environment (I/O, agents, attachments) are arguments.

    Fuel: [enqueue_chunks] gets the number of ops, and each round takes at
    least one; [key_loop] gets the size limit of a key, and each round appends
    one digit, so running out of fuel is the code's own size error;
    [text_pieces] gets the length of the text, and each piece has at least one
    byte because the limit (256 KiB in the code, at least 4 in the theorems)
    holds a whole character; [ndigits_fuel] gets the binary logarithm.

    ** Not modelled

    What an execution does to agents and processes (engine/src/sessions.rs,
    crates/harness), the dialling, backoff and probe timers of
    crates/sync, snapshots on disk, authentication, terminals, uploads, checkouts
    and source control; rendering (ui, theme, text, markdown, orb, veil),
    voice, the updater; the Swift app and the TypeScript edge.  The merge of
    concurrent document edits is the library's.

    ** Plan

    Next: the message codec and rebuild of the session document (schema.rs,
    rebuild.rs), command retries and the liveness of a drain, the registry
    socket (sync/src/registry.rs), the dial and budget policies of crates/sync,
    and the streaming repair of markdown (markdown/src/mend.rs). *)

From stdpp Require Export base tactics list strings gmap fin_maps sorting.
From Stdlib Require Export ZArith Lia Ascii String.
From stdpp Require Export strings.

(** ** Scope and notations *)

Declare Scope axe_scope.
Delimit Scope axe_scope with axe.
#[global] Open Scope Z_scope.
#[global] Open Scope list_scope.
#[global] Open Scope axe_scope.

#[global] Arguments String.append : simpl nomatch.

(** ** Results

    Rust's [Result<A, E>].  The bind is the [?] operator. *)

Inductive result (E A : Type) : Type :=
  | Ok (a : A)
  | Err (e : E).
Arguments Ok {E A} a.
Arguments Err {E A} e.

Definition result_bind {E A B} (r : result E A) (k : A → result E B) : result E B :=
  match r with
  | Ok a => k a
  | Err e => Err e
  end.

Notation "x <-? e ;; k" := (result_bind e (λ x, k))
  (at level 60, e at next level, right associativity) : axe_scope.

Definition is_ok {E A} (r : result E A) : bool :=
  match r with Ok _ => true | Err _ => false end.

#[export] Instance result_eq_dec `{EqDecision E, EqDecision A} : EqDecision (result E A).
Proof. solve_decision. Defined.

(** ** Machine integers

    Release builds of the crate do not set [overflow-checks], so [+] on a
    fixed-width integer wraps. *)

Definition wrap_u32 (z : Z) : Z := z mod 2 ^ 32.
Definition wrap_u64 (z : Z) : Z := z mod 2 ^ 64.
Definition wrap_i64 (z : Z) : Z := (z + 2 ^ 63) mod 2 ^ 64 - 2 ^ 63.

Definition is_u32 (z : Z) : Prop := 0 ≤ z < 2 ^ 32.
Definition is_u64 (z : Z) : Prop := 0 ≤ z < 2 ^ 64.
Definition is_i64 (z : Z) : Prop := - 2 ^ 63 ≤ z < 2 ^ 63.

Lemma wrap_u32_small z : is_u32 z → wrap_u32 z = z.
Proof. unfold is_u32, wrap_u32. intros. by apply Z.mod_small. Qed.

Lemma wrap_u64_small z : is_u64 z → wrap_u64 z = z.
Proof. unfold is_u64, wrap_u64. intros. by apply Z.mod_small. Qed.

Lemma wrap_i64_small z : is_i64 z → wrap_i64 z = z.
Proof.
  unfold is_i64, wrap_i64. intros H. rewrite Z.mod_small; lia.
Qed.

Lemma wrap_i64_range z : is_i64 (wrap_i64 z).
Proof.
  unfold is_i64, wrap_i64.
  pose proof (Z.mod_pos_bound (z + 2 ^ 63) (2 ^ 64) ltac:(lia)). lia.
Qed.

(** ** Byte strings

    A Rust [String] is modelled as its UTF-8 bytes, the [string] of the
    standard library; [Ord for String] is the byte-wise lexicographic order. *)

Definition ascii_ltb (x y : ascii) : bool := (N_of_ascii x <? N_of_ascii y)%N.

Fixpoint str_ltb (a b : string) : bool :=
  match a, b with
  | _, EmptyString => false
  | EmptyString, String _ _ => true
  | String x a', String y b' =>
      if ascii_ltb x y then true
      else if ascii_ltb y x then false
      else str_ltb a' b'
  end.

Definition str_lt (a b : string) : Prop := str_ltb a b = true.
Definition str_leb (a b : string) : bool := negb (str_ltb b a).

Infix "<s" := str_lt (at level 70) : axe_scope.

#[export] Instance str_lt_dec a b : Decision (a <s b).
Proof. unfold str_lt. apply _. Defined.

Lemma ascii_ltb_irrefl x : ascii_ltb x x = false.
Proof. unfold ascii_ltb. apply N.ltb_irrefl. Qed.

Lemma ascii_ltb_asym x y : ascii_ltb x y = true → ascii_ltb y x = false.
Proof. unfold ascii_ltb. rewrite N.ltb_lt, N.ltb_ge. lia. Qed.

Lemma ascii_ltb_eq x y : ascii_ltb x y = false → ascii_ltb y x = false → x = y.
Proof.
  unfold ascii_ltb. rewrite !N.ltb_ge. intros.
  rewrite <- (ascii_N_embedding x), <- (ascii_N_embedding y). f_equal. lia.
Qed.

Lemma ascii_ltb_trans x y z :
  ascii_ltb x y = true → ascii_ltb y z = true → ascii_ltb x z = true.
Proof. unfold ascii_ltb. rewrite !N.ltb_lt. lia. Qed.

Lemma str_ltb_irrefl a : str_ltb a a = false.
Proof. induction a as [|x a IH]; simpl; [done|]. by rewrite ascii_ltb_irrefl. Qed.

Lemma str_ltb_cons x a y b :
  str_ltb (String x a) (String y b) = true ↔
    ascii_ltb x y = true ∨ (x = y ∧ str_ltb a b = true).
Proof.
  simpl. destruct (ascii_ltb x y) eqn:Exy.
  - split; auto.
  - destruct (ascii_ltb y x) eqn:Eyx.
    + split; [done|]. intros [?|[-> _]]; [done|]. by rewrite ascii_ltb_irrefl in Eyx.
    + apply (ascii_ltb_eq x y) in Exy as ->; [|done].
      split; [by right|]. intros [?|[_ ?]]; done.
Qed.

Lemma str_ltb_trans a b c : str_ltb a b = true → str_ltb b c = true → str_ltb a c = true.
Proof.
  revert b c; induction a as [|x a IH]; intros [|y b] [|z c]; try done.
  rewrite !str_ltb_cons. intros [H1|[-> H1]] [H2|[-> H2]]; eauto using ascii_ltb_trans.
Qed.

Lemma str_ltb_total a b : str_ltb a b = false → str_ltb b a = false → a = b.
Proof.
  revert b; induction a as [|x a IH]; intros [|y b]; try done. simpl.
  destruct (ascii_ltb x y) eqn:Exy; [done|].
  destruct (ascii_ltb y x) eqn:Eyx; [done|].
  intros. f_equal; eauto using ascii_ltb_eq.
Qed.

Lemma str_ltb_asym a b : str_ltb a b = true → str_ltb b a = false.
Proof.
  intros H. destruct (str_ltb b a) eqn:E; [|done].
  pose proof (str_ltb_trans _ _ _ H E) as C. by rewrite str_ltb_irrefl in C.
Qed.

#[export] Instance str_lt_strict : StrictOrder str_lt.
Proof.
  split.
  - intros a H. unfold str_lt in H. by rewrite str_ltb_irrefl in H.
  - intros a b c. apply str_ltb_trans.
Qed.

#[export] Instance str_lt_trichotomy : TrichotomyT str_lt.
Proof.
  intros a b. destruct (str_ltb a b) eqn:E1; [left; by left|].
  destruct (str_ltb b a) eqn:E2; [by right|].
  left; right. by apply str_ltb_total.
Defined.

Lemma str_leb_refl a : str_leb a a = true.
Proof. unfold str_leb. by rewrite str_ltb_irrefl. Qed.

Lemma str_leb_antisym a b : str_leb a b = true → str_leb b a = true → a = b.
Proof.
  unfold str_leb. rewrite !negb_true_iff. intros. by apply str_ltb_total.
Qed.

Lemma str_leb_trans a b c : str_leb a b = true → str_leb b c = true → str_leb a c = true.
Proof.
  unfold str_leb. rewrite !negb_true_iff. intros H1 H2.
  destruct (str_ltb c a) eqn:E; [|done].
  destruct (str_lt_trichotomy a b) as [[H| ->]|H]; unfold str_lt in *; try congruence.
  pose proof (str_ltb_trans _ _ _ E H). congruence.
Qed.

Lemma str_leb_total a b : str_leb a b = true ∨ str_leb b a = true.
Proof.
  unfold str_leb. rewrite !negb_true_iff.
  destruct (str_ltb b a) eqn:E; [right|by left]. by apply str_ltb_asym.
Qed.

(** Lexicographic order of concatenations. *)

Lemma str_ltb_app_same p a b : str_ltb (p +:+ a) (p +:+ b) = str_ltb a b.
Proof. induction p as [|x p IH]; simpl; [done|]. by rewrite ascii_ltb_irrefl. Qed.

Lemma str_ltb_app_lt a b p q :
  String.length a = String.length b → str_ltb a b = true →
  str_ltb (a +:+ p) (b +:+ q) = true.
Proof.
  revert b; induction a as [|x a IH]; intros [|y b]; try done. simpl. intros [= Hl].
  destruct (ascii_ltb x y); [done|]. destruct (ascii_ltb y x); [done|]. by apply IH.
Qed.

Lemma str_length_app a b : String.length (a +:+ b) = (String.length a + String.length b)%nat.
Proof. induction a as [|x a IH]; simpl; [done|]. by rewrite IH. Qed.

Lemma str_app_assoc a b c : (a +:+ b) +:+ c = a +:+ (b +:+ c).
Proof. induction a as [|x a IH]; simpl; [done|]. by rewrite IH. Qed.

Lemma str_app_nil_r a : a +:+ "" = a.
Proof. induction a as [|x a IH]; simpl; [done|]. by rewrite IH. Qed.

Lemma str_app_inj_l p a b : p +:+ a = p +:+ b → a = b.
Proof. induction p; simpl; [done|]. intros [=]. auto. Qed.

Lemma str_app_inj_len a b p q :
  String.length a = String.length b → a +:+ p = b +:+ q → a = b ∧ p = q.
Proof.
  revert b; induction a as [|x a IH]; intros [|y b]; try done. simpl.
  intros [= Hl] [= -> H]. apply IH in H as [-> ->]; auto.
Qed.

(** ** Lists *)

Lemma omap_fmap_list {A B C} (f : B → option C) (g : A → B) (l : list A) :
  omap f (g <$> l) = omap (λ x, f (g x)) l.
Proof.
  induction l as [|x l IH]; [done|]. cbn [omap list_omap fmap list_fmap].
  destruct (f (g x)); [f_equal|]; apply IH.
Qed.

Lemma fmap_concat_list {A B} (f : A → B) (l : list (list A)) :
  fmap (M:=list) f (concat l) = concat (fmap (M:=list) (fmap (M:=list) f) l).
Proof. induction l as [|x l IH]; [done|]. simpl. by rewrite fmap_app, IH. Qed.

Lemma fold_left_ext_in {A B} (f g : A → B → A) (l : list B) (a : A) :
  (∀ a b, b ∈ l → f a b = g a b) → fold_left f l a = fold_left g l a.
Proof.
  revert a; induction l as [|b l IH]; intros a H; simpl; [done|].
  rewrite H by left. apply IH. intros. apply H. by right.
Qed.

Lemma fmap_alter_same {A B} (f : A → B) (g : A → A) (i : nat) (l : list A) :
  (∀ x, f (g x) = f x) → f <$> alter g i l = f <$> l.
Proof.
  intros H. apply list_eq. intros j. rewrite !list_lookup_fmap.
  destruct (decide (j = i)) as [->|Hne].
  - rewrite list_lookup_alter_eq. destruct (l !! i); simpl; [by rewrite H|done].
  - by rewrite list_lookup_alter_ne.
Qed.

Lemma length_omap_le {A B} (f : A → option B) (l : list A) :
  (length (omap f l) ≤ length l)%nat.
Proof.
  induction l as [|x l IH]; [done|]. cbn [omap list_omap].
  destruct (f x); cbn [length]; [by apply le_n_S|by apply le_S].
Qed.

Lemma list_filter_all {A} (P : A → Prop) `{∀ x, Decision (P x)} (l : list A) :
  (∀ x, x ∈ l → P x) → filter P l = l.
Proof.
  induction l as [|x l IH]; intros H'; [done|].
  rewrite filter_cons_True by (apply H'; left). f_equal. apply IH. intros. apply H'. by right.
Qed.

Lemma list_filter_none {A} (P : A → Prop) `{∀ x, Decision (P x)} (l : list A) :
  (∀ x, x ∈ l → ¬ P x) → filter P l = [].
Proof.
  induction l as [|x l IH]; intros H'; [done|].
  rewrite filter_cons_False by (apply H'; left). apply IH. intros. apply H'. by right.
Qed.

Lemma NoDup_fmap_filter {A B} (f : A → B) (P : A → Prop) `{∀ x, Decision (P x)} (l : list A) :
  NoDup (f <$> l) → NoDup (f <$> filter P l).
Proof.
  induction l as [|x l IH]; [done|]. rewrite fmap_cons. intros [Hx Hl]%NoDup_cons.
  rewrite filter_cons. case_decide; [|by apply IH]. rewrite fmap_cons. constructor; [|by apply IH].
  intros Hin. apply Hx. apply list_elem_of_fmap in Hin as (y & -> & Hy).
  apply list_elem_of_filter in Hy as [_ Hy]. by apply list_elem_of_fmap_2.
Qed.

(** [Vec::insert] at an index within the list. *)
Definition insert_at {A} (i : nat) (x : A) (l : list A) : list A := take i l ++ x :: drop i l.

Lemma insert_at_perm {A} i (x : A) l : insert_at i x l ≡ₚ x :: l.
Proof. unfold insert_at. rewrite <- Permutation_middle. by rewrite take_drop. Qed.

Lemma fmap_insert_at {A B} (f : A → B) i (x : A) l :
  f <$> insert_at i x l = insert_at i (f x) (f <$> l).
Proof. unfold insert_at. by rewrite fmap_app, fmap_take, fmap_cons, fmap_drop. Qed.

Lemma fmap_delete_list {A B} (f : A → B) i (l : list A) :
  f <$> delete i l = delete i (f <$> l).
Proof. revert i. induction l as [|x l IH]; intros [|i]; [done..|]. cbn. f_equal. apply IH. Qed.

(** ** Stable sorting

    [slice::sort_by] with the order [le] (not strictly greater). *)

Fixpoint insert_by {A} (le : A → A → bool) (x : A) (l : list A) : list A :=
  match l with
  | [] => [x]
  | y :: l' => if le x y then x :: l else y :: insert_by le x l'
  end.

Definition sort_by {A} (le : A → A → bool) (l : list A) : list A :=
  foldr (insert_by le) [] l.

Section SortBy.
Context {A : Type} (le : A → A → bool).
Hypothesis (le_total : ∀ x y, le x y = true ∨ le y x = true).
Hypothesis (le_trans : ∀ x y z, le x y = true → le y z = true → le x z = true).

Lemma insert_by_perm x l : insert_by le x l ≡ₚ x :: l.
Proof using.
  induction l as [|y l IH]; simpl; [done|]. destruct (le x y); [done|].
  rewrite IH. apply Permutation_swap.
Qed.

Lemma sort_by_perm l : sort_by le l ≡ₚ l.
Proof using. induction l as [|x l IH]; simpl; [done|]. by rewrite insert_by_perm, IH. Qed.

Lemma sort_by_elem l x : x ∈ sort_by le l ↔ x ∈ l.
Proof using. by rewrite sort_by_perm. Qed.

Lemma insert_by_sorted x l :
  StronglySorted (λ a b, le a b = true) l → StronglySorted (λ a b, le a b = true) (insert_by le x l).
Proof.
  induction 1 as [|y l Hl IH Hy]; simpl; [repeat constructor|].
  destruct (le x y) eqn:E.
  - constructor; [by constructor|]. constructor; [done|].
    eapply Forall_impl; [exact Hy|]. intros z. by apply le_trans.
  - constructor; [done|]. rewrite insert_by_perm. constructor; [|done].
    destruct (le_total x y); congruence.
Qed.

Lemma sort_by_sorted l : StronglySorted (λ a b, le a b = true) (sort_by le l).
Proof. induction l as [|x l IH]; simpl; [constructor|]. by apply insert_by_sorted. Qed.

(** An antisymmetric order leaves one sorted arrangement. *)
Lemma sort_by_unique l1 l2 :
  (∀ x y, x ∈ l1 → y ∈ l1 → le x y = true → le y x = true → x = y) →
  l1 ≡ₚ l2 → sort_by le l1 = sort_by le l2.
Proof.
  intros Hanti Hp.
  apply (StronglySorted_unique_strong (λ a b, le a b = true)).
  - intros x y Hx Hy. rewrite sort_by_elem in Hx, Hy. apply Hanti; [done|]. by rewrite Hp.
  - apply sort_by_sorted.
  - apply sort_by_sorted.
  - by rewrite !sort_by_perm.
Qed.
End SortBy.
