(* ===== verification/Text.v ===== *)
(** * Text: the string operations of Rust's standard library the crates use

    Decimal formatting ([format!] with [{}] and [{:0w}]), integer parsing,
    splitting at a character and Unicode whitespace trimming, on the byte
    strings of [Prelude]. *)

From S2P Require Import Prelude.

(** ** Decimal formatting *)

Definition digit_char (d : Z) : ascii := ascii_of_N (Z.to_N (48 + d)).

Fixpoint fixed_digits (w : nat) (n : Z) : string :=
  match w with
  | O => ""
  | S w' => fixed_digits w' (n / 10) +:+ String (digit_char (n mod 10)) ""
  end.

Fixpoint ndigits_fuel (fuel : nat) (n : Z) : nat :=
  match fuel with
  | O => 1%nat
  | S f => if n <? 10 then 1%nat else S (ndigits_fuel f (n / 10))
  end.

(** A number has at most [log2 n + 1] decimal digits. *)
Definition ndigits (n : Z) : nat := ndigits_fuel (Z.to_nat (Z.log2 n)) n.

(** [format!("{n:0w}")]: the sign counts in the width. *)
Definition format_pad (w : nat) (n : Z) : string :=
  if n <? 0 then "-" +:+ fixed_digits (Nat.max (w - 1) (ndigits (- n))) (- n)
  else fixed_digits (Nat.max w (ndigits n)) n.

(** [n.to_string()] *)
Definition show_Z (n : Z) : string := format_pad 0 n.

Lemma fixed_digits_length w n : String.length (fixed_digits w n) = w.
Proof.
  revert n; induction w as [|w IH]; intros n; simpl; [done|].
  rewrite str_length_app, IH. simpl. lia.
Qed.

Lemma digit_char_ltb a b :
  0 ≤ a < 10 → 0 ≤ b < 10 → ascii_ltb (digit_char a) (digit_char b) = (a <? b).
Proof.
  intros Ha Hb. unfold ascii_ltb, digit_char. rewrite !N_ascii_embedding by lia.
  destruct (Z.ltb_spec a b); [apply N.ltb_lt | apply N.ltb_ge]; lia.
Qed.

Lemma pow10_S w : 10 ^ Z.of_nat (S w) = 10 * 10 ^ Z.of_nat w.
Proof. rewrite Nat2Z.inj_succ, Z.pow_succ_r by lia. done. Qed.

Lemma fixed_digits_lt w m n :
  0 ≤ m < n → n < 10 ^ Z.of_nat w → str_ltb (fixed_digits w m) (fixed_digits w n) = true.
Proof.
  revert m n; induction w as [|w IH]; intros m n Hmn Hn; [simpl in Hn; lia|].
  rewrite pow10_S in Hn. simpl.
  pose proof (Z.div_mod m 10 ltac:(lia)). pose proof (Z.div_mod n 10 ltac:(lia)).
  pose proof (Z.mod_pos_bound m 10 ltac:(lia)). pose proof (Z.mod_pos_bound n 10 ltac:(lia)).
  destruct (Z.eq_dec (m / 10) (n / 10)) as [E|E].
  - rewrite E, str_ltb_app_same. simpl.
    rewrite !digit_char_ltb by lia. destruct (Z.ltb_spec (m mod 10) (n mod 10)); [done|lia].
  - apply str_ltb_app_lt; [by rewrite !fixed_digits_length|]. apply IH; lia.
Qed.

Lemma fixed_digits_inj w m n :
  0 ≤ m < 10 ^ Z.of_nat w → 0 ≤ n < 10 ^ Z.of_nat w →
  fixed_digits w m = fixed_digits w n → m = n.
Proof.
  intros Hm Hn E. destruct (Z.lt_trichotomy m n) as [L|[?|L]]; [|done|].
  - pose proof (fixed_digits_lt w m n ltac:(lia) ltac:(lia)) as C.
    by rewrite E, str_ltb_irrefl in C.
  - pose proof (fixed_digits_lt w n m ltac:(lia) ltac:(lia)) as C.
    by rewrite E, str_ltb_irrefl in C.
Qed.

Lemma ndigits_fuel_le fuel w n :
  0 ≤ n < 10 ^ Z.of_nat w → (0 < w)%nat → (ndigits_fuel fuel n ≤ w)%nat.
Proof.
  revert w n; induction fuel as [|f IH]; intros w n Hn Hw; simpl; [lia|].
  destruct (Z.ltb_spec n 10); [lia|].
  destruct w as [|[|w]]; [lia|simpl in Hn; lia|].
  apply le_n_S, IH; [|lia]. rewrite pow10_S in Hn.
  split; [apply Z.div_pos; lia|]. apply Z.div_lt_upper_bound; lia.
Qed.

(** A number that fits the width is printed in exactly that width. *)
Lemma format_pad_fits w n :
  0 ≤ n < 10 ^ Z.of_nat w → (0 < w)%nat → format_pad w n = fixed_digits w n.
Proof.
  intros Hn Hw. unfold format_pad. destruct (Z.ltb_spec n 0); [lia|].
  f_equal. apply Nat.max_l. by apply ndigits_fuel_le.
Qed.

(** ** Integer parsing *)

Definition digit_val (c : ascii) : option Z :=
  let v := Z.of_N (N_of_ascii c) - 48 in
  if (0 <=? v) && (v <=? 9) then Some v else None.

Fixpoint parse_digits_go (acc : Z) (s : string) : option Z :=
  match s with
  | EmptyString => Some acc
  | String c r => d ← digit_val c; parse_digits_go (acc * 10 + d) r
  end.

Definition parse_digits (s : string) : option Z :=
  match s with
  | EmptyString => None
  | _ => parse_digits_go 0 s
  end.

(** [s.parse::<i64>()]: an optional sign, then at least one digit, in range. *)
Definition parse_i64 (s : string) : option Z :=
  let n := match s with
           | String c r =>
               if (c =? "+")%char then parse_digits r
               else if (c =? "-")%char then Z.opp <$> parse_digits r
               else parse_digits s
           | EmptyString => None
           end in
  v ← n; if (- 2 ^ 63 <=? v) && (v <? 2 ^ 63) then Some v else None.

(** [s.parse::<u32>()]: an optional [+], no [-]. *)
Definition parse_u32 (s : string) : option Z :=
  let n := match s with
           | String c r => if (c =? "+")%char then parse_digits r else parse_digits s
           | EmptyString => None
           end in
  v ← n; if v <? 2 ^ 32 then Some v else None.

Lemma digit_val_char d : 0 ≤ d < 10 → digit_val (digit_char d) = Some d.
Proof.
  intros H. unfold digit_val, digit_char. rewrite N_ascii_embedding by lia.
  rewrite Z2N.id by lia. replace (48 + d - 48) with d by lia.
  destruct (Z.leb_spec 0 d), (Z.leb_spec d 9); try lia. done.
Qed.

Lemma parse_digits_go_app acc a b :
  parse_digits_go acc (a +:+ b) = parse_digits_go acc a ≫= λ acc', parse_digits_go acc' b.
Proof.
  revert acc; induction a as [|c a IH]; intros acc; simpl; [done|].
  destruct (digit_val c); simpl; [|done]. apply IH.
Qed.

Lemma parse_digits_go_fixed acc w n :
  0 ≤ n < 10 ^ Z.of_nat w →
  parse_digits_go acc (fixed_digits w n) = Some (acc * 10 ^ Z.of_nat w + n).
Proof.
  revert acc n; induction w as [|w IH]; intros acc n Hn.
  - change (0 ≤ n < 1) in Hn. simpl. f_equal. lia.
  - rewrite pow10_S in *. simpl.
    pose proof (Z.div_mod n 10 ltac:(lia)). pose proof (Z.mod_pos_bound n 10 ltac:(lia)).
    rewrite parse_digits_go_app, IH by lia. simpl.
    rewrite digit_val_char by lia. simpl. f_equal. lia.
Qed.

Lemma parse_digits_fixed w n :
  (0 < w)%nat → 0 ≤ n < 10 ^ Z.of_nat w → parse_digits (fixed_digits w n) = Some n.
Proof.
  intros Hw Hn. unfold parse_digits. pose proof (fixed_digits_length w n) as Hl.
  destruct (fixed_digits w n) as [|c r] eqn:E; [simpl in Hl; lia|].
  rewrite <- E, parse_digits_go_fixed by done. f_equal; lia.
Qed.

(** The first byte of a printed natural number is a digit, so it is no sign. *)
Lemma fixed_digits_head w n c r :
  fixed_digits w n = String c r → digit_val c <> None.
Proof.
  revert n c r; induction w as [|w IH]; intros n c r; simpl; [done|].
  destruct (fixed_digits w (n / 10)) as [|c' r'] eqn:E; simpl.
  - intros [= <- <-]. rewrite digit_val_char; [done|]. apply Z.mod_pos_bound. lia.
  - intros [= <- <-]. eapply IH, E.
Qed.

Lemma parse_i64_fixed w n :
  (0 < w)%nat → 0 ≤ n < 10 ^ Z.of_nat w → n < 2 ^ 63 →
  parse_i64 (fixed_digits w n) = Some n.
Proof.
  intros Hw Hn Hr. unfold parse_i64. pose proof (parse_digits_fixed w n Hw Hn) as Hp.
  destruct (fixed_digits w n) as [|c r] eqn:E; [done|].
  pose proof (fixed_digits_head _ _ _ _ E) as Hc.
  destruct (Ascii.eqb_spec c "+") as [->|_]; [done|].
  destruct (Ascii.eqb_spec c "-") as [->|_]; [done|].
  rewrite Hp. simpl.
  destruct (Z.leb_spec (- 2 ^ 63) n), (Z.ltb_spec n (2 ^ 63)); simpl; try lia. done.
Qed.

Lemma parse_u32_fixed w n :
  (0 < w)%nat → 0 ≤ n < 10 ^ Z.of_nat w → n < 2 ^ 32 →
  parse_u32 (fixed_digits w n) = Some n.
Proof.
  intros Hw Hn Hr. unfold parse_u32. pose proof (parse_digits_fixed w n Hw Hn) as Hp.
  destruct (fixed_digits w n) as [|c r] eqn:E; [done|].
  pose proof (fixed_digits_head _ _ _ _ E) as Hc.
  destruct (Ascii.eqb_spec c "+") as [->|_]; [done|].
  rewrite Hp. simpl. destruct (Z.ltb_spec n (2 ^ 32)); [done|lia].
Qed.

(** ** Splitting *)

(** [s.split_once(c)] *)
Fixpoint split_once (c : ascii) (s : string) : option (string * string) :=
  match s with
  | EmptyString => None
  | String x r =>
      if (x =? c)%char then Some ("", r)
      else '(a, b) ← split_once c r; Some (String x a, b)
  end.

Definition no_char (c : ascii) (s : string) : Prop := split_once c s = None.

Lemma split_once_app c a b :
  no_char c a → split_once c (a +:+ String c "" +:+ b) = Some (a, b).
Proof.
  unfold no_char. induction a as [|x a IH]; simpl.
  - by rewrite Ascii.eqb_refl.
  - destruct (x =? c)%char; [done|]. destruct (split_once c a) as [[??]|]; [done|].
    intros _. simpl in IH. by rewrite IH.
Qed.

Lemma split_once_app_None c a b : no_char c a → no_char c b → no_char c (a +:+ b).
Proof.
  unfold no_char. induction a as [|x a IH]; simpl; [done|].
  destruct (x =? c)%char; [done|]. destruct (split_once c a) as [[??]|]; [done|].
  intros _ Hb. by rewrite IH.
Qed.

Lemma fixed_digits_no_dash w n : no_char "-" (fixed_digits w n).
Proof.
  revert n; induction w as [|w IH]; intros n; simpl; [done|].
  apply split_once_app_None; [apply IH|]. unfold no_char; simpl.
  destruct (Ascii.eqb_spec (digit_char (n mod 10)) "-") as [E|_]; [|done].
  pose proof (digit_val_char (n mod 10) (Z.mod_pos_bound n 10 ltac:(lia))) as C.
  rewrite E in C. done.
Qed.

#[global] Arguments fixed_digits : simpl never.
#[global] Arguments format_pad : simpl never.
#[global] Arguments show_Z : simpl never.

(** ** Whitespace

    [str::trim] removes the characters of Unicode's White_Space property at both
    ends.  Their UTF-8 encodings have one, two or three bytes. *)

Definition code (c : ascii) : N := N_of_ascii c.

Definition ws1 (a : ascii) : bool := ((9 <=? code a) && (code a <=? 13) || (code a =? 32))%N.
Definition ws2 (a b : ascii) : bool := ((code a =? 194) && ((code b =? 133) || (code b =? 160)))%N.
Definition ws3 (a b c : ascii) : bool :=
  ((code a =? 225) && (code b =? 154) && (code c =? 128)
   || (code a =? 226) && (code b =? 128)
      && ((128 <=? code c) && (code c <=? 138) || (code c =? 168) || (code c =? 169) || (code c =? 175))
   || (code a =? 226) && (code b =? 129) && (code c =? 159)
   || (code a =? 227) && (code b =? 128) && (code c =? 128))%N.

Fixpoint trim_start (s : string) : string :=
  match s with
  | EmptyString => s
  | String a s1 =>
      if ws1 a then trim_start s1 else
      match s1 with
      | EmptyString => s
      | String b s2 =>
          if ws2 a b then trim_start s2 else
          match s2 with
          | EmptyString => s
          | String c s3 => if ws3 a b c then trim_start s3 else s
          end
      end
  end.

Definition is_blank (s : string) : bool := bool_decide (trim_start s = "").

(** The suffix that is all whitespace goes. *)
Fixpoint trim_end (s : string) : string :=
  if is_blank s then "" else
  match s with
  | EmptyString => ""
  | String a s => String a (trim_end s)
  end.

Definition trim (s : string) : string := trim_end (trim_start s).

Lemma trim_end_empty s : trim_end s = "" ↔ is_blank s = true.
Proof.
  destruct s as [|a s]; [done|]. cbn [trim_end]. destruct (is_blank (String a s)); split; done.
Qed.

(** [s.trim().is_empty()] *)
Lemma trim_empty s : trim s = "" ↔ is_blank s = true.
Proof.
  unfold trim. rewrite trim_end_empty. unfold is_blank.
  rewrite !bool_decide_eq_true. remember (trim_start s) as t eqn:E.
  assert (trim_start t = t) as ->; [|done]. subst t.
  assert (∀ n s, (String.length s ≤ n)%nat → trim_start (trim_start s) = trim_start s) as H;
    [|by eapply H].
  clear s. induction n as [|n IH]; intros s Hl.
  - destruct s; [done|simpl in Hl; lia].
  - destruct s as [|a [|b [|c s]]]; [done|..]; cbn [String.length] in Hl.
    + simpl. destruct (ws1 a) eqn:E; simpl; [done|by rewrite E].
    + cbn [trim_start]. destruct (ws1 a) eqn:E.
      { apply (IH (String b "")). simpl. lia. }
      destruct (ws2 a b) eqn:E2; [done|]. cbn [trim_start]. by rewrite E, E2.
    + change (trim_start (String a (String b (String c s)))) with
        (if ws1 a then trim_start (String b (String c s)) else if ws2 a b then trim_start (String c s)
         else if ws3 a b c then trim_start s else String a (String b (String c s))).
      destruct (ws1 a) eqn:E; [apply IH; simpl; lia|].
      destruct (ws2 a b) eqn:E2; [apply IH; simpl; lia|].
      destruct (ws3 a b c) eqn:E3; [apply IH; lia|].
      cbn [trim_start]. by rewrite E, E2, E3.
Qed.

(** A string that starts with whitespace. *)
Definition starts_ws (s : string) : bool :=
  match s with
  | String a r =>
      ws1 a || match r with
               | String b r => ws2 a b || match r with String c _ => ws3 a b c | EmptyString => false end
               | EmptyString => false
               end
  | EmptyString => false
  end.

Lemma trim_start_length s : (String.length (trim_start s) ≤ String.length s)%nat.
Proof.
  assert (∀ n s, (String.length s ≤ n)%nat → (String.length (trim_start s) ≤ String.length s)%nat) as H; [|by eapply H].
  clear s. induction n as [|n IH]; intros [|a s] Hl; cbn [String.length] in Hl; try (cbn; lia).
  cbn [trim_start String.length]. destruct (ws1 a); [specialize (IH s); lia|].
  destruct s as [|b s]; [cbn; lia|]. cbn [String.length] in *.
  destruct (ws2 a b); [specialize (IH s); lia|].
  destruct s as [|c s]; [cbn; lia|]. cbn [String.length] in *.
  destruct (ws3 a b c); [specialize (IH s); lia|cbn; lia].
Qed.

Lemma trim_start_fix s : trim_start s = s ↔ starts_ws s = false.
Proof.
  split.
  - intros H. destruct (starts_ws s) eqn:E; [|done]. exfalso.
    destruct s as [|a s]; [done|]. cbn [starts_ws] in E. cbn [trim_start] in H.
    destruct (ws1 a).
    + pose proof (trim_start_length s) as Hl. rewrite H in Hl. cbn in Hl. lia.
    + destruct s as [|b s]; [done|]. cbn [orb] in E. destruct (ws2 a b).
      * pose proof (trim_start_length s) as Hl. rewrite H in Hl. cbn in Hl. lia.
      * destruct s as [|c s]; [done|]. cbn [orb] in E. rewrite E in H.
        pose proof (trim_start_length s) as Hl. rewrite H in Hl. cbn in Hl. lia.
  - destruct s as [|a s]; [done|]. cbn [starts_ws trim_start]. destruct (ws1 a); [done|].
    destruct s as [|b s]; [done|]. cbn [orb]. destruct (ws2 a b); [done|].
    destruct s as [|c s]; [done|]. cbn [orb]. by intros ->.
Qed.

Lemma trim_start_not_ws s : starts_ws (trim_start s) = false.
Proof.
  assert (∀ n s, (String.length s ≤ n)%nat → starts_ws (trim_start s) = false) as H; [|by eapply H].
  clear s. induction n as [|n IH]; intros [|a s] Hl; cbn [String.length] in *; try done; [lia|].
  cbn [trim_start]. destruct (ws1 a) eqn:E1; [apply IH; lia|].
  destruct s as [|b s]; [cbn; by rewrite E1|]. cbn [String.length] in Hl.
  destruct (ws2 a b) eqn:E2; [apply IH; lia|].
  destruct s as [|c s]; [cbn; by rewrite E1, E2|]. cbn [String.length] in Hl.
  destruct (ws3 a b c) eqn:E3; [apply IH; lia|]. cbn. by rewrite E1, E2, E3.
Qed.

(** Blank before blank is blank. *)
Lemma trim_start_blank_app p w : trim_start p = "" → trim_start (p +:+ w) = trim_start w.
Proof.
  assert (∀ n p, (String.length p ≤ n)%nat → trim_start p = "" → trim_start (p +:+ w) = trim_start w) as H; [|by eapply H].
  clear p. induction n as [|n IH]; intros [|a p] Hl; cbn [String.length] in *; try done; [lia|].
  intros H. cbn [String.append trim_start] in *. destruct (ws1 a); [apply IH; [lia|done]|].
  destruct p as [|b p]; [done|]. cbn [String.length String.append] in *.
  destruct (ws2 a b); [apply IH; [lia|done]|].
  destruct p as [|c p]; [done|]. cbn [String.length String.append] in *.
  destruct (ws3 a b c); [apply IH; [lia|done]|done].
Qed.

Lemma trim_end_split s : ∃ w, s = trim_end s +:+ w ∧ is_blank w = true.
Proof.
  induction s as [|a s (w & Hs & Hw)]; [by exists ""|]. cbn [trim_end].
  destruct (is_blank (String a s)) eqn:E; [by exists (String a s)|].
  exists w. split; [|done]. cbn. by rewrite <- Hs.
Qed.

Lemma trim_end_idem s : trim_end (trim_end s) = trim_end s.
Proof.
  induction s as [|a s IH]; [done|]. cbn [trim_end].
  destruct (is_blank (String a s)) eqn:E; [done|]. cbn [trim_end].
  destruct (is_blank (String a (trim_end s))) eqn:E2; [|by rewrite IH]. exfalso.
  destruct (trim_end_split s) as (w & Hs & Hw). unfold is_blank in *.
  rewrite bool_decide_eq_true in Hw, E2. rewrite bool_decide_eq_false in E. apply E.
  rewrite Hs. change (String a (trim_end s +:+ w)) with (String a (trim_end s) +:+ w).
  by rewrite trim_start_blank_app.
Qed.

Lemma starts_ws_app p w : starts_ws p = true → starts_ws (p +:+ w) = true.
Proof.
  destruct p as [|a [|b [|c p]]]; cbn; try done.
  - rewrite orb_false_r. by intros ->.
  - rewrite orb_false_r. destruct (ws1 a); [done|]. cbn. by intros ->.
Qed.

Lemma trim_idem s : trim (trim s) = trim s.
Proof.
  unfold trim. set (t := trim_start s).
  assert (trim_start (trim_end t) = trim_end t) as ->; [|apply trim_end_idem].
  apply trim_start_fix. destruct (starts_ws (trim_end t)) eqn:E; [|done].
  destruct (trim_end_split t) as (w & Ht & _). apply (starts_ws_app _ w) in E. rewrite <- Ht in E.
  unfold t in E. by rewrite trim_start_not_ws in E.
Qed.
