(* ===== verification/Hlc.v ===== *)
(** * Hlc: the hybrid logical clocks of the workspace registry

    Models the clock section of crates/doc/src/registry.rs: the string
    encoding of a clock, the strict comparison, the monotonic source, and the
    observation of a foreign clock that the sidebar writers do before a
    causally later write (registry/sidebar_sections.rs). *)

From S2P Require Import Prelude Text.

(** ** Encoding and comparison *)

(** [encode_hlc]: [{ms:013}-{counter:06}-{device}]. *)
Definition encode_hlc (ms counter : Z) (device : string) : string :=
  format_pad 13 ms +:+ "-" +:+ format_pad 6 counter +:+ "-" +:+ device.

(** [a] strictly newer than [b]; [None] was never written. *)
Definition hlc_newer (a : string) (b : option string) : bool :=
  match b with
  | None => true
  | Some b => str_ltb b a
  end.

(** ** The monotonic source *)

Record HlcClock := mkHlcClock { last_ms : Z; counter : Z }.

Definition HlcClock_default : HlcClock := mkHlcClock 0 0.

(** [HlcClock::next]: the emitted clock and the advanced source. *)
Definition HlcClock_next (c : HlcClock) (now_ms : Z) (device : string) : string * HlcClock :=
  let c' :=
    if last_ms c <? now_ms then mkHlcClock now_ms 0
    else
      let n := wrap_u32 (counter c + 1) in
      if 999999 <? n then mkHlcClock (wrap_i64 (last_ms c + 1)) 0
      else mkHlcClock (last_ms c) n in
  (encode_hlc (last_ms c') (counter c') device, c').

#[global] Arguments HlcClock_next : simpl never.

(** The clock string split as [splitn(3, '-')] and parsed. *)
Definition parse_hlc (clock : string) : option (Z * Z) :=
  let '(p1, rest) := match split_once "-" clock with
                     | Some (a, b) => (a, Some b)
                     | None => (clock, None)
                     end in
  rest ← rest;
  let p2 := match split_once "-" rest with Some (a, _) => a | None => rest end in
  ms ← parse_i64 p1;
  counter ← parse_u32 p2;
  Some (ms, counter).

(** Adopt the greater of the two (ms, counter) pairs. *)
Definition observe_clock (c : HlcClock) (clock : string) : HlcClock :=
  match parse_hlc clock with
  | Some (ms, n) =>
      if (last_ms c <? ms) || ((last_ms c =? ms) && (counter c <? n))
      then mkHlcClock ms n else c
  | None => c
  end.

(** ** The order of clocks *)

(** The range in which the fixed-width encoding is exact. *)
Definition hlc_in_range (ms counter : Z) : Prop :=
  0 ≤ ms < 10 ^ 13 ∧ 0 ≤ counter < 10 ^ 6.

(** The lexicographic order on (ms, counter). *)
Definition stamp_lt (ms1 c1 ms2 c2 : Z) : Prop := ms1 < ms2 ∨ (ms1 = ms2 ∧ c1 < c2).

Lemma encode_hlc_fixed ms n device :
  hlc_in_range ms n →
  encode_hlc ms n device = fixed_digits 13 ms +:+ "-" +:+ fixed_digits 6 n +:+ "-" +:+ device.
Proof.
  intros [Hm Hn]. unfold encode_hlc. by rewrite !format_pad_fits by (simpl; lia).
Qed.

Lemma encode_hlc_lt ms1 c1 d1 ms2 c2 d2 :
  hlc_in_range ms1 c1 → hlc_in_range ms2 c2 → stamp_lt ms1 c1 ms2 c2 →
  encode_hlc ms1 c1 d1 <s encode_hlc ms2 c2 d2.
Proof.
  intros H1 H2 L. rewrite !encode_hlc_fixed by done. destruct H1, H2. unfold str_lt.
  destruct L as [L|[-> L]].
  - apply str_ltb_app_lt; [by rewrite !fixed_digits_length|].
    apply fixed_digits_lt; simpl; lia.
  - rewrite !str_ltb_app_same. apply str_ltb_app_lt; [by rewrite !fixed_digits_length|].
    apply fixed_digits_lt; simpl; lia.
Qed.

Lemma encode_hlc_device ms n d1 d2 :
  str_ltb (encode_hlc ms n d1) (encode_hlc ms n d2) = str_ltb d1 d2.
Proof. unfold encode_hlc. by rewrite !str_ltb_app_same. Qed.

Lemma stamp_lt_total ms1 c1 ms2 c2 :
  stamp_lt ms1 c1 ms2 c2 ∨ (ms1 = ms2 ∧ c1 = c2) ∨ stamp_lt ms2 c2 ms1 c1.
Proof. unfold stamp_lt. lia. Qed.

(** C27: lexicographic order of the strings is (ms, counter, device) order. *)
Theorem encode_hlc_order ms1 c1 d1 ms2 c2 d2 :
  hlc_in_range ms1 c1 → hlc_in_range ms2 c2 →
  encode_hlc ms1 c1 d1 <s encode_hlc ms2 c2 d2 ↔
    stamp_lt ms1 c1 ms2 c2 ∨ (ms1 = ms2 ∧ c1 = c2 ∧ d1 <s d2).
Proof.
  intros H1 H2. split.
  - intros L. destruct (stamp_lt_total ms1 c1 ms2 c2) as [?|[[-> ->]|C]]; [by left| |].
    + right. unfold str_lt in L. rewrite encode_hlc_device in L. done.
    + pose proof (encode_hlc_lt _ _ d2 _ _ d1 H2 H1 C) as C'.
      unfold str_lt in L, C'. apply str_ltb_asym in L. congruence.
  - intros [L|(-> & -> & L)]; [by apply encode_hlc_lt|].
    unfold str_lt. by rewrite encode_hlc_device.
Qed.

Lemma encode_hlc_inj ms1 c1 d1 ms2 c2 d2 :
  hlc_in_range ms1 c1 → hlc_in_range ms2 c2 →
  encode_hlc ms1 c1 d1 = encode_hlc ms2 c2 d2 → ms1 = ms2 ∧ c1 = c2 ∧ d1 = d2.
Proof.
  intros H1 H2. rewrite !encode_hlc_fixed by done. destruct H1, H2. intros E.
  apply str_app_inj_len in E as [E1 E]; [|by rewrite !fixed_digits_length].
  apply (str_app_inj_l "-") in E. apply str_app_inj_len in E as [E2 E]; [|by rewrite !fixed_digits_length].
  apply (str_app_inj_l "-") in E. apply fixed_digits_inj in E1; [|simpl; lia..].
  apply fixed_digits_inj in E2; [|simpl; lia..]. done.
Qed.

Lemma parse_encode_hlc ms n device :
  hlc_in_range ms n → parse_hlc (encode_hlc ms n device) = Some (ms, n).
Proof.
  intros H. unfold parse_hlc. rewrite encode_hlc_fixed by done. destruct H.
  pose proof (split_once_app _ _ device (fixed_digits_no_dash 6 n)) as E2. simpl in E2.
  rewrite split_once_app by apply fixed_digits_no_dash. simpl. rewrite E2.
  rewrite parse_i64_fixed by (simpl; lia). simpl.
  rewrite parse_u32_fixed by (simpl; lia). done.
Qed.

(** ** The source is monotonic *)

(** The state invariant of a source that never observed a malformed clock. *)
Definition clock_wf (c : HlcClock) : Prop := 0 ≤ last_ms c ∧ 0 ≤ counter c ≤ 999999.

Lemma HlcClock_next_wf c now device :
  clock_wf c → last_ms c < 2 ^ 63 - 1 → clock_wf (HlcClock_next c now device).2.
Proof.
  unfold clock_wf, HlcClock_next. intros [Hm Hc] Hb.
  destruct (Z.ltb_spec (last_ms c) now); simpl; [lia|].
  rewrite wrap_u32_small by (unfold is_u32; lia).
  destruct (Z.ltb_spec 999999 (counter c + 1)); simpl; [|lia].
  rewrite wrap_i64_small by (unfold is_i64; lia). lia.
Qed.

Lemma HlcClock_next_stamp c now device :
  clock_wf c → last_ms c < 2 ^ 63 - 1 →
  let c' := (HlcClock_next c now device).2 in
  stamp_lt (last_ms c) (counter c) (last_ms c') (counter c') ∧
  last_ms c' ≤ Z.max (last_ms c + 1) now.
Proof.
  unfold clock_wf, HlcClock_next, stamp_lt. intros [Hm Hc] Hb.
  destruct (Z.ltb_spec (last_ms c) now); simpl; [lia|].
  rewrite wrap_u32_small by (unfold is_u32; lia).
  destruct (Z.ltb_spec 999999 (counter c + 1)); simpl; [|lia].
  rewrite wrap_i64_small by (unfold is_i64; lia). lia.
Qed.

Lemma HlcClock_next_emits c now device :
  (HlcClock_next c now device).1 =
    encode_hlc (last_ms (HlcClock_next c now device).2)
               (counter (HlcClock_next c now device).2) device.
Proof. done. Qed.

(** The clocks a source emits for a sequence of wall readings. *)
Fixpoint hlc_run (c : HlcClock) (walls : list Z) (device : string) : list string :=
  match walls with
  | [] => []
  | now :: walls' =>
      let '(s, c') := HlcClock_next c now device in s :: hlc_run c' walls' device
  end.

Lemma hlc_run_cons c now walls device :
  hlc_run c (now :: walls) device =
    (HlcClock_next c now device).1 :: hlc_run (HlcClock_next c now device).2 walls device.
Proof. done. Qed.

Lemma hlc_run_above c walls device limit :
  clock_wf c → last_ms c + Z.of_nat (length walls) ≤ limit → limit < 10 ^ 13 →
  Forall (λ now, now + Z.of_nat (length walls) ≤ limit) walls →
  Forall (λ s, encode_hlc (last_ms c) (counter c) device <s s) (hlc_run c walls device) ∧
  StronglySorted str_lt (hlc_run c walls device).
Proof.
  revert c; induction walls as [|now walls IH]; intros c Hwf Hb Hl Hw.
  { split; constructor. }
  rewrite hlc_run_cons.
  inversion Hw as [|?? Hnow Hw']; subst. simpl in Hb, Hnow.
  pose proof (HlcClock_next_stamp c now device Hwf ltac:(lia)) as [Hst Hle].
  pose proof (HlcClock_next_wf c now device Hwf ltac:(lia)) as Hwf'.
  pose proof (HlcClock_next_emits c now device) as Hem.
  destruct (HlcClock_next c now device) as [s c'] eqn:E. cbn [fst snd] in *.
  subst s.
  destruct (IH c') as [Ha Hs]; [done|lia|done|eapply Forall_impl; [exact Hw'|simpl; lia]|].
  destruct Hwf, Hwf'.
  assert (encode_hlc (last_ms c) (counter c) device <s encode_hlc (last_ms c') (counter c') device)
    as Hlt by (apply encode_hlc_lt; [split; lia|split; lia|done]).
  split; constructor; [exact Hlt| |exact Hs|exact Ha].
  eapply Forall_impl; [exact Ha|]. simpl. intros x Hx. by etrans.
Qed.

(** The source never emits the same or an earlier clock, even when the wall
    clock regresses. *)
Theorem hlc_run_sorted c walls device limit
  (Hwf : clock_wf c) (Hc : last_ms c + Z.of_nat (length walls) ≤ limit)
  (Hl : limit < 10 ^ 13)
  (Hw : Forall (λ now, now + Z.of_nat (length walls) ≤ limit) walls) :
  StronglySorted str_lt (hlc_run c walls device).
Proof. eapply hlc_run_above; eauto. Qed.

(** ** Observation *)

Lemma observe_clock_wf c s :
  clock_wf c → (∀ ms n, parse_hlc s = Some (ms, n) → 0 ≤ ms ∧ 0 ≤ n ≤ 999999) →
  clock_wf (observe_clock c s).
Proof.
  unfold observe_clock, clock_wf. intros Hc Hs.
  destruct (parse_hlc s) as [[ms n]|] eqn:E; [|done].
  case_match; [|done]. simpl. by apply Hs.
Qed.

(** After observing a clock, the next emitted one is strictly newer than it. *)
Lemma observe_then_next c ms n device now device' :
  clock_wf c → hlc_in_range ms n → last_ms c + 1 < 10 ^ 13 → ms + 1 < 10 ^ 13 → now < 10 ^ 13 →
  encode_hlc ms n device <s
    (HlcClock_next (observe_clock c (encode_hlc ms n device)) now device').1.
Proof.
  intros Hwf Hr Hb Hms Hnow. set (c1 := observe_clock c _).
  assert (clock_wf c1 ∧ last_ms c1 + 1 < 10 ^ 13 ∧
          (stamp_lt ms n (last_ms c1) (counter c1) ∨ (ms = last_ms c1 ∧ n = counter c1)))
    as (Hwf1 & Hb1 & Hle).
  { unfold c1, observe_clock. rewrite parse_encode_hlc by done.
    destruct Hwf, Hr. unfold clock_wf, stamp_lt.
    destruct (Z.ltb_spec (last_ms c) ms), (Z.eqb_spec (last_ms c) ms),
      (Z.ltb_spec (counter c) n); simpl; lia. }
  pose proof (HlcClock_next_stamp c1 now device' Hwf1 ltac:(lia)) as [Hst Hm].
  pose proof (HlcClock_next_wf c1 now device' Hwf1 ltac:(lia)) as Hwf'.
  rewrite HlcClock_next_emits. destruct Hwf'.
  apply encode_hlc_lt; [done|split; lia|]. unfold stamp_lt in *. lia.
Qed.

(** ** Witnesses *)

Lemma encode_hlc_order_witness :
  encode_hlc 1700000000000 7 "b" <s encode_hlc 1700000000001 0 "a".
Proof.
  apply (encode_hlc_order 1700000000000 7 "b" 1700000000001 0 "a");
    [split; lia|split; lia|]. left. left. lia.
Defined.

Lemma hlc_run_sorted_witness :
  StronglySorted str_lt (hlc_run (mkHlcClock 1000 999999) [900; 1001; 500] "dev").
Proof.
  apply (hlc_run_sorted _ _ _ 2000); [split; simpl; lia|simpl; lia|lia|].
  repeat constructor; simpl; lia.
Defined.

Lemma observe_then_next_witness :
  encode_hlc 5000 3 "peer" <s
    (HlcClock_next (observe_clock (mkHlcClock 1000 0) (encode_hlc 5000 3 "peer")) 1001 "me").1.
Proof. apply observe_then_next; [split; simpl; lia|split; lia|simpl; lia|lia|lia]. Defined.
