(* ===== verification/Json.v ===== *)
(** * Json: the dynamic values the registry stores

    [Value] mirrors the public constructors of serde_json's [Value]; numbers
    are the integers the registry writes (timestamps, generations).  The
    accessors are the ones the crate calls. *)

From S2P Require Import Prelude.

#[warning="-register-all"]
Inductive Value : Type :=
  | Null
  | Bool (b : bool)
  | Number (n : Z)
  | Str (s : string)
  | Array (l : list Value)
  | Object (m : list (string * Value)).

#[export] Instance Value_eq_dec : EqDecision Value.
Proof.
  refine (fix go (v w : Value) {struct v} : Decision (v = w) :=
    let _ : EqDecision Value := @go in
    match v, w with
    | Null, Null => left _
    | Bool a, Bool b => cast_if (decide (a = b))
    | Number a, Number b => cast_if (decide (a = b))
    | Str a, Str b => cast_if (decide (a = b))
    | Array a, Array b => cast_if (decide (a = b))
    | Object a, Object b => cast_if (decide (a = b))
    | _, _ => right _
    end); clear r go; abstract congruence.
Defined.

Definition is_null (v : Value) : bool := match v with Null => true | _ => false end.
Definition as_str (v : Value) : option string := match v with Str s => Some s | _ => None end.
Definition as_bool (v : Value) : option bool := match v with Bool b => Some b | _ => None end.

(** [Value::as_i64]: only numbers in the range of an [i64]. *)
Definition as_i64 (v : Value) : option Z :=
  match v with
  | Number n => if (- 2 ^ 63 <=? n) && (n <? 2 ^ 63) then Some n else None
  | _ => None
  end.

Lemma as_i64_number n : is_i64 n → as_i64 (Number n) = Some n.
Proof.
  unfold is_i64, as_i64. intros H.
  destruct (Z.leb_spec (- 2 ^ 63) n), (Z.ltb_spec n (2 ^ 63)); simpl; try lia. done.
Qed.
