(* ===== verification/RegistryRow.v ===== *)
(** * RegistryRow: rows, ops and the merge function of the workspace registry

    Models the "rows and ops" section of crates/doc/src/registry.rs: a row is a
    last-writer-wins map with a clock per field and a tombstone clock; an op is
    a clocked upsert, update or delete; [apply_op] merges one op into a row and
    [coalesce_ops] folds two ops into one.  The size of an op's JSON is a
    parameter (serde_json's serializer). *)

From S2P Require Import Prelude Text Hlc Json.

(** ** Data *)

Record RegistryRow := mkRow {
  row_kind : string;
  row_id : string;
  row_seq : Z;
  row_deleted : bool;
  row_del_hlc : option string;
  row_fields : gmap string Value;
  row_clocks : gmap string string
}.

Definition tombstone (kind id hlc : string) : RegistryRow :=
  mkRow kind id 0 true (Some hlc) ∅ ∅.

(** The newest clock anywhere on the row. *)
Definition max_clock (row : RegistryRow) : option string :=
  map_fold (λ _ clock max,
      match max with
      | None => Some clock
      | Some m => if str_ltb m clock then Some clock else Some m
      end) (row_del_hlc row) (row_clocks row).

Inductive OpKind := Upsert | Update | Delete.

#[export] Instance OpKind_eq_dec : EqDecision OpKind.
Proof. solve_decision. Defined.

Record RowOp := mkOp {
  op_kind : string;
  op_id : string;
  op_op : OpKind;
  op_set : option (gmap string Value);
  op_hlc : string;
  op_clocks : option (gmap string string)
}.

#[export] Instance RowOp_eq_dec : EqDecision RowOp.
Proof. solve_decision. Defined.

(** [RowOp::clock_for] *)
Definition clock_for (op : RowOp) (field : string) : string :=
  default (op_hlc op) (op_clocks op ≫= λ c, c !! field).

(** [op.set.iter().flatten()] *)
Definition op_writes (op : RowOp) : gmap string Value := default ∅ (op_set op).

(** ** apply_op *)

(** One iteration of the field loop. *)
Definition write_field (op : RowOp) (key : string) (value : Value)
    (acc : RegistryRow * bool) : RegistryRow * bool :=
  let '(base, changed) := acc in
  let clock := clock_for op key in
  if hlc_newer clock (row_clocks base !! key) then
    (mkRow (row_kind base) (row_id base) (row_seq base) (row_deleted base) (row_del_hlc base)
       (if is_null value then delete key (row_fields base)
        else <[key := value]> (row_fields base))
       (<[key := clock]> (row_clocks base)), true)
  else (base, changed).

Definition write_fields (op : RowOp) (acc : RegistryRow * bool) : RegistryRow * bool :=
  map_fold (write_field op) acc (op_writes op).

Definition set_live (row : RegistryRow) : RegistryRow :=
  mkRow (row_kind row) (row_id row) (row_seq row) false (row_del_hlc row)
    (row_fields row) (row_clocks row).

(** The op merged into the row: the new row, and whether anything changed. *)
Definition apply_op (row : option RegistryRow) (op : RowOp) : option RegistryRow * bool :=
  match op_op op with
  | Delete =>
      match row with
      | None => (Some (tombstone (op_kind op) (op_id op) (op_hlc op)), true)
      | Some row =>
          let beats := if row_deleted row then hlc_newer (op_hlc op) (row_del_hlc row)
                       else hlc_newer (op_hlc op) (max_clock row) in
          if beats then
            (Some (mkRow (row_kind row) (row_id row) (row_seq row) true
                     (Some (op_hlc op)) ∅ ∅), true)
          else (Some row, false)
      end
  | _ =>
      let merge (base : RegistryRow) (changed : bool) :=
        let '(base, changed) := write_fields op (base, changed) in
        if changed then (Some (set_live base), true) else (Some base, false) in
      match row with
      | None =>
          match op_op op with
          | Update => (None, false)
          | _ => merge (mkRow (op_kind op) (op_id op) 0 false None ∅ ∅) true
          end
      | Some row =>
          if row_deleted row then
            if bool_decide (op_op op = Update) || negb (hlc_newer (op_hlc op) (row_del_hlc row))
            then (Some row, false)
            else merge (mkRow (row_kind row) (row_id row) (row_seq row) false
                          (row_del_hlc row) ∅ ∅) true
          else merge row false
      end
  end.

Definition apply_row (row : option RegistryRow) (op : RowOp) : option RegistryRow :=
  (apply_op row op).1.

(** [row_to_seed_op]: a row as the upsert or delete that re-creates it. *)
Definition row_to_seed_op (row : RegistryRow) : RowOp :=
  if row_deleted row then
    mkOp (row_kind row) (row_id row) Delete None
      (default (encode_hlc 0 0 "seed") (row_del_hlc row)) None
  else
    mkOp (row_kind row) (row_id row) Upsert (Some (row_fields row))
      (default (encode_hlc 0 0 "seed") (max_clock row)) (Some (row_clocks row)).

(** ** coalesce_ops *)

(** [b] writes every field [a] writes, each with a strictly newer clock. *)
Definition shadows (b a : RowOp) : bool :=
  forallb (λ '(key, _),
      match op_writes b !! key with
      | Some _ => hlc_newer (clock_for b key) (Some (clock_for a key))
      | None => false
      end) (map_to_list (op_writes a)).

(** The writes of [a] then [b], newest clock per field (a tie keeps [a]). *)
Definition merge_writes (a b : RowOp) : gmap string (Value * string) :=
  map_fold (λ key value writes,
      let clock := clock_for b key in
      match writes !! key with
      | Some (_, prev) =>
          if hlc_newer clock (Some prev) then <[key := (value, clock)]> writes else writes
      | None => <[key := (value, clock)]> writes
      end)
    (map_imap (λ key value, Some (value, clock_for a key)) (op_writes a))
    (op_writes b).

Definition str_max (a b : string) : string := if str_ltb b a then a else b.

(** The op kind and revival clock of the merged op, when one op can express the pair. *)
Definition coalesce_kind (a b : RowOp) : option (OpKind * string) :=
  match op_op a, op_op b with
  | Delete, _ | _, Delete => None
  | _, Update => Some (op_op a, op_hlc a)
  | Upsert, Upsert =>
      if str_leb (op_hlc b) (op_hlc a) || shadows b a
      then Some (Upsert, str_max (op_hlc a) (op_hlc b)) else None
  | Update, Upsert =>
      if shadows b a then Some (Upsert, op_hlc b) else None
  end.

Definition merged_op (a b : RowOp) (op : OpKind) (hlc : string) : RowOp :=
  let writes := merge_writes a b in
  let clocks := omap (λ '(_, clock), if decide (clock = hlc) then None else Some clock) writes in
  mkOp (op_kind a) (op_id a) op (Some (fst <$> writes)) hlc
    (if decide (clocks = ∅) then None else Some clocks).

Definition MAX_OP_BYTES : Z := 16 * 1024.

Section Budget.
(** [serde_json::to_vec(op)]: the serialized length, [None] on error. *)
Variable op_json_len : RowOp → option Z.

Definition fits_op_budget (op : RowOp) : bool :=
  match op_json_len op with
  | Some n => n <=? MAX_OP_BYTES
  | None => false
  end.

Definition coalesce_ops (a b : RowOp) : option RowOp :=
  if negb (bool_decide (op_kind a = op_kind b)) || negb (bool_decide (op_id a = op_id b)) then None
  else
    '(op, hlc) ← coalesce_kind a b;
    let merged := merged_op a b op hlc in
    if fits_op_budget merged then Some merged else None.
End Budget.

(** ** The field loop, per field

    [wins op row k]: the op writes [k] with a clock newer than the row's. *)

Definition wins (op : RowOp) (row : RegistryRow) (k : string) : bool :=
  match op_writes op !! k with
  | Some _ => hlc_newer (clock_for op k) (row_clocks row !! k)
  | None => false
  end.

Definition field_after (op : RowOp) (row : RegistryRow) (k : string) : option Value :=
  if wins op row k then
    v ← op_writes op !! k; if is_null v then None else Some v
  else row_fields row !! k.

Definition clock_after (op : RowOp) (row : RegistryRow) (k : string) : option string :=
  if wins op row k then Some (clock_for op k) else row_clocks row !! k.

(** Two rows that agree outside their field maps. *)
Record same_frame (r1 r2 : RegistryRow) : Prop := {
  sf_kind : row_kind r1 = row_kind r2;
  sf_id : row_id r1 = row_id r2;
  sf_seq : row_seq r1 = row_seq r2;
  sf_deleted : row_deleted r1 = row_deleted r2;
  sf_del_hlc : row_del_hlc r1 = row_del_hlc r2
}.

#[export] Instance same_frame_equiv : Equivalence same_frame.
Proof.
  split; [by split|intros ??[]; by split|intros ???[][]; split; by etrans].
Qed.

Lemma row_ext r1 r2 :
  same_frame r1 r2 →
  (∀ k, row_fields r1 !! k = row_fields r2 !! k) →
  (∀ k, row_clocks r1 !! k = row_clocks r2 !! k) → r1 = r2.
Proof.
  destruct r1, r2. intros []. simpl in *. intros Hf Hc.
  apply map_eq in Hf, Hc. congruence.
Qed.

Lemma write_fields_spec op base ch :
  same_frame (write_fields op (base, ch)).1 base ∧
  (∀ k, row_fields (write_fields op (base, ch)).1 !! k = field_after op base k) ∧
  (∀ k, row_clocks (write_fields op (base, ch)).1 !! k = clock_after op base k) ∧
  ((write_fields op (base, ch)).2 = true ↔ ch = true ∨ ∃ k, wins op base k = true).
Proof.
  unfold write_fields, field_after, clock_after, wins. generalize (op_writes op) as m.
  apply (map_fold_weak_ind (λ acc m,
    same_frame acc.1 base ∧
    (∀ k, row_fields acc.1 !! k =
      if (match m !! k with Some _ => hlc_newer (clock_for op k) (row_clocks base !! k)
                          | None => false end)
      then v ← m !! k; if is_null v then None else Some v else row_fields base !! k) ∧
    (∀ k, row_clocks acc.1 !! k =
      if (match m !! k with Some _ => hlc_newer (clock_for op k) (row_clocks base !! k)
                          | None => false end)
      then Some (clock_for op k) else row_clocks base !! k) ∧
    (acc.2 = true ↔ ch = true ∨ ∃ k,
      match m !! k with Some _ => hlc_newer (clock_for op k) (row_clocks base !! k)
                      | None => false end = true))).
  { simpl. setoid_rewrite lookup_empty. split; [done|]. naive_solver. }
  intros key value m [r c] Hm (Hs & Hf & Hc & Hch). cbn [fst snd] in *.
  pose proof (Hc key) as Hck. rewrite Hm in Hck. unfold write_field. rewrite Hck.
  destruct (hlc_newer (clock_for op key) (row_clocks base !! key)) eqn:E; cbn [fst snd].
  - split; [destruct Hs; by split|]. cbn [row_fields row_clocks]. split_and!.
    + intros k. destruct (decide (k = key)) as [->|Hk].
      * rewrite lookup_insert_eq, E. simpl. destruct (is_null value);
          [apply lookup_delete_eq|apply lookup_insert_eq].
      * rewrite lookup_insert_ne by done. rewrite <- Hf.
        destruct (is_null value); [by rewrite lookup_delete_ne|by rewrite lookup_insert_ne].
    + intros k. destruct (decide (k = key)) as [->|Hk].
      * by rewrite !lookup_insert_eq, E.
      * rewrite !lookup_insert_ne by done. apply Hc.
    + split; [|done]. intros _. right. exists key. by rewrite lookup_insert_eq.
  - split; [done|]. split_and!.
    + intros k. destruct (decide (k = key)) as [->|Hk].
      * rewrite lookup_insert_eq, E. by rewrite Hf, Hm.
      * rewrite lookup_insert_ne by done. apply Hf.
    + intros k. destruct (decide (k = key)) as [->|Hk].
      * rewrite lookup_insert_eq, E. by rewrite Hc, Hm.
      * rewrite lookup_insert_ne by done. apply Hc.
    + rewrite Hch. split; intros [?|[k Hk]]; [by left| |by left|]; right; exists k.
      * destruct (decide (k = key)) as [->|]; [by rewrite Hm in Hk|by rewrite lookup_insert_ne].
      * destruct (decide (k = key)) as [->|]; [rewrite lookup_insert_eq in Hk; congruence|].
        by rewrite lookup_insert_ne in Hk.
Qed.

Create Rewrite HintDb registry.

#[global] Arguments write_fields : simpl never.

(** A field loop that leaves a row alone leaves it equal. *)
Lemma write_fields_unchanged op base :
  (write_fields op (base, false)).2 = false → (write_fields op (base, false)).1 = base.
Proof.
  intros H. destruct (write_fields_spec op base false) as (Hs & Hf & Hc & Hch).
  assert (∀ k, wins op base k = false) as Hw.
  { intros k. destruct (wins op base k) eqn:E; [|done].
    assert ((write_fields op (base, false)).2 = true) by (apply Hch; eauto). congruence. }
  apply row_ext; [done| |]; intros k; [rewrite Hf|rewrite Hc];
    unfold field_after, clock_after; by rewrite Hw.
Qed.

(** The row of a field loop, whatever the flag. *)
Definition written (op : RowOp) (base : RegistryRow) : RegistryRow :=
  (write_fields op (base, false)).1.

Lemma write_fields_fst op base ch : (write_fields op (base, ch)).1 = written op base.
Proof.
  destruct (write_fields_spec op base ch) as (Hs & Hf & Hc & _).
  destruct (write_fields_spec op base false) as (Hs' & Hf' & Hc' & _).
  apply row_ext; [by etrans; [|symmetry]| |]; intros k;
    unfold written; [by rewrite Hf, Hf'|by rewrite Hc, Hc'].
Qed.

Lemma written_frame op base : same_frame (written op base) base.
Proof. apply write_fields_spec. Qed.
Lemma written_fields op base k : row_fields (written op base) !! k = field_after op base k.
Proof. apply write_fields_spec. Qed.
Lemma written_clocks op base k : row_clocks (written op base) !! k = clock_after op base k.
Proof. apply write_fields_spec. Qed.

Lemma written_live op base : row_deleted base = false → set_live (written op base) = written op base.
Proof.
  intros H. destruct (written op base) eqn:E. unfold set_live. simpl.
  pose proof (sf_deleted _ _ (written_frame op base)) as Hd. rewrite E, H in Hd.
  simpl in Hd. by subst.
Qed.

(** ** apply_op by cases *)

Definition fresh_row (op : RowOp) : RegistryRow :=
  mkRow (op_kind op) (op_id op) 0 false None ∅ ∅.

Definition revived (row : RegistryRow) : RegistryRow :=
  mkRow (row_kind row) (row_id row) (row_seq row) false (row_del_hlc row) ∅ ∅.

Definition buried (row : RegistryRow) (hlc : string) : RegistryRow :=
  mkRow (row_kind row) (row_id row) (row_seq row) true (Some hlc) ∅ ∅.

(** The merge branch shared by upserts and updates. *)
Lemma merge_branch op base ch :
  row_deleted base = false →
  (let '(b, c) := write_fields op (base, ch) in
   if c then (Some (set_live b), true) else (Some b, false)).1 = Some (written op base).
Proof.
  intros H. pose proof (write_fields_fst op base ch) as E.
  destruct (write_fields op (base, ch)) as [b c]. cbn [fst] in E. subst b.
  destruct c; simpl; by rewrite ?written_live.
Qed.

Lemma apply_row_update_none op : op_op op = Update → apply_row None op = None.
Proof. unfold apply_row, apply_op. by intros ->. Qed.

Lemma apply_row_upsert_none op :
  op_op op = Upsert → apply_row None op = Some (written op (fresh_row op)).
Proof. unfold apply_row, apply_op. intros ->. by apply merge_branch. Qed.

Lemma apply_row_live op row :
  op_op op ≠ Delete → row_deleted row = false →
  apply_row (Some row) op = Some (written op row).
Proof.
  unfold apply_row, apply_op. intros Ho Hd. rewrite Hd.
  destruct (op_op op); try done; by apply merge_branch.
Qed.

Lemma apply_row_update_dead op row :
  op_op op = Update → row_deleted row = true → apply_row (Some row) op = Some row.
Proof. unfold apply_row, apply_op. by intros -> ->. Qed.

Lemma apply_row_upsert_dead op row :
  op_op op = Upsert → row_deleted row = true →
  apply_row (Some row) op =
    Some (if hlc_newer (op_hlc op) (row_del_hlc row) then written op (revived row) else row).
Proof.
  unfold apply_row, apply_op. intros -> ->. simpl.
  destruct (hlc_newer _ _); simpl; [by apply merge_branch|done].
Qed.

Lemma apply_row_delete op row :
  op_op op = Delete →
  apply_row row op = Some (match row with
    | None => tombstone (op_kind op) (op_id op) (op_hlc op)
    | Some row =>
        if hlc_newer (op_hlc op) (if row_deleted row then row_del_hlc row else max_clock row)
        then buried row (op_hlc op) else row
    end).
Proof.
  unfold apply_row, apply_op. intros ->. destruct row as [row|]; [|done].
  destruct (row_deleted row); by destruct (hlc_newer _ _).
Qed.

Lemma written_deleted op base : row_deleted (written op base) = row_deleted base.
Proof. apply (sf_deleted _ _ (written_frame op base)). Qed.


(** ** The algebra of one field

    A cell is a field's value and clock; a write is a value and its clock.
    Everything the registry does to a field is [write_cell]. *)

Definition cell : Type := option Value * option string.
Definition cell_write : Type := option (Value * string).

Definition write_cell (w : cell_write) (c : cell) : cell :=
  match w with
  | Some (v, clk) =>
      if hlc_newer clk c.2 then (if is_null v then None else Some v, Some clk) else c
  | None => c
  end.

Definition merge_cell (wa wb : cell_write) : cell_write :=
  match wa, wb with
  | Some (_, ca), Some (_, cb) => if hlc_newer cb (Some ca) then wb else wa
  | Some _, None => wa
  | None, _ => wb
  end.

Definition row_cell (row : RegistryRow) (k : string) : cell :=
  (row_fields row !! k, row_clocks row !! k).

Definition op_cell (op : RowOp) (k : string) : cell_write :=
  v ← op_writes op !! k; Some (v, clock_for op k).

Lemma hlc_newer_trans a b c :
  hlc_newer a (Some b) = true → hlc_newer b c = true → hlc_newer a c = true.
Proof. destruct c; simpl; [|done]. intros ??. by eapply str_ltb_trans. Qed.

Lemma hlc_not_newer_trans a b c :
  hlc_newer a (Some b) = false → hlc_newer b c = false → hlc_newer a c = false.
Proof.
  destruct c as [c|]; simpl; [|done]. intros H1 H2.
  destruct (str_ltb c a) eqn:E; [|done].
  destruct (str_ltb b c) eqn:E'; [by rewrite (str_ltb_trans b c a) in H1|].
  rewrite (str_ltb_total b c) in H1 by done. congruence.
Qed.

Lemma hlc_newer_irrefl a : hlc_newer a (Some a) = false.
Proof. apply str_ltb_irrefl. Qed.

(** Folding two writes first, or applying them in turn. *)
Lemma write_cell_merge wa wb c :
  write_cell (merge_cell wa wb) c = write_cell wb (write_cell wa c).
Proof.
  destruct wa as [[va ca]|], wb as [[vb cb]|]; try done. unfold merge_cell.
  destruct (hlc_newer cb (Some ca)) eqn:Eba; simpl.
  - destruct (hlc_newer ca c.2) eqn:Ea; simpl in *; [|done].
    by rewrite Eba, (hlc_newer_trans _ _ _ Eba Ea).
  - destruct (hlc_newer ca c.2) eqn:Ea; simpl in *.
    + by rewrite Eba.
    + by rewrite (hlc_not_newer_trans _ _ _ Eba Ea).
Qed.

Lemma write_cell_idemp w c : write_cell w (write_cell w c) = write_cell w c.
Proof.
  rewrite <- write_cell_merge. destruct w as [[v clk]|]; [|done].
  simpl. by rewrite str_ltb_irrefl.
Qed.

(** Two writes that do not tie with different values commute. *)
Definition no_tie (wa wb : cell_write) : Prop :=
  match wa, wb with
  | Some (va, ca), Some (vb, cb) => ca = cb → va = vb
  | _, _ => True
  end.

Lemma merge_cell_comm wa wb : no_tie wa wb → merge_cell wa wb = merge_cell wb wa.
Proof.
  destruct wa as [[va ca]|], wb as [[vb cb]|]; try done. simpl. intros Ht.
  destruct (str_ltb ca cb) eqn:E1, (str_ltb cb ca) eqn:E2; try done.
  - apply str_ltb_asym in E1. congruence.
  - pose proof (str_ltb_total _ _ E1 E2) as ->. by rewrite Ht.
Qed.

Lemma write_cell_comm wa wb c :
  no_tie wa wb → write_cell wa (write_cell wb c) = write_cell wb (write_cell wa c).
Proof. intros. rewrite <- !write_cell_merge. by rewrite (merge_cell_comm wa wb). Qed.

(** ** Rows as frames of cells *)

Lemma row_ext_cells r1 r2 :
  same_frame r1 r2 → (∀ k, row_cell r1 k = row_cell r2 k) → r1 = r2.
Proof. intros Hs Hc. apply row_ext; [done| |]; intros k; by injection (Hc k). Qed.

Lemma written_cell op base k : row_cell (written op base) k = write_cell (op_cell op k) (row_cell base k).
Proof.
  unfold row_cell, op_cell. rewrite written_fields, written_clocks.
  unfold field_after, clock_after, wins. destruct (op_writes op !! k); simpl; [|done].
  by destruct (hlc_newer _ _).
Qed.

#[export] Hint Rewrite written_deleted written_cell : registry.

Lemma written_ext op1 op2 base :
  (∀ k, op_cell op1 k = op_cell op2 k) → written op1 base = written op2 base.
Proof.
  intros H. apply row_ext_cells.
  - etrans; [apply written_frame|]. symmetry. apply written_frame.
  - intros k. autorewrite with registry. by rewrite H.
Qed.

Lemma written_idemp op base : written op (written op base) = written op base.
Proof.
  apply row_ext_cells; [apply written_frame|].
  intros k. autorewrite with registry. apply write_cell_idemp.
Qed.

Lemma written_comm a b base :
  (∀ k, no_tie (op_cell a k) (op_cell b k)) →
  written a (written b base) = written b (written a base).
Proof.
  intros H. apply row_ext_cells.
  - etrans; [apply written_frame|]. etrans; [apply written_frame|].
    symmetry. etrans; apply written_frame.
  - intros k. autorewrite with registry. by apply write_cell_comm.
Qed.

(** ** coalesce_ops is exact *)

Lemma merge_writes_lookup a b k :
  merge_writes a b !! k = merge_cell (op_cell a k) (op_cell b k).
Proof.
  unfold merge_writes, op_cell at 2. generalize (op_writes b) as m. intros m. revert k.
  apply (map_fold_weak_ind (λ acc m, ∀ k, acc !! k =
    merge_cell (op_cell a k) (v ← m !! k; Some (v, clock_for b k)))); clear m.
  { intros k. rewrite map_lookup_imap, lookup_empty. unfold op_cell.
    by destruct (op_writes a !! k). }
  intros key value m acc Hm IH k. pose proof (IH key) as Hk. rewrite Hm in Hk. rewrite Hk.
  destruct (decide (k = key)) as [->|Hne].
  - rewrite lookup_insert_eq. simpl. unfold op_cell in *.
    destruct (op_writes a !! key) as [va|]; simpl in *; [|by rewrite lookup_insert_eq].
    destruct (str_ltb _ _); [by rewrite lookup_insert_eq|done].
  - rewrite (lookup_insert_ne m) by done. rewrite <- IH.
    destruct (merge_cell _ _) as [[??]|]; [destruct (hlc_newer _ _)|]; by rewrite ?lookup_insert_ne.
Qed.

Lemma merged_cell a b op hlc k :
  op_cell (merged_op a b op hlc) k = merge_cell (op_cell a k) (op_cell b k).
Proof.
  rewrite <- merge_writes_lookup. unfold op_cell, clock_for, op_writes, merged_op. simpl.
  rewrite lookup_fmap. destruct (merge_writes a b !! k) as [[v c]|] eqn:H; [|done]. simpl.
  set (clocks := omap _ (merge_writes a b)).
  assert (clocks !! k = if decide (c = hlc) then None else Some c) as Hk.
  { unfold clocks. by rewrite lookup_omap, H. }
  do 2 f_equal. destruct (decide (clocks = ∅)) as [He|_]; simpl.
  - rewrite He, lookup_empty in Hk. by case_decide.
  - rewrite Hk. by case_decide.
Qed.

Lemma written_merged a b op hlc base :
  written (merged_op a b op hlc) base = written b (written a base).
Proof.
  apply row_ext_cells.
  - etrans; [apply written_frame|]. symmetry. etrans; apply written_frame.
  - intros k. autorewrite with registry. rewrite merged_cell. apply write_cell_merge.
Qed.

Lemma shadows_cell a b k : shadows b a = true → merge_cell (op_cell a k) (op_cell b k) = op_cell b k.
Proof.
  unfold shadows. rewrite forallb_forall. intros H. unfold op_cell at 1.
  destruct (op_writes a !! k) as [va|] eqn:Ea; simpl; [|done].
  specialize (H (k, va)). rewrite <- list_elem_of_In, elem_of_map_to_list in H.
  specialize (H Ea). simpl in H. unfold op_cell.
  destruct (op_writes b !! k); simpl in *; [|done]. by rewrite H.
Qed.

Lemma written_shadowed a b op hlc base :
  shadows b a = true → written (merged_op a b op hlc) base = written b base.
Proof.
  intros H. apply written_ext. intros k. rewrite merged_cell. by apply shadows_cell.
Qed.

(** Step an upsert or update over a live row. *)
Ltac live_step :=
  rewrite !apply_row_live by (autorewrite with registry; simpl in *; congruence).

Section CoalescePair.
Context (a b : RowOp).
Hypothesis (Hk : op_kind a = op_kind b) (Hi : op_id a = op_id b).

Lemma merged_fresh_a op hlc : fresh_row (merged_op a b op hlc) = fresh_row a.
Proof. done. Qed.

Lemma merged_fresh_b op hlc : fresh_row (merged_op a b op hlc) = fresh_row b.
Proof using Hk Hi. unfold fresh_row. simpl. by rewrite Hk, Hi. Qed.

(** On a live row the pair always merges. *)
Lemma merged_live op hlc row :
  op ≠ Delete → op_op a ≠ Delete → op_op b ≠ Delete → row_deleted row = false →
  apply_row (Some row) (merged_op a b op hlc) = apply_row (apply_row (Some row) a) b.
Proof. intros. live_step. f_equal. apply written_merged. Qed.

(** A later update never decides existence. *)
Lemma merged_into_update row :
  op_op a ≠ Delete → op_op b = Update →
  apply_row row (merged_op a b (op_op a) (op_hlc a)) = apply_row (apply_row row a) b.
Proof.
  intros Oa Ob. destruct row as [row|]; [destruct (row_deleted row) eqn:Hd|].
  - destruct (op_op a) eqn:E; [|by rewrite !apply_row_update_dead|done].
    rewrite !apply_row_upsert_dead by done. simpl.
    destruct (hlc_newer _ _); [|by rewrite apply_row_update_dead].
    live_step. f_equal. apply written_merged.
  - apply merged_live; congruence.
  - destruct (op_op a) eqn:E; [|by rewrite !apply_row_update_none|done].
    rewrite !apply_row_upsert_none by done. live_step. f_equal. apply written_merged.
Qed.

Lemma merged_shadowing_upsert row :
  op_op a = Update → op_op b = Upsert → shadows b a = true →
  apply_row row (merged_op a b Upsert (op_hlc b)) = apply_row (apply_row row a) b.
Proof using Hk Hi.
  intros Oa Ob Hs. destruct row as [row|]; [destruct (row_deleted row) eqn:Hd|].
  - rewrite (apply_row_update_dead a) by done. rewrite !apply_row_upsert_dead by done. simpl.
    destruct (hlc_newer _ _); [|done]. f_equal. by apply written_shadowed.
  - apply merged_live; congruence.
  - rewrite (apply_row_update_none a) by done. rewrite !apply_row_upsert_none by done.
    rewrite merged_fresh_b. f_equal. by apply written_shadowed.
Qed.

(** The merged upsert revives exactly when one of the two does. *)
Lemma str_max_newer d :
  hlc_newer (str_max (op_hlc a) (op_hlc b)) d =
    hlc_newer (op_hlc a) d || hlc_newer (op_hlc b) d.
Proof.
  unfold str_max. destruct (str_ltb (op_hlc b) (op_hlc a)) eqn:E.
  - destruct (hlc_newer (op_hlc b) d) eqn:Eb; [|by rewrite orb_false_r].
    by rewrite (hlc_newer_trans _ _ _ E Eb).
  - destruct (hlc_newer (op_hlc b) d) eqn:Eb; [by rewrite orb_true_r|].
    by rewrite (hlc_not_newer_trans _ _ _ E Eb).
Qed.

Lemma merged_upserts row :
  op_op a = Upsert → op_op b = Upsert →
  str_leb (op_hlc b) (op_hlc a) = true ∨ shadows b a = true →
  apply_row row (merged_op a b Upsert (str_max (op_hlc a) (op_hlc b))) =
    apply_row (apply_row row a) b.
Proof.
  intros Oa Ob Hc. destruct row as [row|]; [destruct (row_deleted row) eqn:Hd|].
  - rewrite !apply_row_upsert_dead by done. simpl. rewrite str_max_newer.
    destruct (hlc_newer (op_hlc a) (row_del_hlc row)) eqn:Ea; simpl.
    { live_step. f_equal. apply written_merged. }
    rewrite apply_row_upsert_dead by done.
    destruct (hlc_newer (op_hlc b) (row_del_hlc row)) eqn:Eb; [|done].
    destruct Hc as [Hc|Hc]; [|by f_equal; apply written_shadowed].
    unfold str_leb in Hc. rewrite negb_true_iff in Hc.
    by rewrite (hlc_not_newer_trans _ (op_hlc a) _ Hc Ea) in Eb.
  - apply merged_live; congruence.
  - rewrite !apply_row_upsert_none by done. live_step. f_equal. apply written_merged.
Qed.
End CoalescePair.

(** A merged op addresses the row of both and fits the budget. *)
Lemma coalesce_ops_inv len a b m :
  coalesce_ops len a b = Some m →
  op_kind a = op_kind b ∧ op_id a = op_id b ∧ op_kind m = op_kind a ∧ op_id m = op_id a ∧
  fits_op_budget len m = true.
Proof.
  unfold coalesce_ops. intros Hm.
  destruct (bool_decide_reflect (op_kind a = op_kind b)) as [Hk|]; [|done].
  destruct (bool_decide_reflect (op_id a = op_id b)) as [Hi|]; [|done]. simpl in Hm.
  destruct (coalesce_kind a b) as [[op hlc]|]; [|done]. simpl in Hm.
  destruct (fits_op_budget _ _) eqn:Hf; [|done]. by injection Hm as <-.
Qed.

Lemma coalesce_ops_apply len a b m row :
  coalesce_ops len a b = Some m → apply_row row m = apply_row (apply_row row a) b.
Proof.
  unfold coalesce_ops, coalesce_kind. intros Hm.
  destruct (bool_decide_reflect (op_kind a = op_kind b)) as [Hk|]; [|done].
  destruct (bool_decide_reflect (op_id a = op_id b)) as [Hi|]; [|done]. simpl in Hm.
  destruct (op_op a) eqn:Oa, (op_op b) eqn:Ob; try done.
  1: destruct (str_leb (op_hlc b) (op_hlc a) || shadows b a) eqn:Hc; [|done].
  3: destruct (shadows b a) eqn:Hc; [|done].
  all: simpl in Hm; destruct (fits_op_budget _ _); [|done]; injection Hm as <-.
  - apply merged_upserts; [done..|]. by apply orb_prop.
  - rewrite <- Oa. apply merged_into_update; congruence.
  - by apply merged_shadowing_upsert.
  - rewrite <- Oa. apply merged_into_update; congruence.
Qed.

(** C14: a merged op has exactly the effect of the two it replaces, on a missing,
    tombstoned or live row, addresses the same row, and passes the room's size
    check. *)
Theorem coalesce_ops_exact len a b m
  (Hm : coalesce_ops len a b = Some m) :
  (∀ row, apply_row row m = apply_row (apply_row row a) b) ∧
  op_kind m = op_kind a ∧ op_id m = op_id a ∧
  (∃ n, len m = Some n ∧ n ≤ MAX_OP_BYTES).
Proof.
  destruct (coalesce_ops_inv _ _ _ _ Hm) as (_ & _ & Hk & Hi & Hf).
  split_and!; [intros row; by eapply coalesce_ops_apply|done..|].
  unfold fits_op_budget in Hf. destruct (len m) as [n|]; [|done].
  exists n. by apply Z.leb_le in Hf.
Qed.

(** ** Replays and order *)

Lemma write_fields_quiet op base ch :
  (∀ k, wins op base k = false) → write_fields op (base, ch) = (base, ch).
Proof.
  intros Hw. destruct (write_fields_spec op base ch) as (Hs & Hf & Hc & Hch).
  destruct (write_fields op (base, ch)) as [r c]. cbn [fst snd] in *. f_equal.
  - apply row_ext; [done| |]; intros k; [rewrite Hf|rewrite Hc];
      unfold field_after, clock_after; by rewrite Hw.
  - destruct c, ch; try done; destruct Hch as [H1 H2].
    + destruct H1 as [|[k Hk]]; [done..|]. by rewrite Hw in Hk.
    + by rewrite H2 by (by left).
Qed.

Lemma wins_written op base k : wins op (written op base) k = false.
Proof.
  unfold wins. rewrite written_clocks. unfold clock_after, wins.
  destruct (op_writes op !! k); [|done].
  destruct (hlc_newer (clock_for op k) (row_clocks base !! k)) eqn:E; [|done].
  apply hlc_newer_irrefl.
Qed.

Lemma replay_written op base :
  op_op op ≠ Delete → row_deleted base = false →
  apply_op (Some (written op base)) op = (Some (written op base), false).
Proof.
  intros Ho Hd. unfold apply_op. rewrite written_deleted, Hd.
  destruct (op_op op); [| |done]; by rewrite write_fields_quiet by apply wins_written.
Qed.

(** Delivering an op again changes nothing, whatever the row was. *)
Theorem apply_op_idempotent row op :
  apply_op (apply_row row op) op = (apply_row row op, false).
Proof.
  destruct (op_op op) eqn:Ho.
  - destruct row as [row|]; [destruct (row_deleted row) eqn:Hd|].
    + rewrite apply_row_upsert_dead by done. destruct (hlc_newer _ _) eqn:E.
      * by apply replay_written; [congruence|].
      * unfold apply_op. by rewrite Ho, Hd, E.
    + rewrite apply_row_live by congruence. apply replay_written; congruence.
    + rewrite apply_row_upsert_none by done. by apply replay_written; [congruence|].
  - destruct row as [row|]; [destruct (row_deleted row) eqn:Hd|].
    + rewrite apply_row_update_dead by done. unfold apply_op. by rewrite Ho, Hd.
    + rewrite apply_row_live by congruence. apply replay_written; congruence.
    + rewrite apply_row_update_none by done. unfold apply_op. by rewrite Ho.
  - rewrite apply_row_delete by done. unfold apply_op. rewrite Ho.
    destruct row as [row|]; simpl; [|by rewrite str_ltb_irrefl].
    destruct (row_deleted row) eqn:Hd; destruct (hlc_newer _ _) eqn:E; simpl;
      rewrite ?str_ltb_irrefl, ?Hd, ?E; done.
Qed.

(** Two ops write no field with the same clock and different values. *)
Definition ops_no_tie (a b : RowOp) : Prop := ∀ k, no_tie (op_cell a k) (op_cell b k).

(** C25: on a live row, concurrent writes converge whatever the delivery order. *)
Theorem apply_row_comm a b row
  (Ha : op_op a ≠ Delete) (Hb : op_op b ≠ Delete)
  (Hd : row_deleted row = false) (Ht : ops_no_tie a b) :
  apply_row (apply_row (Some row) a) b = apply_row (apply_row (Some row) b) a.
Proof.
  live_step. f_equal. apply row_ext_cells.
  - trans row; [|symmetry]; etrans; apply written_frame.
  - intros k. autorewrite with registry. symmetry. apply write_cell_comm, Ht.
Qed.

(** ** Deletes *)

Lemma max_clock_spec h row :
  hlc_newer h (max_clock row) = true ↔
    hlc_newer h (row_del_hlc row) = true ∧ (∀ k c, row_clocks row !! k = Some c → c <s h).
Proof.
  unfold max_clock. generalize (row_clocks row) as m.
  apply (map_fold_weak_ind (λ acc m, hlc_newer h acc = true ↔
    hlc_newer h (row_del_hlc row) = true ∧ (∀ k c, m !! k = Some c → c <s h))).
  { split; [|by intros []]. intros ?. split; [done|]. intros k c. by rewrite lookup_empty. }
  intros key clock m acc Hm IH.
  assert (hlc_newer h (match acc with
      | Some m0 => if str_ltb m0 clock then Some clock else Some m0
      | None => Some clock end) = true ↔ clock <s h ∧ hlc_newer h acc = true) as ->.
  { destruct acc as [m0|]; simpl; [|unfold str_lt; tauto].
    destruct (str_ltb m0 clock) eqn:E; simpl; unfold str_lt.
    - split; [|by intros []]. intros H. split; [done|]. by eapply str_ltb_trans.
    - split; [|by intros []]. intros H. split; [|done].
      destruct (str_ltb clock h) eqn:E'; [done|].
      destruct (str_leb_total clock m0) as [L|L]; unfold str_leb in L;
        apply negb_true_iff in L.
      + destruct (str_ltb clock m0) eqn:E2;
          [by rewrite (str_ltb_trans _ _ _ E2 H) in E'|].
        rewrite (str_ltb_total clock m0) in E' by done. congruence.
      + rewrite (str_ltb_total m0 clock) in H by done. congruence. }
  rewrite IH. split.
  - intros (Hc & Hd & Hall). split; [done|]. intros k c.
    destruct (decide (k = key)) as [->|Hk];
      [rewrite lookup_insert_eq; by intros [= <-]|rewrite lookup_insert_ne by done; eauto].
  - intros (Hd & Hall). split_and!; [by apply (Hall key); rewrite lookup_insert_eq|done|].
    intros k c Hk. apply (Hall k). rewrite lookup_insert_ne by congruence. done.
Qed.

(** A delete buries a live row exactly when it is newer than the row's
    tombstone clock and every field clock, and is otherwise a no-op. *)
Theorem delete_live_iff row op
  (Ho : op_op op = Delete) (Hd : row_deleted row = false) :
  (apply_row (Some row) op = Some (buried row (op_hlc op)) ↔
     hlc_newer (op_hlc op) (row_del_hlc row) = true ∧
     (∀ k c, row_clocks row !! k = Some c → c <s op_hlc op)) ∧
  (apply_row (Some row) op ≠ Some row →
     apply_row (Some row) op = Some (buried row (op_hlc op))).
Proof.
  rewrite apply_row_delete, Hd by done. rewrite <- max_clock_spec.
  destruct (hlc_newer _ _); split; try done.
  split; [|done]. intros [= E]. rewrite E in Hd. done.
Qed.

(** ** The row invariant

    A stored field is never null and always carries its clock; a tombstone
    has a tombstone clock and no fields. *)

Record row_wf (row : RegistryRow) : Prop := {
  wf_value k v : row_fields row !! k = Some v → is_null v = false;
  wf_clock k v : row_fields row !! k = Some v → is_Some (row_clocks row !! k);
  wf_dead : row_deleted row = true →
    row_fields row = ∅ ∧ row_clocks row = ∅ ∧ is_Some (row_del_hlc row)
}.

Lemma fresh_row_wf op : row_wf (fresh_row op).
Proof. split; simpl; [by intros ??; rewrite lookup_empty..|done]. Qed.

Lemma revived_wf row : row_wf (revived row).
Proof. split; simpl; [by intros ??; rewrite lookup_empty..|done]. Qed.

Lemma buried_wf row h : row_wf (buried row h).
Proof. split; simpl; [by intros ??; rewrite lookup_empty..|eauto]. Qed.

Lemma tombstone_wf kind id h : row_wf (tombstone kind id h).
Proof. split; simpl; [by intros ??; rewrite lookup_empty..|eauto]. Qed.

Lemma written_wf op base : row_deleted base = false → row_wf base → row_wf (written op base).
Proof.
  intros Hd [Hv Hc _]. split.
  - intros k v. rewrite written_fields. unfold field_after.
    destruct (wins op base k); [|apply Hv].
    destruct (op_writes op !! k) as [v'|]; simpl; [|done].
    destruct (is_null v') eqn:E; [done|]. by intros [= <-].
  - intros k v. rewrite written_fields, written_clocks. unfold field_after, clock_after.
    destruct (wins op base k); [eauto|apply Hc].
  - rewrite written_deleted. congruence.
Qed.

Create HintDb registry_wf.
#[export] Hint Resolve fresh_row_wf revived_wf buried_wf tombstone_wf written_wf : registry_wf.

(** Every merge keeps the row invariant. *)
Lemma apply_row_wf row op row'
  (Hwf : ∀ r, row = Some r → row_wf r) (Happ : apply_row row op = Some row') : row_wf row'.
Proof.
  destruct row as [row|]; [specialize (Hwf _ eq_refl)|];
    [destruct (row_deleted row) eqn:Hd|]; destruct (op_op op) eqn:Ho;
    rewrite ?(apply_row_delete op), ?apply_row_upsert_dead, ?apply_row_update_dead,
      ?apply_row_live, ?apply_row_upsert_none, ?apply_row_update_none in Happ by congruence;
    rewrite ?Hd in Happ; injection Happ as <- || done; try case_match; eauto with registry_wf.
Qed.

(** ** Re-seeding *)

(** A seed op applied where the server has nothing. *)
Lemma seed_cell row k :
  row_wf row →
  row_cell (written (row_to_seed_op row) (fresh_row (row_to_seed_op row))) k =
    (if row_deleted row then (None, None)
     else match row_fields row !! k with
          | Some v => (Some v, row_clocks row !! k)
          | None => (None, None)
          end).
Proof.
  intros [Hv Hc _]. rewrite written_cell. unfold row_cell at 1, op_cell, op_writes, clock_for, row_to_seed_op.
  destruct (row_deleted row); simpl; [by rewrite !lookup_empty|].
  rewrite !lookup_empty. destruct (row_fields row !! k) as [v|] eqn:E; simpl; [|done].
  rewrite (Hv _ _ E). destruct (Hc _ _ E) as [c ->]. done.
Qed.

(** A seed op rebuilds a lost row: every live field returns with its
    original clock, and a tombstone returns as a tombstone of the same clock.
    Clocks of cleared fields are not part of it. *)
Theorem seed_rebuilds row (Hwf : row_wf row) :
  ∃ row', apply_row None (row_to_seed_op row) = Some row' ∧
    row_kind row' = row_kind row ∧ row_id row' = row_id row ∧
    row_deleted row' = row_deleted row ∧ row_fields row' = row_fields row ∧
    (row_deleted row = true → row_del_hlc row' = row_del_hlc row) ∧
    (∀ k, row_clocks row' !! k =
       match row_fields row !! k with Some _ => row_clocks row !! k | None => None end).
Proof.
  pose proof (seed_cell row) as Hcell. destruct (row_deleted row) eqn:Hd.
  - destruct Hwf as [_ _ [Hf [Hc [h Hh]]]]; [done|]. clear Hcell.
    rewrite apply_row_delete by (unfold row_to_seed_op; by rewrite Hd).
    unfold row_to_seed_op. rewrite Hd, Hh, Hf. simpl. eexists; split_and!; done.
  - rewrite apply_row_upsert_none by (unfold row_to_seed_op; by rewrite Hd).
    eexists; split; [done|].
    destruct (written_frame (row_to_seed_op row) (fresh_row (row_to_seed_op row))) as [H1 H2 _ H4 H5].
    rewrite H1, H2, H4. unfold row_to_seed_op at 1 2 3. rewrite Hd.
    split_and!; try done.
    + apply map_eq. intros k. specialize (Hcell k Hwf). apply (f_equal fst) in Hcell.
      etrans; [exact Hcell|]. by destruct (row_fields row !! k).
    + intros k. specialize (Hcell k Hwf). apply (f_equal snd) in Hcell.
      etrans; [exact Hcell|]. by destruct (row_fields row !! k).
Qed.

(** The clock of a cleared field is the clock of its deletion; a re-seeded
    server forgets it, and an older write of another device brings the field
    back there while the seeding device still refuses that write. *)
Section SeedForgets.
Let live : RegistryRow :=
  mkRow "chats" "c" 3 false None {["id" := Str "c"]} {["id" := "1"; "branch" := "5"]}.
Let late : RowOp := mkOp "chats" "c" Update (Some {["branch" := Str "old"]}) "4" None.

Lemma seed_forgets_deletions :
  row_wf live ∧
  (row ← apply_row None (row_to_seed_op live); row' ← apply_row (Some row) late;
     row_fields row' !! "branch") = Some (Str "old") ∧
  (row' ← apply_row (Some live) late; row_fields row' !! "branch") = None.
Proof.
  split_and!; [|by vm_compute..]. split; [| |done].
  - intros k v. unfold live; simpl. rewrite lookup_singleton_Some. by intros [<- <-].
  - intros k v. unfold live; simpl. rewrite lookup_singleton_Some. intros [<- <-]. eauto.
Qed.
End SeedForgets.

(** ** The merge flag and the row's identity *)

(** A merge that reports no change returns the row it was given. *)
Lemma apply_op_unchanged row op r : apply_op row op = (r, false) → r = row.
Proof.
  assert (∀ base ch r, (let '(b, c) := write_fields op (base, ch) in
      if c then (Some (set_live b), true) else (Some b, false)) = (r, false) →
      ch = false ∧ r = Some base) as Hm.
  { intros base ch r' H. destruct ch.
    - destruct (write_fields op (base, true)) as [b c] eqn:E. destruct c; [done|].
      destruct (write_fields_spec op base true) as (_ & _ & _ & Hc). rewrite E in Hc.
      destruct Hc as [_ Hc]. discriminate Hc. by left.
    - split; [done|]. destruct (write_fields op (base, false)) as [b c] eqn:E. destruct c; [done|].
      pose proof (write_fields_unchanged op base) as Hu. rewrite E in Hu. simpl in Hu.
      injection H as <-. by rewrite Hu. }
  unfold apply_op. destruct (op_op op).
  - destruct row as [row|]; [|by intros [? _]%Hm].
    destruct (row_deleted row); [|by intros [_ ?]%Hm].
    case_match; [by intros [= <-]|by intros [? _]%Hm].
  - destruct row as [row|]; [|by intros [= <-]].
    destruct (row_deleted row); [|by intros [_ ?]%Hm]. by intros [= <-].
  - destruct row as [row|]; [|done]. destruct (row_deleted row), (hlc_newer _ _); by intros [= <-].
Qed.

(** A merge keeps the identity of the row it was given, or takes the op's. *)
Lemma apply_row_identity row op r' :
  apply_row row op = Some r' →
  row_kind r' = from_option row_kind (op_kind op) row ∧
  row_id r' = from_option row_id (op_id op) row.
Proof.
  destruct row as [row|]; [destruct (row_deleted row) eqn:Hd|]; destruct (op_op op) eqn:Ho;
    rewrite ?(apply_row_delete op), ?apply_row_upsert_dead, ?apply_row_update_dead,
      ?apply_row_live, ?apply_row_upsert_none, ?apply_row_update_none by congruence;
    rewrite ?Hd; intros H; (injection H as <- || done); try case_match; simpl;
    try (destruct (written_frame op row) as [-> -> _ _ _]; done);
    try (destruct (written_frame op (revived row)) as [-> -> _ _ _]; done);
    try (destruct (written_frame op (fresh_row op)) as [-> -> _ _ _]; done); done.
Qed.

(** ** Witnesses *)

Section Witnesses.
Definition ex_touch (field : string) (v : Value) (hlc : string) : RowOp :=
  mkOp "chats" "c" Update (Some {[field := v]}) hlc None.

Definition ex_row : RegistryRow :=
  mkRow "chats" "c" 7 false None {["title" := Str "t"]} {["title" := "0"]}.

Lemma ex_row_wf : row_wf ex_row.
Proof.
  split; [| |done]; intros k v; unfold ex_row; simpl;
    rewrite lookup_singleton_Some; intros [<- <-]; [done|eauto].
Qed.
End Witnesses.

Lemma coalesce_ops_exact_witness :
  let a := ex_touch "title" (Str "x") "4" in
  let b := ex_touch "branch" (Str "main") "5" in
  ∃ m, coalesce_ops (λ _, Some 100) a b = Some m ∧
       apply_row (Some ex_row) m = apply_row (apply_row (Some ex_row) a) b.
Proof.
  intros a b. exists (merged_op a b Update "4").
  assert (H : coalesce_ops (λ _, Some 100) a b = Some (merged_op a b Update "4")) by reflexivity.
  split; [exact H|]. exact (proj1 (coalesce_ops_exact _ a b _ H) (Some ex_row)).
Defined.

Lemma apply_row_comm_witness :
  let a := ex_touch "title" (Str "x") "4" in
  let b := ex_touch "title" (Str "y") "5" in
  apply_row (apply_row (Some ex_row) a) b = apply_row (apply_row (Some ex_row) b) a.
Proof.
  intros a b. apply apply_row_comm; [done..|].
  intros k. unfold op_cell, op_writes. simpl.
  destruct (decide (k = "title")) as [->|Hk].
  - rewrite !lookup_singleton_eq. simpl. done.
  - rewrite !lookup_singleton_ne by done. done.
Defined.

Lemma delete_live_iff_witness :
  let op := mkOp "chats" "c" Delete None "9" None in
  apply_row (Some ex_row) op = Some (buried ex_row "9").
Proof.
  intros op. apply (proj2 (delete_live_iff ex_row op eq_refl eq_refl)).
  vm_compute. discriminate.
Defined.

Lemma seed_rebuilds_witness :
  ∃ row', apply_row None (row_to_seed_op ex_row) = Some row' ∧
          row_fields row' = row_fields ex_row.
Proof.
  destruct (seed_rebuilds ex_row ex_row_wf) as (r & H & _ & _ & _ & Hf & _).
  exists r. split; [exact H|exact Hf].
Defined.
