(* ===== verification/RegistryDoc.v ===== *)
(** * RegistryDoc: the local replica of the workspace registry

    Models [RegistryDoc] of crates/doc/src/registry.rs: the server truth, the
    queue of unacked batches, the server frames, the local writes, the
    compaction of the unsent queue and the overlay a device displays.

    The maps of rows are nested as in the code (kind, then id).  [wall] is the
    wall clock: its n-th reading is [wall n], and [rd_ticks] counts the
    readings taken.  [op_json_len] is the serialized length of an op. *)

From S2P Require Import Prelude Text Hlc Json RegistryRow.

(** ** Data *)

Definition KIND_DEVICES : string := "devices".
Definition KIND_SPACES : string := "spaces".
Definition KIND_CHATS : string := "chats".
Definition KIND_SESSIONS : string := "sessions".

Record PendingBatch := mkBatch {
  pb_batch : string;
  pb_ops : list RowOp;
  pb_in_flight : bool
}.

Inductive StateOutcome := Delta | Replaced | Reseeded.

Definition CURRENT_RESYNC_EPOCH : Z := 1.
Definition MAX_OPS_PER_BATCH : nat := 400.

Abbreviation row_map := (gmap string (gmap string RegistryRow)).

Record RegistryDoc := mkDoc {
  rd_device_id : string;
  rd_authoritative : row_map;
  rd_server_seq : Z;
  rd_gc_floor : Z;
  rd_clock : HlcClock;
  rd_pending : list PendingBatch;
  rd_local_only : bool;
  rd_local_writes : bool;
  rd_generation : Z;
  rd_ticks : nat
}.

Record PersistedState := mkPersisted {
  ps_v : Z;
  ps_resync_epoch : Z;
  ps_device_id : string;
  ps_server_seq : Z;
  ps_gc_floor : Z;
  ps_clock : HlcClock;
  ps_local_writes : bool;
  ps_rows : list RegistryRow;
  ps_pending : list PendingBatch
}.

Definition new_doc (device : string) : RegistryDoc :=
  mkDoc device ∅ 0 0 HlcClock_default [] false false 0 0.

(** Field updates of the doc. *)
Definition set_authoritative (m : row_map) (d : RegistryDoc) : RegistryDoc :=
  mkDoc (rd_device_id d) m (rd_server_seq d) (rd_gc_floor d) (rd_clock d) (rd_pending d)
    (rd_local_only d) (rd_local_writes d) (rd_generation d) (rd_ticks d).
Definition set_pending (p : list PendingBatch) (d : RegistryDoc) : RegistryDoc :=
  mkDoc (rd_device_id d) (rd_authoritative d) (rd_server_seq d) (rd_gc_floor d) (rd_clock d) p
    (rd_local_only d) (rd_local_writes d) (rd_generation d) (rd_ticks d).
Definition set_cursor (seq floor : Z) (d : RegistryDoc) : RegistryDoc :=
  mkDoc (rd_device_id d) (rd_authoritative d) seq floor (rd_clock d) (rd_pending d)
    (rd_local_only d) (rd_local_writes d) (rd_generation d) (rd_ticks d).
Definition set_modes (local_only local_writes : bool) (d : RegistryDoc) : RegistryDoc :=
  mkDoc (rd_device_id d) (rd_authoritative d) (rd_server_seq d) (rd_gc_floor d) (rd_clock d)
    (rd_pending d) local_only local_writes (rd_generation d) (rd_ticks d).
Definition bump (d : RegistryDoc) : RegistryDoc :=
  mkDoc (rd_device_id d) (rd_authoritative d) (rd_server_seq d) (rd_gc_floor d) (rd_clock d)
    (rd_pending d) (rd_local_only d) (rd_local_writes d)
    (wrap_u64 (rd_generation d + 1)) (rd_ticks d).

(** ** Rows *)

Definition auth_row (m : row_map) (kind id : string) : option RegistryRow :=
  by_id ← m !! kind; by_id !! id.

(** [entry(kind).or_default().insert(id, row)] *)
Definition put_row (row : RegistryRow) (m : row_map) : row_map :=
  <[row_kind row := <[row_id row := row]> (default ∅ (m !! row_kind row))]> m.

Definition put_rows (rows : list RegistryRow) (m : row_map) : row_map :=
  fold_left (λ m row, put_row row m) rows m.

Definition put_authoritative (row : RegistryRow) (d : RegistryDoc) : RegistryDoc :=
  set_authoritative (put_row row (rd_authoritative d)) d.

(** [authoritative.values().flat_map(|m| m.values())]; the order of a hash
    map is unspecified, the model takes the order of [map_to_list]. *)
Definition all_rows (m : row_map) : list RegistryRow :=
  '(_, by_id) ← map_to_list m; (map_to_list by_id).*2.

Definition fold_op (d : RegistryDoc) (op : RowOp) : RegistryDoc :=
  match apply_op (auth_row (rd_authoritative d) (op_kind op) (op_id op)) op with
  | (Some next, true) => put_authoritative next d
  | _ => d
  end.

Definition pending_ops_of (p : list PendingBatch) : list RowOp := concat (pb_ops <$> p).
Definition pending_ops (d : RegistryDoc) : list RowOp := pending_ops_of (rd_pending d).
Definition pending_len (d : RegistryDoc) : nat := length (rd_pending d).
Definition pending_ops_len (d : RegistryDoc) : nat :=
  sum_list ((λ b, length (pb_ops b)) <$> rd_pending d).

(** ** The overlay *)

Definition overlay_step (row : option RegistryRow) (op : RowOp) : option RegistryRow :=
  match (apply_op row op).1 with
  | Some next => Some next
  | None => row
  end.

Definition live_only (row : option RegistryRow) : option RegistryRow :=
  r ← row; if row_deleted r then None else Some r.

Definition overlay (base : option RegistryRow) (ops : list RowOp) : option RegistryRow :=
  live_only (fold_left overlay_step ops base).

Definition op_is (kind id : string) (op : RowOp) : Prop := op_kind op = kind ∧ op_id op = id.
#[export] Instance op_is_dec kind id op : Decision (op_is kind id op).
Proof. unfold op_is. apply _. Defined.

Definition overlay_row (d : RegistryDoc) (kind id : string) : option RegistryRow :=
  overlay (auth_row (rd_authoritative d) kind id) (filter (op_is kind id) (pending_ops d)).

Definition row_exists (d : RegistryDoc) (kind id : string) : bool :=
  bool_decide (is_Some (overlay_row d kind id)).

(** [overlay_rows]: the pending ops of the kind grouped by row in one pass,
    rows only the queue knows appended in order of first mention. *)
Definition group_op (authoritative : option (gmap string RegistryRow))
    (acc : list string * gmap string (list RowOp)) (op : RowOp)
    : list string * gmap string (list RowOp) :=
  let '(ids, ops) := acc in
  let row_ops := default [] (ops !! op_id op) in
  let known := bool_decide (is_Some (m ← authoritative; m !! op_id op)) in
  (if bool_decide (row_ops = []) && negb known then ids ++ [op_id op] else ids,
   <[op_id op := row_ops ++ [op]]> ops).

Definition overlay_rows (d : RegistryDoc) (kind : string) : list RegistryRow :=
  let authoritative := rd_authoritative d !! kind in
  let ids := default [] ((λ m, (map_to_list m).*1) <$> authoritative) in
  let '(ids, ops) := fold_left (group_op authoritative)
      (filter (λ op, op_kind op = kind) (pending_ops d)) (ids, ∅) in
  omap (λ id, overlay (m ← authoritative; m !! id) (default [] (ops !! id))) ids.

(** ** Compaction of the unsent queue *)

(** A position in the unsent tail: batch index, op index. *)
Definition slot : Type := nat * nat.

Definition slot_gtb (p q : slot) : bool :=
  (q.1 <? p.1)%nat || ((q.1 =? p.1)%nat && (q.2 <? p.2)%nat).

(** The tail under compaction: batch id, ops with holes, whether it gained. *)
Record TailBatch := mkTail {
  tb_batch : string;
  tb_ops : list (option RowOp);
  tb_gained : bool
}.

Definition tail_op (tail : list TailBatch) (p : slot) : option RowOp :=
  t ← tail !! p.1; mjoin (tb_ops t !! p.2).

Definition tail_set (p : slot) (v : option RowOp) (tail : list TailBatch) : list TailBatch :=
  alter (λ t, mkTail (tb_batch t) (<[p.2 := v]> (tb_ops t)) (tb_gained t)) p.1 tail.

Definition tail_gain (bi : nat) (tail : list TailBatch) : list TailBatch :=
  alter (λ t, mkTail (tb_batch t) (tb_ops t) true) bi tail.

Definition single_op (tail : list TailBatch) (bi : nat) : bool :=
  bool_decide ((λ t, length (tb_ops t)) <$> tail !! bi = Some 1%nat).

(** The session fields push notifications switch on. *)
Definition session_signal (op : RowOp) : option Value * option Value :=
  let field name := (s ← op_set op; s !! name) in
  (field "status", field "lastCompletedTurn").

(** A chat op that can change what a session notification sees. *)
Definition chat_gates_notifications (op : RowOp) : bool :=
  negb (bool_decide (op_op op = Update)) ||
  match op_set op with
  | Some s => existsb (λ k, bool_decide (is_Some (s !! k))) ["title"; "archived"; "parentChatId"]
  | None => false
  end.

Definition op_key (op : RowOp) : string * string := (op_kind op, op_id op).

Record Compaction := mkCompaction {
  co_tail : list TailBatch;
  co_last : gmap (string * string) (slot * bool);
  co_gating : gmap string slot;
  co_folded : nat
}.

Definition slot_above (s : option slot) (at_ : slot) : bool :=
  match s with Some c => slot_gtb c at_ | None => false end.

Section Compact.
Variable op_json_len : RowOp → option Z.

(** [head]: the op starts a run of equal session signals. *)
Definition heads_run (op : RowOp) (prev : option (slot * bool * RowOp)) : bool :=
  bool_decide (op_kind op = KIND_SESSIONS) &&
  match prev with
  | None => true
  | Some (_, _, p) =>
      bool_decide (op_op p = Delete) || negb (bool_decide (session_signal p = session_signal op))
  end.

Definition may_move (st : Compaction) (op : RowOp) (head : bool)
    (prev : slot * bool * RowOp) : bool :=
  let '(at_, prev_head, prev_op) := prev in
  if bool_decide (op_kind op = KIND_SESSIONS) then
    negb head && negb prev_head && negb (slot_above (co_gating st !! op_id op) at_)
  else if bool_decide (op_kind op = KIND_CHATS) && chat_gates_notifications prev_op then
    negb (slot_above (fst <$> co_last st !! (KIND_SESSIONS, op_id op)) at_)
  else true.

(** One iteration of the nested loop, at position [here]. *)
Definition coalesce_at (st : Compaction) (here : slot) : Compaction :=
  match tail_op (co_tail st) here with
  | None => st
  | Some op =>
      let key := op_key op in
      let prev := ('(at_, head) ← co_last st !! key;
                   p ← tail_op (co_tail st) at_; Some (at_, head, p)) in
      let head := heads_run op prev in
      let merged := (pr ← prev;
                     if single_op (co_tail st) here.1 && single_op (co_tail st) pr.1.1.1
                        && may_move st op head pr
                     then (λ m, (pr.1.1, m)) <$> coalesce_ops op_json_len pr.2 op
                     else None) in
      let '(tail, folded) :=
        match merged with
        | Some (at_, m) =>
            (tail_gain here.1 (tail_set here (Some m) (tail_set at_ None (co_tail st))),
             S (co_folded st))
        | None => (co_tail st, co_folded st)
        end in
      let op' := default op (tail_op tail here) in
      mkCompaction tail (<[key := (here, head)]> (co_last st))
        (if bool_decide (op_kind op' = KIND_CHATS) && chat_gates_notifications op'
         then <[op_id op' := here]> (co_gating st) else co_gating st)
        folded
  end.

(** [for bi in 0..tail.len() { for oi in 0..tail[bi].1.len() { .. } }] *)
Definition slots (tail : list TailBatch) : list slot :=
  concat (imap (λ bi t, pair bi <$> seq 0 (length (tb_ops t))) tail).

Definition coalesce_tail (tail : list TailBatch) : Compaction :=
  fold_left coalesce_at (slots tail) (mkCompaction tail ∅ ∅ 0).
End Compact.

(** [pending.iter().rposition(|b| b.in_flight).map_or(0, |i| i + 1)] *)
Fixpoint unsent_start (p : list PendingBatch) : nat :=
  match p with
  | [] => 0
  | b :: p' =>
      match unsent_start p' with
      | O => if pb_in_flight b then 1 else 0
      | S n => S (S n)
      end
  end.

Section Doc.
Variable op_json_len : RowOp → option Z.
Variable wall : nat → Z.

(** [next_hlc]: read the wall clock, advance the source. *)
Definition next_hlc (d : RegistryDoc) : string * RegistryDoc :=
  let '(hlc, clock) := HlcClock_next (rd_clock d) (wall (rd_ticks d)) (rd_device_id d) in
  (hlc, mkDoc (rd_device_id d) (rd_authoritative d) (rd_server_seq d) (rd_gc_floor d) clock
          (rd_pending d) (rd_local_only d) (rd_local_writes d) (rd_generation d)
          (S (rd_ticks d))).

(** Put a compacted tail batch back; one that gained takes a fresh id. *)
Definition requeue (d : RegistryDoc) (t : TailBatch) : RegistryDoc :=
  let ops := omap id (tb_ops t) in
  if bool_decide (ops = []) then d
  else
    let '(batch, d) :=
      if tb_gained t then let '(hlc, d) := next_hlc d in ("b-" +:+ hlc, d)
      else (tb_batch t, d) in
    set_pending (rd_pending d ++ [mkBatch batch ops false]) d.

Definition coalesce_unsent (d : RegistryDoc) : RegistryDoc * nat :=
  let start := unsent_start (rd_pending d) in
  if (length (rd_pending d) - start <? 2)%nat then (d, 0%nat)
  else
    let tail := (λ b, mkTail (pb_batch b) (Some <$> pb_ops b) false) <$> drop start (rd_pending d) in
    let d := set_pending (take start (rd_pending d)) d in
    let st := coalesce_tail op_json_len tail in
    if (co_folded st =? 0)%nat then
      (set_pending (rd_pending d ++
         ((λ t, mkBatch (tb_batch t) (omap id (tb_ops t)) false) <$> co_tail st)) d, 0%nat)
    else (bump (fold_left requeue (co_tail st) d), co_folded st).

(** ** Local writes *)

(** The batching loop of [enqueue_ops]; [fuel] bounds its iterations. *)
Fixpoint enqueue_chunks (fuel : nat) (ops : list RowOp) (d : RegistryDoc) : RegistryDoc :=
  match fuel with
  | O => d
  | S fuel =>
      if bool_decide (ops = []) then d
      else
        let '(hlc, d) := next_hlc d in
        enqueue_chunks fuel (drop MAX_OPS_PER_BATCH ops)
          (set_pending (rd_pending d ++
             [mkBatch ("b-" +:+ hlc) (take MAX_OPS_PER_BATCH ops) false]) d)
  end.

Definition enqueue_ops (ops : list RowOp) (d : RegistryDoc) : RegistryDoc :=
  if bool_decide (ops = []) then d
  else if rd_local_only d then
    fold_left fold_op ops (set_modes true true (bump d))
  else (coalesce_unsent (enqueue_chunks (length ops) ops (bump d))).1.

Definition write (kind id : string) (op : OpKind) (set : gmap string Value)
    (d : RegistryDoc) : RegistryDoc :=
  let '(hlc, d) := next_hlc d in
  enqueue_ops [mkOp kind id op (Some set) hlc None] d.

Definition delete_row_ops (keys : list (string * string)) (d : RegistryDoc) : RegistryDoc :=
  let '(hlc, d) := next_hlc d in
  enqueue_ops ((λ k, mkOp k.1 k.2 Delete None hlc None) <$> keys) d.

Definition seed_ops (m : row_map) : list RowOp := row_to_seed_op <$> all_rows m.

Definition set_local_only (local_only : bool) (d : RegistryDoc) : RegistryDoc :=
  let d := set_modes local_only (rd_local_writes d) d in
  if local_only then
    let pending := rd_pending d in
    let d := set_pending [] d in
    if bool_decide (pending = []) then d
    else
      fold_left (λ d batch, fold_left fold_op (pb_ops batch) d) pending
        (set_modes true true (bump d))
  else if rd_local_writes d then
    let d := set_modes false false d in
    enqueue_ops (seed_ops (rd_authoritative d)) d
  else d.

(** ** Persistence

    [to_bytes] and [from_bytes] up to the JSON text; [in_flight] is not
    serialized and reads back as [false]. *)

Definition to_persisted (d : RegistryDoc) : PersistedState :=
  mkPersisted 1 CURRENT_RESYNC_EPOCH (rd_device_id d) (rd_server_seq d) (rd_gc_floor d)
    (rd_clock d) (rd_local_writes d) (all_rows (rd_authoritative d))
    ((λ b, mkBatch (pb_batch b) (pb_ops b) false) <$> rd_pending d).

Definition from_persisted (state : PersistedState) (device : string)
    : result string RegistryDoc :=
  if negb (ps_v state =? 1) then
    Err ("unknown registry snapshot version " +:+ show_Z (ps_v state))
  else
    let d := mkDoc device (put_rows (ps_rows state) ∅)
        (if ps_resync_epoch state <? CURRENT_RESYNC_EPOCH then 0 else ps_server_seq state)
        (ps_gc_floor state) (ps_clock state) (ps_pending state) false
        (ps_local_writes state) 0 0 in
    Ok (coalesce_unsent d).1.

(** ** Server frames *)

Definition apply_state (seq : Z) (full : bool) (gc_floor : Z) (rows : list RegistryRow)
    (d : RegistryDoc) : RegistryDoc * StateOutcome :=
  let d := bump d in
  if negb full then
    (set_cursor seq gc_floor (set_authoritative (put_rows rows (rd_authoritative d)) d), Delta)
  else if seq <? rd_server_seq d then
    let seed := seed_ops (rd_authoritative d) in
    let d := set_cursor seq gc_floor
        (set_authoritative (put_rows rows (rd_authoritative d)) d) in
    (if bool_decide (seed = []) then d else enqueue_ops seed d, Reseeded)
  else
    let incoming := put_rows rows ∅ in
    let seed :=
      '(kind, by_id) ← map_to_list (rd_authoritative d);
      '(id, row) ← map_to_list by_id;
      if bool_decide (is_Some (auth_row incoming kind id)) then [] else [row_to_seed_op row] in
    let d := set_cursor seq gc_floor (set_authoritative incoming d) in
    if bool_decide (seed = []) then (d, Replaced) else (enqueue_ops seed d, Reseeded).
End Doc.

(** A [rows] broadcast; [false] on a gap, where the cursor holds. *)
Definition apply_rows (seq : Z) (rows : list RegistryRow) (d : RegistryDoc) : RegistryDoc * bool :=
  let d := bump d in
  let d := set_authoritative (put_rows rows (rd_authoritative d)) d in
  if wrap_u64 (rd_server_seq d + 1) <? seq then (d, false)
  else if rd_server_seq d <? seq then (set_cursor seq (rd_gc_floor d) d, true)
  else (d, true).

Definition ack_batch (batch : string) (seq : Z) (d : RegistryDoc) : RegistryDoc * bool :=
  let kept := filter (λ b, pb_batch b ≠ batch) (rd_pending d) in
  if (length kept =? length (rd_pending d))%nat then (set_pending kept d, false)
  else (bump (set_pending kept d), true).

Definition take_pushable (d : RegistryDoc) : RegistryDoc * list PendingBatch :=
  let mark b := mkBatch (pb_batch b) (pb_ops b) true in
  (set_pending (mark <$> rd_pending d) d,
   mark <$> filter (λ b, pb_in_flight b = false) (rd_pending d)).

Definition mark_disconnected (d : RegistryDoc) : RegistryDoc :=
  set_pending ((λ b, mkBatch (pb_batch b) (pb_ops b) false) <$> rd_pending d) d.

(** ** Rows and the raw overlay *)

Lemma auth_row_put r m kind id :
  auth_row (put_row r m) kind id =
    if decide (row_kind r = kind ∧ row_id r = id) then Some r else auth_row m kind id.
Proof.
  unfold auth_row, put_row. destruct (decide (row_kind r = kind)) as [<-|Hk].
  - rewrite lookup_insert_eq. simpl. destruct (decide (row_id r = id)) as [<-|Hi].
    + rewrite lookup_insert_eq. by rewrite decide_True by done.
    + rewrite lookup_insert_ne, decide_False by tauto.
      destruct (m !! row_kind r); simpl; [done|]. by rewrite lookup_empty.
  - rewrite lookup_insert_ne by done. by rewrite decide_False by tauto.
Qed.

Lemma overlay_step_eq row op : overlay_step row op = apply_row row op.
Proof.
  unfold overlay_step, apply_row. destruct ((apply_op row op).1) eqn:E; [done|].
  destruct row as [row|]; [|done]. unfold apply_op in E.
  destruct (op_op op), (row_deleted row); simpl in *; repeat case_match; simpl in *; done.
Qed.

Definition apply_all (base : option RegistryRow) (ops : list RowOp) : option RegistryRow :=
  fold_left apply_row ops base.

Lemma overlay_eq base ops : overlay base ops = live_only (apply_all base ops).
Proof.
  unfold overlay, apply_all. f_equal. revert base.
  induction ops as [|op ops IH]; intros base; simpl; [done|]. by rewrite overlay_step_eq.
Qed.

Lemma apply_all_app base ops1 ops2 :
  apply_all base (ops1 ++ ops2) = apply_all (apply_all base ops1) ops2.
Proof. apply fold_left_app. Qed.

(** The displayed row before tombstones are hidden. *)
Definition raw_row (d : RegistryDoc) (kind id : string) : option RegistryRow :=
  apply_all (auth_row (rd_authoritative d) kind id) (filter (op_is kind id) (pending_ops d)).

Lemma overlay_row_raw d kind id : overlay_row d kind id = live_only (raw_row d kind id).
Proof. apply overlay_eq. Qed.

(** ** Compaction: the slots of the tail *)

Definition live_slots (tail : list TailBatch) (ps : list slot) : list RowOp :=
  omap (tail_op tail) ps.

Definition tail_ops (tail : list TailBatch) : list RowOp :=
  concat ((λ t, omap id (tb_ops t)) <$> tail).

Lemma omap_seq (l : list (option RowOp)) :
  omap (λ i, mjoin (l !! i)) (seq 0 (length l)) = omap id l.
Proof.
  induction l as [|x l IH]; [done|]. cbn [length seq]. rewrite <- fmap_S_seq.
  cbn [omap list_omap]. rewrite omap_fmap_list. cbn [lookup list_lookup].
  rewrite <- IH. done.
Qed.

Definition slot_succ (p : slot) : slot := (S p.1, p.2).

Lemma slots_cons t tail :
  slots (t :: tail) = (pair 0%nat <$> seq 0 (length (tb_ops t))) ++ (slot_succ <$> slots tail).
Proof.
  unfold slots. rewrite imap_cons. simpl. f_equal.
  rewrite fmap_concat_list, fmap_imap. f_equal. apply imap_ext. intros i x _. unfold compose.
  by rewrite <- list_fmap_compose.
Qed.

Lemma live_slots_all tail : live_slots tail (slots tail) = tail_ops tail.
Proof.
  unfold live_slots. induction tail as [|t tail IH]; [done|].
  rewrite slots_cons, omap_app, !omap_fmap_list. unfold tail_ops. simpl. f_equal; [|done].
  apply omap_seq.
Qed.

Lemma slots_NoDup tail : NoDup (slots tail).
Proof.
  induction tail as [|t tail IH]; [constructor|]. rewrite slots_cons. apply NoDup_app. split_and!.
  - apply NoDup_fmap_2; [by intros ?? [=]|]. apply NoDup_seq.
  - intros p. rewrite !list_elem_of_fmap. intros (? & -> & _) (? & [=] & _).
  - apply NoDup_fmap_2; [|done]. intros [??] [??] [=]. by subst.
Qed.

Lemma tail_op_set tail p v q :
  is_Some (tail_op tail p) →
  tail_op (tail_set p v tail) q = if decide (q = p) then v else tail_op tail q.
Proof.
  unfold tail_op, tail_set. intros [o Ho]. destruct p as [bi oi], q as [bj oj]. simpl in *.
  destruct (tail !! bi) as [t|] eqn:Et; [|done]. simpl in Ho.
  destruct (decide (bj = bi)) as [->|Hne].
  - rewrite list_lookup_alter_eq, Et. simpl. destruct (decide (oj = oi)) as [->|Hno].
    + rewrite decide_True by done. rewrite list_lookup_insert_eq; [done|].
      apply lookup_lt_is_Some. destruct (tb_ops t !! oi); [eauto|done].
    + rewrite decide_False by congruence. by rewrite list_lookup_insert_ne by done.
  - rewrite list_lookup_alter_ne by done. by rewrite decide_False by congruence.
Qed.

Lemma tail_op_gain bi tail q : tail_op (tail_gain bi tail) q = tail_op tail q.
Proof.
  unfold tail_op, tail_gain. destruct (decide (q.1 = bi)) as [->|Hne].
  - rewrite list_lookup_alter_eq. by destruct (tail !! bi).
  - by rewrite list_lookup_alter_ne.
Qed.

Lemma slots_alter f bi tail :
  (∀ t, length (tb_ops (f t)) = length (tb_ops t)) → slots (alter f bi tail) = slots tail.
Proof.
  intros Hf. unfold slots. f_equal. apply list_eq. intros i. rewrite !list_lookup_imap.
  destruct (decide (i = bi)) as [->|Hne];
    [rewrite list_lookup_alter_eq|by rewrite list_lookup_alter_ne].
  destruct (tail !! bi); simpl; [|done]. by rewrite Hf.
Qed.

Lemma slots_set p v tail : slots (tail_set p v tail) = slots tail.
Proof. apply slots_alter. intros t. simpl. by rewrite length_insert. Qed.

Lemma slots_gain bi tail : slots (tail_gain bi tail) = slots tail.
Proof. by apply slots_alter. Qed.

#[global] Arguments may_move : simpl never.
#[global] Arguments heads_run : simpl never.

(** What one iteration does to the tail and to the map of latest positions. *)
Lemma coalesce_at_cases len st here op :
  tail_op (co_tail st) here = Some op →
  ∃ head, let st' := coalesce_at len st here in
    co_last st' = <[op_key op := (here, head)]> (co_last st) ∧
    ((co_tail st' = co_tail st ∧ co_folded st' = co_folded st) ∨
     ∃ at_ h p m, co_last st !! op_key op = Some (at_, h) ∧
       tail_op (co_tail st) at_ = Some p ∧
       single_op (co_tail st) here.1 = true ∧ single_op (co_tail st) at_.1 = true ∧
       coalesce_ops len p op = Some m ∧
       co_tail st' = tail_gain here.1 (tail_set here (Some m) (tail_set at_ None (co_tail st))) ∧
       co_folded st' = S (co_folded st)).
Proof.
  intros Hop. unfold coalesce_at. rewrite Hop.
  destruct (co_last st !! op_key op) as [[at_ h]|] eqn:El; simpl;
    [|eexists; by split; [|left]].
  destruct (tail_op (co_tail st) at_) as [p|] eqn:Ep; simpl; [|eexists; by split; [|left]].
  destruct (single_op (co_tail st) here.1) eqn:E1; simpl; [|eexists; by split; [|left]].
  destruct (single_op (co_tail st) at_.1) eqn:E2; simpl; [|eexists; by split; [|left]].
  destruct (may_move st op _ _); [|eexists; by split; [|left]].
  destruct (coalesce_ops len p op) as [m|] eqn:Em; simpl; [|eexists; by split; [|left]].
  eexists. split; [done|]. right. by exists at_, h, p, m.
Qed.

(** ** Compaction keeps what every row displays *)

Definition has_key (k : string * string) (op : RowOp) : Prop := op_key op = k.
#[export] Instance has_key_dec k op : Decision (has_key k op).
Proof. unfold has_key. apply _. Defined.

Definition no_key (tail : list TailBatch) (k : string * string) (p : slot) : Prop :=
  ∀ o, tail_op tail p = Some o → op_key o ≠ k.

(** The effect of the tail on one row. *)
Definition tail_effect (tail : list TailBatch) (ps : list slot) (k : string * string)
    (row : option RegistryRow) : option RegistryRow :=
  apply_all row (filter (has_key k) (live_slots tail ps)).

Lemma live_slots_ext t1 t2 ps :
  (∀ p, p ∈ ps → tail_op t1 p = tail_op t2 p) → live_slots t1 ps = live_slots t2 ps.
Proof.
  intros H. unfold live_slots. apply list_omap_ext, Forall_Forall2_diag, Forall_forall.
  intros p Hp. by apply H.
Qed.

Lemma live_slots_app tail l1 l2 :
  live_slots tail (l1 ++ l2) = live_slots tail l1 ++ live_slots tail l2.
Proof. apply omap_app. Qed.

Lemma live_slots_cons tail p l :
  live_slots tail (p :: l) = option_list (tail_op tail p) ++ live_slots tail l.
Proof. unfold live_slots. simpl. by destruct (tail_op tail p). Qed.

Lemma filter_no_key tail k ps :
  (∀ p, p ∈ ps → no_key tail k p) → filter (has_key k) (live_slots tail ps) = [].
Proof.
  unfold live_slots. induction ps as [|p ps IH]; intros H; [done|]. simpl.
  pose proof (H p ltac:(left)) as Hp. rewrite <- (IH ltac:(intros; apply H; by right)).
  destruct (tail_op tail p) eqn:E; [|done]. rewrite filter_cons_False; [done|]. by apply Hp.
Qed.

(** Removing [a] at [p] and putting [m] in the place of [b] at [q]. *)
Lemma live_slots_merge tail t' l1 p l2 q l3 a b m :
  NoDup (l1 ++ p :: l2 ++ q :: l3) →
  tail_op tail p = Some a → tail_op tail q = Some b →
  (∀ r, tail_op t' r = if decide (r = q) then Some m
                       else if decide (r = p) then None else tail_op tail r) →
  live_slots tail (l1 ++ p :: l2 ++ q :: l3) =
    live_slots tail l1 ++ a :: live_slots tail l2 ++ b :: live_slots tail l3 ∧
  live_slots t' (l1 ++ p :: l2 ++ q :: l3) =
    live_slots tail l1 ++ live_slots tail l2 ++ m :: live_slots tail l3.
Proof.
  intros Hnd Ha Hb Ht.
  assert (∀ l, p ∉ l → q ∉ l → live_slots t' l = live_slots tail l) as Hsame.
  { intros l Hp Hq. apply live_slots_ext. intros r Hr. rewrite Ht.
    rewrite !decide_False by (intros ->; done). done. }
  apply NoDup_app in Hnd as (_ & Hd1 & Hnd). apply NoDup_cons in Hnd as [Hp Hnd].
  apply NoDup_app in Hnd as (_ & Hd2 & Hnd). apply NoDup_cons in Hnd as [Hq _].
  assert (p ≠ q) as Hpq by (intros ->; apply Hp, elem_of_app; right; left).
  rewrite !live_slots_app, !live_slots_cons, !live_slots_app, !live_slots_cons.
  rewrite Ha, Hb, (Ht p), (Ht q), decide_False, !decide_True by done. simpl.
  split; [done|]. rewrite (Hsame l1), (Hsame l2), (Hsame l3)
    by (intros Hin; first [eapply Hd1; [exact Hin|set_solver]
                          |eapply Hd2; [exact Hin|set_solver]|set_solver]). done.
Qed.

(** When [m] is [a] then [b] and nothing between touches their row, no row
    sees a difference. *)
Lemma merge_effect l1 a l2 b l3 m k row :
  op_key a = op_key b → op_key m = op_key a →
  filter (has_key (op_key a)) l2 = [] →
  (∀ r, apply_row r m = apply_row (apply_row r a) b) →
  apply_all row (filter (has_key k) (l1 ++ l2 ++ m :: l3)) =
  apply_all row (filter (has_key k) (l1 ++ a :: l2 ++ b :: l3)).
Proof.
  intros Hab Hma Hl2 Happ. destruct (decide (k = op_key a)) as [->|Hk].
  - rewrite !filter_app, !(filter_cons_True _ _), !filter_app, !(filter_cons_True _ _)
      by (unfold has_key; congruence).
    rewrite Hl2. simpl. rewrite !apply_all_app. simpl. by rewrite Happ.
  - rewrite !filter_app, (filter_cons_False _ a) by (unfold has_key; congruence).
    rewrite !filter_app, (filter_cons_False _ m), (filter_cons_False _ b)
      by (unfold has_key; congruence). done.
Qed.

(** [last] maps [k] to its latest live slot among [done_]. *)
Definition last_ok (tail : list TailBatch) (last : gmap (string * string) (slot * bool))
    (done_ : list slot) (k : string * string) : Prop :=
  match last !! k with
  | None => ∀ p, p ∈ done_ → no_key tail k p
  | Some (at_, _) => ∃ d1 d2 o, done_ = d1 ++ at_ :: d2 ∧
      tail_op tail at_ = Some o ∧ op_key o = k ∧ ∀ p, p ∈ d2 → no_key tail k p
  end.

Definition tb_shape (t : TailBatch) : string * nat := (tb_batch t, length (tb_ops t)).

Record compaction_inv (tail0 : list TailBatch) (done_ : list slot) (st : Compaction) : Prop := {
  ci_slots : slots (co_tail st) = slots tail0;
  ci_effect k row : tail_effect (co_tail st) (slots tail0) k row =
                    tail_effect tail0 (slots tail0) k row;
  ci_count : (length (live_slots (co_tail st) (slots tail0)) + co_folded st =
              length (live_slots tail0 (slots tail0)))%nat;
  ci_batches : tb_shape <$> co_tail st = tb_shape <$> tail0;
  ci_kept bi t : co_tail st !! bi = Some t → tb_gained t = false →
    omap id (tb_ops t) = [] ∨ tail0 !! bi = Some t;
  ci_zero : co_folded st = 0%nat → co_tail st = tail0;
  ci_last k : last_ok (co_tail st) (co_last st) done_ k
}.

Lemma merged_tail_op tail at_ here a b m r :
  tail_op tail at_ = Some a → tail_op tail here = Some b → at_ ≠ here →
  tail_op (tail_gain here.1 (tail_set here (Some m) (tail_set at_ None tail))) r =
    if decide (r = here) then Some m else if decide (r = at_) then None else tail_op tail r.
Proof.
  intros Ha Hb Hne. rewrite tail_op_gain, tail_op_set.
  - destruct (decide (r = here)); [done|]. by rewrite tail_op_set by eauto.
  - rewrite tail_op_set by eauto. rewrite decide_False by congruence. eauto.
Qed.

Lemma no_key_none tail k p : tail_op tail p = None → no_key tail k p.
Proof. unfold no_key. intros ->. done. Qed.

Lemma no_key_other tail k p o : tail_op tail p = Some o → op_key o ≠ k → no_key tail k p.
Proof. unfold no_key. intros -> ? ? [= <-]. done. Qed.

(** The latest-position part of the invariant after one iteration. *)
Lemma last_ok_skip tail last d here k :
  last_ok tail last d k → no_key tail k here → last_ok tail last (d ++ [here]) k.
Proof.
  unfold last_ok. intros H Hh. destruct (last !! k) as [[at_ h]|].
  - destruct H as (d1 & d2 & o & -> & Ho & Hk & Hd). exists d1, (d2 ++ [here]), o.
    split_and!; [by rewrite <- app_assoc|done..|].
    intros p. rewrite elem_of_app, list_elem_of_singleton. intros [?| ->]; auto.
  - intros p. rewrite elem_of_app, list_elem_of_singleton. intros [?| ->]; auto.
Qed.

Lemma last_ok_here tail last d here head op :
  tail_op tail here = Some op →
  last_ok tail (<[op_key op := (here, head)]> last) (d ++ [here]) (op_key op).
Proof.
  intros H. unfold last_ok. rewrite lookup_insert_eq. exists d, [], op.
  split_and!; [done..|]. by intros ? ?%elem_of_nil.
Qed.

Lemma last_ok_insert tail last d k k' x :
  k' ≠ k → last_ok tail last d k → last_ok tail (<[k' := x]> last) d k.
Proof. intros Hk. unfold last_ok. by rewrite lookup_insert_ne. Qed.

(** Removing and replacing ops of another key leaves a key's latest slot. *)
Lemma last_ok_tail tail tail' last d k :
  (∀ p o, tail_op tail p = Some o → op_key o = k → p ∈ d → tail_op tail' p = Some o) →
  (∀ p, p ∈ d → no_key tail k p → no_key tail' k p) →
  last_ok tail last d k → last_ok tail' last d k.
Proof.
  unfold last_ok. intros H1 H2. destruct (last !! k) as [[at_ h]|]; [|auto].
  intros (d1 & d2 & o & -> & Ho & Hk & Hd). exists d1, d2, o. split_and!; try done.
  - apply H1; [done..|]. apply elem_of_app. right; left.
  - intros p Hp. apply H2; [|by apply Hd]. apply elem_of_app. right; by right.
Qed.

(** A merge empties one single-op batch, marks another, and leaves the rest. *)
Lemma merged_kept tail at_ here m bi t :
  single_op tail at_.1 = true → is_Some (tail_op tail at_) →
  tail_gain here.1 (tail_set here (Some m) (tail_set at_ None tail)) !! bi = Some t →
  tb_gained t = false →
  omap id (tb_ops t) = [] ∨ tail !! bi = Some t.
Proof.
  unfold tail_gain, tail_set. intros Hs Ha Ht Hg.
  destruct (decide (bi = here.1)) as [->|Hh].
  { rewrite list_lookup_alter_eq in Ht. apply fmap_Some in Ht as (? & _ & ->). done. }
  rewrite !list_lookup_alter_ne in Ht by done.
  destruct (decide (bi = at_.1)) as [->|Hb]; [|right; by rewrite list_lookup_alter_ne in Ht].
  left. rewrite list_lookup_alter_eq in Ht. apply fmap_Some in Ht as (t0 & Ht0 & ->). simpl.
  unfold single_op in Hs. apply bool_decide_eq_true in Hs. rewrite Ht0 in Hs.
  unfold tail_op in Ha. rewrite Ht0 in Ha. simpl in *. injection Hs as Hs.
  destruct (tb_ops t0) as [|x [|]]; [done| |done].
  destruct at_ as [ai [|aj]]; simpl in *; [done|by destruct Ha].
Qed.

Lemma coalesce_at_inv len tail0 d here todo st :
  slots tail0 = d ++ here :: todo → compaction_inv tail0 d st →
  compaction_inv tail0 (d ++ [here]) (coalesce_at len st here).
Proof.
  intros Hsl [Hs He Hc Hb Hkept Hz Hl].
  pose proof (slots_NoDup tail0) as Hnd. rewrite Hsl in Hnd.
  assert (here ∉ d) as Hhd.
  { intros Hin. apply NoDup_app in Hnd as (_ & Hd & _). apply (Hd _ Hin). left. }
  destruct (tail_op (co_tail st) here) as [op|] eqn:Hop.
  2:{ assert (coalesce_at len st here = st) as -> by (unfold coalesce_at; by rewrite Hop).
      split; try done. intros k. apply last_ok_skip; [done|]. by apply no_key_none. }
  destruct (coalesce_at_cases len st here op Hop) as (head & Hlast & Hcase).
  destruct Hcase as [[Ht Hf]|(at_ & h & a & m & Hat & Ha & _ & Hsa & Hco & Ht & Hf)].
  - split; rewrite ?Ht, ?Hf; try done. intros k. rewrite Hlast.
    destruct (decide (k = op_key op)) as [->|Hk].
    + by apply last_ok_here.
    + apply last_ok_insert; [done|]. apply last_ok_skip; [done|]. by eapply no_key_other.
  - destruct (coalesce_ops_inv _ _ _ _ Hco) as (Hk1 & Hk2 & Hk3 & Hk4 & _).
    pose proof (Hl (op_key op)) as Hl0. unfold last_ok in Hl0. rewrite Hat in Hl0.
    destruct Hl0 as (d1 & d2 & o & -> & Ho & Hko & Hd2). rewrite Ha in Ho. injection Ho as <-.
    assert (at_ ≠ here) as Hne by (intros ->; apply Hhd, elem_of_app; right; left).
    pose proof (λ r, merged_tail_op _ at_ here a op m r Ha Hop Hne) as Hto.
    rewrite <- Ht in Hto. assert (op_key m = op_key a) as Hma by (unfold op_key; congruence).
    rewrite <- app_assoc in Hsl, Hnd. simpl in Hsl, Hnd.
    destruct (live_slots_merge _ _ _ _ _ _ _ _ _ _ Hnd Ha Hop Hto) as [El Er].
    split.
    + by rewrite Ht, slots_gain, !slots_set.
    + intros k row. rewrite <- He. unfold tail_effect. rewrite Hsl, El, Er.
      apply merge_effect; [done|done|by rewrite Hko; apply filter_no_key|].
      intros r. by eapply coalesce_ops_apply.
    + rewrite <- Hc, Hf, Hsl, El, Er. rewrite !length_app. simpl. rewrite !length_app. simpl. lia.
    + rewrite Ht, <- Hb. unfold tail_gain, tail_set.
      by rewrite !fmap_alter_same by (intros; unfold tb_shape; simpl; by rewrite ?length_insert).
    + intros bi t Hbi Hg. rewrite Ht in Hbi.
      destruct (merged_kept _ _ _ _ _ _ Hsa (ex_intro _ _ Ha) Hbi Hg); auto.
    + by rewrite Hf.
    + intros k. rewrite Hlast. destruct (decide (k = op_key op)) as [->|Hk].
      { rewrite <- Hko, <- Hma. apply last_ok_here. by rewrite Hto, decide_True. }
      apply last_ok_insert; [done|]. apply last_ok_skip.
      * apply (last_ok_tail (co_tail st)); [| |apply Hl].
        -- intros p o Hp Hok Hin. rewrite Hto, !decide_False; [done|congruence|].
           by intros ->.
        -- intros p Hin Hnk. unfold no_key. rewrite Hto, decide_False by (by intros ->).
           by case_decide; [|apply Hnk].
      * eapply no_key_other; [by rewrite Hto, decide_True|]. congruence.
Qed.

Lemma coalesce_tail_inv len tail : compaction_inv tail (slots tail) (coalesce_tail len tail).
Proof.
  unfold coalesce_tail.
  assert (∀ todo d st, slots tail = d ++ todo → compaction_inv tail d st →
    compaction_inv tail (slots tail) (fold_left (coalesce_at len) todo st)) as H.
  { induction todo as [|here todo IH]; intros d st Hsl Hi; simpl.
    - rewrite app_nil_r in Hsl. by rewrite Hsl.
    - apply (IH (d ++ [here])); [by rewrite <- app_assoc|]. by eapply coalesce_at_inv. }
  apply (H (slots tail) []); [done|]. split; try done; simpl.
  { intros bi t Ht _. by right. }
  intros k. unfold last_ok. rewrite lookup_empty. by intros ? ?%elem_of_nil.
Qed.

Lemma coalesce_tail_effect len tail k row :
  apply_all row (filter (has_key k) (tail_ops (co_tail (coalesce_tail len tail)))) =
  apply_all row (filter (has_key k) (tail_ops tail)).
Proof.
  destruct (coalesce_tail_inv len tail) as [Hs He _ _ _ _ _].
  rewrite <- !live_slots_all, Hs. apply He.
Qed.

Lemma coalesce_tail_count len tail :
  (length (tail_ops (co_tail (coalesce_tail len tail))) + co_folded (coalesce_tail len tail) =
   length (tail_ops tail))%nat.
Proof.
  destruct (coalesce_tail_inv len tail) as [Hs _ Hc _ _ _ _]. by rewrite <- !live_slots_all, Hs.
Qed.

(** ** Frames of the queue operations *)

(** Two docs that differ at most in their queue, clock and generation. *)
Record same_truth (d1 d2 : RegistryDoc) : Prop := {
  st_device : rd_device_id d1 = rd_device_id d2;
  st_auth : rd_authoritative d1 = rd_authoritative d2;
  st_seq : rd_server_seq d1 = rd_server_seq d2;
  st_floor : rd_gc_floor d1 = rd_gc_floor d2;
  st_local_only : rd_local_only d1 = rd_local_only d2;
  st_local_writes : rd_local_writes d1 = rd_local_writes d2
}.

#[export] Instance same_truth_equiv : Equivalence same_truth.
Proof.
  split; [by split|intros ??[]; by split|intros ???[][]; split; by etrans].
Qed.

Lemma next_hlc_truth wall d : same_truth (next_hlc wall d).2 d.
Proof. unfold next_hlc. by destruct (HlcClock_next _ _ _). Qed.

Lemma next_hlc_pending wall d : rd_pending (next_hlc wall d).2 = rd_pending d.
Proof. unfold next_hlc. by destruct (HlcClock_next _ _ _). Qed.

Lemma set_pending_truth p d : same_truth (set_pending p d) d.
Proof. done. Qed.

(** The batch a compacted tail batch becomes, if any. *)
Definition requeued_as (wall : nat → Z) (t : TailBatch) (b : PendingBatch) : Prop :=
  pb_ops b = omap id (tb_ops t) ∧ pb_in_flight b = false ∧
  (if tb_gained t then ∃ d, pb_batch b = "b-" +:+ (next_hlc wall d).1
   else pb_batch b = tb_batch t).

Lemma requeue_spec wall d t :
  same_truth (requeue wall d t) d ∧
  ((omap id (tb_ops t) = [] ∧ rd_pending (requeue wall d t) = rd_pending d) ∨
   (omap id (tb_ops t) ≠ [] ∧ ∃ b, requeued_as wall t b ∧
      rd_pending (requeue wall d t) = rd_pending d ++ [b])).
Proof.
  unfold requeue. destruct (bool_decide_reflect (omap id (tb_ops t) = [])) as [He|He].
  { split; [done|]. by left. }
  destruct (tb_gained t) eqn:Hg.
  - destruct (next_hlc wall d) as [hlc d'] eqn:E.
    pose proof (next_hlc_truth wall d) as Ht. pose proof (next_hlc_pending wall d) as Hp.
    rewrite E in Ht, Hp. simpl in *. split; [by etrans; [|exact Ht]|]. right. split; [done|].
    eexists. rewrite Hp. split; [|done]. split_and!; [done..|]. rewrite Hg.
    exists d. by rewrite E.
  - split; [done|]. right. split; [done|]. eexists. split; [|done].
    split_and!; [done..|]. by rewrite Hg.
Qed.

Lemma requeue_all_spec wall tail d :
  let d' := fold_left (requeue wall) tail d in
  same_truth d' d ∧
  ∃ bs, rd_pending d' = rd_pending d ++ bs ∧ concat (pb_ops <$> bs) = tail_ops tail ∧
    Forall (λ b, pb_ops b ≠ [] ∧ ∃ t, t ∈ tail ∧ requeued_as wall t b) bs.
Proof.
  revert d; induction tail as [|t tail IH]; intros d; simpl.
  { split; [done|]. exists []. by rewrite app_nil_r. }
  destruct (IH (requeue wall d t)) as [Hs (bs & Hp & Hc & Hf)].
  destruct (requeue_spec wall d t) as [Hs' Hq]. split; [by etrans|].
  assert (Forall (λ b, pb_ops b ≠ [] ∧ ∃ t0, t0 ∈ t :: tail ∧ requeued_as wall t0 b) bs) as Hf'.
  { eapply Forall_impl; [exact Hf|]. intros b [Hb (t0 & ? & ?)]. split; [done|].
    exists t0. split; [by right|done]. }
  destruct Hq as [[He Hq]|[He (b & Hb & Hq)]]; rewrite Hq in Hp.
  - exists bs. unfold tail_ops. simpl. by rewrite He.
  - exists (b :: bs). rewrite Hp, <- app_assoc. split_and!; [done| |].
    + unfold tail_ops. simpl. destruct Hb as [-> _]. by f_equal.
    + constructor; [|done]. destruct Hb as (Hb & ?). split; [congruence|].
      exists t. split; [left|by split].
Qed.

(** ** coalesce_unsent *)

Lemma raw_row_keys d kind id :
  raw_row d kind id =
    apply_all (auth_row (rd_authoritative d) kind id) (filter (has_key (kind, id)) (pending_ops d)).
Proof.
  unfold raw_row. f_equal. apply list_filter_iff. intros op. unfold op_is, has_key, op_key.
  split; [by intros [-> ->]|by intros [= -> ->]].
Qed.

(** Splitting the queue at the unsent tail. *)
Lemma unsent_split p :
  Forall (λ b, pb_in_flight b = false) (drop (unsent_start p) p) ∧
  (unsent_start p ≤ length p)%nat.
Proof.
  induction p as [|b p [IH Hl]]; simpl; [by split; [constructor|lia]|].
  destruct (unsent_start p) eqn:E; simpl in *; [|split; [done|lia]].
  rewrite drop_0 in IH. destruct (pb_in_flight b) eqn:Eb; simpl; [by split; [|lia]|].
  split; [|lia]. by constructor.
Qed.

Definition tail_of (p : list PendingBatch) : list TailBatch :=
  (λ b, mkTail (pb_batch b) (Some <$> pb_ops b) false) <$> p.

Lemma tail_of_ops p : tail_ops (tail_of p) = pending_ops_of p.
Proof.
  unfold tail_ops, tail_of, pending_ops_of. rewrite <- list_fmap_compose. f_equal.
  apply list_fmap_ext. intros i b _. simpl. induction (pb_ops b); simpl; [done|]. by f_equal.
Qed.

Lemma pending_ops_of_app p q : pending_ops_of (p ++ q) = pending_ops_of p ++ pending_ops_of q.
Proof. unfold pending_ops_of. by rewrite fmap_app, concat_app. Qed.

Lemma tail_of_back p :
  Forall (λ b, pb_in_flight b = false) p →
  (λ t, mkBatch (tb_batch t) (omap id (tb_ops t)) false) <$> tail_of p = p.
Proof.
  induction 1 as [|b p Hb _ IH]; [done|]. destruct b as [id_ ops fl]. simpl in *. subst fl.
  f_equal; [|exact IH]. f_equal. clear. induction ops; simpl; [done|]. by f_equal.
Qed.

(** A queued batch is one of [p] with its id and ops, or has a minted id. *)
Definition requeued_from (wall : nat → Z) (p : list PendingBatch) (b : PendingBatch) : Prop :=
  b ∈ p ∨ ∃ d, pb_batch b = "b-" +:+ (next_hlc wall d).1.

(** A requeued batch that did not gain is the queued one. *)
Lemma requeued_kept len wall p b t :
  Forall (λ b, pb_in_flight b = false) p →
  pb_ops b ≠ [] → t ∈ co_tail (coalesce_tail len (tail_of p)) → requeued_as wall t b →
  pb_in_flight b = false ∧ requeued_from wall p b.
Proof.
  intros Hp Hne Ht (Hops & Hfl & Hid). split; [done|].
  destruct (tb_gained t) eqn:Hg; [by right|]. left.
  apply list_elem_of_lookup in Ht as [i Hi].
  destruct (ci_kept _ _ _ (coalesce_tail_inv len (tail_of p)) i t Hi Hg) as [H|H]; [congruence|].
  rewrite <- (tail_of_back p Hp). apply list_elem_of_fmap. exists t.
  split; [destruct b; simpl in *; congruence|]. by eapply list_elem_of_lookup_2.
Qed.

Lemma requeued_length len wall p b t n :
  Forall (λ b, (0 < length (pb_ops b) ≤ n)%nat) p →
  pb_ops b ≠ [] → t ∈ co_tail (coalesce_tail len (tail_of p)) → requeued_as wall t b →
  (0 < length (pb_ops b) ≤ n)%nat.
Proof.
  intros Hp Hne Ht (Hops & _). split; [by destruct (pb_ops b); [|simpl; lia]|].
  apply list_elem_of_lookup in Ht as [i Hi].
  pose proof (f_equal (λ l, l !! i) (ci_batches _ _ _ (coalesce_tail_inv len (tail_of p)))) as Hs.
  simpl in Hs. rewrite !list_lookup_fmap, Hi in Hs. simpl in Hs.
  unfold tail_of in Hs. rewrite list_lookup_fmap in Hs.
  destruct (p !! i) as [b0|] eqn:E; [|done]. simpl in Hs. injection Hs as _ Hl.
  rewrite length_fmap in Hl. rewrite Forall_lookup in Hp. specialize (Hp _ _ E). simpl in Hp.
  rewrite Hops. pose proof (length_omap_le id (tb_ops t)). lia.
Qed.

(** What compaction does: the sent prefix stays, the unsent tail is rewritten
    to batches with the same effect on every row and [n] fewer ops. *)
Lemma coalesce_unsent_spec len wall d :
  let start := unsent_start (rd_pending d) in
  let d' := (coalesce_unsent len wall d).1 in
  same_truth d' d ∧
  ∃ bs, rd_pending d' = take start (rd_pending d) ++ bs ∧
    (∀ k row, apply_all row (filter (has_key k) (pending_ops_of bs)) =
              apply_all row (filter (has_key k) (pending_ops_of (drop start (rd_pending d))))) ∧
    (length (pending_ops_of bs) + (coalesce_unsent len wall d).2 =
       length (pending_ops_of (drop start (rd_pending d))))%nat ∧
    Forall (λ b, pb_in_flight b = false ∧
                 requeued_from wall (drop start (rd_pending d)) b) bs ∧
    (∀ n, Forall (λ b, (0 < length (pb_ops b) ≤ n)%nat) (drop start (rd_pending d)) →
          Forall (λ b, (0 < length (pb_ops b) ≤ n)%nat) bs).
Proof.
  cbv zeta. unfold coalesce_unsent. set (start := unsent_start (rd_pending d)).
  destruct (unsent_split (rd_pending d)) as [Hflight _]. fold start in Hflight.
  assert (∃ bs, rd_pending d = take start (rd_pending d) ++ bs ∧ bs = drop start (rd_pending d) ∧
    Forall (λ b, pb_in_flight b = false ∧ requeued_from wall bs b) bs) as Hsame.
  { exists (drop start (rd_pending d)). rewrite take_drop. split_and!; [done..|].
    rewrite Forall_forall in Hflight |- *. intros b Hb. split; [by apply Hflight|by left]. }
  destruct (Nat.ltb_spec (length (rd_pending d) - start) 2) as [Hs|Hs].
  { split; [done|]. destruct Hsame as (bs & Hp & -> & Hf). eexists. split; [exact Hp|].
    split_and!; [done..|simpl; lia|done|done]. }
  fold (tail_of (drop start (rd_pending d))).
  set (tail := tail_of (drop start (rd_pending d))).
  pose proof (coalesce_tail_effect len tail) as He. pose proof (coalesce_tail_count len tail) as Hc.
  pose proof (coalesce_tail_inv len tail) as Hi.
  set (st := coalesce_tail len tail) in *. rewrite <- tail_of_ops. fold tail.
  destruct (Nat.eqb_spec (co_folded st) 0) as [H0|H0]; cbn [fst snd].
  - split; [done|]. destruct Hsame as (bs & Hp & -> & Hf).
    exists (drop start (rd_pending d)).
    rewrite (ci_zero _ _ _ Hi H0). subst tail. rewrite tail_of_ops in *.
    split_and!; [|done|lia|done|done]. cbn [rd_pending set_pending]. f_equal.
    by apply tail_of_back.
  - destruct (requeue_all_spec wall (co_tail st) (set_pending (take start (rd_pending d)) d))
      as [Ht (bs & Hp & Hops & Hb)].
    split; [by destruct Ht|]. exists bs. fold (pending_ops_of bs) in Hops. rewrite Hops.
    split_and!; [exact Hp|done|lia| |].
    + eapply Forall_impl; [exact Hb|]. intros b [Hne (t & Ht' & Hr)].
      by eapply requeued_kept.
    + intros n Hn. eapply Forall_impl; [exact Hb|]. intros b [Hne (t & Ht' & Hr)].
      by eapply requeued_length.
Qed.

(** ** The invariant of a replica *)

Record doc_wf (d : RegistryDoc) : Prop := {
  dw_keyed kind id r : auth_row (rd_authoritative d) kind id = Some r →
    row_kind r = kind ∧ row_id r = id;
  dw_rows kind id r : auth_row (rd_authoritative d) kind id = Some r → row_wf r;
  dw_local : rd_local_only d = true → rd_pending d = [];
  dw_batches : Forall (λ b, (0 < length (pb_ops b) ≤ MAX_OPS_PER_BATCH)%nat) (rd_pending d)
}.

Lemma new_doc_wf device : doc_wf (new_doc device).
Proof. split; simpl; [by intros ???; unfold auth_row; rewrite lookup_empty..|done|constructor]. Qed.

(** Folding an op into the server truth is applying it to its row. *)
Lemma auth_row_fold_op d op kind id :
  doc_wf d →
  auth_row (rd_authoritative (fold_op d op)) kind id =
    if decide (has_key (kind, id) op) then apply_row (auth_row (rd_authoritative d) kind id) op
    else auth_row (rd_authoritative d) kind id.
Proof.
  intros Hwf. set (base := auth_row (rd_authoritative d) (op_kind op) (op_id op)).
  assert (auth_row (rd_authoritative (fold_op d op)) kind id =
    if decide (has_key (kind, id) op) then apply_row base op
    else auth_row (rd_authoritative d) kind id) as ->.
  2:{ case_decide as Hk; [|done]. by injection Hk as <- <-. }
  unfold fold_op. fold base. destruct (apply_op base op) as [[next|] [|]] eqn:E.
  - simpl. rewrite auth_row_put.
    assert (apply_row base op = Some next) as Ha by (unfold apply_row; by rewrite E).
    destruct (apply_row_identity _ _ _ Ha) as [H1 H2]. rewrite Ha.
    assert (row_kind next = op_kind op ∧ row_id next = op_id op) as [Hk Hi].
    { destruct base as [r|] eqn:Eb; [|done].
      destruct (dw_keyed _ Hwf _ _ _ Eb) as [<- <-]. done. }
    unfold has_key, op_key. rewrite Hk, Hi. repeat case_decide; naive_solver.
  - apply apply_op_unchanged in E as E'. unfold apply_row. rewrite E. simpl. rewrite E'.
    case_decide as Hk; [|done]. injection Hk as <- <-. done.
  - unfold apply_row. rewrite E. case_decide as Hk; [|done]. injection Hk as <- <-. simpl.
    unfold apply_op in E. fold base. destruct base as [r|]; [|done].
    destruct (op_op op), (row_deleted r); simpl in E; repeat case_match; done.
  - apply apply_op_unchanged in E as E'. unfold apply_row. rewrite E. simpl. rewrite E'.
    case_decide as Hk; [|done]. injection Hk as <- <-. done.
Qed.

Lemma fold_op_frame d op :
  rd_pending (fold_op d op) = rd_pending d ∧ rd_local_only (fold_op d op) = rd_local_only d ∧
  rd_local_writes (fold_op d op) = rd_local_writes d ∧
  rd_server_seq (fold_op d op) = rd_server_seq d.
Proof. unfold fold_op. by destruct (apply_op _ _) as [[?|] []]. Qed.

(** The part of the invariant about the server truth. *)
Definition truth_wf (m : row_map) : Prop :=
  ∀ kind id r, auth_row m kind id = Some r → row_kind r = kind ∧ row_id r = id ∧ row_wf r.

Lemma doc_wf_truth d : doc_wf d → truth_wf (rd_authoritative d).
Proof.
  intros [Hk Hr _ _] kind id r H. destruct (Hk _ _ _ H). split_and!; [done..|]. by eapply Hr.
Qed.

Lemma doc_wf_intro d :
  truth_wf (rd_authoritative d) →
  (rd_local_only d = true → rd_pending d = []) →
  Forall (λ b, (0 < length (pb_ops b) ≤ MAX_OPS_PER_BATCH)%nat) (rd_pending d) → doc_wf d.
Proof.
  intros Ht Hl Hb. split; [| |done|done].
  - intros kind id r H. by destruct (Ht _ _ _ H) as (? & ? & _).
  - intros kind id r H. by destruct (Ht _ _ _ H) as (_ & _ & ?).
Qed.

Lemma truth_wf_empty : truth_wf ∅.
Proof. intros kind id r. unfold auth_row. by rewrite lookup_empty. Qed.

Lemma truth_wf_put r m : row_wf r → truth_wf m → truth_wf (put_row r m).
Proof.
  intros Hr Hm kind id r'. rewrite auth_row_put. case_decide as Hk; [|apply Hm].
  intros [= <-]. by destruct Hk.
Qed.

Lemma truth_wf_puts rows m : Forall row_wf rows → truth_wf m → truth_wf (put_rows rows m).
Proof.
  intros Hr. unfold put_rows. revert m. induction Hr as [|r rows Hr _ IH]; intros m Hm; [done|].
  simpl. by apply IH, truth_wf_put.
Qed.

Lemma fold_op_wf d op : doc_wf d → doc_wf (fold_op d op).
Proof.
  intros Hwf. destruct (fold_op_frame d op) as (Hp & Hl & _).
  apply doc_wf_intro; rewrite ?Hp, ?Hl; [|apply Hwf..].
  intros kind id r. rewrite auth_row_fold_op by done.
  destruct (decide (has_key (kind, id) op)) as [Hk|]; [|by apply doc_wf_truth].
  injection Hk as <- <-. intros Ha.
  pose proof (doc_wf_truth _ Hwf (op_kind op) (op_id op)) as Ht.
  destruct (apply_row_identity _ _ _ Ha) as [-> ->].
  assert (row_wf r) as Hr.
  { eapply apply_row_wf; [|exact Ha]. intros r0 H0. by destruct (Ht _ H0) as (_ & _ & ?). }
  destruct (auth_row (rd_authoritative d) (op_kind op) (op_id op)) as [r0|]; simpl; [|done].
  by destruct (Ht _ eq_refl) as (-> & -> & _).
Qed.

Lemma fold_ops_spec ops d :
  doc_wf d →
  doc_wf (fold_left fold_op ops d) ∧
  (∀ kind id, auth_row (rd_authoritative (fold_left fold_op ops d)) kind id =
     apply_all (auth_row (rd_authoritative d) kind id) (filter (has_key (kind, id)) ops)) ∧
  rd_pending (fold_left fold_op ops d) = rd_pending d ∧
  rd_local_only (fold_left fold_op ops d) = rd_local_only d.
Proof.
  revert d; induction ops as [|op ops IH]; intros d Hwf; [done|]. simpl.
  destruct (IH (fold_op d op) (fold_op_wf _ _ Hwf)) as (H1 & H2 & H3 & H4).
  destruct (fold_op_frame d op) as (Hp & Hl & _). rewrite H3, H4, Hp, Hl.
  split_and!; [done| |done|done]. intros kind id. rewrite H2, auth_row_fold_op by done.
  rewrite filter_cons. by case_decide.
Qed.

(** ** Enqueueing *)

Lemma enqueue_chunks_spec wall fuel ops d :
  (length ops ≤ fuel)%nat →
  let d' := enqueue_chunks wall fuel ops d in
  same_truth d' d ∧
  ∃ bs, rd_pending d' = rd_pending d ++ bs ∧ pending_ops_of bs = ops ∧
    Forall (λ b, (0 < length (pb_ops b) ≤ MAX_OPS_PER_BATCH)%nat) bs.
Proof.
  revert ops d; induction fuel as [|fuel IH]; intros ops d Hf; cbn [enqueue_chunks].
  { destruct ops; [|simpl in Hf; lia]. split; [done|]. exists []. by rewrite app_nil_r. }
  destruct (bool_decide_reflect (ops = [])) as [->|Hne].
  { split; [done|]. exists []. by rewrite app_nil_r. }
  pose proof (next_hlc_truth wall d) as Ht. pose proof (next_hlc_pending wall d) as Hp.
  destruct (next_hlc wall d) as [hlc d1]. cbn [fst snd] in *.
  assert (0 < length ops)%nat as Hpos by (destruct ops; [done|simpl; lia]).
  edestruct (IH (drop MAX_OPS_PER_BATCH ops)) as [Ht' (bs & Hbs & Hops & Hall)].
  { rewrite length_drop. unfold MAX_OPS_PER_BATCH. lia. }
  split; [etrans; [exact Ht'|by destruct Ht]|].
  exists (mkBatch ("b-" +:+ hlc) (take MAX_OPS_PER_BATCH ops) false :: bs).
  split_and!.
  - etrans; [exact Hbs|]. cbn [rd_pending set_pending]. by rewrite Hp, <- app_assoc.
  - unfold pending_ops_of in *. simpl. etrans; [|apply (take_drop MAX_OPS_PER_BATCH)]. by f_equal.
  - constructor; [|done]. cbn [pb_ops]. rewrite length_take. unfold MAX_OPS_PER_BATCH in *. lia.
Qed.

(** The queue and the truth of a doc determine what its rows display. *)
Lemma raw_row_ext d1 d2 kind id :
  same_truth d1 d2 →
  (∀ k row, apply_all row (filter (has_key k) (pending_ops d1)) =
            apply_all row (filter (has_key k) (pending_ops d2))) →
  raw_row d1 kind id = raw_row d2 kind id.
Proof. intros [_ Ha _ _ _ _] H. by rewrite !raw_row_keys, Ha, H. Qed.

Lemma coalesce_unsent_raw len wall d kind id :
  raw_row (coalesce_unsent len wall d).1 kind id = raw_row d kind id.
Proof.
  destruct (coalesce_unsent_spec len wall d) as [Ht (bs & Hp & He & _)].
  apply raw_row_ext; [done|]. intros k row. unfold pending_ops. rewrite Hp.
  rewrite pending_ops_of_app, filter_app, apply_all_app, He.
  rewrite <- apply_all_app, <- filter_app, <- pending_ops_of_app. by rewrite take_drop.
Qed.

Lemma coalesce_unsent_wf len wall d : doc_wf d → doc_wf (coalesce_unsent len wall d).1.
Proof.
  intros Hwf. destruct (coalesce_unsent_spec len wall d) as [Ht (bs & Hp & _ & _ & _ & Hb)].
  destruct Ht as [_ Ha _ _ Hl _]. apply doc_wf_intro; rewrite ?Ha, ?Hl, ?Hp.
  - by apply doc_wf_truth.
  - intros H. pose proof (dw_local _ Hwf H) as Hn. rewrite Hn in *. simpl in *.
    specialize (Hb 0%nat ltac:(constructor)). destruct bs as [|b bs]; [done|].
    apply Forall_cons in Hb as [Hb _]. lia.
  - apply Forall_app. split; [apply Forall_take, Hwf|]. apply Hb, Forall_drop, Hwf.
Qed.

(** What enqueueing ops means for the rows a device displays. *)
Lemma enqueue_ops_spec len wall ops d :
  doc_wf d →
  doc_wf (enqueue_ops len wall ops d) ∧
  ∀ kind id, raw_row (enqueue_ops len wall ops d) kind id =
    apply_all (raw_row d kind id) (filter (has_key (kind, id)) ops).
Proof.
  intros Hwf. unfold enqueue_ops. destruct (bool_decide_reflect (ops = [])) as [->|Hne]; [done|].
  destruct (rd_local_only d) eqn:Hl.
  - pose proof (dw_local _ Hwf Hl) as Hnil.
    assert (doc_wf (set_modes true true (bump d))) as Hwf'.
    { apply doc_wf_intro; [exact (doc_wf_truth _ Hwf)|by intros _|apply Hwf]. }
    destruct (fold_ops_spec ops _ Hwf') as (H1 & H2 & H3 & _). split; [done|].
    intros kind id. rewrite !raw_row_keys, H2. unfold pending_ops. rewrite H3.
    cbn [rd_pending rd_authoritative set_modes bump]. by rewrite Hnil.
  - destruct (enqueue_chunks_spec wall (length ops) ops (bump d) ltac:(done))
      as [Ht (bs & Hp & Hops & Hb)].
    split.
    + apply coalesce_unsent_wf. destruct Ht as [_ Ha _ _ Hlo _].
      apply doc_wf_intro; rewrite ?Ha, ?Hlo, ?Hp;
        [exact (doc_wf_truth _ Hwf)|simpl; congruence|].
      apply Forall_app. split; [apply Hwf|done].
    + intros kind id. rewrite coalesce_unsent_raw, !raw_row_keys.
      destruct Ht as [_ -> _ _ _ _]. unfold pending_ops. rewrite Hp.
      by rewrite pending_ops_of_app, Hops, filter_app, apply_all_app.
Qed.


(** ** Enumerating the rows *)

Lemma all_rows_lookup m r :
  r ∈ all_rows m ↔ ∃ kind id, auth_row m kind id = Some r.
Proof.
  unfold all_rows, auth_row. rewrite list_elem_of_bind. split.
  - intros ([kind by_id] & Hr & Hin). apply elem_of_map_to_list in Hin.
    apply list_elem_of_fmap in Hr as ([id r'] & -> & Hr). apply elem_of_map_to_list in Hr.
    exists kind, id. by rewrite Hin.
  - intros (kind & id & H). destruct (m !! kind) as [by_id|] eqn:E; [|done]. simpl in H.
    exists (kind, by_id). split; [|by apply elem_of_map_to_list].
    apply list_elem_of_fmap. exists (id, r). split; [done|]. by apply elem_of_map_to_list.
Qed.

Lemma row_to_seed_op_key r : op_key (row_to_seed_op r) = (row_kind r, row_id r).
Proof. unfold row_to_seed_op. by destruct (row_deleted r). Qed.

(** Rows of other keys contribute nothing. *)
Lemma seeds_other_key kind id rows :
  (∀ r, r ∈ rows → ¬ (row_kind r = kind ∧ row_id r = id)) →
  filter (has_key (kind, id)) (row_to_seed_op <$> rows) = [].
Proof.
  intros H. induction rows as [|r rows IH]; [done|]. rewrite fmap_cons, filter_cons_False.
  - apply IH. intros. apply H. by right.
  - unfold has_key. rewrite row_to_seed_op_key. intros [= <- <-]. by eapply H; [left|].
Qed.

(** The seeds of a keyed truth hold exactly one op per row. *)
Lemma seed_ops_filter m kind id :
  truth_wf m →
  filter (has_key (kind, id)) (seed_ops m) =
    option_list (row_to_seed_op <$> auth_row m kind id).
Proof.
  intros Hm. unfold seed_ops, all_rows. unfold auth_row in *.
  destruct (m !! kind) as [by_id|] eqn:Ek; simpl.
  2:{ apply seeds_other_key. intros r Hr [Hk Hi]. apply all_rows_lookup in Hr as (k & i & Hr).
      destruct (Hm _ _ _ Hr) as (<- & <- & _). subst. unfold auth_row in Hr. by rewrite Ek in Hr. }
  assert (∀ (l : list (string * RegistryRow)) (rest : list RegistryRow),
    (row_to_seed_op <$> l.*2 ++ rest) = (row_to_seed_op <$> l.*2) ++ (row_to_seed_op <$> rest)) as Happ.
  { intros. by rewrite fmap_app. }
  pose proof (map_to_list_delete m kind by_id Ek) as Hperm.
  assert (∀ i r, by_id !! i = Some r → row_kind r = kind ∧ row_id r = i) as Hrow.
  { intros i r Hr. destruct (Hm kind i r) as (? & ? & _); [|done]. unfold auth_row. by rewrite Ek. }
  set (f := λ '(_, by_id0), (map_to_list by_id0).*2) in *.
  assert (map_to_list m ≫= f ≡ₚ (map_to_list by_id).*2 ++ (map_to_list (delete kind m) ≫= f))
    as Hp by (rewrite <- Hperm; done).
  apply (fmap_Permutation row_to_seed_op), (filter_Permutation (has_key (kind, id))) in Hp.
  rewrite Happ, filter_app in Hp.
  rewrite (seeds_other_key _ _ (map_to_list (delete kind m) ≫= f)), app_nil_r in Hp.
  2:{ intros r Hr [Hk Hi]. apply all_rows_lookup in Hr as (k & i & Hr). unfold auth_row in Hr.
      destruct (decide (k = kind)) as [->|Hne]; [by rewrite lookup_delete_eq in Hr|].
      rewrite lookup_delete_ne in Hr by done. destruct (Hm k i r Hr) as (? & _). congruence. }
  destruct (by_id !! id) as [r|] eqn:Ei; simpl.
  - rewrite <- (map_to_list_delete by_id id r Ei), !fmap_cons in Hp. cbn [snd] in Hp.
    assert (row_kind r = kind ∧ row_id r = id) as [<- <-].
    { by apply Hrow. }
    rewrite filter_cons_True in Hp by (unfold has_key; apply row_to_seed_op_key).
    rewrite (seeds_other_key _ _ (map_to_list (delete (row_id r) by_id)).*2) in Hp;
      [by apply Permutation_singleton_r in Hp|].
    intros r' Hr' [Hk Hi]. apply list_elem_of_fmap in Hr' as ([i r''] & -> & Hr').
    apply elem_of_map_to_list in Hr'. simpl in *. apply lookup_delete_Some in Hr' as [Hne Hr'].
    destruct (Hrow _ _ Hr'). congruence.
  - rewrite (seeds_other_key _ _ (map_to_list by_id).*2) in Hp;
      [by apply Permutation_nil_r in Hp|].
    intros r' Hr' [Hk Hi]. apply list_elem_of_fmap in Hr' as ([i r''] & -> & Hr').
    apply elem_of_map_to_list in Hr'. simpl in *.
    destruct (Hrow _ _ Hr'). congruence.
Qed.

(** What the server will see of a row: the queue's effect on it. *)
Definition queue_effect (d : RegistryDoc) (kind id : string) (row : option RegistryRow)
    : option RegistryRow :=
  apply_all row (filter (has_key (kind, id)) (pending_ops d)).

Lemma raw_queue_effect d kind id :
  raw_row d kind id = queue_effect d kind id (auth_row (rd_authoritative d) kind id).
Proof. apply raw_row_keys. Qed.

Lemma enqueue_queue_effect len wall ops d kind id row :
  rd_local_only d = false →
  same_truth (enqueue_ops len wall ops d) d ∧
  queue_effect (enqueue_ops len wall ops d) kind id row =
    apply_all (queue_effect d kind id row) (filter (has_key (kind, id)) ops).
Proof.
  intros Hl. unfold enqueue_ops, queue_effect.
  destruct (bool_decide_reflect (ops = [])) as [->|Hne]; [done|]. rewrite Hl.
  destruct (enqueue_chunks_spec wall (length ops) ops (bump d) ltac:(done))
    as [Ht (bs & Hp & Hops & Hb)].
  set (d1 := enqueue_chunks _ _ _ _) in *.
  destruct (coalesce_unsent_spec len wall d1) as [Ht' (bs' & Hp' & He & _)].
  split; [etrans; [exact Ht'|]; by destruct Ht|]. unfold pending_ops. rewrite Hp'.
  rewrite pending_ops_of_app, filter_app, apply_all_app, He.
  rewrite <- apply_all_app, <- filter_app, <- pending_ops_of_app, take_drop, Hp.
  by rewrite pending_ops_of_app, Hops, filter_app, apply_all_app.
Qed.

(** A row absorbs its own seed. *)
Lemma seed_self r : row_wf r → apply_row (Some r) (row_to_seed_op r) = Some r.
Proof.
  intros [Hv Hc Hdead]. destruct (row_deleted r) eqn:Hd.
  - destruct (Hdead eq_refl) as (_ & _ & h & Hh).
    rewrite apply_row_delete by (unfold row_to_seed_op; by rewrite Hd).
    unfold row_to_seed_op. rewrite Hd, Hh. simpl.
    by rewrite str_ltb_irrefl.
  - rewrite apply_row_live by (unfold row_to_seed_op; by rewrite Hd). f_equal.
    apply row_ext_cells; [apply written_frame|]. intros k. rewrite written_cell.
    unfold op_cell, op_writes, clock_for, row_to_seed_op. rewrite Hd. simpl.
    destruct (row_fields r !! k) as [v|] eqn:E; simpl; [|done].
    destruct (Hc _ _ E) as [c Hck]. rewrite Hck. unfold row_cell. simpl. rewrite Hck. simpl.
    by rewrite str_ltb_irrefl.
Qed.

Lemma seed_ops_self m kind id :
  truth_wf m →
  apply_all (auth_row m kind id) (filter (has_key (kind, id)) (seed_ops m)) = auth_row m kind id.
Proof.
  intros Hm. rewrite seed_ops_filter by done. destruct (auth_row m kind id) as [r|] eqn:E; [|done].
  simpl. apply seed_self. by destruct (Hm _ _ _ E) as (_ & _ & ?).
Qed.

Lemma fold_batches p d :
  fold_left (λ d batch, fold_left fold_op (pb_ops batch) d) p d = fold_left fold_op (pending_ops_of p) d.
Proof.
  revert d; induction p as [|b p IH]; intros d; [done|]. simpl. unfold pending_ops_of. simpl.
  by rewrite fold_left_app, IH.
Qed.

Lemma set_local_only_wf len wall b d : doc_wf d → doc_wf (set_local_only len wall b d).
Proof.
  intros Hwf. unfold set_local_only. destruct b.
  - destruct (bool_decide_reflect (rd_pending (set_modes true (rd_local_writes d) d) = [])).
    + apply doc_wf_intro; [exact (doc_wf_truth _ Hwf)|done|constructor].
    + rewrite fold_batches. apply fold_ops_spec.
      apply doc_wf_intro; [exact (doc_wf_truth _ Hwf)|done|constructor].
  - destruct (rd_local_writes (set_modes false (rd_local_writes d) d)).
    + apply enqueue_ops_spec. apply doc_wf_intro; [exact (doc_wf_truth _ Hwf)|done|apply Hwf].
    + apply doc_wf_intro; [exact (doc_wf_truth _ Hwf)|done|apply Hwf].
Qed.

(** Switching local-only mode on or off changes no displayed row; entering
    it leaves no queue, and leaving it after local-only writes queues, for
    every row, what rebuilds it on a server that never saw it. *)
Theorem set_local_only_exact len wall b d
  (Hwf : doc_wf d) (Hw : rd_local_writes d = true → rd_pending d = []) :
  let d' := set_local_only len wall b d in
  (∀ kind id, overlay_row d' kind id = overlay_row d kind id) ∧
  (b = true → rd_pending d' = []) ∧
  (b = false → rd_local_writes d = true → ∀ kind id r,
     auth_row (rd_authoritative d) kind id = Some r →
     queue_effect d' kind id None = apply_row None (row_to_seed_op r)).
Proof.
  cbv zeta. unfold set_local_only. destruct b.
  - assert (doc_wf (set_modes true true (bump (set_pending [] (set_modes true (rd_local_writes d) d)))))
      as Hwf' by (apply doc_wf_intro; [exact (doc_wf_truth _ Hwf)|done|constructor]).
    destruct (fold_ops_spec (pending_ops d) _ Hwf') as (_ & Ha & Hp & _).
    destruct (bool_decide_reflect (rd_pending (set_modes true (rd_local_writes d) d) = []))
      as [He|He]; simpl in He.
    + split_and!; [|done|done]. intros kind id. rewrite !overlay_row_raw, !raw_row_keys.
      unfold pending_ops. simpl. by rewrite He.
    + rewrite fold_batches. change (pending_ops_of _) with (pending_ops d). split_and!; [|by rewrite Hp|done].
      intros kind id. rewrite !overlay_row_raw, !raw_row_keys. unfold pending_ops at 2.
      by rewrite Ha, Hp.
  - destruct (rd_local_writes (set_modes false (rd_local_writes d) d)) eqn:E; simpl in E.
    2:{ split_and!; [done|done|congruence]. }
    specialize (Hw E).
    split_and!; [|done|].
    + intros kind id. rewrite !overlay_row_raw. rewrite !raw_queue_effect.
      destruct (enqueue_queue_effect len wall (seed_ops (rd_authoritative d))
        (set_modes false false (set_modes false (rd_local_writes d) d)) kind id
        (auth_row (rd_authoritative d) kind id) eq_refl) as [Ht He].
      destruct Ht as [_ Ha _ _ _ _]. cbn [rd_authoritative set_modes] in *.
      rewrite Ha, He. unfold queue_effect, pending_ops. simpl. rewrite Hw. simpl.
      by rewrite seed_ops_self by (by apply doc_wf_truth).
    + intros _ _ kind id r Hr.
      destruct (enqueue_queue_effect len wall (seed_ops (rd_authoritative d))
        (set_modes false false (set_modes false (rd_local_writes d) d)) kind id None eq_refl) as [_ He].
      cbn [rd_authoritative set_modes] in *. rewrite He.
      unfold queue_effect, pending_ops. simpl. rewrite Hw. simpl.
      by rewrite seed_ops_filter, Hr by (by apply doc_wf_truth).
Qed.

(** ** Server frames *)

Definition missing_from (incoming : row_map) (r : RegistryRow) : Prop :=
  auth_row incoming (row_kind r) (row_id r) = None.
#[export] Instance missing_from_dec incoming r : Decision (missing_from incoming r).
Proof. unfold missing_from. apply _. Defined.

Lemma missing_seeds_of_kind incoming kind (l : list (string * RegistryRow)) :
  (∀ id r, (id, r) ∈ l → row_kind r = kind ∧ row_id r = id) →
  ('(id, row) ← l;
   if bool_decide (is_Some (auth_row incoming kind id)) then [] else [row_to_seed_op row]) =
  row_to_seed_op <$> filter (missing_from incoming) l.*2.
Proof.
  induction l as [|[id r] l IH]; intros H; [done|].
  destruct (H id r ltac:(left)) as [Hk Hi]. specialize (IH ltac:(intros; apply H; by right)).
  rewrite fmap_cons, filter_cons. cbn [snd mbind list_bind].
  destruct (decide (missing_from incoming r)) as [Hm|Hm]; unfold missing_from in Hm;
    rewrite Hk, Hi in Hm.
  - rewrite Hm. simpl. by f_equal.
  - destruct (auth_row incoming kind id) eqn:E; [|done]. exact IH.
Qed.

Lemma missing_seeds incoming m :
  truth_wf m →
  ('(kind, by_id) ← map_to_list m; '(id, row) ← map_to_list by_id;
   if bool_decide (is_Some (auth_row incoming kind id)) then [] else [row_to_seed_op row]) =
  row_to_seed_op <$> filter (missing_from incoming) (all_rows m).
Proof.
  intros Hm. unfold all_rows.
  assert (∀ kind by_id, (kind, by_id) ∈ map_to_list m →
    ∀ id r, (id, r) ∈ map_to_list by_id → row_kind r = kind ∧ row_id r = id) as Hl.
  { intros kind by_id Hin id r Hr. apply elem_of_map_to_list in Hin, Hr.
    destruct (Hm kind id r) as (? & ? & _); [|done]. unfold auth_row. by rewrite Hin. }
  induction (map_to_list m) as [|[kind by_id] l IH]; [done|].
  cbn [mbind list_bind]. rewrite filter_app, fmap_app. f_equal.
  - apply missing_seeds_of_kind. apply Hl. left.
  - apply IH. intros. eapply Hl; [by right|done].
Qed.

Lemma filter_missing_seeds incoming kind id rows :
  filter (has_key (kind, id)) (row_to_seed_op <$> filter (missing_from incoming) rows) =
  if decide (auth_row incoming kind id = None)
  then filter (has_key (kind, id)) (row_to_seed_op <$> rows) else [].
Proof.
  induction rows as [|r rows IH]; [by case_decide|].
  rewrite filter_cons, fmap_cons.
  assert (has_key (kind, id) (row_to_seed_op r) ↔ row_kind r = kind ∧ row_id r = id) as Hkey.
  { unfold has_key. rewrite row_to_seed_op_key. split; [by intros [= -> ->]|by intros [-> ->]]. }
  destruct (decide (has_key (kind, id) (row_to_seed_op r))) as [Hk|Hk].
  - rewrite (filter_cons_True _ (row_to_seed_op r)) by done. apply Hkey in Hk as [<- <-].
    destruct (decide (missing_from incoming r)) as [Hm|Hm].
    + rewrite fmap_cons, filter_cons_True by (by apply Hkey).
      unfold missing_from in Hm. by rewrite IH, !decide_True.
    + rewrite IH. unfold missing_from in Hm. by rewrite !decide_False.
  - rewrite (filter_cons_False _ (row_to_seed_op r)), <- IH by done.
    destruct (decide (missing_from incoming r)); [|done]. by rewrite fmap_cons, filter_cons_False.
Qed.

(** The ops a full state makes the replica queue for a row. *)
Definition reseeds_of (incoming : row_map) (d : RegistryDoc) (behind : bool) (kind id : string)
    : list RowOp :=
  if behind || bool_decide (auth_row incoming kind id = None)
  then option_list (row_to_seed_op <$> auth_row (rd_authoritative d) kind id) else [].

Lemma apply_state_full_spec len wall seq floor rows d :
  doc_wf d → rd_local_only d = false →
  let behind := seq <? rd_server_seq d in
  let '(d', outcome) := apply_state len wall seq true floor rows d in
  rd_server_seq d' = seq ∧ rd_gc_floor d' = floor ∧ rd_local_only d' = false ∧
  rd_authoritative d' = put_rows rows (if behind then rd_authoritative d else ∅) ∧
  (∀ kind id row, queue_effect d' kind id row =
     apply_all (queue_effect d kind id row) (reseeds_of (put_rows rows ∅) d behind kind id)) ∧
  (outcome = Replaced → ∀ kind id, reseeds_of (put_rows rows ∅) d behind kind id = []).
Proof.
  intros Hwf Hl. cbv zeta. pose proof (doc_wf_truth _ Hwf) as Htr.
  unfold apply_state. cbn [negb]. change (rd_server_seq (bump d)) with (rd_server_seq d).
  change (rd_authoritative (bump d)) with (rd_authoritative d).
  assert (∀ m ops, let d0 := set_cursor seq floor (set_authoritative m (bump d)) in
    let d' := if bool_decide (ops = []) then d0 else enqueue_ops len wall ops d0 in
    rd_server_seq d' = seq ∧ rd_gc_floor d' = floor ∧ rd_local_only d' = false ∧
    rd_authoritative d' = m ∧
    (∀ kind id row, queue_effect d' kind id row =
       apply_all (queue_effect d kind id row) (filter (has_key (kind, id)) ops))) as Henq.
  { intros m ops d0. cbv zeta. destruct (bool_decide_reflect (ops = [])) as [->|Hne]; [done|].
    destruct (enqueue_queue_effect len wall ops d0 "" "" None Hl) as [[_ ? ? ? Hlo _] _].
    split_and!; [done..|exact (eq_trans Hlo Hl)|done|].
    intros kind id row. by destruct (enqueue_queue_effect len wall ops d0 kind id row Hl). }
  destruct (seq <? rd_server_seq d) eqn:Hb.
  - destruct (Henq (put_rows rows (rd_authoritative d)) (seed_ops (rd_authoritative d)))
      as (H1 & H2 & H3 & H4 & H5).
    split_and!; [done..| |done]. intros kind id row. rewrite H5. unfold reseeds_of. simpl.
    by rewrite seed_ops_filter.
  - rewrite (missing_seeds _ _ Htr).
    set (seed := row_to_seed_op <$> _).
    destruct (Henq (put_rows rows ∅) seed) as (H1 & H2 & H3 & H4 & H5).
    assert (∀ kind id, filter (has_key (kind, id)) seed =
      reseeds_of (put_rows rows ∅) d false kind id) as Hseed.
    { intros kind id. unfold seed, reseeds_of. rewrite filter_missing_seeds. simpl.
      rewrite bool_decide_decide. destruct (decide _); [|done]. by apply seed_ops_filter. }
    destruct (bool_decide_reflect (seed = [])) as [He|He].
    + split_and!; [done..| |].
      * intros kind id row. by rewrite H5, Hseed.
      * intros _ kind id. by rewrite <- Hseed, He.
    + split_and!; [done..| |done]. intros kind id row. by rewrite H5, Hseed.
Qed.

(** C20: a full state never silently drops a local row: when the server is
    behind, or answers without the row, the replica queues what re-creates it
    there after the ops already queued, and says so; a behind server also
    leaves the row displayed. *)
Theorem apply_state_keeps_rows len wall seq floor rows d kind id r
  (Hwf : doc_wf d) (Hl : rd_local_only d = false)
  (Hr : auth_row (rd_authoritative d) kind id = Some r)
  (Hlost : seq < rd_server_seq d ∨ auth_row (put_rows rows ∅) kind id = None) :
  let '(d', outcome) := apply_state len wall seq true floor rows d in
  outcome = Reseeded ∧ rd_server_seq d' = seq ∧
  queue_effect d' kind id None = apply_row (queue_effect d kind id None) (row_to_seed_op r).
Proof.
  pose proof (apply_state_full_spec len wall seq floor rows d Hwf Hl) as H. cbv zeta in H.
  destruct (apply_state len wall seq true floor rows d) as [d' outcome] eqn:E.
  destruct H as (Hs & _ & _ & _ & Hq & Ho).
  assert (reseeds_of (put_rows rows ∅) d (seq <? rd_server_seq d) kind id = [row_to_seed_op r]) as Hre.
  { unfold reseeds_of. rewrite Hr. destruct Hlost as [Hlt|Hn].
    - apply Z.ltb_lt in Hlt. by rewrite Hlt.
    - rewrite bool_decide_true by done. by rewrite orb_true_r. }
  split_and!; [|done|by rewrite Hq, Hre].
  destruct outcome; [|by rewrite (Ho eq_refl) in Hre|done].
  unfold apply_state in E. cbn [negb] in E. repeat case_match; by simplify_eq.
Qed.

(** The seed goes behind the queue, so an update queued before it meets a
    server without the row and is dropped there, although it is the newest
    write of that field. *)
Section SeedAfterUpdate.
Let row : RegistryRow :=
  mkRow "chats" "c" 3 false None {["title" := Str "old"]} {["title" := "1"]}.
Let update : RowOp := mkOp "chats" "c" Update (Some {["title" := Str "new"]}) "2" None.
Let d : RegistryDoc :=
  mkDoc "dev" {["chats" := {["c" := row]}]} 3 0 HlcClock_default
    [mkBatch "b-2" [update] false] false false 0 0.

Lemma reseed_drops_queued_update :
  let d' := (apply_state (λ _, Some 0) (λ _, 0) 0 true 0 [] d).1 in
  (r ← overlay_row d "chats" "c"; row_fields r !! "title") = Some (Str "new") ∧
  (r ← overlay_row d' "chats" "c"; row_fields r !! "title") = Some (Str "new") ∧
  (r ← queue_effect d' "chats" "c" None; row_fields r !! "title") = Some (Str "old").
Proof. split_and!; by vm_compute. Qed.
End SeedAfterUpdate.

(** ** The cursor *)

(** The [rows] broadcasts a connection delivers, in order. *)
Fixpoint apply_broadcasts (frames : list (Z * list RegistryRow)) (d : RegistryDoc) : RegistryDoc :=
  match frames with
  | [] => d
  | (seq, rows) :: frames => apply_broadcasts frames (apply_rows seq rows d).1
  end.

Lemma apply_rows_cursor seq rows d :
  0 ≤ rd_server_seq d < 2 ^ 64 - 1 →
  rd_server_seq (apply_rows seq rows d).1 =
    (if bool_decide (seq = rd_server_seq d + 1) then seq else rd_server_seq d) ∧
  (apply_rows seq rows d).2 = bool_decide (seq ≤ rd_server_seq d + 1).
Proof.
  intros H. unfold apply_rows. cbn [rd_server_seq set_authoritative bump].
  rewrite wrap_u64_small by (unfold is_u64; lia).
  destruct (Z.ltb_spec (rd_server_seq d + 1) seq).
  { simpl. rewrite !bool_decide_false by lia. done. }
  destruct (Z.ltb_spec (rd_server_seq d) seq); simpl.
  - by rewrite !bool_decide_true by lia.
  - by rewrite bool_decide_false, bool_decide_true by lia.
Qed.

Lemma apply_broadcasts_covers frames d limit :
  0 ≤ rd_server_seq d ≤ limit → limit < 2 ^ 64 - 1 →
  Forall (λ f, f.1 ≤ limit) frames →
  rd_server_seq d ≤ rd_server_seq (apply_broadcasts frames d) ≤ limit ∧
  ∀ s, rd_server_seq d < s ≤ rd_server_seq (apply_broadcasts frames d) → s ∈ frames.*1.
Proof.
  revert d; induction frames as [|[seq rows] frames IH]; intros d Hd Hl Hf; simpl.
  { split; [lia|]. intros. lia. }
  apply Forall_cons in Hf as [Hseq Hf]. simpl in Hseq.
  destruct (apply_rows_cursor seq rows d ltac:(lia)) as [Hc _].
  destruct (bool_decide_reflect (seq = rd_server_seq d + 1)) as [He|He];
    (destruct (IH (apply_rows seq rows d).1) as [Hb Hin]; [rewrite Hc; lia|done|done|]);
    rewrite Hc in *; (split; [lia|]); intros s Hs; [|right; by apply Hin].
  destruct (decide (s = seq)) as [->|Hne]; [left|right; apply Hin; lia].
Qed.


(** An ack retires exactly the batches of that id, keeps the sync cursor
    and the server truth, and reports whether one existed. *)
Theorem ack_batch_exact batch seq d :
  let '(d', existed) := ack_batch batch seq d in
  rd_server_seq d' = rd_server_seq d ∧ rd_authoritative d' = rd_authoritative d ∧
  (∀ b, b ∈ rd_pending d' ↔ b ∈ rd_pending d ∧ pb_batch b ≠ batch) ∧
  (existed = true ↔ ∃ b, b ∈ rd_pending d ∧ pb_batch b = batch).
Proof.
  unfold ack_batch. set (kept := filter _ _).
  assert (∀ b, b ∈ kept ↔ b ∈ rd_pending d ∧ pb_batch b ≠ batch) as Hk.
  { intros b. unfold kept. rewrite list_elem_of_filter. tauto. }
  destruct (decide (Exists (λ b, pb_batch b = batch) (rd_pending d))) as [Hex|Hex].
  - apply Exists_exists in Hex as (b & Hb & Hid).
    assert (length kept < length (rd_pending d))%nat as Hlt.
    { eapply length_filter_lt; [exact Hb|]. tauto. }
    destruct (Nat.eqb_spec (length kept) (length (rd_pending d))); [lia|].
    split_and!; [done..|]. split; [by exists b|done].
  - assert (kept = rd_pending d) as ->.
    { unfold kept. apply list_filter_all. intros b Hb Hid. apply Hex, Exists_exists. by exists b. }
    rewrite Nat.eqb_refl. split_and!; [done|done| |].
    + intros b. simpl. split; [|tauto]. intros Hb. split; [done|]. intros Hid.
      apply Hex, Exists_exists. by exists b.
    + split; [done|]. intros (b & Hb & Hid). exfalso. apply Hex, Exists_exists. by exists b.
Qed.

(** ** Pushing *)

Lemma unsent_start_all p :
  Forall (λ b, pb_in_flight b = true) p → unsent_start p = length p.
Proof.
  induction 1 as [|b p Hb _ IH]; simpl; [done|]. rewrite IH. by destruct p; simpl; [rewrite Hb|].
Qed.

Lemma unsent_start_app p q :
  Forall (λ b, pb_in_flight b = true) p → (length p ≤ unsent_start (p ++ q))%nat.
Proof.
  induction 1 as [|b p Hb _ IH]; simpl; [lia|].
  destruct (unsent_start (p ++ q)) eqn:E; [|lia]. rewrite Hb. lia.
Qed.

(** A push takes every batch not in flight exactly once per connection; a
    disconnect makes all of them pushable again; and writes made meanwhile
    only append to the batches in flight. *)
Theorem take_pushable_once len wall ops d (Hl : rd_local_only d = false) :
  let '(d1, out) := take_pushable d in
  (pb_ops <$> out) = (pb_ops <$> filter (λ b, pb_in_flight b = false) (rd_pending d)) ∧
  (take_pushable d1).2 = [] ∧
  (pb_batch <$> (take_pushable (mark_disconnected d1)).2) = (pb_batch <$> rd_pending d) ∧
  (∃ bs, rd_pending (enqueue_ops len wall ops d1) = rd_pending d1 ++ bs).
Proof.
  unfold take_pushable. set (mark := λ b, mkBatch (pb_batch b) (pb_ops b) true).
  set (d1 := set_pending (mark <$> rd_pending d) d).
  assert (Forall (λ b, pb_in_flight b = true) (rd_pending d1)) as Hfl
    by (by apply Forall_fmap, Forall_true).
  split_and!.
  - by rewrite <- list_fmap_compose.
  - simpl. assert (filter (λ b, pb_in_flight b = false) (mark <$> rd_pending d) = []) as ->; [|done].
    apply list_filter_none. intros b Hb. apply list_elem_of_fmap in Hb as (? & -> & _). done.
  - unfold mark_disconnected. simpl. rewrite list_filter_all.
    + by rewrite <- !list_fmap_compose.
    + intros b Hb. apply list_elem_of_fmap in Hb as (? & -> & _). done.
  - unfold enqueue_ops. destruct (bool_decide (ops = [])); [exists []; by rewrite app_nil_r|].
    change (rd_local_only d1) with (rd_local_only d). rewrite Hl.
    destruct (enqueue_chunks_spec wall (length ops) ops (bump d1) ltac:(done)) as [_ (bs & Hp & _)].
    destruct (coalesce_unsent_spec len wall (enqueue_chunks wall (length ops) ops (bump d1)))
      as [_ (bs' & Hp' & _)].
    rewrite Hp', Hp. change (rd_pending (bump d1)) with (rd_pending d1).
    pose proof (unsent_start_app (rd_pending d1) bs Hfl) as Hst.
    rewrite take_app_ge by done. rewrite <- app_assoc. by eexists.
Qed.

(** ** overlay_rows groups the queue in one pass *)

Definition known_in (authoritative : option (gmap string RegistryRow)) (id : string) : Prop :=
  is_Some (m ← authoritative; m !! id).

Record grouped (authoritative : option (gmap string RegistryRow)) (ops : list RowOp)
    (acc : list string * gmap string (list RowOp)) : Prop := {
  gr_nodup : NoDup acc.1;
  gr_ids id : id ∈ acc.1 ↔ known_in authoritative id ∨ ∃ op, op ∈ ops ∧ op_id op = id;
  gr_ops id : default [] (acc.2 !! id) = filter (λ op, op_id op = id) ops
}.

Lemma group_op_grouped authoritative ops op acc :
  grouped authoritative ops acc → grouped authoritative (ops ++ [op]) (group_op authoritative acc op).
Proof.
  destruct acc as [ids m]. intros [Hn Hi Ho]. cbn [fst snd] in *. unfold group_op.
  rewrite Ho. set (known := bool_decide (is_Some (m0 ← authoritative; m0 !! op_id op))).
  assert (filter (λ o, op_id o = op_id op) ops = [] ↔ ¬ ∃ o, o ∈ ops ∧ op_id o = op_id op) as Hnil.
  { split.
    - intros Hf (o & Hin & Ho'). assert (o ∈ filter (λ o, op_id o = op_id op) ops) as H
        by (by apply list_elem_of_filter). rewrite Hf in H. by apply elem_of_nil in H.
    - intros Hf. apply list_filter_none. intros o Hin Ho'. apply Hf. by exists o. }
  assert (Hin : ∀ id, (∃ o, o ∈ ops ++ [op] ∧ op_id o = id) ↔
                      (∃ o, o ∈ ops ∧ op_id o = id) ∨ op_id op = id).
  { intros id. split.
    - intros (o & [Ho'|Ho']%elem_of_app & <-); [left; eauto|right].
      by apply list_elem_of_singleton in Ho' as ->.
    - intros [(o & ? & ?)|?]; [exists o|exists op]; rewrite elem_of_app, list_elem_of_singleton; auto. }
  assert (known = true ↔ known_in authoritative (op_id op)) as Hkn by apply bool_decide_eq_true.
  split; cbn [fst snd].
  - destruct (bool_decide_reflect (filter (λ o, op_id o = op_id op) ops = [])) as [He|He];
      [|done]. destruct known eqn:Ek; [done|]. simpl. apply NoDup_app. split_and!; [done| |].
    + intros id Hid. rewrite list_elem_of_singleton. intros ->. apply Hi in Hid as [Hid|Hid].
      * apply Hkn in Hid. done.
      * by apply Hnil in He.
    + apply NoDup_singleton.
  - intros id. rewrite Hin.
    destruct (bool_decide_reflect (filter (λ o, op_id o = op_id op) ops = [])) as [He|He];
      [destruct known eqn:Ek|]; simpl; rewrite ?elem_of_app, ?list_elem_of_singleton, Hi.
    + split; [tauto|]. intros [?|[?| <-]]; [by left|by right|left; by apply Hkn].
    + split; [intros [?| ->]; tauto|]. intros [?|[?| <-]]; [by left; left|by left; right|by right].
    + split; [tauto|]. intros [?|[?| <-]]; [by left|by right|right].
      destruct (decide (Exists (λ o, op_id o = op_id op) ops)) as [Hex|Hex];
        [by apply Exists_exists in Hex|].
      exfalso. apply He, Hnil. intros (o & ? & ?). apply Hex, Exists_exists. by exists o.
  - intros id. rewrite filter_app. destruct (decide (op_id op = id)) as [<-|Hne].
    + rewrite lookup_insert_eq. simpl. by rewrite filter_cons_True.
    + rewrite lookup_insert_ne by done. rewrite filter_cons_False by done.
      rewrite app_nil_r. apply Ho.
Qed.

Lemma group_all authoritative ops acc ops0 :
  grouped authoritative ops0 acc →
  grouped authoritative (ops0 ++ ops) (fold_left (group_op authoritative) ops acc).
Proof.
  revert ops0 acc; induction ops as [|op ops IH]; intros ops0 acc H; simpl.
  - by rewrite app_nil_r.
  - rewrite cons_middle, app_assoc. by apply IH, group_op_grouped.
Qed.

Lemma overlay_rows_spec d kind :
  ∃ ids, NoDup ids ∧ overlay_rows d kind = omap (overlay_row d kind) ids ∧
    ∀ id, is_Some (overlay_row d kind id) → id ∈ ids.
Proof.
  unfold overlay_rows. set (authoritative := rd_authoritative d !! kind).
  set (ids0 := default [] ((λ m, (map_to_list m).*1) <$> authoritative)).
  assert (grouped authoritative [] (ids0, ∅)) as H0.
  { unfold ids0, known_in. split; cbn [fst snd].
    - destruct authoritative; simpl; [apply NoDup_fst_map_to_list|constructor].
    - intros id. unfold known_in. destruct authoritative as [m|]; simpl.
      + rewrite list_elem_of_fmap. split.
        * intros ([i r] & -> & Hr). left. apply elem_of_map_to_list in Hr. by exists r.
        * intros [[r Hr]|(? & []%elem_of_nil & _)]. exists (id, r).
          split; [done|]. by apply elem_of_map_to_list.
      + rewrite elem_of_nil. split; [done|]. intros [[? [=]]|(? & []%elem_of_nil & _)].
    - intros id. by rewrite lookup_empty. }
  pose proof (group_all authoritative (filter (λ op, op_kind op = kind) (pending_ops d)) _ _ H0) as H.
  destruct (fold_left _ _ _) as [ids ops]. destruct H as [Hn Hi Ho]. cbn [fst snd app] in *.
  assert (∀ id, default [] (ops !! id) = filter (op_is kind id) (pending_ops d)) as Hop.
  { intros id. rewrite Ho, list_filter_filter. apply list_filter_iff. intros op. unfold op_is. tauto. }
  exists ids. split_and!; [done| |].
  - apply list_omap_ext, Forall_Forall2_diag, Forall_forall. intros id _.
    rewrite Hop. done.
  - intros id [r Hr]. apply Hi. unfold known_in.
    destruct (decide (is_Some (m ← authoritative; m !! id))) as [|Hk]; [by left|right].
    unfold overlay_row, overlay in Hr. unfold auth_row in Hr. fold authoritative in Hr.
    apply eq_None_not_Some in Hk. rewrite Hk in Hr.
    destruct (filter (op_is kind id) (pending_ops d)) as [|op l] eqn:E; [done|].
    exists op. assert (op ∈ filter (op_is kind id) (pending_ops d)) as Hin by (rewrite E; left).
    apply list_elem_of_filter in Hin as [[Hk' Hid] Hin]. split; [|done].
    by apply list_elem_of_filter.
Qed.

Lemma overlay_rows_elem d kind r :
  r ∈ overlay_rows d kind ↔ ∃ id, overlay_row d kind id = Some r.
Proof.
  destruct (overlay_rows_spec d kind) as (ids & _ & -> & Hin).
  rewrite list_elem_of_omap. split; [intros (id & _ & H); eauto|].
  intros [id H]. exists id. split; [apply Hin; eauto|done].
Qed.

(** The grouped read of a kind is the per-row overlay of each of its rows,
    each row once: it holds exactly the rows some id displays. *)
Theorem overlay_rows_exact d kind :
  (∃ ids, NoDup ids ∧ overlay_rows d kind = omap (overlay_row d kind) ids) ∧
  ∀ r, r ∈ overlay_rows d kind ↔ ∃ id, overlay_row d kind id = Some r.
Proof.
  split; [|apply overlay_rows_elem].
  destruct (overlay_rows_spec d kind) as (ids & ? & ? & _). by exists ids.
Qed.

(** ** Snapshots *)

#[export] Instance RegistryRow_eq_dec : EqDecision RegistryRow.
Proof. solve_decision. Defined.

Lemma put_rows_of m rows m0 kind id :
  truth_wf m → (∀ r, r ∈ rows → auth_row m (row_kind r) (row_id r) = Some r) →
  auth_row (put_rows rows m0) kind id =
    match auth_row m kind id with
    | Some r => if decide (r ∈ rows) then Some r else auth_row m0 kind id
    | None => auth_row m0 kind id
    end.
Proof.
  intros Hm. unfold put_rows. revert m0. induction rows as [|r rows IH]; intros m0 Hr; cbn [fold_left].
  { destruct (auth_row m kind id); [|done]. by rewrite decide_False by apply not_elem_of_nil. }
  rewrite IH by (intros; apply Hr; by right). rewrite auth_row_put.
  pose proof (Hr r ltac:(left)) as Hrr.
  destruct (auth_row m kind id) as [r'|] eqn:E.
  - destruct (Hm _ _ _ E) as (<- & <- & _).
    destruct (decide (r' ∈ rows)); [by rewrite decide_True by (by right)|].
    destruct (decide (row_kind r = row_kind r' ∧ row_id r = row_id r')) as [[Hk Hi]|Hne].
    + rewrite Hk, Hi, E in Hrr. injection Hrr as <-. by rewrite decide_True by left.
    + rewrite decide_False; [done|]. rewrite elem_of_cons. intros [->|?]; tauto.
  - rewrite decide_False; [done|]. intros [<- <-]. congruence.
Qed.

Lemma put_all_rows m kind id :
  truth_wf m → auth_row (put_rows (all_rows m) ∅) kind id = auth_row m kind id.
Proof.
  intros Hm. rewrite (put_rows_of m).
  - destruct (auth_row m kind id) as [r|] eqn:E; [|unfold auth_row; by rewrite lookup_empty].
    rewrite decide_True; [done|]. apply all_rows_lookup. eauto.
  - done.
  - intros r Hr. apply all_rows_lookup in Hr as (k & i & Hr).
    by destruct (Hm _ _ _ Hr) as (-> & -> & _).
Qed.

Lemma pending_reload p :
  pending_ops_of ((λ b, mkBatch (pb_batch b) (pb_ops b) false) <$> p) = pending_ops_of p.
Proof. unfold pending_ops_of. by rewrite <- list_fmap_compose. Qed.

(** C26: a snapshot of the current format reloads to a replica that displays the
    same rows, from the same cursor and clock, although its queue is compacted
    on load; an older one reloads with the cursor at zero. *)
Theorem snapshot_roundtrip len wall d (Hwf : doc_wf d) :
  ∃ d', from_persisted len wall (to_persisted d) (rd_device_id d) = Ok d' ∧
    (∀ kind id, overlay_row d' kind id = overlay_row d kind id) ∧
    rd_server_seq d' = rd_server_seq d ∧ rd_gc_floor d' = rd_gc_floor d ∧
    rd_local_writes d' = rd_local_writes d ∧ rd_device_id d' = rd_device_id d ∧
    (∀ st device d0, from_persisted len wall st device = Ok d0 →
       ps_resync_epoch st < CURRENT_RESYNC_EPOCH → rd_server_seq d0 = 0).
Proof.
  unfold from_persisted, to_persisted. simpl. eexists. split; [done|].
  match goal with |- context [coalesce_unsent len wall ?x] => set (d0 := x) end.
  pose proof (coalesce_unsent_spec len wall d0) as [Ht _].
  destruct Ht as [Hdev _ Hs Hf _ Hw].
  split_and!; [|exact Hs|exact Hf|exact Hw|exact Hdev|].
  - intros kind id. rewrite !overlay_row_raw, coalesce_unsent_raw, !raw_row_keys.
    unfold pending_ops. subst d0. cbn [rd_pending rd_authoritative].
    by rewrite pending_reload, put_all_rows by (by apply doc_wf_truth).
  - intros st device d1 H He. destruct (negb (ps_v st =? 1)); [done|]. injection H as <-.
    match goal with |- context [coalesce_unsent len wall ?x] => set (d2 := x) end.
    pose proof (coalesce_unsent_spec len wall d2) as [[_ _ Hs2 _ _ _] _].
    rewrite Hs2. unfold d2. simpl. by apply Z.ltb_lt in He as ->.
Qed.

(** ** Reachable replicas *)

Section Steps.
Variable op_json_len : RowOp → option Z.
Variable wall : nat → Z.

(** One call on a replica: a local write, a mode switch, a server frame, or
    a step of the transport. *)
Inductive doc_step : RegistryDoc → RegistryDoc → Prop :=
  | step_write kind id op set d :
      doc_step d (write op_json_len wall kind id op set d)
  | step_delete keys d : doc_step d (delete_row_ops op_json_len wall keys d)
  | step_enqueue ops d : doc_step d (enqueue_ops op_json_len wall ops d)
  | step_local_only b d : doc_step d (set_local_only op_json_len wall b d)
  | step_state seq full floor rows d : Forall row_wf rows →
      doc_step d (apply_state op_json_len wall seq full floor rows d).1
  | step_rows seq rows d : Forall row_wf rows → doc_step d (apply_rows seq rows d).1
  | step_ack batch seq d : doc_step d (ack_batch batch seq d).1
  | step_push d : doc_step d (take_pushable d).1
  | step_disconnect d : doc_step d (mark_disconnected d)
  | step_reload device d d' :
      from_persisted op_json_len wall (to_persisted d) device = Ok d' → doc_step d d'.

Inductive doc_reachable (device : string) : RegistryDoc → Prop :=
  | reach_new : doc_reachable device (new_doc device)
  | reach_step d d' : doc_reachable device d → doc_step d d' → doc_reachable device d'.
End Steps.

Lemma doc_wf_queue d d' f :
  same_truth d' d → rd_pending d' = f <$> rd_pending d →
  (∀ b, pb_ops (f b) = pb_ops b) → doc_wf d → doc_wf d'.
Proof.
  intros [_ Ha _ _ Hl _] Hp Hf Hwf. apply doc_wf_intro; rewrite ?Ha, ?Hl, ?Hp.
  - by apply doc_wf_truth.
  - intros H. by rewrite (dw_local _ Hwf H).
  - apply Forall_fmap. eapply Forall_impl; [apply Hwf|]. intros b. simpl. by rewrite Hf.
Qed.

Lemma next_hlc_wf wall d : doc_wf d → doc_wf (next_hlc wall d).2.
Proof.
  intros. eapply (doc_wf_queue d _ id); [apply next_hlc_truth| |done|done].
  by rewrite next_hlc_pending, list_fmap_id.
Qed.

Lemma put_rows_wf rows d d' :
  Forall row_wf rows → doc_wf d →
  rd_authoritative d' = put_rows rows (rd_authoritative d) ∨ rd_authoritative d' = put_rows rows ∅ →
  rd_pending d' = rd_pending d → rd_local_only d' = rd_local_only d → doc_wf d'.
Proof.
  intros Hr Hwf Ha Hp Hl. apply doc_wf_intro; rewrite ?Hp, ?Hl; [|apply Hwf..].
  destruct Ha as [-> | ->]; (apply truth_wf_puts; [done|]);
    [by apply doc_wf_truth|apply truth_wf_empty].
Qed.

Lemma apply_state_wf len wall seq full floor rows d :
  Forall row_wf rows → doc_wf d → doc_wf (apply_state len wall seq full floor rows d).1.
Proof.
  intros Hr Hwf. unfold apply_state.
  assert (∀ m, m = rd_authoritative d ∨ m = ∅ →
    doc_wf (set_cursor seq floor (set_authoritative (put_rows rows m) (bump d)))) as Hput.
  { intros m Hm. eapply (put_rows_wf rows d); [done|done| |done|done].
    destruct Hm as [-> | ->]; [by left|by right]. }
  destruct full; simpl negb; cbn [negb]; [|by apply Hput; left].
  destruct (seq <? rd_server_seq (bump d)); cbn [fst].
  - case_match; [by apply Hput; left|]. apply enqueue_ops_spec. by apply Hput; left.
  - case_match; cbn [fst]; [by apply Hput; right|]. apply enqueue_ops_spec. by apply Hput; right.
Qed.

Lemma doc_step_wf len wall d d' : doc_step len wall d d' → doc_wf d → doc_wf d'.
Proof.
  intros Hs Hwf. destruct Hs.
  - unfold write. destruct (next_hlc wall d) as [hlc d1] eqn:E.
    apply enqueue_ops_spec. pose proof (next_hlc_wf wall d Hwf) as H. by rewrite E in H.
  - unfold delete_row_ops. destruct (next_hlc wall d) as [hlc d1] eqn:E.
    apply enqueue_ops_spec. pose proof (next_hlc_wf wall d Hwf) as H. by rewrite E in H.
  - by apply enqueue_ops_spec.
  - by apply set_local_only_wf.
  - by apply apply_state_wf.
  - eapply (put_rows_wf rows d); [done|done|left| |]; unfold apply_rows; by repeat case_match.
  - unfold ack_batch. apply doc_wf_intro; case_match; cbn [fst].
    1,2: exact (doc_wf_truth _ Hwf).
    1,2: intros Hl; simpl in *; by rewrite (dw_local _ Hwf Hl).
    all: simpl; apply Forall_forall; intros b Hb; apply list_elem_of_filter in Hb as [_ Hb];
      pose proof (dw_batches _ Hwf) as Hall; rewrite Forall_forall in Hall; by apply Hall.
  - eapply (doc_wf_queue d); [..|done]; done.
  - eapply (doc_wf_queue d); [..|done]; done.
  - unfold from_persisted, to_persisted in H. simpl in H. injection H as <-.
    apply coalesce_unsent_wf, doc_wf_intro; simpl; [|done|].
    + apply truth_wf_puts; [|apply truth_wf_empty]. apply Forall_forall. intros r Hr.
      apply all_rows_lookup in Hr as (k & i & Hr).
      by destruct (doc_wf_truth _ Hwf _ _ _ Hr) as (_ & _ & ?).
    + apply Forall_fmap. eapply Forall_impl; [apply Hwf|]. done.
Qed.

(** C15: whatever writes, frames, acks, pushes, mode switches and reloads happen,
    every queued batch stays within the room's op cap and is not empty, a
    local-only replica has no queue, and the server truth is indexed by each
    row's own kind and id and holds only well-formed rows. *)
Theorem reachable_doc_wf len wall device d
  (Hr : doc_reachable len wall device d) :
  Forall (λ b, (0 < length (pb_ops b) ≤ 400)%nat) (rd_pending d) ∧
  (rd_local_only d = true → rd_pending d = []) ∧
  (∀ kind id r, auth_row (rd_authoritative d) kind id = Some r →
     row_kind r = kind ∧ row_id r = id ∧ row_wf r).
Proof.
  assert (doc_wf d) as Hwf.
  { induction Hr as [|d d' _ IH Hs]; [apply new_doc_wf|]. by eapply doc_step_wf. }
  split_and!; [apply Hwf|apply Hwf|by apply doc_wf_truth].
Qed.

(** ** Witnesses *)

Definition ex_len (op : RowOp) : option Z := Some 200.
Definition ex_wall (n : nat) : Z := 1000 + Z.of_nat n.

Definition ex_doc : RegistryDoc :=
  (apply_rows 1 [ex_row] (new_doc "dev")).1.

Lemma ex_rows_wf : Forall row_wf [ex_row].
Proof. constructor; [apply ex_row_wf|constructor]. Qed.

Lemma ex_doc_wf : doc_wf ex_doc.
Proof. eapply (doc_step_wf ex_len ex_wall), new_doc_wf. apply step_rows, ex_rows_wf. Qed.

Lemma set_local_only_exact_witness :
  rd_pending (set_local_only ex_len ex_wall true ex_doc) = [] ∧
  overlay_row (set_local_only ex_len ex_wall true ex_doc) "chats" "c" = overlay_row ex_doc "chats" "c".
Proof.
  destruct (set_local_only_exact ex_len ex_wall true ex_doc ex_doc_wf ltac:(done)) as (H1 & H2 & _).
  split; [exact (H2 eq_refl)|exact (H1 "chats" "c")].
Defined.

Lemma apply_state_keeps_rows_witness :
  (apply_state ex_len ex_wall 5 true 0 [] ex_doc).2 = Reseeded.
Proof.
  pose proof (apply_state_keeps_rows ex_len ex_wall 5 0 [] ex_doc "chats" "c" ex_row
    ex_doc_wf eq_refl ltac:(vm_compute; reflexivity) (or_intror eq_refl)) as H.
  destruct (apply_state ex_len ex_wall 5 true 0 [] ex_doc) as [d' o]. exact (proj1 H).
Defined.


Lemma take_pushable_once_witness :
  (take_pushable (take_pushable (write ex_len ex_wall "chats" "c" Update ∅ ex_doc)).1).2 = [].
Proof.
  pose proof (take_pushable_once ex_len ex_wall [] (write ex_len ex_wall "chats" "c" Update ∅ ex_doc)
    ltac:(vm_compute; reflexivity)) as H.
  destruct (take_pushable _) as [d1 out]. exact (proj1 (proj2 H)).
Defined.

Lemma snapshot_roundtrip_witness :
  ∃ d', from_persisted ex_len ex_wall (to_persisted ex_doc) "dev" = Ok d' ∧ rd_server_seq d' = 1.
Proof.
  destruct (snapshot_roundtrip ex_len ex_wall ex_doc ex_doc_wf) as (d' & H & _ & Hs & _).
  exists d'. split; [exact H|exact Hs].
Defined.

Lemma reachable_doc_wf_witness :
  let d := write ex_len ex_wall "chats" "c" Update {["title" := Str "x"]} ex_doc in
  rd_pending d ≠ [] ∧ Forall (λ b, (0 < length (pb_ops b) ≤ 400)%nat) (rd_pending d).
Proof.
  intros d. split; [vm_compute; discriminate|].
  refine (proj1 (reachable_doc_wf ex_len ex_wall "dev" d _)).
  eapply reach_step; [|apply step_write]. eapply reach_step; [apply reach_new|].
  apply step_rows, ex_rows_wf.
Defined.
