(* ===== verification/Entities.v ===== *)
(** * Entities: the synced rows and their JSON shape

    Models crates/proto/src/entities.rs (devices, spaces, chats, sessions and
    the indicator derived from them), the enums of crates/proto/src/agent.rs a
    chat config holds, and the row shapes of crates/doc/src/workspace.rs they
    are read back from.  A [DateTime] is its epoch milliseconds; chrono's
    representable range and its RFC 3339 text are parameters. *)

From S2P Require Import Prelude Text Json.

(** ** Data *)

Inductive HarnessId :=
  | ClaudeCode | Codex | Cursor | Devin | Grok | Hermes | Pi | Opencode
  | Antigravity | AxeAi | Mock.

Inductive ReasoningLevel :=
  | Minimal | Low | Medium | High | XHigh | Max | Ultra | Ultracode | Ultrathink.

Inductive SandboxLevel := ReadOnly | WorkspaceWrite | DangerFullAccess.

Inductive SessionStatus := Idle | Working | AwaitingInput | Errored.

#[export] Instance HarnessId_eq_dec : EqDecision HarnessId.
Proof. solve_decision. Defined.
#[export] Instance ReasoningLevel_eq_dec : EqDecision ReasoningLevel.
Proof. solve_decision. Defined.
#[export] Instance SandboxLevel_eq_dec : EqDecision SandboxLevel.
Proof. solve_decision. Defined.
#[export] Instance SessionStatus_eq_dec : EqDecision SessionStatus.
Proof. solve_decision. Defined.

Record Device := mkDevice {
  dev_id : string;
  dev_name : string;
  dev_platform : string;
  dev_last_seen_at : option Z;
  dev_created_at : option Z;
  dev_version : option string;
  dev_cursor_sdk_version : option string;
  dev_capabilities : list string
}.

Record Space := mkSpace {
  sp_id : string;
  sp_device_id : string;
  sp_path : string;
  sp_name : option string;
  sp_git_detected : bool;
  sp_git_checked_at : option Z;
  sp_checkout_id : option string;
  sp_repository_id : option string;
  sp_created_at : Z
}.

Record ChatConfig := mkConfig {
  cfg_harness : HarnessId;
  cfg_model : option string;
  cfg_reasoning : option ReasoningLevel;
  cfg_model_options : list (string * Value);
  cfg_sandbox : SandboxLevel
}.

Record ConversationSourceContext := mkContext {
  ctx_checkout_id : string;
  ctx_repo_root : string;
  ctx_cwd : string;
  ctx_branch : string;
  ctx_head_sha : option string;
  ctx_observed_at : Z
}.

Record Chat := mkChat {
  ch_id : string;
  ch_device_id : string;
  ch_title : option string;
  ch_archived : bool;
  ch_cwd : option string;
  ch_branch : option string;
  ch_checkout_id : option string;
  ch_source_context : option ConversationSourceContext;
  ch_config : option ChatConfig;
  ch_last_message_preview : option string;
  ch_last_message_at : option Z;
  ch_created_at : Z;
  ch_harness_session_id : option string;
  ch_harness_session_cwd : option string;
  ch_space_id : option string;
  ch_last_seen_at : option Z;
  ch_room_gen : option Z;
  ch_parent_chat_id : option string
}.

Record Session := mkSession {
  se_last_completed_turn : option string;
  se_chat_id : string;
  se_device_id : string;
  se_status : SessionStatus;
  se_started_at : option Z;
  se_updated_at : Z
}.

(** ** Derived state *)

Definition supports (d : Device) (capability : string) : bool :=
  existsb (String.eqb capability) (dev_capabilities d).

Definition ORCHESTRATOR_CHAT_PREFIX : string := "voice-orchestrator-".

Definition is_orchestrator_chat (chat_id : string) : bool :=
  String.prefix ORCHESTRATOR_CHAT_PREFIX chat_id.

Definition is_top_level (c : Chat) : bool :=
  bool_decide (ch_parent_chat_id c = None) && negb (is_orchestrator_chat (ch_id c)).

Definition on_chat2 (c : Chat) : bool := 2 <=? default 1 (ch_room_gen c).

Definition unseen (c : Chat) : bool :=
  match ch_last_message_at c, ch_last_seen_at c with
  | Some msg, Some seen => seen <? msg
  | Some _, None => true
  | None, _ => false
  end.

Inductive ChatIndicator :=
  IndWorking | IndAwaitingInput | IndErrored | IndCompleted | IndIdle.

#[export] Instance ChatIndicator_eq_dec : EqDecision ChatIndicator.
Proof. solve_decision. Defined.

Definition chat_indicator (chat : Chat) (live : option Session) : ChatIndicator :=
  match se_status <$> live with
  | Some Working => IndWorking
  | Some AwaitingInput => IndAwaitingInput
  | Some Errored => if unseen chat then IndErrored
                    else IndIdle
  | _ => if unseen chat then IndCompleted else IndIdle
  end.

(** ** JSON of the enums and of a chat config *)

Definition harness_name (h : HarnessId) : string :=
  match h with
  | ClaudeCode => "claude-code" | Codex => "codex" | Cursor => "cursor" | Devin => "devin"
  | Grok => "grok" | Hermes => "hermes" | Pi => "pi" | Opencode => "opencode"
  | Antigravity => "antigravity" | AxeAi => "axe-ai" | Mock => "mock"
  end.

Definition reasoning_name (r : ReasoningLevel) : string :=
  match r with
  | Minimal => "minimal" | Low => "low" | Medium => "medium" | High => "high"
  | XHigh => "xhigh" | Max => "max" | Ultra => "ultra" | Ultracode => "ultracode"
  | Ultrathink => "ultrathink"
  end.

Definition sandbox_name (s : SandboxLevel) : string :=
  match s with
  | ReadOnly => "read-only" | WorkspaceWrite => "workspace-write"
  | DangerFullAccess => "danger-full-access"
  end.

Definition status_str (s : SessionStatus) : string :=
  match s with
  | Idle => "idle" | Working => "working" | AwaitingInput => "awaitingInput"
  | Errored => "errored"
  end.

(** The variant whose name is the string; unknown names are an error. *)
Definition by_name {A} (name : A → string) (all : list A) (v : Value) : option A :=
  s ← as_str v; find (λ a, String.eqb (name a) s) all.

Definition harness_of : Value → option HarnessId :=
  by_name harness_name [ClaudeCode; Codex; Cursor; Devin; Grok; Hermes; Pi; Opencode;
                        Antigravity; AxeAi; Mock].
Definition reasoning_of : Value → option ReasoningLevel :=
  by_name reasoning_name [Minimal; Low; Medium; High; XHigh; Max; Ultra; Ultracode; Ultrathink].
Definition sandbox_of : Value → option SandboxLevel :=
  by_name sandbox_name [ReadOnly; WorkspaceWrite; DangerFullAccess].
Definition status_of : Value → option SessionStatus :=
  by_name status_str [Idle; Working; AwaitingInput; Errored].

(** Field access of serde's derived deserializers: a required field, an
    optional field (absent and null read as [None]), a defaulted field. *)
Definition req {A} (dec : Value → option A) (v : option Value) : option A := v ≫= dec.
Definition opt {A} (dec : Value → option A) (v : option Value) : option (option A) :=
  match v with
  | None | Some Null => Some None
  | Some v => Some <$> dec v
  end.
Definition dflt {A} (d : A) (dec : Value → option A) (v : option Value) : option A :=
  match v with None => Some d | Some v => dec v end.

Definition as_u32 (v : Value) : option Z :=
  match v with
  | Number n => if (0 <=? n) && (n <? 2 ^ 32) then Some n else None
  | _ => None
  end.
Definition as_strs (v : Value) : option (list string) :=
  match v with Array l => mapM as_str l | _ => None end.
Definition as_object (v : Value) : option (list (string * Value)) :=
  match v with Object m => Some m | _ => None end.

Fixpoint obj_get (m : list (string * Value)) (k : string) : option Value :=
  match m with
  | [] => None
  | (k', v) :: m => if String.eqb k' k then Some v else obj_get m k
  end.

Definition opt_str (v : option string) : Value := from_option Str Null v.
Definition opt_ms (v : option Z) : Value := from_option Number Null v.

Definition config_to_value (c : ChatConfig) : Value :=
  Object [("harness", Str (harness_name (cfg_harness c)));
          ("model", opt_str (cfg_model c));
          ("reasoning", from_option (λ r, Str (reasoning_name r)) Null (cfg_reasoning c));
          ("modelOptions", Object (cfg_model_options c));
          ("sandbox", Str (sandbox_name (cfg_sandbox c)))].

Definition config_from_value (v : Value) : option ChatConfig :=
  m ← as_object v;
  harness ← req harness_of (obj_get m "harness");
  model ← opt as_str (obj_get m "model");
  reasoning ← opt reasoning_of (obj_get m "reasoning");
  options ← dflt [] as_object (obj_get m "modelOptions");
  sandbox ← req sandbox_of (obj_get m "sandbox");
  Some (mkConfig harness model reasoning options sandbox).

(** [lenient_chat_config]: a config this build cannot decode costs the config,
    not the row. *)
Definition lenient_chat_config (v : option Value) : option ChatConfig :=
  match v with
  | None | Some Null => None
  | Some v => config_from_value v
  end.

Lemma harness_of_name h : harness_of (Str (harness_name h)) = Some h.
Proof. by destruct h. Qed.
Lemma reasoning_of_name r : reasoning_of (Str (reasoning_name r)) = Some r.
Proof. by destruct r. Qed.
Lemma sandbox_of_name s : sandbox_of (Str (sandbox_name s)) = Some s.
Proof. by destruct s. Qed.
Lemma status_of_str s : status_of (Str (status_str s)) = Some s.
Proof. by destruct s. Qed.

Lemma opt_as_str v : opt as_str (Some (opt_str v)) = Some v.
Proof. by destruct v. Qed.

Lemma config_roundtrip c : config_from_value (config_to_value c) = Some c.
Proof.
  destruct c as [h m r o s]. unfold config_from_value, config_to_value. cbn -[harness_of].
  rewrite harness_of_name. simpl. destruct m, r as [r|]; simpl;
    rewrite ?(reasoning_of_name r), ?sandbox_of_name; try done.
  all: by destruct s; try destruct r.
Qed.

(** ** Rows to entities

    The fields of a registry row decoded as the raw row shapes and converted. *)

Class Chrono := {
  ts_ok : Z → bool;                     (* chrono can represent the instant *)
  rfc3339 : Z → string;                 (* serde's text of a DateTime<Utc> *)
  parse_rfc3339 : string → option Z
}.

(** What the crate relies on: the epoch is representable and the text of a
    representable instant reads back. *)
Class ChronoLaws `{Chrono} := {
  ts_ok_epoch : ts_ok 0 = true;
  ts_ok_i64 ms : ts_ok ms = true → is_i64 ms;
  rfc3339_inv ms : ts_ok ms = true → parse_rfc3339 (rfc3339 ms) = Some ms
}.

Section Rows.
Context `{Chrono}.

(** [DateTime::from_timestamp_millis(ms).unwrap_or(UNIX_EPOCH)] *)
Definition dt (ms : Z) : Z := if ts_ok ms then ms else 0.

Definition context_to_value (c : ConversationSourceContext) : Value :=
  Object ([("checkoutId", Str (ctx_checkout_id c)); ("repoRoot", Str (ctx_repo_root c));
           ("cwd", Str (ctx_cwd c)); ("branch", Str (ctx_branch c))] ++
          match ctx_head_sha c with Some s => [("headSha", Str s)] | None => [] end ++
          [("observedAt", Str (rfc3339 (ctx_observed_at c)))]).

Definition context_from_value (v : Value) : option ConversationSourceContext :=
  m ← as_object v;
  checkout ← req as_str (obj_get m "checkoutId");
  root ← req as_str (obj_get m "repoRoot");
  cwd ← req as_str (obj_get m "cwd");
  branch ← req as_str (obj_get m "branch");
  head ← opt as_str (obj_get m "headSha");
  observed ← req (λ v, as_str v ≫= parse_rfc3339) (obj_get m "observedAt");
  Some (mkContext checkout root cwd branch head observed).

Definition row_to_device (f : gmap string Value) : option Device :=
  id ← req as_str (f !! "id");
  name ← req as_str (f !! "name");
  platform ← req as_str (f !! "platform");
  last_seen ← opt as_i64 (f !! "lastSeenAt");
  created ← opt as_i64 (f !! "createdAt");
  version ← opt as_str (f !! "version");
  sdk ← opt as_str (f !! "cursorSdkVersion");
  engine ← opt as_str (f !! "cursorSdkEngineVersion");
  capabilities ← dflt [] as_strs (f !! "capabilities");
  Some (mkDevice id name platform (dt <$> last_seen) (dt <$> created) version
          (if bool_decide (is_Some version) && bool_decide (version = engine) then sdk else None)
          capabilities).

Definition row_to_space (f : gmap string Value) : option Space :=
  id ← req as_str (f !! "id");
  device ← req as_str (f !! "deviceId");
  path ← req as_str (f !! "path");
  name ← opt as_str (f !! "name");
  detected ← dflt false as_bool (f !! "gitDetected");
  checked ← opt as_i64 (f !! "gitCheckedAt");
  checkout ← opt as_str (f !! "checkoutId");
  repository ← opt as_str (f !! "repositoryId");
  created ← dflt 0 as_i64 (f !! "createdAt");
  Some (mkSpace id device path name detected (dt <$> checked) checkout repository (dt created)).

Definition row_to_chat (f : gmap string Value) : option Chat :=
  id ← req as_str (f !! "id");
  device ← req as_str (f !! "deviceId");
  title ← opt as_str (f !! "title");
  archived ← dflt false as_bool (f !! "archived");
  cwd ← opt as_str (f !! "cwd");
  branch ← opt as_str (f !! "branch");
  checkout ← opt as_str (f !! "checkoutId");
  context ← opt context_from_value (f !! "sourceContext");
  preview ← opt as_str (f !! "lastMessagePreview");
  last ← opt as_i64 (f !! "lastMessageAt");
  created ← dflt 0 as_i64 (f !! "createdAt");
  hsession ← opt as_str (f !! "harnessSessionId");
  hcwd ← opt as_str (f !! "harnessSessionCwd");
  space ← opt as_str (f !! "spaceId");
  seen ← opt as_i64 (f !! "lastSeenAt");
  gen ← opt as_u32 (f !! "roomGen");
  parent ← opt as_str (f !! "parentChatId");
  Some (mkChat id device title archived cwd branch checkout context
          (lenient_chat_config (f !! "config")) preview (dt <$> last) (dt created)
          hsession hcwd space (dt <$> seen) gen parent).

Definition row_to_session (f : gmap string Value) : option Session :=
  completed ← opt as_str (f !! "lastCompletedTurn");
  chat ← req as_str (f !! "chatId");
  device ← req as_str (f !! "deviceId");
  status ← req status_of (f !! "status");
  started ← opt as_i64 (f !! "startedAt");
  updated ← dflt 0 as_i64 (f !! "updatedAt");
  Some (mkSession completed chat device status (dt <$> started) (dt updated)).

(** ** Entities to row fields *)

(** [fields([..])]: a later entry of the same name wins. *)
Definition fields (entries : list (string * Value)) : gmap string Value :=
  fold_left (λ m e, <[e.1 := e.2]> m) entries ∅.

Definition device_fields (d : Device) : gmap string Value :=
  fields [("id", Str (dev_id d)); ("name", Str (dev_name d)); ("platform", Str (dev_platform d));
          ("lastSeenAt", opt_ms (dev_last_seen_at d)); ("createdAt", opt_ms (dev_created_at d));
          ("version", opt_str (dev_version d));
          ("cursorSdkVersion", opt_str (dev_cursor_sdk_version d));
          ("cursorSdkEngineVersion", opt_str (dev_version d));
          ("capabilities", Array (Str <$> dev_capabilities d))].

Definition space_fields (s : Space) : gmap string Value :=
  fields [("id", Str (sp_id s)); ("deviceId", Str (sp_device_id s)); ("path", Str (sp_path s));
          ("name", opt_str (sp_name s)); ("gitDetected", Bool (sp_git_detected s));
          ("gitCheckedAt", opt_ms (sp_git_checked_at s));
          ("checkoutId", opt_str (sp_checkout_id s));
          ("repositoryId", opt_str (sp_repository_id s));
          ("createdAt", Number (sp_created_at s))].

Definition chat_fields (c : Chat) : gmap string Value :=
  fields [("id", Str (ch_id c)); ("deviceId", Str (ch_device_id c));
          ("title", opt_str (ch_title c)); ("archived", Bool (ch_archived c));
          ("cwd", opt_str (ch_cwd c)); ("branch", opt_str (ch_branch c));
          ("checkoutId", opt_str (ch_checkout_id c));
          ("sourceContext", from_option context_to_value Null (ch_source_context c));
          ("config", from_option config_to_value Null (ch_config c));
          ("lastMessagePreview", opt_str (ch_last_message_preview c));
          ("lastMessageAt", opt_ms (ch_last_message_at c));
          ("createdAt", Number (ch_created_at c));
          ("harnessSessionId", opt_str (ch_harness_session_id c));
          ("harnessSessionCwd", opt_str (ch_harness_session_cwd c));
          ("spaceId", opt_str (ch_space_id c));
          ("parentChatId", opt_str (ch_parent_chat_id c));
          ("lastSeenAt", opt_ms (ch_last_seen_at c));
          ("roomGen", opt_ms (ch_room_gen c));
          ("parentChatId", opt_str (ch_parent_chat_id c))].

Definition session_fields (s : Session) : gmap string Value :=
  fields [("chatId", Str (se_chat_id s)); ("deviceId", Str (se_device_id s));
          ("status", Str (status_str (se_status s)));
          ("lastCompletedTurn", opt_str (se_last_completed_turn s));
          ("startedAt", opt_ms (se_started_at s)); ("updatedAt", Number (se_updated_at s))].
End Rows.

(** ** Round trips *)

#[global] Arguments as_i64 : simpl never.
#[global] Arguments as_u32 : simpl never.

(** The fields a fresh row holds after a write: nulls are not stored. *)
Definition stored (set : gmap string Value) : gmap string Value :=
  omap (λ v, if is_null v then None else Some v) set.

Definition last_entry (entries : list (string * Value)) (k : string) : option Value :=
  fold_left (λ acc e, if String.eqb e.1 k then Some e.2 else acc) entries None.

Lemma fields_lookup entries k : fields entries !! k = last_entry entries k.
Proof.
  unfold fields, last_entry.
  assert (∀ (m : gmap string Value) acc, m !! k = acc →
    fold_left (λ m e, <[e.1 := e.2]> m) entries m !! k =
    fold_left (λ acc e, if String.eqb e.1 k then Some e.2 else acc) entries acc) as Hgen.
  { induction entries as [|[k' v] entries IH]; intros m acc Hm; simpl; [done|].
    apply IH. destruct (String.eqb_spec k' k) as [->|Hne].
    - apply lookup_insert_eq.
    - by rewrite lookup_insert_ne. }
  apply Hgen, lookup_empty.
Qed.

Lemma stored_lookup entries k :
  stored (fields entries) !! k =
    (v ← last_entry entries k; if is_null v then None else Some v).
Proof. unfold stored. by rewrite lookup_omap, fields_lookup. Qed.

Lemma opt_stored {A} (dec : Value → option A) (v : Value) :
  opt dec (if is_null v then None else Some v) = opt dec (Some v).
Proof. by destruct v. Qed.

Lemma as_strs_map l : as_strs (Array (Str <$> l)) = Some l.
Proof. unfold as_strs. induction l as [|s l IH]; [done|]. cbn. cbn in IH. by rewrite IH. Qed.

Section RoundTrips.
Context `{ChronoLaws}.

Definition ts_opt_ok (o : option Z) : Prop := ∀ ms, o = Some ms → ts_ok ms = true.

Lemma dt_ok ms : ts_ok ms = true → dt ms = ms.
Proof. unfold dt. by intros ->. Qed.

Lemma opt_ms_back o : ts_opt_ok o → (fmap (M:=option) dt <$> opt as_i64 (Some (opt_ms o))) = Some o.
Proof.
  intros Ho. destruct o as [ms|]; [|done]. specialize (Ho ms eq_refl). cbn [opt_ms from_option opt].
  rewrite as_i64_number by (by apply ts_ok_i64). simpl. by rewrite dt_ok.
Qed.

Lemma context_roundtrip c :
  ts_ok (ctx_observed_at c) = true → context_from_value (context_to_value c) = Some c.
Proof.
  intros Ho. destruct c as [a b d e h o]. simpl in Ho. unfold context_from_value, context_to_value.
  destruct h; cbn; by rewrite rfc3339_inv by done.
Qed.

Record chat_ok (c : Chat) : Prop := {
  co_created : ts_ok (ch_created_at c) = true;
  co_message : ts_opt_ok (ch_last_message_at c);
  co_seen : ts_opt_ok (ch_last_seen_at c);
  co_context x : ch_source_context c = Some x → ts_ok (ctx_observed_at x) = true;
  co_gen g : ch_room_gen c = Some g → is_u32 g
}.

#[local] Arguments opt : simpl never.

Lemma chat_roundtrip c : chat_ok c → row_to_chat (stored (chat_fields c)) = Some c.
Proof.
  intros [Hc Hm Hs Hx Hg]. unfold row_to_chat, chat_fields. rewrite !stored_lookup.
  destruct c as [id dev title ar cwd br co cx cfg pv lm cr hs hc sp se gen par]; simpl in *.
  rewrite as_i64_number by (by apply ts_ok_i64).
  assert (opt context_from_value (if is_null (from_option context_to_value Null cx) then None
            else Some (from_option context_to_value Null cx)) = Some cx) as Ecx.
  { destruct cx as [x|]; [|done]. simpl. unfold opt. rewrite (context_roundtrip x) by auto. done. }
  assert (lenient_chat_config (if is_null (from_option config_to_value Null cfg) then None
            else Some (from_option config_to_value Null cfg)) = cfg) as Ecf.
  { destruct cfg as [x|]; [|done]. simpl. apply (config_roundtrip x). }
  assert (opt as_u32 (Some (opt_ms gen)) = Some gen) as Eg.
  { destruct gen as [g|]; [|done]. specialize (Hg g eq_refl). unfold is_u32 in Hg. unfold opt, as_u32. simpl.
    destruct (Z.leb_spec 0 g), (Z.ltb_spec g (2 ^ 32)); simpl in *; try lia. done. }
  rewrite Ecx, Ecf, !opt_stored, !opt_as_str, Eg. simpl.
  pose proof (opt_ms_back lm Hm) as El. pose proof (opt_ms_back se Hs) as Es.
  destruct (opt as_i64 (Some (opt_ms lm))) as [lm'|]; [|done].
  destruct (opt as_i64 (Some (opt_ms se))) as [se'|]; [|done]. simpl in *.
  f_equal. f_equal; [by injection El|by apply dt_ok|by injection Es].
Qed.
End RoundTrips.
