(* ===== verification/RegistryApi.v ===== *)
(** * RegistryApi: the typed operations of the workspace registry

    Models the typed API of [RegistryDoc] (crates/doc/src/registry.rs): upserts
    of devices, spaces, chats and sessions, the field updates that never invent
    a row, claims, deletes and their cascade, the reads, and the migration
    seed.  The proofs go through what a write does to the displayed row. *)

From S2P Require Import Prelude Text Hlc Json RegistryRow RegistryDoc Entities.

Section Api.
Context `{Chrono}.
Variable op_json_len : RowOp → option Z.
Variable wall : nat → Z.

Let write := RegistryDoc.write op_json_len wall.
Let delete_row_ops := RegistryDoc.delete_row_ops op_json_len wall.

(** An update of an existing row: [false] and no write without one. *)
Definition update_existing (kind id : string) (set : gmap string Value) (d : RegistryDoc)
    : RegistryDoc * bool :=
  if row_exists d kind id then (write kind id Update set d, true) else (d, false).

(** ** Devices *)

Definition upsert_device (device : Device) (d : RegistryDoc) : RegistryDoc :=
  write KIND_DEVICES (dev_id device) Upsert (device_fields device) d.

Definition rename_device (id name : string) (d : RegistryDoc) : RegistryDoc * bool :=
  update_existing KIND_DEVICES id (fields [("name", Str name)]) d.

Definition set_device_last_seen (id : string) (at_ : Z) (d : RegistryDoc) : RegistryDoc * bool :=
  update_existing KIND_DEVICES id (fields [("lastSeenAt", Number at_)]) d.

(** [read_kind] then [sort_by] the id: rows that do not decode are skipped. *)
Definition read_devices (d : RegistryDoc) : list Device :=
  sort_by (λ a b, str_leb (dev_id a) (dev_id b))
    (omap (λ r, row_to_device (row_fields r)) (overlay_rows d KIND_DEVICES)).

(** ** Spaces *)

Definition upsert_space (space : Space) (d : RegistryDoc) : RegistryDoc :=
  write KIND_SPACES (sp_id space) Upsert (space_fields space) d.

Definition space (d : RegistryDoc) (id : string) : option Space :=
  r ← overlay_row d KIND_SPACES id; row_to_space (row_fields r).

Definition read_spaces (d : RegistryDoc) : list Space :=
  sort_by (λ a b, str_leb (sp_id a) (sp_id b))
    (omap (λ r, row_to_space (row_fields r)) (overlay_rows d KIND_SPACES)).

Definition rename_space (id : string) (name : option string) (d : RegistryDoc) : RegistryDoc * bool :=
  update_existing KIND_SPACES id (fields [("name", opt_str name)]) d.

Definition set_space_git (id : string) (detected : bool) (checkout_id repository_id : option string)
    (checked_at : Z) (d : RegistryDoc) : RegistryDoc * bool :=
  update_existing KIND_SPACES id
    (fields [("gitDetected", Bool detected); ("checkoutId", opt_str checkout_id);
             ("repositoryId", opt_str repository_id); ("gitCheckedAt", Number checked_at)]) d.

(** ** Chats *)

Definition upsert_chat (c : Chat) (d : RegistryDoc) : RegistryDoc :=
  write KIND_CHATS (ch_id c) Upsert (chat_fields c) d.

(** The fields a claim knows; absent ones carry no write. *)
Definition claim_fields (id device : string) (cwd space_id : option string) (created_at : Z)
    : gmap string Value :=
  let set := fields [("id", Str id); ("deviceId", Str device); ("createdAt", Number created_at)] in
  let set := match cwd with Some cwd => <["cwd" := Str cwd]> set | None => set end in
  match space_id with Some s => <["spaceId" := Str s]> set | None => set end.

Definition claim_chat (id : string) (cwd space_id : option string) (created_at : Z)
    (d : RegistryDoc) : RegistryDoc :=
  write KIND_CHATS id Upsert (claim_fields id (rd_device_id d) cwd space_id created_at) d.

(** The seen marker: no write when the stored stamp is already at least [at_]. *)
Definition set_chat_seen (id : string) (at_ : Z) (d : RegistryDoc) : RegistryDoc * bool :=
  match overlay_row d KIND_CHATS id with
  | None => (d, false)
  | Some row =>
      match row_fields row !! "lastSeenAt" ≫= as_i64 with
      | Some ms => if at_ <=? ms then (d, true)
                   else (write KIND_CHATS id Update (fields [("lastSeenAt", Number at_)]) d, true)
      | None => (write KIND_CHATS id Update (fields [("lastSeenAt", Number at_)]) d, true)
      end
  end.

Definition chat (d : RegistryDoc) (id : string) : option Chat :=
  r ← overlay_row d KIND_CHATS id; row_to_chat (row_fields r).

Definition read_chats (d : RegistryDoc) : list Chat :=
  sort_by (λ a b, str_leb (ch_id a) (ch_id b))
    (omap (λ r, row_to_chat (row_fields r)) (overlay_rows d KIND_CHATS)).

Definition rename_chat (id title : string) : RegistryDoc → RegistryDoc * bool :=
  update_existing KIND_CHATS id (fields [("title", Str title)]).

Definition set_chat_archived (id : string) (archived : bool) : RegistryDoc → RegistryDoc * bool :=
  update_existing KIND_CHATS id (fields [("archived", Bool archived)]).

Definition set_chat_room_gen (id : string) (room_gen : Z) : RegistryDoc → RegistryDoc * bool :=
  update_existing KIND_CHATS id (fields [("roomGen", Number room_gen)]).

Definition set_chat_branch (id branch : string) : RegistryDoc → RegistryDoc * bool :=
  update_existing KIND_CHATS id (fields [("branch", Str branch)]).

Definition set_chat_source_context (id : string) (c : ConversationSourceContext)
    : RegistryDoc → RegistryDoc * bool :=
  update_existing KIND_CHATS id
    (fields [("sourceContext", context_to_value c); ("branch", Str (ctx_branch c));
             ("checkoutId", Str (ctx_checkout_id c))]).

Definition set_chat_cwd (id cwd : string) : RegistryDoc → RegistryDoc * bool :=
  update_existing KIND_CHATS id (fields [("cwd", Str cwd)]).

Definition set_chat_checkout (id checkout_id : string) : RegistryDoc → RegistryDoc * bool :=
  update_existing KIND_CHATS id (fields [("checkoutId", Str checkout_id)]).

Definition set_chat_config (id : string) (config : ChatConfig) : RegistryDoc → RegistryDoc * bool :=
  update_existing KIND_CHATS id (fields [("config", config_to_value config)]).

Definition set_chat_harness_session (id session_id cwd : string) : RegistryDoc → RegistryDoc * bool :=
  update_existing KIND_CHATS id
    (fields [("harnessSessionId", Str session_id); ("harnessSessionCwd", Str cwd)]).

Definition set_chat_last_message (id preview : string) (at_ : Z) : RegistryDoc → RegistryDoc * bool :=
  update_existing KIND_CHATS id
    (fields [("lastMessagePreview", Str preview); ("lastMessageAt", Number at_)]).

Definition delete_chat (id : string) (d : RegistryDoc) : RegistryDoc * bool :=
  (delete_row_ops [(KIND_CHATS, id); (KIND_SESSIONS, id)] d, row_exists d KIND_CHATS id).

Definition delete_space (id : string) (d : RegistryDoc) : RegistryDoc * (bool * list string) :=
  let existed := row_exists d KIND_SPACES id in
  let chat_ids := ch_id <$> filter (λ c, ch_space_id c = Some id) (read_chats d) in
  let keys := (chat_id ← chat_ids; [(KIND_CHATS, chat_id); (KIND_SESSIONS, chat_id)])
              ++ [(KIND_SPACES, id)] in
  (delete_row_ops keys d, (existed, chat_ids)).

(** ** Sessions *)

Definition upsert_session (s : Session) (d : RegistryDoc) : RegistryDoc :=
  write KIND_SESSIONS (se_chat_id s) Upsert (session_fields s) d.

Definition read_sessions (d : RegistryDoc) : list Session :=
  sort_by (λ a b, str_leb (se_chat_id a) (se_chat_id b))
    (omap (λ r, row_to_session (row_fields r)) (overlay_rows d KIND_SESSIONS)).

(** ** Migration *)

Record WorkspaceState := mkWorkspace {
  ws_devices : list Device;
  ws_spaces : list Space;
  ws_chats : list Chat;
  ws_sessions : list Session
}.

Definition read_all (d : RegistryDoc) : WorkspaceState :=
  mkWorkspace (read_devices d) (read_spaces d) (read_chats d) (read_sessions d).

Definition newest (candidates : list (option Z)) : Z :=
  match omap id candidates with
  | [] => 1
  | x :: l => foldl Z.max x l
  end.

Definition seed_op (kind id : string) (ms : Z) (set : gmap string Value) : RowOp :=
  mkOp kind id Upsert (Some set) (encode_hlc (Z.max ms 1) 0 "migration") None.

(** The chat fields of a seed: no source context and no room generation. *)
Definition seed_chat_fields (c : Chat) : gmap string Value :=
  delete "sourceContext" (delete "roomGen" (chat_fields c)).

Definition workspace_ops (state : WorkspaceState) : list RowOp :=
  ((λ x, seed_op KIND_DEVICES (dev_id x) (newest [dev_last_seen_at x; dev_created_at x])
           (device_fields x)) <$> ws_devices state) ++
  ((λ x, seed_op KIND_SPACES (sp_id x) (newest [sp_git_checked_at x; Some (sp_created_at x)])
           (space_fields x)) <$> ws_spaces state) ++
  ((λ x, seed_op KIND_CHATS (ch_id x)
           (newest [ch_last_message_at x; ch_last_seen_at x; Some (ch_created_at x)])
           (seed_chat_fields x)) <$> ws_chats state) ++
  ((λ x, seed_op KIND_SESSIONS (se_chat_id x) (newest [Some (se_updated_at x); se_started_at x])
           (session_fields x)) <$> ws_sessions state).

(** [ops.chunks(400)], each enqueued. *)
Fixpoint enqueue_by_400 (fuel : nat) (ops : list RowOp) (d : RegistryDoc) : RegistryDoc :=
  match fuel with
  | O => d
  | S fuel =>
      if bool_decide (ops = []) then d
      else enqueue_by_400 fuel (drop 400 ops) (enqueue_ops op_json_len wall (take 400 ops) d)
  end.

Definition seed_from_workspace (state : WorkspaceState) (d : RegistryDoc) : RegistryDoc * nat :=
  let ops := workspace_ops state in
  (enqueue_by_400 (length ops) ops d, length ops).
End Api.

(** ** What one write displays *)

Lemma next_hlc_raw wall d kind id : raw_row (next_hlc wall d).2 kind id = raw_row d kind id.
Proof.
  apply raw_row_ext; [apply next_hlc_truth|]. intros k row. unfold pending_ops.
  by rewrite next_hlc_pending.
Qed.

Lemma write_raw len wall kind id op set d kind' id' :
  doc_wf d →
  doc_wf (RegistryDoc.write len wall kind id op set d) ∧
  raw_row (RegistryDoc.write len wall kind id op set d) kind' id' =
    if decide (kind' = kind ∧ id' = id)
    then apply_row (raw_row d kind id) (mkOp kind id op (Some set) (next_hlc wall d).1 None)
    else raw_row d kind' id'.
Proof.
  intros Hwf. unfold write. pose proof (next_hlc_wf wall d Hwf) as Hwf1.
  pose proof (next_hlc_raw wall d kind' id') as Hraw.
  destruct (next_hlc wall d) as [hlc d1]. cbn [fst snd] in *.
  destruct (enqueue_ops_spec len wall [mkOp kind id op (Some set) hlc None] d1 Hwf1) as [H1 H2].
  split; [done|]. rewrite H2, Hraw. destruct (decide (kind' = kind ∧ id' = id)) as [[-> ->]|Hne].
  - by rewrite filter_cons_True.
  - rewrite filter_cons_False; [done|]. unfold has_key, op_key. simpl. intros [= -> ->]. tauto.
Qed.

(** A clock newer than everything on a row. *)
Definition newest_for (hlc : string) (row : option RegistryRow) : Prop :=
  ∀ r, row = Some r → hlc_newer hlc (max_clock r) = true.

Lemma newest_for_field hlc r k :
  newest_for hlc (Some r) → hlc_newer hlc (row_clocks r !! k) = true.
Proof.
  intros H. destruct (proj1 (max_clock_spec hlc r) (H r eq_refl)) as [_ Hc].
  destruct (row_clocks r !! k) as [c|] eqn:E; [|done]. apply (Hc k c E).
Qed.

(** The fields of a row after a write that is the newest thing on it. *)
Lemma written_newest kind id op set hlc base k :
  (∀ k, hlc_newer hlc (row_clocks base !! k) = true) →
  row_fields (written (mkOp kind id op (Some set) hlc None) base) !! k =
    match set !! k with
    | Some v => if is_null v then None else Some v
    | None => row_fields base !! k
    end.
Proof.
  intros Hn. rewrite written_fields. unfold field_after, wins, op_writes, clock_for. simpl.
  destruct (set !! k); simpl; [by rewrite Hn|done].
Qed.

(** The fields a live row displays, none for a missing or tombstoned one. *)
Definition shown_fields (row : option RegistryRow) : gmap string Value :=
  from_option row_fields ∅ (live_only row).

Definition after_write (set shown : gmap string Value) (k : string) : option Value :=
  match set !! k with
  | Some v => if is_null v then None else Some v
  | None => shown !! k
  end.

Lemma apply_upsert_newest kind id set hlc row :
  newest_for hlc row →
  ∃ r, apply_row row (mkOp kind id Upsert (Some set) hlc None) = Some r ∧
    row_deleted r = false ∧ ∀ k, row_fields r !! k = after_write set (shown_fields row) k.
Proof.
  intros Hn. set (op := mkOp kind id Upsert (Some set) hlc None). unfold shown_fields, after_write.
  destruct row as [row|]; [destruct (row_deleted row) eqn:Hd|].
  - rewrite apply_row_upsert_dead by done.
    assert (hlc_newer (op_hlc op) (row_del_hlc row) = true) as ->
      by apply (max_clock_spec hlc row), Hn, eq_refl.
    eexists; split; [done|]. rewrite written_deleted. split; [done|]. intros k. simpl. rewrite Hd.
    apply (written_newest _ _ _ _ _ (revived row)). intros k'. simpl. by rewrite lookup_empty.
  - rewrite apply_row_live by done. eexists; split; [done|]. rewrite written_deleted.
    split; [done|]. intros k. simpl. rewrite Hd. apply written_newest. intros.
    by apply newest_for_field.
  - rewrite apply_row_upsert_none by done. eexists; split; [done|]. rewrite written_deleted.
    split; [done|]. intros k. simpl. apply (written_newest _ _ _ _ _ (fresh_row op)).
    intros k'. simpl. by rewrite lookup_empty.
Qed.

Lemma apply_update_live kind id set hlc r :
  row_deleted r = false → newest_for hlc (Some r) →
  ∃ r', apply_row (Some r) (mkOp kind id Update (Some set) hlc None) = Some r' ∧
    row_deleted r' = false ∧ ∀ k, row_fields r' !! k = after_write set (row_fields r) k.
Proof.
  intros Hd Hn. rewrite apply_row_live by done. eexists; split; [done|].
  rewrite written_deleted. split; [done|]. intros k. apply written_newest. intros.
  by apply newest_for_field.
Qed.

Lemma overlay_row_live d kind id r :
  overlay_row d kind id = Some r ↔ raw_row d kind id = Some r ∧ row_deleted r = false.
Proof.
  rewrite overlay_row_raw. unfold live_only. destruct (raw_row d kind id) as [r'|]; simpl.
  - destruct (row_deleted r') eqn:E; split; try done; [by intros [[= ->] ?]; congruence| |].
    + by intros [= ->].
    + by intros [[= ->] _].
  - split; [done|]. by intros [].
Qed.

Lemma row_exists_shows d kind id :
  row_exists d kind id = true ↔ ∃ r, raw_row d kind id = Some r ∧ row_deleted r = false.
Proof.
  unfold row_exists. rewrite bool_decide_eq_true. split.
  - intros [r H]. apply overlay_row_live in H. eauto.
  - intros [r H]. exists r. by apply overlay_row_live.
Qed.

(** ** Reading back *)

Definition chat_keys : list string :=
  ["id"; "deviceId"; "title"; "archived"; "cwd"; "branch"; "checkoutId"; "sourceContext";
   "config"; "lastMessagePreview"; "lastMessageAt"; "createdAt"; "harnessSessionId";
   "harnessSessionCwd"; "spaceId"; "lastSeenAt"; "roomGen"; "parentChatId"].

Lemma row_to_chat_ext `{Chrono} f g :
  (∀ k, k ∈ chat_keys → f !! k = g !! k) → row_to_chat f = row_to_chat g.
Proof.
  intros Hk. unfold row_to_chat.
  repeat match goal with
  | |- context [f !! ?k] => rewrite (Hk k) by (unfold chat_keys; set_solver)
  end. done.
Qed.

Lemma chat_fields_keys `{Chrono} c k : k ∈ chat_keys → is_Some (chat_fields c !! k).
Proof.
  unfold chat_keys. intros Hk. unfold chat_fields. rewrite fields_lookup.
  repeat (apply elem_of_cons in Hk as [->|Hk]; [by eexists|]). by apply elem_of_nil in Hk.
Qed.

Section Properties.
Context `{ChronoLaws}.
Variable len : RowOp → option Z.
Variable wall : nat → Z.


Lemma update_existing_spec kind id set d :
  doc_wf d → newest_for (next_hlc wall d).1 (raw_row d kind id) →
  let '(d', updated) := update_existing len wall kind id set d in
  updated = row_exists d kind id ∧
  match overlay_row d kind id with
  | None => d' = d
  | Some r => ∃ r', overlay_row d' kind id = Some r' ∧
      ∀ k, row_fields r' !! k = after_write set (row_fields r) k
  end.
Proof.
  intros Hwf Hn. unfold update_existing. unfold row_exists.
  destruct (overlay_row d kind id) as [r|] eqn:E.
  - rewrite bool_decide_true by eauto. split; [done|].
    apply overlay_row_live in E as [Hr Hd]. rewrite Hr in Hn.
    destruct (apply_update_live kind id set _ r Hd Hn) as (r' & Ha & Hd' & Hf).
    exists r'. split; [|done]. apply overlay_row_live.
    destruct (write_raw len wall kind id Update set d kind id Hwf) as [_ ->].
    by rewrite decide_True, Hr.
  - by rewrite bool_decide_false by (by intros []).
Qed.

(** A chat update never invents a row: without one it returns [false] and
    changes nothing; with one, a newest write changes exactly its own fields. *)
Theorem set_chat_last_message_exact id preview at_ d
  (Hwf : doc_wf d) (Hn : newest_for (next_hlc wall d).1 (raw_row d KIND_CHATS id)) :
  let '(d', updated) := set_chat_last_message len wall id preview at_ d in
  updated = row_exists d KIND_CHATS id ∧
  match overlay_row d KIND_CHATS id with
  | None => d' = d
  | Some r => ∃ r', overlay_row d' KIND_CHATS id = Some r' ∧
      row_fields r' = <["lastMessagePreview" := Str preview]>
                        (<["lastMessageAt" := Number at_]> (row_fields r))
  end.
Proof.
  pose proof (update_existing_spec KIND_CHATS id
    (fields [("lastMessagePreview", Str preview); ("lastMessageAt", Number at_)]) d Hwf Hn) as Hu.
  unfold set_chat_last_message. destruct (update_existing _ _ _ _ _ _) as [d' u].
  destruct Hu as [Hu Hm]. split; [done|]. destruct (overlay_row d KIND_CHATS id) as [r|]; [|done].
  destruct Hm as (r' & Hr' & Hf). exists r'. split; [done|]. apply map_eq. intros k.
  rewrite Hf. unfold after_write. rewrite fields_lookup. unfold last_entry. cbn [fold_left fst snd].
  destruct (String.eqb_spec "lastMessageAt" k) as [<-|H2]; cbv match.
  { rewrite lookup_insert_ne by done. by rewrite lookup_insert_eq. }
  destruct (String.eqb_spec "lastMessagePreview" k) as [<-|H1]; cbv match.
  { by rewrite lookup_insert_eq. }
  by rewrite !lookup_insert_ne.
Qed.

(** The seen marker is monotone: for a displayed chat it ends at the later
    of the stored stamp and the new one. *)
Theorem set_chat_seen_monotone id at_ d r
  (Hwf : doc_wf d) (Hat : is_i64 at_)
  (Hr : overlay_row d KIND_CHATS id = Some r)
  (Hn : newest_for (next_hlc wall d).1 (raw_row d KIND_CHATS id)) :
  let '(d', found) := set_chat_seen len wall id at_ d in
  found = true ∧ ∃ r', overlay_row d' KIND_CHATS id = Some r' ∧
    row_fields r' !! "lastSeenAt" ≫= as_i64 =
      Some (match row_fields r !! "lastSeenAt" ≫= as_i64 with
            | Some ms => Z.max ms at_
            | None => at_
            end).
Proof.
  unfold set_chat_seen. rewrite Hr.
  assert (∃ r', overlay_row (RegistryDoc.write len wall KIND_CHATS id Update
      (fields [("lastSeenAt", Number at_)]) d) KIND_CHATS id = Some r' ∧
      row_fields r' !! "lastSeenAt" ≫= as_i64 = Some at_) as Hw.
  { apply overlay_row_live in Hr as [Hraw Hd]. rewrite Hraw in Hn.
    destruct (apply_update_live KIND_CHATS id (fields [("lastSeenAt", Number at_)]) _ r Hd Hn)
      as (r' & Ha & Hd' & Hf).
    exists r'. split.
    - apply overlay_row_live. destruct (write_raw len wall KIND_CHATS id Update
        (fields [("lastSeenAt", Number at_)]) d KIND_CHATS id Hwf) as [_ ->].
      by rewrite decide_True, Hraw.
    - rewrite Hf. unfold after_write. rewrite fields_lookup. simpl. by apply as_i64_number. }
  destruct (row_fields r !! "lastSeenAt" ≫= as_i64) as [ms|] eqn:E; [|by split].
  destruct (Z.leb_spec at_ ms); (split; [done|]).
  - exists r. rewrite E. split; [done|]. f_equal. lia.
  - destruct Hw as (r' & ? & Hs). exists r'. rewrite Hs. split; [done|]. f_equal. lia.
Qed.

(** A chat claimed before its creation arrives keeps what the claim knows
    and still takes every other field of the older creation. *)
Theorem claim_then_create id device cwd space_id at_ set claimed created
  (Hlt : created <s claimed) :
  let claim := mkOp KIND_CHATS id Upsert (Some (claim_fields id device cwd space_id at_)) claimed None in
  let create := mkOp KIND_CHATS id Upsert (Some set) created None in
  ∃ r, apply_all None [claim; create] = Some r ∧ row_deleted r = false ∧
    ∀ k, row_fields r !! k =
      match claim_fields id device cwd space_id at_ !! k with
      | Some v => Some v
      | None => stored set !! k
      end.
Proof.
  clear len wall. intros claim create. simpl. rewrite apply_row_upsert_none by done.
  rewrite apply_row_live by (rewrite ?written_deleted; done). eexists. split; [done|].
  rewrite !written_deleted. split; [done|]. intros k.
  assert (∀ k v, claim_fields id device cwd space_id at_ !! k = Some v → is_null v = false) as Hnull.
  { unfold claim_fields. intros k' v Hv.
    assert (∀ k' v, fields [("id", Str id); ("deviceId", Str device); ("createdAt", Number at_)] !! k'
              = Some v → is_null v = false) as Hbase.
    { intros k0 v0. rewrite fields_lookup. unfold last_entry. cbn [fold_left fst snd].
      destruct (String.eqb "createdAt" k0); [by intros [= <-]|].
      destruct (String.eqb "deviceId" k0); [by intros [= <-]|].
      destruct (String.eqb "id" k0); [by intros [= <-]|done]. }
    destruct cwd, space_id; rewrite ?lookup_insert_Some in Hv; naive_solver. }
  assert (row_fields (written create (written claim (fresh_row claim))) !! k =
    (write_cell (op_cell create k) (write_cell (op_cell claim k) (row_cell (fresh_row claim) k))).1)
    as -> by (by rewrite <- !written_cell).
  unfold row_cell, op_cell, op_writes, clock_for, stored. simpl. rewrite !lookup_empty, lookup_omap.
  destruct (claim_fields id device cwd space_id at_ !! k) as [v|] eqn:E; simpl.
  - rewrite (Hnull _ _ E). destruct (set !! k); simpl; [|done].
    unfold str_lt in Hlt. by rewrite (str_ltb_asym _ _ Hlt).
  - by destruct (set !! k).
Qed.

(** ** Deletes *)

Definition delete_ops (hlc : string) (keys : list (string * string)) : list RowOp :=
  (λ k, mkOp k.1 k.2 Delete None hlc None) <$> keys.

Lemma delete_row_ops_raw keys d kind id :
  doc_wf d →
  doc_wf (RegistryDoc.delete_row_ops len wall keys d) ∧
  raw_row (RegistryDoc.delete_row_ops len wall keys d) kind id =
    apply_all (raw_row d kind id)
      (delete_ops (next_hlc wall d).1 (filter (λ k, k = (kind, id)) keys)).
Proof.
  intros Hwf. unfold RegistryDoc.delete_row_ops.
  pose proof (next_hlc_wf wall d Hwf) as Hwf1. pose proof (next_hlc_raw wall d kind id) as Hraw.
  destruct (next_hlc wall d) as [hlc d1]. cbn [fst snd] in *.
  destruct (enqueue_ops_spec len wall (delete_ops hlc keys) d1 Hwf1) as [H1 H2].
  split; [done|]. unfold delete_ops in *. rewrite H2, Hraw. f_equal.
  clear. induction keys as [|k keys IH]; [done|]. rewrite fmap_cons, !filter_cons.
  destruct (decide (k = (kind, id))) as [->|Hne].
  - rewrite decide_True by done. rewrite fmap_cons. by f_equal.
  - rewrite decide_False; [done|]. unfold has_key, op_key. simpl. by destruct k.
Qed.

(** Deletes on a dead row keep it dead; the first newest one kills it. *)
Lemma deletes_hide hlc keys row :
  newest_for hlc row → keys ≠ [] →
  live_only (apply_all row (delete_ops hlc keys)) = None.
Proof.
  intros Hn Hne.
  assert (∀ keys r, row_deleted r = true → live_only (apply_all (Some r) (delete_ops hlc keys)) = None)
    as Hdead.
  { clear. induction keys as [|k keys IH]; intros r Hr; simpl; [by rewrite Hr|].
    rewrite apply_row_delete, Hr by done. destruct (hlc_newer _ _); [|by apply IH]. by apply IH. }
  destruct keys as [|k keys]; [done|]. simpl. rewrite apply_row_delete by done.
  destruct row as [r|]; [|by apply Hdead]. pose proof (Hn r eq_refl) as Hm. cbn [op_hlc].
  assert (hlc_newer hlc (if row_deleted r then row_del_hlc r else max_clock r) = true) as ->.
  { destruct (row_deleted r); [|done]. by apply (max_clock_spec hlc r). }
  by apply Hdead.
Qed.

(** Rows of keys not deleted are untouched, newest deletes hide the others. *)
Lemma delete_row_ops_shows keys d kind id :
  doc_wf d →
  ((kind, id) ∈ keys → newest_for (next_hlc wall d).1 (raw_row d kind id)) →
  overlay_row (RegistryDoc.delete_row_ops len wall keys d) kind id =
    if decide ((kind, id) ∈ keys) then None else overlay_row d kind id.
Proof.
  intros Hwf Hn. rewrite !overlay_row_raw.
  destruct (delete_row_ops_raw keys d kind id Hwf) as [_ ->]. case_decide as Hin.
  - apply deletes_hide; [by apply Hn|]. intros He.
    assert ((kind, id) ∈ filter (λ k, k = (kind, id)) keys) as Hf by (by apply list_elem_of_filter).
    rewrite He in Hf. by apply elem_of_nil in Hf.
  - rewrite list_filter_none; [done|]. by intros x Hx ->.
Qed.

(** Deleting a chat reports whether it was displayed and, with a newest
    clock, hides the chat and its session row and nothing else. *)
Theorem delete_chat_exact id d
  (Hwf : doc_wf d)
  (Hc : newest_for (next_hlc wall d).1 (raw_row d KIND_CHATS id))
  (Hs : newest_for (next_hlc wall d).1 (raw_row d KIND_SESSIONS id)) :
  let '(d', existed) := delete_chat len wall id d in
  existed = bool_decide (is_Some (overlay_row d KIND_CHATS id)) ∧
  ∀ kind i, overlay_row d' kind i =
    if decide (i = id ∧ (kind = KIND_CHATS ∨ kind = KIND_SESSIONS)) then None
    else overlay_row d kind i.
Proof.
  unfold delete_chat. split; [done|]. intros kind i. rewrite delete_row_ops_shows by first
    [done|rewrite !elem_of_cons; intros [[= -> ->]|[[= -> ->]|?%elem_of_nil]]; done].
  repeat case_decide; try done.
  - exfalso. rewrite !elem_of_cons, elem_of_nil in *. naive_solver.
  - exfalso. rewrite !elem_of_cons, elem_of_nil in *. naive_solver.
Qed.

Lemma read_chats_elem d c :
  c ∈ read_chats d ↔ ∃ id r, overlay_row d KIND_CHATS id = Some r ∧ row_to_chat (row_fields r) = Some c.
Proof.
  unfold read_chats. rewrite sort_by_elem, list_elem_of_omap. split.
  - intros (r & Hr & Hc). apply overlay_rows_elem in Hr as [id Hr]. eauto.
  - intros (id & r & Hr & Hc). exists r. split; [|done]. apply overlay_rows_elem. eauto.
Qed.

Lemma chat_read d id c : chat d id = Some c → c ∈ read_chats d.
Proof.
  unfold chat. intros Hc. apply read_chats_elem. destruct (overlay_row d KIND_CHATS id) as [r|] eqn:E; [|done].
  eauto.
Qed.

End Properties.

(** A delete stamped by a clock that runs behind the row's clocks is lost,
    although it reports the chat as deleted: the registry adopts foreign clocks
    only before sidebar edits. *)
Lemma delete_chat_behind_peer :
  let peer := mkRow "chats" "c" 1 false None {["id" := Str "c"]}
                {["id" := encode_hlc 9000 0 "peer"]} in
  let d := (apply_rows 1 [peer] (new_doc "me")).1 in
  let '(d', existed) := delete_chat (λ _, Some 0) (λ _, 5000) "c" d in
  existed = true ∧ overlay_row d' KIND_CHATS "c" = overlay_row d KIND_CHATS "c" ∧
  is_Some (overlay_row d' KIND_CHATS "c").
Proof. vm_compute. split_and!; [done|done|eauto]. Qed.

(** ** Witnesses *)

#[export] Instance ex_chrono : Chrono := {|
  ts_ok ms := (- 2 ^ 62 <=? ms) && (ms <? 2 ^ 62);
  rfc3339 ms := fixed_digits 19 (ms + 2 ^ 62);
  parse_rfc3339 s := (λ n, n - 2 ^ 62) <$> parse_digits s
|}.

#[export] Instance ex_chrono_laws : ChronoLaws.
Proof.
  split; [done| |]; intros ms Hms; apply andb_prop in Hms as [H1 H2];
    apply Z.leb_le in H1; apply Z.ltb_lt in H2.
  - unfold is_i64. lia.
  - unfold parse_rfc3339, rfc3339, ex_chrono. rewrite parse_digits_fixed.
    + cbn [fmap option_fmap option_map]. f_equal. lia.
    + apply Nat.lt_0_succ.
    + change (Z.of_nat 19) with 19. lia.
Qed.

Definition ex_chat : Chat :=
  mkChat "c" "dev" (Some "t") false None (Some "main") None
    (Some (mkContext "co" "/r" "/r" "main" None 5))
    (Some (mkConfig Codex None (Some High) [] ReadOnly)) None (Some 9) 3 None None
    (Some "s") None (Some 2) None.

Lemma ex_chat_ok : chat_ok ex_chat.
Proof. split; simpl; try intros ? [= <-]; try done. Qed.

Definition ex_api_doc : RegistryDoc := upsert_chat ex_len ex_wall ex_chat ex_doc.

Lemma ex_api_doc_wf : doc_wf ex_api_doc.
Proof. eapply (doc_step_wf ex_len ex_wall), ex_doc_wf. apply step_write. Qed.

Lemma ex_newest : newest_for (next_hlc ex_wall ex_doc).1 (raw_row ex_doc KIND_CHATS "c").
Proof. intros r H. vm_compute in H. injection H as <-. vm_compute. done. Qed.


Lemma set_chat_last_message_exact_witness :
  (set_chat_last_message ex_len ex_wall "missing" "p" 7 ex_doc).2 = false.
Proof.
  pose proof (set_chat_last_message_exact ex_len ex_wall "missing" "p" 7 ex_doc ex_doc_wf) as H.
  destruct (set_chat_last_message ex_len ex_wall "missing" "p" 7 ex_doc) as [d' u] eqn:E.
  destruct H as [-> _]; [|reflexivity]. intros r Hr. vm_compute in Hr. discriminate.
Defined.

Lemma set_chat_seen_monotone_witness :
  (set_chat_seen ex_len ex_wall "c" 7 ex_doc).2 = true.
Proof.
  destruct (overlay_row ex_doc KIND_CHATS "c") as [r|] eqn:E; [|vm_compute in E; discriminate].
  pose proof (set_chat_seen_monotone ex_len ex_wall "c" 7 ex_doc r ex_doc_wf
    ltac:(unfold is_i64; lia) E ex_newest) as H.
  destruct (set_chat_seen ex_len ex_wall "c" 7 ex_doc) as [d' f]. exact (proj1 H).
Defined.

Lemma claim_then_create_witness :
  ∃ r, apply_all None
    [mkOp KIND_CHATS "c" Upsert (Some (claim_fields "c" "dev" (Some "/w") None 5)) "2" None;
     mkOp KIND_CHATS "c" Upsert (Some (chat_fields ex_chat)) "1" None] = Some r ∧
    row_fields r !! "title" = Some (Str "t") ∧ row_fields r !! "cwd" = Some (Str "/w").
Proof.
  destruct (claim_then_create "c" "dev" (Some "/w") None 5 (chat_fields ex_chat) "2" "1"
    ltac:(reflexivity)) as (r & Hr & _ & Hf).
  exists r. split; [exact Hr|]. rewrite !Hf. split; vm_compute; reflexivity.
Defined.

Lemma ex_api_newest kind id :
  newest_for (next_hlc ex_wall ex_doc).1 (raw_row ex_doc kind id).
Proof.
  intros r H. unfold raw_row, apply_all, pending_ops in H. simpl in H.
  assert (r = ex_row) as ->; [|vm_compute; done].
  destruct (decide (kind = "chats" ∧ id = "c")) as [[-> ->]|Hne]; [vm_compute in H; by simplify_eq|].
  exfalso. unfold ex_doc, apply_rows, put_rows in H. simpl in H.
  change (auth_row (put_row ex_row ∅) kind id = Some r) in H. rewrite auth_row_put in H.
  case_decide as Hk; [simpl in Hk; naive_solver|]. unfold auth_row in H. by rewrite lookup_empty in H.
Qed.

Lemma delete_chat_exact_witness :
  overlay_row (delete_chat ex_len ex_wall "c" ex_doc).1 KIND_CHATS "c" = None.
Proof.
  pose proof (delete_chat_exact ex_len ex_wall "c" ex_doc ex_doc_wf ex_newest
    (ex_api_newest KIND_SESSIONS "c")) as H.
  destruct (delete_chat ex_len ex_wall "c" ex_doc) as [d' e]. destruct H as [_ H].
  exact (H KIND_CHATS "c").
Defined.

