(* ===== verification/PinKeys.v ===== *)
(** * PinKeys: ordering keys of pinned sessions and optimistic pin intents

    Models crates/proto/src/sidebar_pins.rs: the hexadecimal keys that order
    pinned sessions, their allocation strictly between two neighbours, and the
    projection of pending pin and section intents onto the displayed lists. *)

From S2P Require Import Prelude Text.

(** ** Hexadecimal digits *)

Definition hex : string := "0123456789abcdef".

(** [hex[d as usize] as char] *)
Definition hex_char (d : Z) : ascii :=
  match String.get (Z.to_nat d) hex with Some c => c | None => "0"%char end.

Definition byte_of (c : ascii) : Z := Z.of_N (N_of_ascii c).

(** [|b| if b <= b'9' { b - b'0' } else { b - b'a' + 10 }] *)
Definition digit (c : ascii) : Z :=
  if byte_of c <=? 57 then byte_of c - 48 else byte_of c - 97 + 10.

Definition is_hex (c : ascii) : bool :=
  let b := byte_of c in ((48 <=? b) && (b <=? 57)) || ((97 <=? b) && (b <=? 102)).

Fixpoint all_hex (s : string) : bool :=
  match s with EmptyString => true | String c s => is_hex c && all_hex s end.

Fixpoint last_char (s : string) : option ascii :=
  match s with
  | EmptyString => None
  | String c EmptyString => Some c
  | String _ s => last_char s
  end.

Definition len (s : string) : Z := Z.of_nat (String.length s).

(** ** Keys *)

Definition MAX_PIN_ORDER_KEY_BYTES : Z := 8192.
Definition NONCE_BYTES : nat := 149.

Definition valid_pin_order_key (key : string) : bool :=
  negb (bool_decide (key = "")) && (len key <=? MAX_PIN_ORDER_KEY_BYTES)
  && all_hex key && negb (bool_decide (last_char key = Some "0"%char)).

Fixpoint all_ascii (s : string) : bool :=
  match s with EmptyString => true | String c s => (byte_of c <? 128) && all_ascii s end.

Fixpoint has_nul (s : string) : bool :=
  match s with EmptyString => false | String c s => (byte_of c =? 0) || has_nul s end.

Definition str_tail (s : string) : string :=
  match s with EmptyString => "" | String _ s => s end.

(** The fixed-width encoding of the nonce, [n] bytes of it. *)
Fixpoint nonce_hex (n : nat) (nonce : string) : string :=
  match n with
  | O => ""
  | S n =>
      let byte := match nonce with String c _ => byte_of c | EmptyString => 0 end in
      String (hex_char (Z.shiftr byte 4)) (String (hex_char (Z.land byte 15))
        (nonce_hex n (str_tail nonce)))
  end.

(** The digit loop from position [i]: [lower] and [upper] are the bounds from
    [i] on, [key] what was pushed before. *)
Fixpoint key_loop (fuel : nat) (lower : string) (upper : option string) (nonce key : string)
    : result string string :=
  match fuel with
  | O => Err "Pin ordering key is too long"
  | S fuel =>
      let lo := match lower with String c _ => digit c | EmptyString => 0 end in
      let hi := match upper with Some (String c _) => digit c | _ => 16 end in
      if lo + 1 <? hi then
        let key := key +:+ String (hex_char ((lo + hi) / 2)) (nonce_hex NONCE_BYTES nonce) +:+ "8" in
        if len key <=? MAX_PIN_ORDER_KEY_BYTES then Ok key else Err "Pin ordering key is too long"
      else
        key_loop fuel (str_tail lower) (if lo =? hi then str_tail <$> upper else None) nonce
          (key +:+ String (hex_char lo) "")
  end.

Definition pin_order_key_between (lower upper : option string) (nonce : string)
    : result string string :=
  if from_option (λ k, negb (valid_pin_order_key k)) false lower
     || from_option (λ k, negb (valid_pin_order_key k)) false upper
     || match lower, upper with Some a, Some b => str_leb b a | _, _ => false end
     || bool_decide (nonce = "")
     || (Nat.ltb NONCE_BYTES (String.length nonce))
     || negb (all_ascii nonce) || has_nul nonce
  then Err "Invalid pin ordering bounds"
  else key_loop (Z.to_nat MAX_PIN_ORDER_KEY_BYTES) (default "" lower) upper nonce "".

Example key_between_example :
  (match pin_order_key_between (Some "1") (Some "101") "n" with
   | Ok k => String.prefix "10086e" k | Err _ => false end) = true.
Proof. by vm_compute. Qed.

#[global] Arguments key_loop : simpl never.
#[global] Arguments nonce_hex : simpl never.
#[global] Arguments hex_char : simpl never.
#[global] Opaque NONCE_BYTES.

Lemma Ok_inj {E A} (a b : A) : @Ok E A a = Ok b → a = b.
Proof. congruence. Qed.

(** ** Digits *)

Lemma digit_cases (P : Z → Prop) :
  P 0 → P 1 → P 2 → P 3 → P 4 → P 5 → P 6 → P 7 → P 8 → P 9 → P 10 → P 11 → P 12 → P 13 →
  P 14 → P 15 → ∀ d, 0 ≤ d < 16 → P d.
Proof.
  intros. assert (d = 0 ∨ d = 1 ∨ d = 2 ∨ d = 3 ∨ d = 4 ∨ d = 5 ∨ d = 6 ∨ d = 7 ∨ d = 8 ∨ d = 9 ∨
    d = 10 ∨ d = 11 ∨ d = 12 ∨ d = 13 ∨ d = 14 ∨ d = 15) as Hd by lia.
  repeat (destruct Hd as [->|Hd]; [done|]). by subst.
Qed.

Lemma hex_char_hex d : 0 ≤ d < 16 → is_hex (hex_char d) = true.
Proof. revert d. by apply digit_cases. Qed.

Lemma digit_hex_char d : 0 ≤ d < 16 → digit (hex_char d) = d.
Proof. revert d. by apply digit_cases. Qed.

Lemma is_hex_digit c : is_hex c = true → 0 ≤ digit c < 16 ∧ hex_char (digit c) = c.
Proof.
  intros H. assert (∀ c, is_hex c = true → (0 <=? digit c) && (digit c <? 16) = true ∧
    hex_char (digit c) = c) as Hall.
  { clear. intros [[] [] [] [] [] [] [] []]; vm_compute; intros; (discriminate || (split; reflexivity)). }
  destruct (Hall c H) as [Hd Hc]. apply andb_prop in Hd as [H1 H2].
  apply Z.leb_le in H1. apply Z.ltb_lt in H2. done.
Qed.

Lemma byte_of_hex d : 0 ≤ d < 16 → byte_of (hex_char d) = if d <? 10 then 48 + d else 87 + d.
Proof. revert d. by apply digit_cases. Qed.

Lemma hex_char_lt a b :
  0 ≤ a < 16 → 0 ≤ b < 16 → ascii_ltb (hex_char a) (hex_char b) = (a <? b).
Proof.
  intros Ha Hb. pose proof (byte_of_hex a Ha) as Ea. pose proof (byte_of_hex b Hb) as Eb.
  unfold byte_of, ascii_ltb in *.
  destruct (Z.ltb_spec a b), (Z.ltb_spec a 10), (Z.ltb_spec b 10);
    (apply N.ltb_lt || apply N.ltb_ge); lia.
Qed.

Lemma hex_char_inj a b : 0 ≤ a < 16 → 0 ≤ b < 16 → hex_char a = hex_char b → a = b.
Proof. intros Ha Hb E. rewrite <- (digit_hex_char a), <- (digit_hex_char b) by done. by rewrite E. Qed.

Lemma str_lt_head a b p q : 0 ≤ a < b → b < 16 → String (hex_char a) p <s String (hex_char b) q.
Proof.
  intros Ha Hb. unfold str_lt. simpl. rewrite hex_char_lt by lia.
  destruct (Z.ltb_spec a b); [done|lia].
Qed.

Lemma str_lt_same c p q : p <s q → String c p <s String c q.
Proof. unfold str_lt. simpl. by rewrite ascii_ltb_irrefl. Qed.

Lemma str_lt_cons_inv c d p q :
  is_hex c = true → is_hex d = true → String c p <s String d q →
  digit c < digit d ∨ (c = d ∧ p <s q).
Proof.
  intros Hc Hd L. apply is_hex_digit in Hc as [Hc Ec], Hd as [Hd Ed].
  rewrite <- Ec, <- Ed in L. unfold str_lt in L. apply str_ltb_cons in L as [L|[E L]].
  - rewrite hex_char_lt in L by done. left. by apply Z.ltb_lt.
  - right. split; [congruence|done].
Qed.

Lemma str_lt_empty_r s : ¬ s <s "".
Proof. unfold str_lt. by destruct s. Qed.

Lemma str_lt_empty_l c s : "" <s String c s.
Proof. done. Qed.

Lemma last_char_cons c s : s ≠ "" → last_char (String c s) = last_char s.
Proof. by destruct s. Qed.

(** ** The allocated key lies strictly between its bounds *)

(** A bound from position [i] on: hexadecimal, and not ending in [0]. *)
Definition tail_ok (s : string) : Prop := all_hex s = true ∧ last_char s ≠ Some "0"%char.

Lemma tail_ok_tail c s : tail_ok (String c s) → is_hex c = true ∧ all_hex s = true ∧ (s ≠ "" → tail_ok s).
Proof.
  intros [Hh Hl]. simpl in Hh. apply andb_prop in Hh as [Hc Hs]. split_and!; [done..|].
  intros Hne. split; [done|]. by rewrite last_char_cons in Hl.
Qed.

Definition below_upper (k : string) (upper : option string) : Prop :=
  ∀ u, upper = Some u → k <s u.

Lemma key_digits lower upper :
  all_hex lower = true → (∀ u, upper = Some u → all_hex u = true) →
  let lo := match lower with String c _ => digit c | EmptyString => 0 end in
  let hi := match upper with Some (String c _) => digit c | _ => 16 end in
  0 ≤ lo < 16 ∧ 0 ≤ hi ≤ 16.
Proof.
  intros Hl Hu. split.
  - destruct lower as [|c l]; [lia|]. simpl in Hl. apply andb_prop in Hl as [Hc _].
    by apply is_hex_digit.
  - destruct upper as [[|c u]|]; [lia| |lia]. specialize (Hu _ eq_refl). simpl in Hu.
    apply andb_prop in Hu as [Hc _]. apply is_hex_digit in Hc. lia.
Qed.

(** What the loop appends to [key], by cases on the gap at this position. *)
Lemma key_loop_step fuel lower upper nonce key k :
  key_loop (S fuel) lower upper nonce key = Ok k →
  let lo := match lower with String c _ => digit c | EmptyString => 0 end in
  let hi := match upper with Some (String c _) => digit c | _ => 16 end in
  (lo + 1 < hi ∧ k = key +:+ String (hex_char ((lo + hi) / 2)) (nonce_hex NONCE_BYTES nonce) +:+ "8" ∧
     len k ≤ MAX_PIN_ORDER_KEY_BYTES) ∨
  (hi ≤ lo + 1 ∧ key_loop fuel (str_tail lower) (if lo =? hi then str_tail <$> upper else None)
     nonce (key +:+ String (hex_char lo) "") = Ok k).
Proof.
  unfold key_loop. fold key_loop. cbv zeta. destruct (Z.ltb_spec
    (match lower with "" => 0 | String c _ => digit c end + 1)
    (match upper with Some (String c _) => digit c | _ => 16 end)) as [Hg|Hg].
  - destruct (_ <=? MAX_PIN_ORDER_KEY_BYTES) eqn:Hlen; [|done]. intros Hk. apply Ok_inj in Hk. subst k. left.
    split; [exact Hg|]. split; [reflexivity|]. exact (proj1 (Z.leb_le _ _) Hlen).
  - intros Hk. by right.
Qed.

Lemma all_hex_app a b : all_hex (a +:+ b) = all_hex a && all_hex b.
Proof. induction a as [|c a IH]; simpl; [done|]. by rewrite IH, andb_assoc. Qed.

(** One byte as two digits. *)
Lemma byte_digits b : 0 ≤ b < 256 → 0 ≤ Z.shiftr b 4 < 16 ∧ 0 ≤ Z.land b 15 < 16 ∧
  b = 16 * Z.shiftr b 4 + Z.land b 15.
Proof.
  intros Hb. change 15 with (Z.ones 4). rewrite Z.land_ones, Z.shiftr_div_pow2 by lia.
  change (2 ^ 4) with 16. pose proof (Z.div_mod b 16 ltac:(lia)).
  pose proof (Z.mod_pos_bound b 16 ltac:(lia)). lia.
Qed.

Lemma byte_of_range c : 0 ≤ byte_of c < 256.
Proof. unfold byte_of. pose proof (N_ascii_bounded c). lia. Qed.

Definition first_byte (s : string) : Z :=
  match s with String c _ => byte_of c | EmptyString => 0 end.

Lemma first_byte_range s : 0 ≤ first_byte s < 256.
Proof. destruct s; simpl; [lia|]. apply byte_of_range. Qed.

Lemma nonce_hex_S n nonce :
  nonce_hex (S n) nonce = String (hex_char (Z.shiftr (first_byte nonce) 4))
    (String (hex_char (Z.land (first_byte nonce) 15)) (nonce_hex n (str_tail nonce))).
Proof. done. Qed.

Lemma nonce_hex_hex n nonce : all_hex (nonce_hex n nonce) = true.
Proof.
  revert nonce; induction n as [|n IH]; intros nonce; [done|]. rewrite nonce_hex_S.
  destruct (byte_digits _ (first_byte_range nonce)) as (H1 & H2 & _).
  cbn [all_hex]. rewrite !hex_char_hex by done. apply IH.
Qed.

Lemma nonce_hex_length n nonce : String.length (nonce_hex n nonce) = (2 * n)%nat.
Proof.
  revert nonce; induction n as [|n IH]; intros nonce; [done|]. rewrite nonce_hex_S.
  simpl. rewrite IH. lia.
Qed.

(** The encoding determines the nonce: it is zero-padded and has no zero byte. *)
Lemma nonce_hex_inj n a b :
  (String.length a ≤ n)%nat → (String.length b ≤ n)%nat → has_nul a = false → has_nul b = false →
  nonce_hex n a = nonce_hex n b → a = b.
Proof.
  revert a b; induction n as [|n IH]; intros a b Ha Hb Na Nb E.
  { destruct a, b; simpl in *; lia || done. }
  rewrite !nonce_hex_S in E. injection E as E1 E2 E.
  destruct (byte_digits _ (first_byte_range a)) as (Ha1 & Ha2 & Ha3).
  destruct (byte_digits _ (first_byte_range b)) as (Hb1 & Hb2 & Hb3).
  apply hex_char_inj in E1; [|done..]. apply hex_char_inj in E2; [|done..].
  assert (first_byte a = first_byte b) as Ef by lia.
  destruct a as [|c a], b as [|d b]; simpl in *; [done| | |].
  - apply orb_false_elim in Nb as [Nb _]. rewrite <- Ef in Nb. done.
  - apply orb_false_elim in Na as [Na _]. rewrite Ef in Na. done.
  - apply orb_false_elim in Na as [_ Na], Nb as [_ Nb]. f_equal; [|apply IH; auto with lia].
    unfold byte_of in Ef. rewrite <- (ascii_N_embedding c), <- (ascii_N_embedding d). f_equal. lia.
Qed.

(** Narrowing the bounds by one equal or adjacent digit. *)
Lemma key_loop_narrow lower upper :
  all_hex lower = true → (∀ u, upper = Some u → tail_ok u) → below_upper lower upper →
  let lo := match lower with String c _ => digit c | EmptyString => 0 end in
  let hi := match upper with Some (String c _) => digit c | _ => 16 end in
  let upper' := if lo =? hi then str_tail <$> upper else None in
  hi ≤ lo + 1 →
  (∀ u, upper' = Some u → tail_ok u) ∧ below_upper (str_tail lower) upper' ∧
  (∀ K, below_upper K upper' → below_upper (String (hex_char lo) K) upper).
Proof.
  intros Hl Hu Hlt. cbv zeta. destruct upper as [u|].
  2:{ intros _. by case_match. }
  pose proof (Hlt u eq_refl) as Hlu. pose proof (Hu u eq_refl) as Hok.
  destruct u as [|d u]; [by apply str_lt_empty_r in Hlu|].
  destruct (tail_ok_tail d u Hok) as (Hd & Hu1 & Hu2). destruct (is_hex_digit d Hd) as [Hd1 Hd2].
  set (lo := match lower with String c _ => digit c | EmptyString => 0 end). intros Hg.
  assert (lo = digit d ∧ str_tail lower <s u ∨ 0 ≤ lo < digit d) as Hcase.
  { destruct lower as [|c l].
    - subst lo. destruct (Z.eq_dec (digit d) 0) as [E|]; [left|right; lia]. split; [done|].
      destruct u as [|d' u]; [|done]. exfalso. destruct Hok as [_ Hlast]. apply Hlast. simpl.
      by rewrite <- Hd2, E.
    - simpl in Hl. apply andb_prop in Hl as [Hc _]. destruct (is_hex_digit c Hc) as [? _].
      destruct (str_lt_cons_inv c d l u Hc Hd Hlu) as [?|[-> ?]]; [right; subst lo; lia|by left]. }
  destruct Hcase as [[Hlo Htl]|Hlo].
  - rewrite Hlo, Z.eqb_refl. simpl. split_and!.
    + intros u' [= <-]. apply Hu2. intros ->. by apply str_lt_empty_r in Htl.
    + by intros u' [= <-].
    + intros K HK u' [= <-]. rewrite Hd2. by apply str_lt_same, HK.
  - destruct (Z.eqb_spec lo (digit d)); [lia|]. split_and!; [done|done|].
    intros K _ u' [= <-]. rewrite <- Hd2. apply str_lt_head; lia.
Qed.

(** Allocation succeeds only with a key between the bounds from here on, made
    of a hexadecimal prefix, the encoded nonce and a final [8]. *)
Lemma key_loop_between fuel lower upper nonce key k :
  all_hex lower = true → (∀ u, upper = Some u → tail_ok u) → below_upper lower upper →
  key_loop fuel lower upper nonce key = Ok k →
  len k ≤ MAX_PIN_ORDER_KEY_BYTES ∧
  ∃ p, k = key +:+ p +:+ nonce_hex NONCE_BYTES nonce +:+ "8" ∧ all_hex p = true ∧
    let K := p +:+ nonce_hex NONCE_BYTES nonce +:+ "8" in lower <s K ∧ below_upper K upper.
Proof.
  intros Hl Hu Hlt. revert lower upper key Hl Hu Hlt.
  induction fuel as [|fuel IH]; intros lower upper key Hl Hu Hlt Hk; [done|].
  assert (∀ u, upper = Some u → all_hex u = true) as Hux by (intros u Eu; by apply Hu).
  destruct (key_digits lower upper Hl Hux) as [Hlo Hhi].
  apply key_loop_step in Hk. cbv zeta in Hk.
  destruct Hk as [(Hg & -> & Hlen)|(Hg & Hk)].
  - split; [exact Hlen|]. exists (String (hex_char ((match lower with String c _ => digit c
      | EmptyString => 0 end + match upper with Some (String c _) => digit c | _ => 16 end) / 2)) "").
    set (lo := match lower with String c _ => digit c | EmptyString => 0 end) in *.
    set (hi := match upper with Some (String c _) => digit c | _ => 16 end) in *.
    assert (lo < (lo + hi) / 2 < hi) as Hmid.
    { pose proof (Z.div_mod (lo + hi) 2 ltac:(lia)).
      pose proof (Z.mod_pos_bound (lo + hi) 2 ltac:(lia)). lia. }
    cbv zeta. split_and!; [done|cbn [all_hex]; by rewrite hex_char_hex by lia| |].
    + destruct lower as [|c l]; [done|]. simpl in Hl. apply andb_prop in Hl as [Hc _].
      apply is_hex_digit in Hc as [_ Hc]. rewrite <- Hc. apply str_lt_head; subst lo; lia.
    + intros u Eu. destruct u as [|c u]; [by destruct (str_lt_empty_r lower); apply Hlt|].
      specialize (Hux _ Eu). simpl in Hux. apply andb_prop in Hux as [Hc _].
      apply is_hex_digit in Hc as [? Hc]. rewrite <- Hc.
      assert (hi = digit c) by (subst hi; by rewrite Eu). apply str_lt_head; lia.
  - destruct (key_loop_narrow lower upper Hl Hu Hlt Hg) as (Hu' & Hlt' & Hback).
    assert (all_hex (str_tail lower) = true) as Hl'.
    { destruct lower as [|c l]; [done|]. simpl in Hl. by apply andb_prop in Hl as [_ Hl]. }
    destruct (IH _ _ _ Hl' Hu' Hlt' Hk) as (Hlen & p & -> & Hp & HK1 & HK2).
    split; [exact Hlen|].
    exists (String (hex_char (match lower with String c _ => digit c | EmptyString => 0 end)) p).
    rewrite str_app_assoc. cbv zeta. split_and!; [done| | |by apply Hback].
    + cbn [all_hex]. by rewrite hex_char_hex.
    + destruct lower as [|c l]; [done|]. simpl in Hl. apply andb_prop in Hl as [Hc _].
      apply is_hex_digit in Hc as [_ Hc]. rewrite Hc. by apply str_lt_same.
Qed.

(** ** Allocation *)

Lemma valid_key_tail k : valid_pin_order_key k = true → tail_ok k ∧ k ≠ "" ∧ len k ≤ MAX_PIN_ORDER_KEY_BYTES.
Proof.
  unfold valid_pin_order_key, tail_ok. intros H.
  apply andb_prop in H as [H H4]. apply andb_prop in H as [H H3]. apply andb_prop in H as [H1 H2].
  apply negb_true_iff, bool_decide_eq_false in H1, H4. apply Z.leb_le in H2. done.
Qed.

(** What a caller may assume of accepted arguments. *)
Lemma pin_order_key_accepts lower upper nonce k :
  pin_order_key_between lower upper nonce = Ok k →
  (∀ l, lower = Some l → valid_pin_order_key l = true) ∧
  (∀ u, upper = Some u → valid_pin_order_key u = true) ∧
  (∀ l u, lower = Some l → upper = Some u → l <s u) ∧
  (String.length nonce ≤ NONCE_BYTES)%nat ∧ has_nul nonce = false ∧
  key_loop (Z.to_nat MAX_PIN_ORDER_KEY_BYTES) (default "" lower) upper nonce "" = Ok k.
Proof.
  unfold pin_order_key_between. intros H.
  match type of H with (if ?b then _ else _) = _ => destruct b eqn:E end; [done|].
  repeat (apply orb_false_elim in E as [E ?]).
  split_and!.
  - intros l ->. by apply negb_false_iff.
  - intros u ->. by apply negb_false_iff.
  - intros l u -> ->. unfold str_lt. unfold str_leb in *. by apply negb_false_iff.
  - by apply Nat.ltb_ge.
  - done.
  - done.
Qed.

Lemma pin_order_key_shape lower upper nonce k :
  pin_order_key_between lower upper nonce = Ok k →
  len k ≤ MAX_PIN_ORDER_KEY_BYTES ∧ default "" lower <s k ∧ below_upper k upper ∧
  ∃ p, k = p +:+ nonce_hex NONCE_BYTES nonce +:+ "8" ∧ all_hex p = true.
Proof.
  intros H. destruct (pin_order_key_accepts _ _ _ _ H) as (Hl & Hu & Hlu & _ & _ & Hk).
  assert (all_hex (default "" lower) = true) as Hlx.
  { destruct lower as [l|]; [|done]. by destruct (valid_key_tail l (Hl l eq_refl)) as [[? _] _]. }
  assert (∀ u, upper = Some u → tail_ok u) as Hux by (intros u Eu; by apply valid_key_tail, Hu).
  assert (below_upper (default "" lower) upper) as Hltx.
  { intros u Eu. destruct lower as [l|]; [by apply Hlu|]. simpl.
    destruct (valid_key_tail u (Hu u Eu)) as (_ & Hne & _). by destruct u. }
  destruct (key_loop_between _ _ _ _ _ _ Hlx Hux Hltx Hk) as (Hlen & p & -> & Hp & H1 & H2).
  split_and!; [done..|]. by exists p.
Qed.

Lemma last_char_app p c : last_char (p +:+ String c "") = Some c.
Proof.
  induction p as [|d p IH]; [done|]. simpl. destruct (p +:+ String c "") eqn:E; [|done].
  by destruct p.
Qed.

Lemma pin_order_key_valid lower upper nonce k :
  pin_order_key_between lower upper nonce = Ok k → valid_pin_order_key k = true.
Proof.
  intros H. destruct (pin_order_key_shape _ _ _ _ H) as (Hlen & _ & _ & p & -> & Hp).
  unfold valid_pin_order_key. rewrite !andb_true_iff. split_and!.
  - rewrite bool_decide_false; [done|]. by destruct p; [destruct (nonce_hex _ _)|].
  - by apply Z.leb_le.
  - rewrite !all_hex_app, Hp, nonce_hex_hex. done.
  - rewrite <- str_app_assoc, last_char_app. done.
Qed.

(** C19: an allocated order key is valid and lies strictly between its bounds. *)
Theorem pin_order_key_between_bounds lower upper nonce k
  (H : pin_order_key_between lower upper nonce = Ok k) :
  valid_pin_order_key k = true ∧
  (∀ l, lower = Some l → l <s k) ∧ (∀ u, upper = Some u → k <s u).
Proof.
  destruct (pin_order_key_shape _ _ _ _ H) as (_ & Hl & Hu & _).
  split_and!; [by eapply pin_order_key_valid|intros l ->; exact Hl|exact Hu].
Qed.

(** Keys allocated under different nonces differ, whatever their bounds. *)
Theorem pin_order_key_no_collision l1 u1 n1 l2 u2 n2 k1 k2
  (H1 : pin_order_key_between l1 u1 n1 = Ok k1)
  (H2 : pin_order_key_between l2 u2 n2 = Ok k2) (Hn : n1 ≠ n2) : k1 ≠ k2.
Proof.
  intros E. apply Hn.
  destruct (pin_order_key_accepts _ _ _ _ H1) as (_ & _ & _ & Hb1 & Hz1 & _).
  destruct (pin_order_key_accepts _ _ _ _ H2) as (_ & _ & _ & Hb2 & Hz2 & _).
  destruct (pin_order_key_shape _ _ _ _ H1) as (_ & _ & _ & p1 & -> & _).
  destruct (pin_order_key_shape _ _ _ _ H2) as (_ & _ & _ & p2 & -> & _).
  pose proof (f_equal String.length E) as Hl. rewrite !str_length_app, !nonce_hex_length in Hl.
  apply str_app_inj_len in E as [_ E]; [|lia].
  apply str_app_inj_len in E as [E _]; [|by rewrite !nonce_hex_length].
  by apply (nonce_hex_inj NONCE_BYTES).
Qed.

(** ** Allocation is total on bounds of ordinary length *)

Lemma str_tail_length s : String.length (str_tail s) = (String.length s - 1)%nat.
Proof. destruct s; simpl; lia. Qed.

(** Positions still to read of either bound. *)
Definition bounds_left (lower : string) (upper : option string) : nat :=
  Nat.max (String.length lower) (from_option String.length 0%nat upper).

Lemma key_loop_total fuel lower upper nonce key :
  all_hex lower = true → (∀ u, upper = Some u → tail_ok u) → below_upper lower upper →
  (bounds_left lower upper + 2 ≤ fuel)%nat →
  len key + Z.of_nat (bounds_left lower upper) + 2 * Z.of_nat NONCE_BYTES + 3 ≤ MAX_PIN_ORDER_KEY_BYTES →
  is_ok (key_loop fuel lower upper nonce key) = true.
Proof.
  intros Hl Hu Hlt. revert lower upper key Hl Hu Hlt.
  induction fuel as [|fuel IH]; intros lower upper key Hl Hu Hlt Hf Hlen; [lia|].
  unfold key_loop. fold key_loop. cbv zeta.
  destruct (Z.ltb_spec (match lower with "" => 0 | String c _ => digit c end + 1)
    (match upper with Some (String c _) => digit c | _ => 16 end)) as [Hg|Hg].
  - assert (len (key +:+ String (hex_char ((match lower with "" => 0 | String c _ => digit c end +
        match upper with Some (String c _) => digit c | _ => 16 end) / 2))
        (nonce_hex NONCE_BYTES nonce) +:+ "8") ≤ MAX_PIN_ORDER_KEY_BYTES) as Hk.
    { unfold len in *. rewrite !str_length_app. cbn [String.length]. rewrite nonce_hex_length. lia. }
    apply Z.leb_le in Hk. by rewrite Hk.
  - destruct (key_loop_narrow lower upper Hl Hu Hlt Hg) as (Hu' & Hlt' & _).
    assert (all_hex (str_tail lower) = true) as Hl'.
    { destruct lower as [|c l]; [done|]. simpl in Hl. by apply andb_prop in Hl as [_ Hl]. }
    set (upper' := if _ =? _ then str_tail <$> upper else None).
    assert (bounds_left (str_tail lower) upper' ≤ bounds_left lower upper - 1)%nat as Hb.
    { unfold bounds_left, upper'. rewrite str_tail_length. clear. generalize (match lower with "" => 0 | String c _ => digit c end =?
        match upper with Some (String c _) => digit c | _ => 16 end) as b. intros b.
      destruct upper as [u|], b; cbn [fmap option_fmap option_map from_option]; rewrite ?str_tail_length; lia. }
    assert (0 < bounds_left lower upper)%nat as Hpos.
    { unfold bounds_left. destruct lower as [|c l]; [|cbn [String.length]; lia].
      destruct upper as [[|d u]|]; [exfalso; revert Hg; by apply Zlt_not_le|cbn [String.length from_option]; lia|
        exfalso; revert Hg; by apply Zlt_not_le]. }
    apply IH; [done..|lia|]. unfold len in *. rewrite str_length_app. simpl. lia.
Qed.

(** C30: allocation succeeds between any ordered valid bounds that leave room for
    the encoded nonce: 7,890 bytes each are enough. *)
Theorem pin_order_key_between_total lower upper nonce
  (Hl : ∀ l, lower = Some l → valid_pin_order_key l = true ∧ len l ≤ 7890)
  (Hu : ∀ u, upper = Some u → valid_pin_order_key u = true ∧ len u ≤ 7890)
  (Hlu : ∀ l u, lower = Some l → upper = Some u → l <s u)
  (Hn : nonce ≠ "" ∧ (String.length nonce ≤ 149)%nat ∧ all_ascii nonce = true ∧ has_nul nonce = false) :
  ∃ k, pin_order_key_between lower upper nonce = Ok k.
Proof.
  destruct Hn as (Hn1 & Hn2 & Hn3 & Hn4).
  assert (is_ok (pin_order_key_between lower upper nonce) = true) as Hok.
  2:{ destruct (pin_order_key_between lower upper nonce) as [k|e]; [by exists k|done]. }
  unfold pin_order_key_between.
  assert (from_option (λ k, negb (valid_pin_order_key k)) false lower = false) as ->.
  { destruct lower as [l|]; [|done]. simpl. by destruct (Hl l eq_refl) as [-> _]. }
  assert (from_option (λ k, negb (valid_pin_order_key k)) false upper = false) as ->.
  { destruct upper as [u|]; [|done]. simpl. by destruct (Hu u eq_refl) as [-> _]. }
  assert (match lower, upper with Some a, Some b => str_leb b a | _, _ => false end = false) as ->.
  { destruct lower as [l|], upper as [u|]; try done. unfold str_leb. apply negb_false_iff.
    by apply Hlu. }
  rewrite bool_decide_false by done. rewrite Hn3, Hn4.
  change NONCE_BYTES with 149%nat. destruct (Nat.ltb_spec 149 (String.length nonce)); [lia|].
  cbn [orb negb]. apply key_loop_total.
  - destruct lower as [l|]; [|done]. by destruct (valid_key_tail l (proj1 (Hl l eq_refl))) as [[? _] _].
  - intros u Eu. by apply valid_key_tail, Hu.
  - intros u Eu. destruct lower as [l|]; [by apply Hlu|].
    destruct (valid_key_tail u (proj1 (Hu u Eu))) as (_ & Hne & _). by destruct u.
  - assert (Z.of_nat (bounds_left (default "" lower) upper) ≤ 7890) as Hb.
    { unfold bounds_left, len in *. destruct lower as [l|], upper as [u|];
        cbn [default from_option id String.length];
        try (specialize (Hl _ eq_refl) as [_ Hl]); try (specialize (Hu _ eq_refl) as [_ Hu]); lia. }
    unfold MAX_PIN_ORDER_KEY_BYTES. lia.
  - assert (Z.of_nat (bounds_left (default "" lower) upper) ≤ 7890) as Hb.
    { unfold bounds_left, len in *. destruct lower as [l|], upper as [u|];
        cbn [default from_option id String.length];
        try (specialize (Hl _ eq_refl) as [_ Hl]); try (specialize (Hu _ eq_refl) as [_ Hu]); lia. }
    unfold MAX_PIN_ORDER_KEY_BYTES, len. change NONCE_BYTES with 149%nat.
    cbn [String.length]. lia.
Qed.

(** ** Projecting pending intents *)

Record SidebarSection := mkSection {
  sec_id : string;
  sec_name : string;
  sec_session_ids : list string;
  sec_collapsed : bool
}.

Inductive SidebarSectionChange :=
  | SCreate (id name : string)
  | SRename (id name : string)
  | SCollapse (id : string) (collapsed : bool)
  | SDelete (id : string)
  | SAssign (session_id : string) (section_id : option string)
  | SImport (sections : list SidebarSection).

Inductive SidebarPinChange :=
  | Pin (session_id : string) (after before : option string)
  | Move (session_id : string) (after before : option string)
  | Unpin (session_id : string)
  | PSection (change : SidebarSectionChange).

Definition session_id (c : SidebarPinChange) : string :=
  match c with PSection _ => "" | Pin id _ _ | Move id _ _ | Unpin id => id end.

(** [Vec::insert] at an index at most the length. *)

Definition position (v : string) (ids : list string) : option nat :=
  fst <$> list_find (λ i, i = v) ids.

Definition remove_id (id : string) (ids : list string) : list string := filter (λ v, v ≠ id) ids.

Definition anchor_index (after before : option string) (ids : list string) : nat :=
  match before ≫= λ v, position v ids with
  | Some i => i
  | None => match after ≫= λ v, position v ids with
            | Some i => S i
            | None => length ids
            end
  end.

Definition project (c : SidebarPinChange) (ids : list string) : list string :=
  match c with
  | PSection (SAssign s _) => remove_id s ids
  | PSection _ => ids
  | Unpin id => remove_id id ids
  | Pin id after before =>
      let ids := remove_id id ids in insert_at (anchor_index after before ids) id ids
  | Move id after before =>
      if bool_decide (id ∈ ids) then
        let ids := remove_id id ids in insert_at (anchor_index after before ids) id ids
      else ids
  end.

(** [sections.iter_mut().find(|s| s.id == id)] then a field update. *)
Fixpoint update_section (id : string) (f : SidebarSection → SidebarSection)
    (l : list SidebarSection) : list SidebarSection :=
  match l with
  | [] => []
  | s :: l => if bool_decide (sec_id s = id) then f s :: l else s :: update_section id f l
  end.

Definition remove_session (session : string) (s : SidebarSection) : SidebarSection :=
  mkSection (sec_id s) (sec_name s) (remove_id session (sec_session_ids s)) (sec_collapsed s).

Definition section_project (c : SidebarSectionChange) (l : list SidebarSection)
    : list SidebarSection :=
  match c with
  | SCreate id name =>
      if bool_decide (Exists (λ s, sec_id s = id) l) then l
      else l ++ [mkSection id name [] false]
  | SRename id name =>
      update_section id (λ s, mkSection (sec_id s) name (sec_session_ids s) (sec_collapsed s)) l
  | SCollapse id collapsed =>
      update_section id (λ s, mkSection (sec_id s) (sec_name s) (sec_session_ids s) collapsed) l
  | SDelete id => filter (λ s, sec_id s ≠ id) l
  | SAssign session section =>
      (λ s, let s := remove_session session s in
            if bool_decide (section = Some (sec_id s))
            then mkSection (sec_id s) (sec_name s) (sec_session_ids s ++ [session]) false
            else s) <$> l
  | SImport _ => l
  end.

Definition project_sections (c : SidebarPinChange) (l : list SidebarSection) : list SidebarSection :=
  match c with
  | Pin id _ _ => remove_session id <$> l
  | PSection change => section_project change l
  | _ => l
  end.

(** ** What projection preserves *)

Lemma remove_id_elem id v ids : v ∈ remove_id id ids ↔ v ∈ ids ∧ v ≠ id.
Proof. unfold remove_id. rewrite list_elem_of_filter. tauto. Qed.

Lemma remove_id_none id ids : id ∉ ids → remove_id id ids = ids.
Proof. intros H. apply list_filter_all. by intros v Hv ->. Qed.

Lemma remove_id_idemp id ids : remove_id id (remove_id id ids) = remove_id id ids.
Proof. apply remove_id_none. rewrite remove_id_elem. tauto. Qed.

Lemma remove_insert id i ids : id ∉ ids → remove_id id (insert_at i id ids) = ids.
Proof.
  intros H. unfold insert_at, remove_id. rewrite filter_app, filter_cons_False by tauto.
  rewrite <- filter_app, take_drop. by apply remove_id_none.
Qed.

Lemma position_split v ids i : position v ids = Some i → take i ids ++ v :: drop (S i) ids = ids ∧ (i < length ids)%nat.
Proof.
  unfold position. intros H. apply fmap_Some in H as ([j w] & Hf & ->).
  apply list_find_Some in Hf as (Hj & -> & _). simpl. split; [by apply take_drop_middle|].
  by apply lookup_lt_Some in Hj.
Qed.

Lemma position_elem v ids : v ∈ ids → is_Some (position v ids).
Proof.
  intros Hv. unfold position. destruct (list_find_elem_of (λ i, i = v) ids v Hv eq_refl) as [p ->].
  by eexists.
Qed.

(** The list a pin or an effective move produces. *)
Definition placed (id : string) (after before : option string) (ids : list string) : list string :=
  let ids := remove_id id ids in insert_at (anchor_index after before ids) id ids.

Lemma placed_before id after b ids :
  b ∈ ids → b ≠ id → ∃ l1 l2, placed id after (Some b) ids = l1 ++ id :: b :: l2.
Proof.
  intros Hb Hne. unfold placed. cbv zeta. set (rest := remove_id id ids).
  assert (b ∈ rest) as Hr by (by apply remove_id_elem).
  destruct (position_elem b rest Hr) as [i Hi]. unfold anchor_index. simpl. rewrite Hi.
  destruct (position_split _ _ _ Hi) as [Hsplit Hlt].
  unfold insert_at. exists (take i rest), (drop (S i) rest).
  rewrite (drop_S rest b i); [done|]. rewrite <- Hsplit.
  rewrite lookup_app_r by (rewrite length_take; lia). rewrite length_take, Nat.min_l by lia.
  by rewrite Nat.sub_diag.
Qed.

(** Projecting a pin intent keeps the list free of duplicates and never
    reorders the other pins; a pin always ends in the list, an unpin never, a
    move only if it was there; and a surviving right anchor is honoured. *)
Theorem project_exact c ids
  (Hnd : NoDup ids) (Hc : ∀ change, c ≠ PSection change) :
  let ids' := project c ids in
  NoDup ids' ∧
  remove_id (session_id c) ids' = remove_id (session_id c) ids ∧
  (session_id c ∈ ids' ↔
     match c with Pin _ _ _ => True | Unpin _ => False | _ => session_id c ∈ ids end) ∧
  (∀ id after b, c = Pin id after (Some b) → b ∈ ids → b ≠ id →
     ∃ l1 l2, ids' = l1 ++ id :: b :: l2).
Proof.
  assert (∀ id after before, NoDup (placed id after before ids) ∧
    remove_id id (placed id after before ids) = remove_id id ids ∧ id ∈ placed id after before ids) as Hp.
  { intros id after before. unfold placed. cbv zeta.
    assert (id ∉ remove_id id ids) as Hn by (rewrite remove_id_elem; tauto).
    split_and!.
    - rewrite insert_at_perm. constructor; [done|]. by apply NoDup_filter.
    - by apply remove_insert.
    - rewrite insert_at_perm. left. }
  cbv zeta. destruct c as [id after before|id after before|id|change]; simpl.
  - destruct (Hp id after before) as (H1 & H2 & H3). split_and!; [done|done|done|].
    intros ??? [= <- <- ->] Hb Hne. by apply placed_before.
  - case_bool_decide as Hin; [|by split_and!].
    destruct (Hp id after before) as (H1 & H2 & H3). split_and!; done.
  - split_and!; [by apply NoDup_filter|apply remove_id_idemp| |done].
    rewrite remove_id_elem. tauto.
  - by destruct (Hc change).
Qed.

(** ** A session is in at most one place *)

Definition all_sessions (l : list SidebarSection) : list string := concat (sec_session_ids <$> l).

(** Section ids are unique, no session is in two sections or twice in one, and
    none is both pinned and in a section. *)
Record placement_wf (ids : list string) (l : list SidebarSection) : Prop := {
  pw_ids : NoDup (sec_id <$> l);
  pw_sessions : NoDup (all_sessions l);
  pw_pins : NoDup ids;
  pw_exclusive s : s ∈ ids → s ∉ all_sessions l
}.

Lemma all_sessions_remove session l :
  all_sessions (remove_session session <$> l) = remove_id session (all_sessions l).
Proof.
  unfold all_sessions, remove_id. induction l as [|s l IH]; [done|].
  rewrite !fmap_cons. simpl. rewrite filter_app. by f_equal.
Qed.

Lemma all_sessions_update id f l :
  (∀ s, sec_id (f s) = sec_id s ∧ sec_session_ids (f s) = sec_session_ids s) →
  all_sessions (update_section id f l) = all_sessions l ∧
  (sec_id <$> update_section id f l) = (sec_id <$> l).
Proof.
  intros Hf. unfold all_sessions. induction l as [|s l [IH1 IH2]]; [done|]. simpl.
  destruct (Hf s) as [H1 H2]. case_bool_decide; simpl; [by rewrite H1, H2|].
  split; f_equal; done.
Qed.

Lemma all_sessions_filter (P : SidebarSection → Prop) `{∀ s, Decision (P s)} l :
  all_sessions (filter P l) `sublist_of` all_sessions l.
Proof.
  unfold all_sessions. induction l as [|s l IH]; [done|]. rewrite filter_cons.
  case_decide; simpl; [by apply sublist_app|]. by apply sublist_inserts_l.
Qed.

Lemma assign_sessions session id l :
  NoDup (sec_id <$> l) →
  all_sessions (section_project (SAssign session (Some id)) l) ≡ₚ
    (if bool_decide (id ∈ sec_id <$> l) then [session] else []) ++ remove_id session (all_sessions l) ∧
  (sec_id <$> section_project (SAssign session (Some id)) l) = (sec_id <$> l).
Proof.
  unfold all_sessions, remove_id. simpl. induction l as [|s l IH]; [done|].
  rewrite fmap_cons. intros Hnd. apply NoDup_cons in Hnd as [Hs Hnd].
  destruct (IH Hnd) as [IH1 IH2]. rewrite !fmap_cons. cbn [concat]. rewrite filter_app. split.
  2:{ f_equal; [by destruct (bool_decide (Some id = Some (sec_id s)))|exact IH2]. }
  rewrite IH1. destruct (decide (Some id = Some (sec_id s))) as [[= ->]|Hne].
  - rewrite (bool_decide_true (Some (sec_id s) = Some (sec_id s))) by done.
    rewrite bool_decide_false by done. rewrite bool_decide_true by left. simpl.
    rewrite <- app_assoc. symmetry. apply Permutation_middle.
  - rewrite (bool_decide_false (Some id = _)) by done. simpl.
    assert (bool_decide (id ∈ sec_id s :: (sec_id <$> l)) = bool_decide (id ∈ sec_id <$> l)) as ->.
    { apply bool_decide_ext. rewrite elem_of_cons. split; [|tauto]. intros [->|?]; [congruence|done]. }
    case_bool_decide; simpl; [|done]. symmetry. apply Permutation_middle.
Qed.

Lemma sessions_after change l :
  NoDup (sec_id <$> l) →
  ∃ sessions, all_sessions (section_project change l) ≡ₚ sessions ∧
  NoDup (sec_id <$> section_project change l) ∧
  match change with
  | SAssign session _ => sessions = remove_id session (all_sessions l) ∨
                         sessions = session :: remove_id session (all_sessions l)
  | _ => sessions `sublist_of` all_sessions l
  end.
Proof.
  intros Hnd. destruct change as [id name|id name|id c|id|session [id|]|secs].
  - exists (all_sessions l). simpl. case_bool_decide as Hex; [by split_and!|].
    split_and!; [|rewrite fmap_app; apply NoDup_app; split_and!|done].
    + unfold all_sessions. rewrite fmap_app, concat_app. simpl. by rewrite app_nil_r.
    + done.
    + intros x Hx. simpl. rewrite list_elem_of_singleton. intros ->. apply Hex, Exists_exists.
      apply list_elem_of_fmap in Hx as (s & -> & ?). eauto.
    + apply NoDup_singleton.
  - destruct (all_sessions_update id (λ s, mkSection (sec_id s) name (sec_session_ids s) (sec_collapsed s))
      l ltac:(done)) as [H1 H2]. exists (all_sessions l). simpl. by rewrite H1, H2.
  - destruct (all_sessions_update id (λ s, mkSection (sec_id s) (sec_name s) (sec_session_ids s) c)
      l ltac:(done)) as [H1 H2]. exists (all_sessions l). simpl. by rewrite H1, H2.
  - exists (all_sessions (filter (λ s, sec_id s ≠ id) l)). simpl. split_and!; [done| |].
    + by apply NoDup_fmap_filter.
    + apply all_sessions_filter.
  - destruct (assign_sessions session id l Hnd) as [H1 H2]. eexists. split; [exact H1|].
    rewrite H2. split; [done|]. case_bool_decide; [by right|by left].
  - exists (remove_id session (all_sessions l)). simpl.
    assert (∀ s, (let s0 := remove_session session s in
      if bool_decide (None = Some (sec_id s0)) then
        mkSection (sec_id s0) (sec_name s0) (sec_session_ids s0 ++ [session]) false else s0)
      = remove_session session s) as Hs by (intros; cbv zeta; by rewrite bool_decide_false).
    rewrite (list_fmap_ext _ (remove_session session) l) by (intros ? s _; apply Hs).
    rewrite all_sessions_remove, <- list_fmap_compose. split_and!; [done|done|by left].
  - exists (all_sessions l). by split_and!.
Qed.

Lemma placement_intro ids l sessions :
  NoDup (sec_id <$> l) → all_sessions l ≡ₚ sessions → NoDup sessions → NoDup ids →
  (∀ s, s ∈ ids → s ∉ sessions) → placement_wf ids l.
Proof.
  intros H1 Hp H2 H3 H4. split; [done|by rewrite Hp|done|]. intros s Hs. rewrite Hp. by apply H4.
Qed.

(** Projecting any intent keeps every session in at most one place: no two
    sections, and never both pinned and in a section. *)
Theorem project_placement c ids l (Hwf : placement_wf ids l) :
  placement_wf (project c ids) (project_sections c l).
Proof.
  destruct Hwf as [Hi Hs Hp Hx].
  assert (∀ id after before, placement_wf (placed id after before ids) (remove_session id <$> l)) as Hpin.
  { intros id after before. apply (placement_intro _ _ (remove_id id (all_sessions l))).
    - by rewrite <- list_fmap_compose.
    - by rewrite all_sessions_remove.
    - by apply NoDup_filter.
    - unfold placed. cbv zeta. rewrite insert_at_perm. constructor; [rewrite remove_id_elem; tauto|].
      by apply NoDup_filter.
    - intros s Hin. unfold placed in Hin. cbv zeta in Hin. rewrite insert_at_perm in Hin.
      rewrite remove_id_elem. rewrite elem_of_cons, remove_id_elem in Hin. intros [Hsl Hne].
      destruct Hin as [?|[Hin _]]; [done|]. by apply (Hx s). }
  destruct c as [id after before|id after before|id|change]; simpl.
  - apply Hpin.
  - case_bool_decide; [|by split]. apply (placement_intro _ _ (all_sessions l)); [done|done|done| |].
    + apply (pw_pins _ _ (Hpin id after before)).
    + intros s Hin. rewrite insert_at_perm, elem_of_cons, remove_id_elem in Hin.
      destruct Hin as [->|[Hin _]]; by apply Hx.
  - split; [done|done|by apply NoDup_filter|]. intros s [Hin _]%remove_id_elem. by apply Hx.
  - destruct (sessions_after change l Hi) as (sessions & H1 & H2 & H3).
    assert (∀ s, s ∈ (match change with SAssign x _ => remove_id x ids | _ => ids end) → s ∈ ids) as Hsub.
    { intros s. destruct change; try done. by intros [? _]%remove_id_elem. }
    apply (placement_intro _ _ sessions); [done|done| | |].
    + destruct change; try (eapply sublist_NoDup; [exact Hs|exact H3]).
      destruct H3 as [->| ->]; [by apply NoDup_filter|].
      constructor; [rewrite remove_id_elem; tauto|by apply NoDup_filter].
    + destruct change; try done. by apply NoDup_filter.
    + intros s Hin Hs'. destruct change; try (apply (Hx s Hin); exact (elem_of_sublist _ _ _ Hs' H3)).
      apply remove_id_elem in Hin as [Hin Hne]. apply (Hx s Hin).
      destruct H3 as [->| ->]; [by apply remove_id_elem in Hs' as [? _]|].
      apply elem_of_cons in Hs' as [?|Hs']; [done|]. by apply remove_id_elem in Hs' as [? _].
Qed.

(** ** Witnesses *)

Lemma pin_order_key_between_bounds_witness :
  ∃ k, pin_order_key_between (Some "1") (Some "101") "n" = Ok k ∧ "1" <s k ∧ k <s "101".
Proof.
  destruct (pin_order_key_between (Some "1") (Some "101") "n") as [k|e] eqn:E;
    [|vm_compute in E; discriminate].
  exists k. split; [reflexivity|].
  destruct (pin_order_key_between_bounds _ _ _ _ E) as (_ & Hl & Hu).
  split; [exact (Hl _ eq_refl)|exact (Hu _ eq_refl)].
Defined.

Lemma pin_order_key_no_collision_witness :
  ∃ k1 k2, pin_order_key_between None None "a" = Ok k1 ∧
    pin_order_key_between None (Some "2") "b" = Ok k2 ∧ k1 ≠ k2.
Proof.
  destruct (pin_order_key_between None None "a") as [k1|] eqn:E1; [|vm_compute in E1; discriminate].
  destruct (pin_order_key_between None (Some "2") "b") as [k2|] eqn:E2;
    [|vm_compute in E2; discriminate].
  exists k1, k2. split; [reflexivity|]. split; [reflexivity|].
  refine (pin_order_key_no_collision _ _ _ _ _ _ _ _ E1 E2 _). discriminate.
Defined.

Lemma pin_order_key_between_total_witness :
  ∃ k, pin_order_key_between (Some "8") (Some "81") "n" = Ok k.
Proof.
  apply pin_order_key_between_total.
  - intros l [= <-]. split; [reflexivity|]. vm_compute. discriminate.
  - intros u [= <-]. split; [reflexivity|]. vm_compute. discriminate.
  - intros l u [= <-] [= <-]. reflexivity.
  - split_and!; [discriminate|cbn; lia|reflexivity|reflexivity].
Defined.

Lemma project_exact_witness :
  project (Pin "x" None (Some "b")) ["a"; "b"; "c"] = ["a"; "x"; "b"; "c"] ∧
  NoDup (project (Pin "x" None (Some "b")) ["a"; "b"; "c"]).
Proof.
  split; [vm_compute; reflexivity|].
  apply (project_exact (Pin "x" None (Some "b")) ["a"; "b"; "c"]); [|discriminate].
  apply (bool_decide_unpack _). vm_compute. exact I.
Defined.

Lemma project_placement_witness :
  placement_wf (project (Pin "s" None None) ["a"])
    (project_sections (Pin "s" None None) [mkSection "x" "X" ["s"; "t"] false]).
Proof.
  apply project_placement. split.
  - apply (bool_decide_unpack _). vm_compute. exact I.
  - apply (bool_decide_unpack _). vm_compute. exact I.
  - apply (bool_decide_unpack _). vm_compute. exact I.
  - intros s Hs. apply list_elem_of_singleton in Hs as ->. vm_compute. set_solver.
Defined.
