(* ===== verification/Sidebar.v ===== *)
(** * Sidebar: pins, sections and their placement register

    Models crates/doc/src/registry/sidebar_pins.rs and sidebar_sections.rs,
    with [sidebar_preferences] and [reconcile_sidebar_pins] of registry.rs.
    A pin is a row with an order key, a section a row with a name, and one
    row per session says where the session is.  A method that can fail returns
    the state it leaves with its result, because it may have written before it
    fails. *)

From S2P Require Import Prelude Text Hlc Json RegistryRow RegistryDoc Entities RegistryApi PinKeys.

(** ** Constants *)

Definition KIND_PREFERENCES : string := "preferences".
Definition SIDEBAR_PINS_STATE_ID : string := "sidebarPins".
Definition KIND_SIDEBAR_PINS : string := "sidebarPins".
Definition SECTIONS : string := "sidebarSections".
Definition LOCATIONS : string := "sidebarLocations".
Definition MAX_SIDEBAR_PINS : nat := 200.

(** ** Identifiers and names *)

Definition id_byte (c : ascii) : bool :=
  let n := byte_of c in
  (48 <=? n) && (n <=? 57) || (65 <=? n) && (n <=? 90) || (97 <=? n) && (n <=? 122)
  || bool_decide (c ∈ list_ascii_of_string "_.:@/-").

Definition valid_id (id : string) : bool :=
  negb (bool_decide (id = "")) && (len id <=? 256) && forallb id_byte (list_ascii_of_string id).

Definition valid_section_id (id : string) : bool := valid_id id && negb (bool_decide (id = "pinned")).

(** [chars().count()]: the bytes that do not continue a character. *)
Definition char_count (s : string) : Z :=
  Z.of_nat (length (filter (λ c, Z.land (byte_of c) 192 ≠ 128) (list_ascii_of_string s))).

Definition valid_name (name : string) : bool := negb (is_blank name) && (char_count name <=? 120).

Section Sidebar.
Context `{Chrono}.
Variable op_json_len : RowOp → option Z.
Variable wall : nat → Z.

Let write := RegistryDoc.write op_json_len wall.
Let next_hlc := RegistryDoc.next_hlc wall.
Let enqueue_ops := RegistryDoc.enqueue_ops op_json_len wall.

(** ** Clocks *)

Definition set_clock (c : HlcClock) (d : RegistryDoc) : RegistryDoc :=
  mkDoc (rd_device_id d) (rd_authoritative d) (rd_server_seq d) (rd_gc_floor d) c (rd_pending d)
    (rd_local_only d) (rd_local_writes d) (rd_generation d) (rd_ticks d).

Definition observe_sidebar_row (kind id : string) (d : RegistryDoc) : RegistryDoc :=
  match overlay_row d kind id ≫= max_clock with
  | Some clock => set_clock (observe_clock (rd_clock d) clock) d
  | None => d
  end.

(** ** Reads *)

Definition opt_str_leb (a b : option string) : bool :=
  match a, b with
  | None, _ => true
  | Some _, None => false
  | Some a, Some b => str_leb a b
  end.

Definition sidebar_location (d : RegistryDoc) (id : string) (pin : option RegistryRow) : string :=
  let location := overlay_row d LOCATIONS id in
  let location_clock := location ≫= λ r, row_clocks r !! "location" in
  let pin_clock := pin ≫= λ r, row_clocks r !! "pinned" in
  if bool_decide (is_Some location_clock) && opt_str_leb pin_clock location_clock then
    default "" (location ≫= λ r, row_fields r !! "location" ≫= as_str)
  else if bool_decide ((pin ≫= λ r, row_fields r !! "pinned" ≫= as_bool) = Some true) then "pinned"
  else "".

Definition sidebar_location_is_pinned (d : RegistryDoc) (id : string) (pin : RegistryRow) : bool :=
  bool_decide (sidebar_location d id (Some pin) = "pinned").

Definition sidebar_pins_initialized (d : RegistryDoc) : bool :=
  row_exists d KIND_PREFERENCES SIDEBAR_PINS_STATE_ID.

Definition pin_entry (d : RegistryDoc) (row : RegistryRow) : option (string * string) :=
  if negb (sidebar_location_is_pinned d (row_id row) row) then None
  else
    key ← row_fields row !! "orderKey" ≫= as_str;
    if valid_pin_order_key key then Some (row_id row, key) else None.

Definition pin_leb (a b : string * string) : bool :=
  str_ltb a.2 b.2 || (bool_decide (a.2 = b.2) && str_leb a.1 b.1).

Definition ordered_sidebar_pins (d : RegistryDoc) : list (string * string) :=
  sort_by pin_leb (omap (pin_entry d) (overlay_rows d KIND_SIDEBAR_PINS)).

Definition row_flag (field : string) (r : RegistryRow) : bool :=
  bool_decide (row_fields r !! field ≫= as_bool = Some true).

Definition section_leb (a b : RegistryRow) : bool :=
  let created r := row_fields r !! "createdAt" ≫= as_str in
  if bool_decide (created a = created b) then str_leb (row_id a) (row_id b)
  else opt_str_leb (created a) (created b).

Definition location_of (d : RegistryDoc) (id : string) : string :=
  sidebar_location d id (overlay_row d KIND_SIDEBAR_PINS id).

Definition section_entry (d : RegistryDoc) (row : RegistryRow) : option SidebarSection :=
  let session_ids := sort_by str_leb
    (row_id <$> filter (λ r, location_of d (row_id r) = row_id row) (overlay_rows d LOCATIONS)) in
  name ← row_fields row !! "name" ≫= as_str;
  Some (mkSection (row_id row) name session_ids (row_flag "collapsed" row)).

Definition sidebar_sections (d : RegistryDoc) : list SidebarSection :=
  omap (section_entry d)
    (sort_by section_leb (filter (λ r, row_flag "deleted" r = false) (overlay_rows d SECTIONS))).

Definition sidebar_preferences (d : RegistryDoc) : option (list SidebarSection * list string) :=
  if sidebar_pins_initialized d then Some (sidebar_sections d, (ordered_sidebar_pins d).*1) else None.

Definition live_sidebar_section (d : RegistryDoc) (id : string) : bool :=
  from_option (λ r, negb (row_flag "deleted" r)) false (overlay_row d SECTIONS id).

(** ** Sections *)

Definition write_sidebar_location (id location : string) (d : RegistryDoc) : RegistryDoc :=
  let d := observe_sidebar_row LOCATIONS id d in
  let d := observe_sidebar_row KIND_SIDEBAR_PINS id d in
  write LOCATIONS id Upsert (fields [("location", Str location)]) d.

Definition initialize_sidebar_pins (d : RegistryDoc) : RegistryDoc :=
  if sidebar_pins_initialized d then d
  else write KIND_PREFERENCES SIDEBAR_PINS_STATE_ID Upsert (fields [("initialized", Bool true)]) d.

Definition import_valid (s : SidebarSection) : bool :=
  valid_section_id (sec_id s) && valid_name (sec_name s) && forallb valid_id (sec_session_ids s).

Definition section_error (change : SidebarSectionChange) : option string :=
  match change with
  | SCreate id name | SRename id name =>
      if negb (valid_section_id id) || negb (valid_name name)
      then Some "Invalid section name or ID" else None
  | SCollapse id _ | SDelete id =>
      if negb (valid_section_id id) then Some "Invalid section ID" else None
  | SAssign session_id section_id =>
      if negb (valid_id session_id) || from_option (λ id, negb (valid_section_id id)) false section_id
      then Some "Invalid section membership" else None
  | SImport sections =>
      if forallb import_valid sections then None else Some "Invalid section import"
  end.

Abbreviation outcome := (RegistryDoc * result string unit)%type.

Definition return_ok (d : RegistryDoc) : outcome := (d, Ok tt).

(** The [?] operator on a method with [&mut self]. *)
Definition and_then (o : outcome) (f : RegistryDoc → outcome) : outcome :=
  match o with
  | (d, Ok _) => f d
  | (d, Err e) => (d, Err e)
  end.

(** The changes that call no other change. *)
Definition simple_change (change : SidebarSectionChange) (d : RegistryDoc) : outcome :=
  match section_error change with
  | Some e => (d, Err e)
  | None =>
      let d := initialize_sidebar_pins d in
      match change with
      | SCreate id name =>
          if row_exists d SECTIONS id then return_ok d
          else
            let '(created, d) := next_hlc d in
            return_ok (write SECTIONS id Upsert
              (fields [("name", Str name); ("collapsed", Bool false); ("deleted", Bool false);
                       ("createdAt", Str created)]) d)
      | SRename id name =>
          return_ok (if live_sidebar_section d id then
            write SECTIONS id Upsert (fields [("name", Str name)]) (observe_sidebar_row SECTIONS id d)
          else d)
      | SCollapse id collapsed =>
          return_ok (if live_sidebar_section d id then
            write SECTIONS id Upsert (fields [("collapsed", Bool collapsed)])
              (observe_sidebar_row SECTIONS id d)
          else d)
      | SDelete id =>
          return_ok (write SECTIONS id Upsert (fields [("deleted", Bool true)])
            (observe_sidebar_row SECTIONS id d))
      | SAssign _ _ | SImport _ => return_ok d
      end
  end.

(** One session of an imported section. *)
Definition import_session (section : string) (d : RegistryDoc) (id : string) : RegistryDoc :=
  if negb (row_exists d LOCATIONS id)
     && negb (bool_decide (id ∈ (ordered_sidebar_pins d).*1))
     && row_exists d KIND_CHATS id
  then write_sidebar_location id section d else d.

Definition import_section (section : SidebarSection) (d : RegistryDoc) : outcome :=
  if row_exists d SECTIONS (sec_id section) then return_ok d
  else
    and_then (simple_change (SCreate (sec_id section) (sec_name section)) d) (λ d,
    simple_change (SCollapse (sec_id section) (sec_collapsed section))
      (fold_left (import_session (sec_id section)) (sec_session_ids section) d)).

Definition change_sidebar_section (change : SidebarSectionChange) (d : RegistryDoc) : outcome :=
  match change with
  | SAssign session_id section_id =>
      match section_error change with
      | Some e => (d, Err e)
      | None =>
          let d := initialize_sidebar_pins d in
          if from_option (λ id, negb (live_sidebar_section d id)) false section_id
          then (d, Err "Section no longer exists")
          else if negb (row_exists d KIND_CHATS session_id) then (d, Err "Session no longer exists")
          else
            let d := observe_sidebar_row KIND_SIDEBAR_PINS session_id d in
            let d := write KIND_SIDEBAR_PINS session_id Upsert (fields [("pinned", Bool false)]) d in
            let d := write_sidebar_location session_id (default "" section_id) d in
            match section_id with
            | Some id => simple_change (SCollapse id false) d
            | None => return_ok d
            end
      end
  | SImport sections =>
      match section_error change with
      | Some e => (d, Err e)
      | None =>
          fold_left (λ o section, and_then o (import_section section)) sections
            (return_ok (initialize_sidebar_pins d))
      end
  | _ => simple_change change d
  end.

(** ** Pins *)

(** [position(..).unwrap()] of a session that is not in the list is a panic. *)
Definition PANIC : string := "called `Option::unwrap()` on a `None` value".

Definition find_key (pins : list (string * string)) (id : string) : option string :=
  snd <$> (snd <$> list_find (λ p, p.1 = id) pins).

Definition pin_id_error (id : string) : option string :=
  if valid_id id then None else Some "Invalid pinned session ID".

Definition is_pin (c : SidebarPinChange) : bool := match c with Pin _ _ _ => true | _ => false end.

(** The write of a pin or of a move, once the list is to change. *)
Definition place_pin (change : SidebarPinChange) (current : list string) (d : RegistryDoc) : outcome :=
  let id := session_id change in
  let pins := ordered_sidebar_pins d in
  let next := project change current in
  match position id next with
  | None => (d, Err PANIC)
  | Some index =>
      let lower := match index with O => None | S i => next !! i ≫= find_key pins end in
      let upper := next !! S index ≫= find_key pins in
      let '(hlc, d) := next_hlc d in
      match pin_order_key_between lower upper hlc with
      | Err e => (d, Err e)
      | Ok key =>
          let set := if is_pin change then [("orderKey", Str key); ("pinned", Bool true)]
                     else [("orderKey", Str key)] in
          let d := if is_pin change then write_sidebar_location id "pinned" d else d in
          return_ok (enqueue_ops [mkOp KIND_SIDEBAR_PINS id Upsert (Some (fields set)) hlc None] d)
      end
  end.

Definition change_sidebar_pin (change : SidebarPinChange) (d : RegistryDoc) : outcome :=
  match change with
  | PSection change => change_sidebar_section change d
  | _ =>
      let id := session_id change in
      match pin_id_error id with
      | Some e => (d, Err e)
      | None =>
          let current := from_option snd [] (sidebar_preferences d) in
          if is_pin change && negb (bool_decide (id ∈ current)) && (MAX_SIDEBAR_PINS <=? length current)%nat
          then (d, Err "You can pin up to 200 sessions")
          else if is_pin change && negb (row_exists d KIND_CHATS id)
          then (d, Err "Session no longer exists")
          else
            let d := initialize_sidebar_pins d in
            let d := observe_sidebar_row LOCATIONS id d in
            let d := observe_sidebar_row KIND_SIDEBAR_PINS id d in
            match change with
            | Unpin _ =>
                let d := if bool_decide (id ∈ current) then write_sidebar_location id "" d else d in
                return_ok (write KIND_SIDEBAR_PINS id Upsert (fields [("pinned", Bool false)]) d)
            | Move _ _ _ =>
                if negb (bool_decide (id ∈ current)) then return_ok d else place_pin change current d
            | _ => place_pin change current d
            end
      end
  end.

Definition reconcile_sidebar_pins (authoritative : bool) (d : RegistryDoc)
    : RegistryDoc * result string bool :=
  if negb authoritative then (d, Ok false)
  else
    let initialized := sidebar_pins_initialized d in
    let d := initialize_sidebar_pins d in
    let known := ch_id <$> read_chats d in
    let removed := filter (λ p, p.1 ∉ known) (ordered_sidebar_pins d) in
    match fold_left (λ o p, and_then o (change_sidebar_pin (Unpin p.1))) removed (return_ok d) with
    | (d, Err e) => (d, Err e)
    | (d, Ok _) => (d, Ok (negb initialized || negb (bool_decide (removed = []))))
    end.

End Sidebar.
