(* ===== verification/SidebarSpec.v ===== *)
(** * SidebarSpec: where the sidebar shows a session

    Theorems about Sidebar.v: the local clock is past every clock of an observed
    row, so a local change of a pin has the effect the viewports project, and
    the rows of a replica place each session once. *)

From S2P Require Import Prelude Text Hlc Json RegistryRow RegistryDoc Entities RegistryApi PinKeys Sidebar.

(** ** The local clock

    [moves d d']: the clock went from [d] to [d'] by emitting one clock per
    tick.  [L] bounds the wall clock and every clock of the start. *)

Definition clock_le (c c' : HlcClock) : Prop :=
  stamp_lt (last_ms c) (counter c) (last_ms c') (counter c') ∨ c = c'.

#[export] Instance clock_le_preorder : PreOrder clock_le.
Proof.
  split; [by right|]. intros [m1 n1] [m2 n2] [m3 n3]. unfold clock_le, stamp_lt. cbn.
  intros [H1|[= -> ->]] [H2|[= -> ->]]; try (by right); left; lia.
Qed.

Section Clock.
Variable wall : nat → Z.
Variable L : Z.
Hypothesis wall_le : ∀ t, wall t ≤ L.

Definition clock_ok (d : RegistryDoc) : Prop :=
  clock_wf (rd_clock d) ∧ last_ms (rd_clock d) ≤ L + Z.of_nat (rd_ticks d).

(** Before the year 2286. *)
Definition in_time (d : RegistryDoc) : Prop := L + Z.of_nat (rd_ticks d) < 10 ^ 13.

Definition moves (d d' : RegistryDoc) : Prop :=
  (rd_ticks d ≤ rd_ticks d')%nat ∧
  (clock_ok d → in_time d' → clock_ok d' ∧ clock_le (rd_clock d) (rd_clock d')).

#[export] Instance moves_preorder : PreOrder moves.
Proof.
  split; [by intros d|]. intros d1 d2 d3 [H1 H2] [H3 H4]. split; [lia|]. intros Hok Ht.
  destruct (H2 Hok) as [Hok2 Hle]; [unfold in_time in *; lia|].
  destruct (H4 Hok2 Ht) as [Hok3 Hle3]. split; [done|by etrans].
Qed.

Lemma moves_same d d' : rd_clock d' = rd_clock d → rd_ticks d' = rd_ticks d → moves d d'.
Proof. intros E1 E2. unfold moves, clock_ok. rewrite E1, E2. done. Qed.

Lemma moves_bump d : moves d (bump d).
Proof. by apply moves_same. Qed.

Lemma next_moves d : moves d (next_hlc wall d).2.
Proof using wall_le.
  unfold moves, clock_ok, in_time, next_hlc.
  pose proof (HlcClock_next_stamp (rd_clock d) (wall (rd_ticks d)) (rd_device_id d)) as Hs.
  pose proof (HlcClock_next_wf (rd_clock d) (wall (rd_ticks d)) (rd_device_id d)) as Hw.
  destruct (HlcClock_next _ _ _) as [hlc c] eqn:E. cbn in *. split; [lia|]. intros [H1 H2] Ht.
  destruct Hs as [Hs Hm]; [done|lia|]. split; [split; [apply Hw; [done|lia]|]|by left].
  pose proof (wall_le (rd_ticks d)). lia.
Qed.

Lemma enqueue_chunks_moves fuel ops d : moves d (enqueue_chunks wall fuel ops d).
Proof using wall_le.
  revert ops d. induction fuel as [|fuel IH]; intros ops d; cbn; [done|].
  case_bool_decide; [done|]. pose proof (next_moves d) as Hn. destruct (next_hlc wall d) as [hlc d1].
  etrans; [exact Hn|]. etrans; [|apply IH]. by apply moves_same.
Qed.

Lemma requeue_moves d t : moves d (requeue wall d t).
Proof using wall_le.
  unfold requeue. case_bool_decide; [done|]. destruct (tb_gained t); [|by apply moves_same].
  pose proof (next_moves d) as Hn. destruct (next_hlc wall d) as [hlc d1].
  etrans; [exact Hn|]. by apply moves_same.
Qed.

Lemma coalesce_moves len d : moves d (coalesce_unsent len wall d).1.
Proof using wall_le.
  unfold coalesce_unsent. destruct (_ <? 2)%nat; [done|]. cbn zeta. destruct (_ =? 0)%nat; cbn [fst].
  - by apply moves_same.
  - etrans; [|apply moves_bump].
    generalize (co_tail (coalesce_tail len ((λ b, mkTail (pb_batch b) (Some <$> pb_ops b) false) <$>
      drop (unsent_start (rd_pending d)) (rd_pending d)))) as tail.
    set (d0 := set_pending _ d). intros tail. etrans; [by apply (moves_same d d0)|].
    clearbody d0. revert d0. induction tail as [|t tail IH]; intros d0; [done|].
    cbn [fold_left]. etrans; [apply requeue_moves|apply IH].
Qed.

Lemma fold_op_clock d op : rd_clock (fold_op d op) = rd_clock d ∧ rd_ticks (fold_op d op) = rd_ticks d.
Proof. unfold fold_op. by destruct (apply_op _ _) as [[?|] []]. Qed.

Lemma enqueue_moves len ops d : moves d (enqueue_ops len wall ops d).
Proof using wall_le.
  unfold enqueue_ops. case_bool_decide; [done|]. destruct (rd_local_only d).
  - etrans; [by apply (moves_same d (set_modes true true (bump d)))|].
    generalize (set_modes true true (bump d)) as d0. induction ops as [|op ops IH]; intros d0; [done|].
    destruct ops; [apply moves_same; apply fold_op_clock|].
    cbn [fold_left] in *. etrans; [apply (moves_same d0 (fold_op d0 op)); apply fold_op_clock|by apply IH].
  - etrans; [by apply (moves_same d (bump d))|]. etrans; [apply enqueue_chunks_moves|apply coalesce_moves].
Qed.

(** The clock that [next_hlc] emits is newer than all it has seen. *)
Definition seen (c : HlcClock) (s : string) : Prop :=
  ∃ ms n device, s = encode_hlc ms n device ∧ hlc_in_range ms n ∧ clock_le (mkHlcClock ms n) c.

Lemma seen_mono c c' s : seen c s → clock_le c c' → seen c' s.
Proof. intros (ms & n & dev & E & Hr & Hle) Hc. exists ms, n, dev. split_and!; [done|done|by etrans]. Qed.

Lemma next_emits d :
  clock_ok d → in_time (next_hlc wall d).2 →
  seen (rd_clock (next_hlc wall d).2) (next_hlc wall d).1 ∧
  ∀ s, seen (rd_clock d) s → s <s (next_hlc wall d).1.
Proof using wall_le.
  intros Hok Ht. destruct (next_moves d) as [_ Hm]. destruct (Hm Hok Ht) as [[Hwf Hle] Hc].
  pose proof (HlcClock_next_emits (rd_clock d) (wall (rd_ticks d)) (rd_device_id d)) as He.
  pose proof (HlcClock_next_stamp (rd_clock d) (wall (rd_ticks d)) (rd_device_id d)) as Hs.
  unfold in_time, next_hlc in *. destruct (HlcClock_next _ _ _) as [hlc c]. cbn in *. subst hlc.
  destruct Hwf. assert (hlc_in_range (last_ms c) (counter c)) as Hr by (split; lia).
  split; [exists (last_ms c), (counter c), (rd_device_id d); split_and!; [done|done|by destruct c; right]|].
  intros s (ms & n & dev & -> & Hr' & Hle'). destruct Hok as [Hok1 Hok2].
  destruct Hs as [Hs _]; [done|lia|]. apply encode_hlc_lt; [done|done|].
  unfold clock_le, stamp_lt in *. destruct (rd_clock d). cbn in *. destruct Hle' as [?|[= -> ->]]; lia.
Qed.

End Clock.

(** ** Sidebar rows *)

Definition sidebar_kinds : list string := [KIND_PREFERENCES; KIND_SIDEBAR_PINS; SECTIONS; LOCATIONS].

(** A clock of a row: well formed, and not later than [limit]. *)
Definition timed (limit : Z) (s : string) : Prop :=
  ∃ ms n device, s = encode_hlc ms n device ∧ hlc_in_range ms n ∧ ms ≤ limit.

(** No operation deletes a sidebar row; their clocks are well formed. *)
Record timely (L : Z) (d : RegistryDoc) : Prop := {
  t_wf : doc_wf d;
  t_clock : clock_ok L d;
  t_rows kind id r : kind ∈ sidebar_kinds → raw_row d kind id = Some r →
    row_deleted r = false ∧ row_del_hlc r = None ∧
    ∀ k c, row_clocks r !! k = Some c → timed (L + Z.of_nat (rd_ticks d)) c
}.

Lemma timely_raw L d kind id :
  timely L d → kind ∈ sidebar_kinds → raw_row d kind id = overlay_row d kind id.
Proof.
  intros Ht Hk. rewrite overlay_row_raw. destruct (raw_row d kind id) as [r|] eqn:E; [|done].
  destruct (t_rows _ _ Ht kind id r Hk E) as [Hd _]. cbn. by rewrite Hd.
Qed.

Lemma kind_pins : KIND_SIDEBAR_PINS ∈ sidebar_kinds.
Proof. unfold sidebar_kinds. set_solver. Qed.
Lemma kind_locations : LOCATIONS ∈ sidebar_kinds.
Proof. unfold sidebar_kinds. set_solver. Qed.

Lemma kind_sections : SECTIONS ∈ sidebar_kinds.
Proof. unfold sidebar_kinds. set_solver. Qed.

(** The local clock is past every clock of the row. *)
Definition row_seen (d : RegistryDoc) (kind id : string) : Prop :=
  ∀ r k c, overlay_row d kind id = Some r → row_clocks r !! k = Some c → seen (rd_clock d) c.

Definition max_of (f : gmap string string) (acc : option string) : Prop :=
  match acc with
  | Some m => (∃ k, f !! k = Some m) ∧ ∀ k c, f !! k = Some c → ¬ m <s c
  | None => f = ∅
  end.

Lemma max_clock_max r : row_del_hlc r = None → max_of (row_clocks r) (max_clock r).
Proof.
  intros Hd. unfold max_clock. rewrite Hd. generalize (row_clocks r) as f.
  apply (map_fold_weak_ind (λ (acc : option string) f, max_of f acc)); [done|].
  intros key c f acc Hf IH. destruct acc as [a|]; cbn in *.
  - destruct IH as [[k0 Hk0] H]. assert (k0 ≠ key) by congruence.
    destruct (str_ltb a c) eqn:En; cbn;
      (split; [first [exists key; by simplify_map_eq|exists k0; by simplify_map_eq]|]); intros k c' Hk.
    + destruct (decide (k = key)) as [->|Hne]; simplify_map_eq.
      * unfold str_lt. by rewrite str_ltb_irrefl.
      * intros Hlt. apply (H k c' Hk). unfold str_lt in *. by eapply str_ltb_trans.
    + destruct (decide (k = key)) as [->|Hne]; simplify_map_eq; [unfold str_lt; by rewrite En|by eapply H].
  - subst f. split; [exists key; by simplify_map_eq|]. intros k c' Hk.
    destruct (decide (k = key)) as [->|Hne]; simplify_map_eq. unfold str_lt. by rewrite str_ltb_irrefl.
Qed.

Section Steps.
Variable len : RowOp → option Z.
Variable wall : nat → Z.
Variable L : Z.
Hypothesis wall_le : ∀ t, wall t ≤ L.

Lemma observe_raw kind id d kind' id' :
  raw_row (observe_sidebar_row kind id d) kind' id' = raw_row d kind' id'.
Proof. unfold observe_sidebar_row. by destruct (_ ≫= _). Qed.

Lemma observe_overlay kind id d kind' id' :
  overlay_row (observe_sidebar_row kind id d) kind' id' = overlay_row d kind' id'.
Proof. by rewrite !overlay_row_raw, observe_raw. Qed.

Lemma observe_ticks kind id d : rd_ticks (observe_sidebar_row kind id d) = rd_ticks d.
Proof. unfold observe_sidebar_row. by destruct (_ ≫= _). Qed.

Lemma row_seen_le d d' kind id :
  row_seen d kind id → clock_le (rd_clock d) (rd_clock d') →
  overlay_row d' kind id = overlay_row d kind id → row_seen d' kind id.
Proof. intros H Hc E r k c Hr Hk. rewrite E in Hr. eapply seen_mono; [by eapply H|done]. Qed.

Lemma clock_le_stamp ms n c : clock_le (mkHlcClock ms n) c → ms ≤ last_ms c.
Proof. unfold clock_le, stamp_lt. destruct c. cbn. intros [?|[= -> ->]]; lia. Qed.

Lemma encode_le ms n dev ms' n' dev' :
  hlc_in_range ms n → hlc_in_range ms' n' → ¬ encode_hlc ms' n' dev' <s encode_hlc ms n dev →
  clock_le (mkHlcClock ms n) (mkHlcClock ms' n').
Proof.
  intros Hr Hr' Hn. destruct (stamp_lt_total ms n ms' n') as [Hs|[[-> ->]|Hs]]; [by left|by right|].
  exfalso. apply Hn. by apply encode_hlc_lt.
Qed.

Lemma observe_encoded c ms n dev :
  clock_wf c → hlc_in_range ms n →
  let c' := observe_clock c (encode_hlc ms n dev) in
  clock_le c c' ∧ clock_le (mkHlcClock ms n) c' ∧ clock_wf c' ∧ last_ms c' ≤ Z.max (last_ms c) ms.
Proof.
  intros Hc Hr. unfold observe_clock. rewrite parse_encode_hlc by done.
  unfold clock_wf, hlc_in_range, clock_le, stamp_lt in *. destruct c as [lm ct]. cbn in *.
  destruct (Z.ltb_spec lm ms), (Z.eqb_spec lm ms), (Z.ltb_spec ct n); cbn; try lia;
    (split; [first [left; lia|by right]|split; [|split; lia]]);
    (destruct (decide (n = ct)), (decide (ms = lm)); first [left; lia|right; f_equal; lia]).
Qed.

(** After an observation the local clock is past every clock of the row. *)
Lemma observe_spec kind id d :
  timely L d → kind ∈ sidebar_kinds → in_time L d →
  let d' := observe_sidebar_row kind id d in
  timely L d' ∧ row_seen d' kind id ∧ clock_le (rd_clock d) (rd_clock d').
Proof.
  intros Ht Hk Hin d'. pose proof (timely_raw L d kind id Ht Hk) as Hraw.
  assert (∀ c, d' = set_clock c d → clock_ok L d' → timely L d') as Hgo.
  { intros c E Hok. split; [subst d'; rewrite E| done|].
    - eapply (doc_wf_queue d (set_clock c d) (λ b, b)); [by split|by rewrite list_fmap_id|done|apply Ht].
    - intros kind' id' r Hk' Hr. unfold d' in Hr. rewrite observe_raw in Hr.
      unfold d'. rewrite observe_ticks. by apply (t_rows _ _ Ht kind' id'). }
  destruct Ht as [Hwf Hok Hrows]. unfold d' in *. unfold observe_sidebar_row in *.
  destruct (overlay_row d kind id) as [r|] eqn:Er; cbn [mbind option_bind] in *.
  - destruct (Hrows kind id r Hk Hraw) as (Hd & Hdel & Hc). pose proof (max_clock_max r Hdel) as Hmax.
    destruct (max_clock r) as [m|]; cbn in Hmax.
    + destruct Hmax as [[k0 Hk0] Hmax]. destruct (Hc k0 m Hk0) as (ms & n & dev & -> & Hr & Hms).
      assert (clock_le (rd_clock d) (observe_clock (rd_clock d) (encode_hlc ms n dev)) ∧
        clock_le (mkHlcClock ms n) (observe_clock (rd_clock d) (encode_hlc ms n dev)) ∧
        clock_ok L (set_clock (observe_clock (rd_clock d) (encode_hlc ms n dev)) d)) as (H1 & H2 & H3).
      { destruct Hok as [Hok1 Hok2]. destruct (observe_encoded (rd_clock d) ms n dev Hok1 Hr) as (? & ? & ? & ?).
        split_and!; [done|done|]. split; [done|]. cbn. lia. }
      split_and!; [by eapply Hgo| |done]. intros r' k c Hr' Hkc.
      assert (∀ c, overlay_row (set_clock c d) kind id = overlay_row d kind id) as Hov by done.
      rewrite Hov, Er in Hr'. injection Hr' as <-. destruct (Hc k c Hkc) as (ms' & n' & dev' & -> & Hr' & Hms').
      exists ms', n', dev'. split_and!; [done|done|]. etrans; [|exact H2].
      eapply encode_le; [done|done|]. by eapply Hmax.
    + split_and!; [by split| |done]. intros r' k c Hr' Hkc. rewrite Er in Hr'. injection Hr' as <-.
      rewrite Hmax in Hkc. by rewrite lookup_empty in Hkc.
  - split_and!; [by split| |done]. intros r' k c Hr'. congruence.
Qed.

(** What a newest upsert of a sidebar row leaves. *)
Record wrote (d d' : RegistryDoc) (kind id : string) (set : gmap string Value) (hlc : string) : Prop := {
  wr_timely : timely L d';
  wr_moves : clock_le (rd_clock d) (rd_clock d');
  wr_ticks : (rd_ticks d ≤ rd_ticks d')%nat;
  wr_other kind' id' : ¬ (kind' = kind ∧ id' = id) → overlay_row d' kind' id' = overlay_row d kind' id';
  wr_row : ∃ r, overlay_row d' kind id = Some r ∧
    (∀ k, row_fields r !! k = after_write set (from_option row_fields ∅ (overlay_row d kind id)) k) ∧
    (∀ k, row_clocks r !! k = if set !! k is Some _ then Some hlc else overlay_row d kind id ≫= λ r0, row_clocks r0 !! k);
  wr_seen : row_seen d' kind id
}.

Lemma put_moves d ops : moves L d (RegistryDoc.enqueue_ops len wall ops d).
Proof using wall_le. by apply enqueue_moves. Qed.

Lemma put_spec kind id set hlc d :
  let d' := RegistryDoc.enqueue_ops len wall [mkOp kind id Upsert (Some set) hlc None] d in
  timely L d → kind ∈ sidebar_kinds → in_time L d' →
  (∀ r k c, overlay_row d kind id = Some r → row_clocks r !! k = Some c → c <s hlc) →
  seen (rd_clock d) hlc → row_seen d kind id →
  wrote d d' kind id set hlc.
Proof using wall_le.
  intros d' Ht Hk Hin Hnew Hseen Hrs. set (op := mkOp kind id Upsert (Some set) hlc None) in *.
  destruct (put_moves d [op]) as [Htk Hm]. fold d' in Htk, Hm.
  destruct (Hm (t_clock _ _ Ht) Hin) as [Hok Hle]. clear Hm.
  destruct (enqueue_ops_spec len wall [op] d (t_wf _ _ Ht)) as [Hwf Hraw]. fold d' in Hwf, Hraw.
  pose proof (timely_raw L d kind id Ht Hk) as Hro.
  assert (∃ r, apply_row (raw_row d kind id) op = Some r ∧ row_deleted r = false ∧ row_del_hlc r = None ∧
    (∀ k, row_fields r !! k = after_write set (from_option row_fields ∅ (overlay_row d kind id)) k) ∧
    (∀ k, row_clocks r !! k = if set !! k is Some _ then Some hlc else overlay_row d kind id ≫= λ r0, row_clocks r0 !! k))
    as (r & Hr & Hd & Hdel & Hf & Hc).
  { rewrite <- Hro. destruct (raw_row d kind id) as [r0|] eqn:E.
    - destruct (t_rows _ _ Ht kind id r0 Hk E) as (Hd0 & Hdel0 & Hc0).
      assert (∀ k, hlc_newer hlc (row_clocks r0 !! k) = true) as Hn.
      { intros k. destruct (row_clocks r0 !! k) as [c|] eqn:Ec; [|done]. by apply (Hnew r0 k c). }
      rewrite apply_row_live by done. eexists. split; [done|]. pose proof (written_frame op r0) as Hfr.
      split_and!; [by rewrite (sf_deleted _ _ Hfr)|by rewrite (sf_del_hlc _ _ Hfr)| |].
      + intros k. by apply written_newest.
      + intros k. rewrite written_clocks. unfold clock_after, wins, op_writes, clock_for. cbn.
        destruct (set !! k); [by rewrite Hn|done].
    - rewrite apply_row_upsert_none by done. eexists. split; [done|].
      pose proof (written_frame op (fresh_row op)) as Hfr.
      split_and!; [by rewrite (sf_deleted _ _ Hfr)|by rewrite (sf_del_hlc _ _ Hfr)| |].
      + intros k. apply (written_newest _ _ _ _ _ (fresh_row op)). intros k'. cbn. by rewrite lookup_empty.
      + intros k. rewrite written_clocks. unfold clock_after, wins, op_writes, clock_for. cbn.
        rewrite lookup_empty. by destruct (set !! k). }
  assert (∀ kind' id', raw_row d' kind' id' =
    if decide (kind' = kind ∧ id' = id) then Some r else raw_row d kind' id') as Hraw'.
  { intros kind' id'. rewrite Hraw. case_decide as Hki.
    - destruct Hki as [-> ->]. by rewrite filter_cons_True.
    - rewrite filter_cons_False; [done|]. unfold has_key, op_key. cbn. intros [= -> ->]. tauto. }
  assert (overlay_row d' kind id = Some r) as Hov.
  { rewrite overlay_row_raw, Hraw', decide_True by done. unfold live_only. cbn. by rewrite Hd. }
  assert (∀ k c, row_clocks r !! k = Some c → c = hlc ∨ ∃ r0, overlay_row d kind id = Some r0 ∧ row_clocks r0 !! k = Some c)
    as Hcl.
  { intros k c. rewrite Hc. destruct (set !! k); [intros [= ->]; by left|]. intros E. right.
    destruct (overlay_row d kind id) as [r0|]; [|done]. by exists r0. }
  split.
  - split; [done|done|]. intros kind' id' r' Hk' Hr'. rewrite Hraw' in Hr'. case_decide as Hki.
    + injection Hr' as <-. split_and!; [done|done|]. intros k c Hkc.
      assert (timed (L + Z.of_nat (rd_ticks d)) c) as (ms & n & dev & E & Hrg & Hms).
      { destruct (Hcl k c Hkc) as [->|(r0 & Hr0 & Hc0)].
        - destruct Hseen as (ms & n & dev & E & Hrg & Hms%clock_le_stamp). exists ms, n, dev.
          split_and!; [done|done|]. destruct (t_clock _ _ Ht). lia.
        - rewrite <- Hro in Hr0. by eapply (t_rows _ _ Ht kind id r0). }
      exists ms, n, dev. split_and!; [done|done|lia].
    + destruct (t_rows _ _ Ht kind' id' r' Hk' Hr') as (? & ? & Ht'). split_and!; [done|done|].
      intros k c Hkc. destruct (Ht' k c Hkc) as (ms & n & dev & E & Hrg & Hms).
      exists ms, n, dev. split_and!; [done|done|lia].
  - done.
  - done.
  - intros kind' id' Hne. rewrite !overlay_row_raw, Hraw'. by rewrite decide_False.
  - eauto.
  - intros r' k c Hr' Hkc. rewrite Hov in Hr'. injection Hr' as <-.
    destruct (Hcl k c Hkc) as [->|(r0 & Hr0 & Hc0)]; [by eapply seen_mono|].
    eapply seen_mono; [by eapply Hrs|done].
Qed.

(** [next_hlc] keeps what the rows show and emits a clock past all seen. *)
Lemma next_spec d :
  let d' := (RegistryDoc.next_hlc wall d).2 in
  timely L d → in_time L d' →
  timely L d' ∧ clock_le (rd_clock d) (rd_clock d') ∧ (rd_ticks d ≤ rd_ticks d')%nat ∧
  (∀ kind id, overlay_row d' kind id = overlay_row d kind id) ∧
  seen (rd_clock d') (RegistryDoc.next_hlc wall d).1 ∧
  ∀ s, seen (rd_clock d) s → s <s (RegistryDoc.next_hlc wall d).1.
Proof using wall_le.
  intros d' Ht Hin. destruct (next_moves wall L wall_le d) as [Htk Hm].
  destruct (Hm (t_clock _ _ Ht) Hin) as [Hok Hle].
  destruct (next_emits wall L wall_le d (t_clock _ _ Ht) Hin) as [Hs Hn].
  split_and!; [|done|done| |done|done].
  - split; [apply next_hlc_wf, Ht|done|]. intros kind id r Hk Hr. unfold d' in Hr. rewrite next_hlc_raw in Hr.
    destruct (t_rows _ _ Ht kind id r Hk Hr) as (? & ? & Hc). split_and!; [done|done|].
    intros k c Hkc. destruct (Hc k c Hkc) as (ms & n & dev & E & Hrg & Hms). exists ms, n, dev.
    split_and!; [done|done|]. unfold d'. lia.
  - intros kind id. unfold d'. by rewrite !overlay_row_raw, next_hlc_raw.
Qed.

Lemma write_spec kind id set d :
  let d' := RegistryDoc.write len wall kind id Upsert set d in
  timely L d → kind ∈ sidebar_kinds → in_time L d' → row_seen d kind id →
  ∃ hlc, wrote d d' kind id set hlc ∧ (∀ s, seen (rd_clock d) s → s <s hlc) ∧ seen (rd_clock d') hlc.
Proof using wall_le.
  intros d' Ht Hk Hin Hrs. unfold d', RegistryDoc.write in *.
  pose proof (next_spec d Ht) as Hn. destruct (RegistryDoc.next_hlc wall d) as [hlc d1] eqn:E. cbn [fst snd] in *.
  destruct (put_moves d1 [mkOp kind id Upsert (Some set) hlc None]) as [Htk _].
  destruct Hn as (Ht1 & Hle & Htk1 & Hov & Hseen & Hnew); [unfold in_time in *; lia|].
  destruct (put_spec kind id set hlc d1 Ht1 Hk Hin) as [W1 W2 W3 W4 (r & Hr & Hf & Hc) W6].
  { intros r k c Hr Hkc. rewrite Hov in Hr. apply Hnew. by eapply Hrs. }
  { done. }
  { by eapply row_seen_le. }
  exists hlc. split; [|split; [done|by eapply seen_mono]]. split; [done|by etrans|lia| |exists r; by rewrite <- Hov|done].
  intros kind' id' Hne. rewrite W4 by done. apply Hov.
Qed.

End Steps.

(** ** The ordered pins *)

Lemma str_ltb_leb a b : str_ltb a b = true → str_leb a b = true.
Proof. unfold str_leb. intros H. by rewrite (str_ltb_asym _ _ H). Qed.

Lemma pin_leb_spec a b :
  pin_leb a b = true ↔ a.2 <s b.2 ∨ (a.2 = b.2 ∧ str_leb a.1 b.1 = true).
Proof. unfold pin_leb, str_lt. rewrite orb_true_iff, andb_true_iff, bool_decide_eq_true. done. Qed.

Lemma pin_leb_total a b : pin_leb a b = true ∨ pin_leb b a = true.
Proof.
  rewrite !pin_leb_spec. unfold str_lt. destruct (str_ltb a.2 b.2) eqn:E1; [by left; left|].
  destruct (str_ltb b.2 a.2) eqn:E2; [by right; left|].
  pose proof (str_ltb_total _ _ E1 E2) as E. destruct (str_leb_total a.1 b.1); [left; right|right; right]; done.
Qed.

Lemma pin_leb_trans a b c : pin_leb a b = true → pin_leb b c = true → pin_leb a c = true.
Proof.
  rewrite !pin_leb_spec. unfold str_lt. intros [H1|[E1 H1]] [H2|[E2 H2]].
  - left. by eapply str_ltb_trans.
  - left. congruence.
  - left. congruence.
  - right. split; [congruence|]. by eapply str_leb_trans.
Qed.

Lemma pin_leb_antisym a b : pin_leb a b = true → pin_leb b a = true → a = b.
Proof.
  rewrite !pin_leb_spec. unfold str_lt. destruct a as [i k], b as [j l]. cbn.
  intros [H1|[-> H1]] [H2|[E2 H2]].
  - apply str_ltb_asym in H1. congruence.
  - subst. by rewrite str_ltb_irrefl in H1.
  - by rewrite str_ltb_irrefl in H2.
  - f_equal. by apply str_leb_antisym.
Qed.

Definition pins_sorted (l : list (string * string)) : Prop := StronglySorted (λ a b, pin_leb a b = true) l.

(** The order key under which a session is pinned. *)
Definition pin_at (d : RegistryDoc) (id : string) : option string :=
  snd <$> (overlay_row d KIND_SIDEBAR_PINS id ≫= pin_entry d).

Lemma overlay_row_id d kind id r : doc_wf d → overlay_row d kind id = Some r → row_id r = id.
Proof.
  intros Hwf Hr. apply overlay_row_live in Hr as [Hr _]. unfold raw_row in Hr.
  assert (∀ ops base, (∀ r0, base = Some r0 → row_id r0 = id) → Forall (op_is kind id) ops →
    ∀ r0, apply_all base ops = Some r0 → row_id r0 = id) as Hall.
  { induction ops as [|op ops IH]; intros base Hb Hops r0; [apply Hb|]. cbn. apply Forall_cons in Hops as [Hop Hops].
    apply IH; [|done]. intros r1 Ha. destruct (apply_row_identity _ _ _ Ha) as [_ ->]. destruct Hop.
    destruct base as [r2|]; cbn; [by apply Hb|done]. }
  eapply Hall; [|apply Forall_forall|exact Hr].
  - intros r0 H0. by apply (dw_keyed _ Hwf _ _ _ H0).
  - intros op Hop. by apply list_elem_of_filter in Hop as [? _].
Qed.

Lemma pin_entry_spec d r id k :
  pin_entry d r = Some (id, k) ↔
  row_id r = id ∧ sidebar_location d id (Some r) = "pinned" ∧ row_fields r !! "orderKey" ≫= as_str = Some k ∧
  valid_pin_order_key k = true.
Proof.
  unfold pin_entry, sidebar_location_is_pinned. split.
  - case_bool_decide as Hp; [|done]. cbn. destruct (row_fields r !! "orderKey" ≫= as_str) as [k'|]; [|done]. cbn.
    destruct (valid_pin_order_key k') eqn:Hv; [|done]. intros [= <- <-]. done.
  - intros (<- & Hl & Hk & Hv). rewrite bool_decide_true by done. cbn. rewrite Hk. cbn. by rewrite Hv.
Qed.

Lemma pins_sound d : doc_wf d →
  pins_sorted (ordered_sidebar_pins d) ∧ NoDup (ordered_sidebar_pins d).*1 ∧
  ∀ id k, (id, k) ∈ ordered_sidebar_pins d ↔ pin_at d id = Some k.
Proof.
  intros Hwf. unfold ordered_sidebar_pins. split_and!.
  - apply sort_by_sorted; [apply pin_leb_total|apply pin_leb_trans].
  - rewrite sort_by_perm. destruct (overlay_rows_spec d KIND_SIDEBAR_PINS) as (ids & Hnd & -> & _).
    induction ids as [|id ids IH]; [constructor|]. apply NoDup_cons in Hnd as [Hid Hnd]. cbn.
    destruct (overlay_row d KIND_SIDEBAR_PINS id) as [r|] eqn:Er; cbn; [|by apply IH].
    destruct (pin_entry d r) as [[i k]|] eqn:Ee; cbn; [|by apply IH]. constructor; [|by apply IH].
    rewrite list_elem_of_fmap. intros ([i' k'] & E & Hin). cbn in E. subst i'.
    apply list_elem_of_omap in Hin as (r' & Hin & Ee'). apply list_elem_of_omap in Hin as (id' & Hin & Er').
    apply Hid. assert (row_id r = i ∧ row_id r' = i) as [E1 E2].
    { by apply pin_entry_spec in Ee as [? _], Ee' as [? _]. }
    rewrite (overlay_row_id d _ _ _ Hwf Er) in E1. rewrite (overlay_row_id d _ _ _ Hwf Er') in E2. congruence.
  - intros id k. rewrite sort_by_elem, list_elem_of_omap. unfold pin_at. split.
    + intros (r & Hr & Ee). apply overlay_rows_elem in Hr as [id' Hr].
      pose proof (overlay_row_id d _ _ _ Hwf Hr) as Hid.
      assert (row_id r = id) as E by (by apply pin_entry_spec in Ee as [? _]).
      assert (id' = id) as -> by congruence. by rewrite Hr; cbn; rewrite Ee.
    + intros E. destruct (overlay_row d KIND_SIDEBAR_PINS id) as [r|] eqn:Er; [|done]. cbn in E.
      exists r. split; [apply overlay_rows_elem; eauto|].
      destruct (pin_entry d r) as [[i k']|] eqn:Ee; [|done]. cbn in E. injection E as ->.
      assert (row_id r = i) as E by (by apply pin_entry_spec in Ee as [? _]).
      rewrite (overlay_row_id d _ _ _ Hwf Er) in E. by subst.
Qed.

(** A sorted list with the right entries is the list of pins. *)
Lemma pins_unique d l :
  doc_wf d → pins_sorted l → NoDup l.*1 → (∀ id k, (id, k) ∈ l ↔ pin_at d id = Some k) →
  ordered_sidebar_pins d = l.
Proof.
  intros Hwf Hs Hn Hl. destruct (pins_sound d Hwf) as (H1 & H2 & H3).
  assert (ordered_sidebar_pins d ≡ₚ l) as Hp.
  { apply NoDup_Permutation; [by eapply NoDup_fmap_1|by eapply NoDup_fmap_1|]. intros [id k]. by rewrite H3, Hl. }
  by apply (StronglySorted_unique_strong (λ a b, pin_leb a b = true)); [intros; by apply pin_leb_antisym|..].
Qed.

Lemma find_key_spec l id k : NoDup l.*1 → find_key l id = Some k ↔ (id, k) ∈ l.
Proof.
  intros Hn. unfold find_key. induction l as [|[i k'] l IH]; [split; [done|by intros ?%elem_of_nil]|].
  cbn in Hn. apply NoDup_cons in Hn as [Hi Hn]. cbn. destruct (decide (i = id)) as [->|Hne]; cbn.
  - split; [intros [= ->]; by left|]. intros [[= ->]|Hin]%elem_of_cons; [done|].
    exfalso. apply Hi. apply list_elem_of_fmap. by exists (id, k).
  - specialize (IH Hn). rewrite elem_of_cons. destruct (list_find (λ p, p.1 = id) l) as [[j p]|]; cbn in *.
    + rewrite IH. split; [by right|]. intros [[= -> ->]|]; done.
    + rewrite IH. split; [by right|]. intros [[= -> ->]|]; done.
Qed.

Lemma position_insert id i l : id ∉ l → (i ≤ length l)%nat → position id (insert_at i id l) = Some i.
Proof.
  intros Hn Hi. unfold position, insert_at.
  assert (list_find (λ x, x = id) (take i l ++ id :: drop i l) = Some (i, id)) as ->; [|done].
  apply list_find_Some. split_and!; [|done|].
  - rewrite lookup_app_r; rewrite length_take; [|lia]. by replace (i - i `min` length l)%nat with 0%nat by lia.
  - intros j y Hj Hlt ->. rewrite lookup_app_l in Hj by (rewrite length_take; lia). apply Hn.
    apply list_elem_of_lookup_2 in Hj. by apply elem_of_take in Hj as (? & ? & _); eapply list_elem_of_lookup_2.
Qed.

Lemma anchor_le after before l : (anchor_index after before l ≤ length l)%nat.
Proof.
  unfold anchor_index. destruct (before ≫= λ v, position v l) as [i|] eqn:E.
  - destruct before as [v|]; [|done]. apply position_split in E as [_ ?]. lia.
  - destruct (after ≫= λ v, position v l) as [i|] eqn:E'; [|lia].
    destruct after as [v|]; [|done]. apply position_split in E' as [_ ?]. lia.
Qed.

(** The pins other than [id]. *)
Definition others (id : string) (l : list (string * string)) : list (string * string) :=
  filter (λ p, p.1 ≠ id) l.

Lemma others_ids id l : (others id l).*1 = remove_id id l.*1.
Proof.
  unfold others, remove_id. induction l as [|[i k] l IH]; [done|]. cbn [fmap list_fmap]. rewrite !filter_cons. cbn.
  case_decide; cbn; by rewrite IH.
Qed.

Lemma sorted_filter (P : string * string → Prop) `{∀ x, Decision (P x)} l :
  pins_sorted l → pins_sorted (filter P l).
Proof.
  intros Hs. induction Hs as [|a l Hs IH Ha]; [constructor|]. rewrite filter_cons.
  case_decide; [|done]. constructor; [done|]. rewrite Forall_forall in *. intros x Hx.
  apply Ha. by apply list_elem_of_filter in Hx as [_ ?].
Qed.

Lemma others_sound d id : doc_wf d →
  pins_sorted (others id (ordered_sidebar_pins d)) ∧ NoDup (others id (ordered_sidebar_pins d)).*1 ∧
  ∀ i k, (i, k) ∈ others id (ordered_sidebar_pins d) ↔ i ≠ id ∧ pin_at d i = Some k.
Proof.
  intros Hwf. destruct (pins_sound d Hwf) as (H1 & H2 & H3). split_and!; [by apply sorted_filter| |].
  - rewrite others_ids. by apply NoDup_filter.
  - intros i k. unfold others. rewrite list_elem_of_filter, H3. done.
Qed.

Lemma pins_removed d d' id :
  doc_wf d → doc_wf d' → (∀ i, i ≠ id → pin_at d' i = pin_at d i) → pin_at d' id = None →
  ordered_sidebar_pins d' = others id (ordered_sidebar_pins d).
Proof.
  intros Hwf Hwf' Ho Hn. destruct (others_sound d id Hwf) as (H1 & H2 & H3).
  apply pins_unique; [done..|]. intros i k. rewrite H3. destruct (decide (i = id)) as [->|Hne].
  - rewrite Hn. naive_solver.
  - rewrite Ho by done. naive_solver.
Qed.

Lemma pins_placed d d' id key i :
  doc_wf d → doc_wf d' → (∀ i, i ≠ id → pin_at d' i = pin_at d i) → pin_at d' id = Some key →
  let rest := others id (ordered_sidebar_pins d) in
  (∀ p, p ∈ take i rest → p.2 <s key) → (∀ p, p ∈ drop i rest → key <s p.2) →
  ordered_sidebar_pins d' = insert_at i (id, key) rest.
Proof.
  intros Hwf Hwf' Ho Hk rest Hlo Hhi. destruct (others_sound d id Hwf) as (H1 & H2 & H3). fold rest in H1, H2, H3.
  apply pins_unique; [done|..].
  - unfold insert_at. rewrite <- (take_drop i rest) in H1.
    apply StronglySorted_app in H1 as (H1 & H4 & H5). apply StronglySorted_app. split_and!; [|done|].
    + intros x y Hx [->|Hy]%elem_of_cons; [|by apply H1]. apply pin_leb_spec. left. by apply Hlo.
    + constructor; [done|]. rewrite Forall_forall. intros y Hy. apply pin_leb_spec. left. by apply Hhi.
  - rewrite fmap_insert_at, insert_at_perm. apply NoDup_cons. split; [|done].
    unfold rest. rewrite others_ids, remove_id_elem. tauto.
  - intros j k. rewrite insert_at_perm, elem_of_cons, H3. destruct (decide (j = id)) as [->|Hne].
    + rewrite Hk. naive_solver.
    + rewrite Ho by done. naive_solver.
Qed.

(** The bounds of a placement are the keys of its neighbours. *)
Lemma neighbours d id i key hlc :
  doc_wf d →
  let pins := ordered_sidebar_pins d in
  let rest := others id pins in
  let next := insert_at i id rest.*1 in
  (i ≤ length rest)%nat →
  pin_order_key_between (match i with O => None | S j => next !! j ≫= find_key pins end)
    (next !! S i ≫= find_key pins) hlc = Ok key →
  (∀ p, p ∈ take i rest → p.2 <s key) ∧ (∀ p, p ∈ drop i rest → key <s p.2).
Proof.
  intros Hwf pins rest next Hi Hkey. destruct (pins_sound d Hwf) as (_ & Hn & Hpin).
  destruct (others_sound d id Hwf) as (Hs & _ & Hrest). fold pins rest in Hs, Hn, Hpin, Hrest.
  assert (∀ j p, rest !! j = Some p → find_key pins p.1 = Some p.2) as Hfind.
  { intros j [x k] Hj. apply find_key_spec; [done|]. apply Hpin, Hrest. by eapply list_elem_of_lookup_2. }
  destruct (pin_order_key_shape _ _ _ _ Hkey) as (_ & Hlo & Hhi & _).
  assert (∀ j, (j < i)%nat → next !! j = fst <$> rest !! j) as Hbefore.
  { intros j Hj. unfold next, insert_at. rewrite lookup_app_l by (rewrite length_take, length_fmap; lia).
    rewrite lookup_take_lt by lia. by rewrite list_lookup_fmap. }
  assert (next !! S i = fst <$> rest !! i) as Hafter.
  { unfold next, insert_at. rewrite lookup_app_r by (rewrite length_take, length_fmap; lia).
    rewrite length_take, length_fmap. replace (S i - i `min` length rest)%nat with 1%nat by lia.
    change (drop i rest.*1 !! 0%nat = fst <$> rest !! i).
    rewrite lookup_drop, list_lookup_fmap. by rewrite Nat.add_0_r. }
  split.
  - intros p Hp. destruct i as [|j]; [by rewrite take_0 in Hp; apply elem_of_nil in Hp|].
    destruct (lookup_lt_is_Some_2 rest j ltac:(lia)) as [q Hq].
    rewrite Hbefore, Hq in Hlo by lia. cbn in Hlo. rewrite (Hfind j q Hq) in Hlo. cbn in Hlo.
    rewrite (take_S_r _ _ _ Hq), elem_of_app, list_elem_of_singleton in Hp. destruct Hp as [Hp| ->]; [|done].
    rewrite <- (take_drop j rest) in Hs. apply StronglySorted_app in Hs as (Hs & _).
    assert (pin_leb p q = true) as Hle%pin_leb_spec.
    { apply Hs; [done|]. apply list_elem_of_lookup_2 with 0%nat. rewrite lookup_drop. by rewrite Nat.add_0_r. }
    destruct Hle as [Hle|[-> _]]; [by eapply str_ltb_trans|done].
  - intros p Hp. destruct (rest !! i) as [q|] eqn:Hq.
    2:{ apply lookup_ge_None in Hq. rewrite drop_ge in Hp by lia. by apply elem_of_nil in Hp. }
    rewrite Hafter in Hhi. cbn in Hhi. rewrite (Hfind i q Hq) in Hhi. specialize (Hhi q.2 eq_refl).
    rewrite (drop_S _ _ _ Hq) in Hp. apply elem_of_cons in Hp as [->|Hp]; [done|].
    rewrite <- (take_drop_middle _ _ _ Hq) in Hs. apply StronglySorted_app_1_r in Hs.
    inversion Hs as [|? ? _ Hall]; subst. rewrite Forall_forall in Hall.
    specialize (Hall p Hp). apply pin_leb_spec in Hall as [Hle|[<- _]]; [by eapply str_ltb_trans|done].
Qed.

(** ** A local change of a pin *)

(** What a session's place is read from. *)
Lemma same_place d d' id :
  overlay_row d' KIND_SIDEBAR_PINS id = overlay_row d KIND_SIDEBAR_PINS id →
  overlay_row d' LOCATIONS id = overlay_row d LOCATIONS id →
  location_of d' id = location_of d id ∧ (doc_wf d → pin_at d' id = pin_at d id).
Proof.
  intros E1 E2. assert (∀ r, sidebar_location d' id r = sidebar_location d id r) as Hl
    by (intros r; unfold sidebar_location; by rewrite E2).
  unfold location_of, pin_at. rewrite E1, Hl. split; [done|]. intros Hwf.
  destruct (overlay_row d KIND_SIDEBAR_PINS id) as [r|] eqn:Er; [|done]. cbn. f_equal.
  pose proof (overlay_row_id d _ _ _ Hwf Er). unfold pin_entry, sidebar_location_is_pinned.
  by rewrite H, Hl.
Qed.

Lemma pin_at_spec d id r :
  doc_wf d → overlay_row d KIND_SIDEBAR_PINS id = Some r →
  pin_at d id = if decide (location_of d id = "pinned")
                then k ← row_fields r !! "orderKey" ≫= as_str; if valid_pin_order_key k then Some k else None
                else None.
Proof.
  intros Hwf Er. unfold pin_at, location_of. rewrite Er. cbn. pose proof (overlay_row_id d _ _ _ Hwf Er) as Hid.
  unfold pin_entry, sidebar_location_is_pinned. rewrite Hid.
  destruct (decide (sidebar_location d id (Some r) = "pinned")) as [E|E].
  - rewrite bool_decide_true by done. cbn. destruct (row_fields r !! "orderKey" ≫= as_str) as [k|]; [|done]. cbn.
    by destruct (valid_pin_order_key k).
  - by rewrite bool_decide_false.
Qed.

(** The register decides while it is at least as new as the pin's flag. *)
Lemma location_register d id rl loc clk :
  overlay_row d LOCATIONS id = Some rl → row_fields rl !! "location" = Some (Str loc) →
  row_clocks rl !! "location" = Some clk →
  (∀ rp c, overlay_row d KIND_SIDEBAR_PINS id = Some rp → row_clocks rp !! "pinned" = Some c → str_leb c clk = true) →
  location_of d id = loc.
Proof.
  intros El Ef Ec Hp. unfold location_of, sidebar_location. rewrite El. cbn. rewrite Ec, Ef.
  rewrite bool_decide_true by eauto. cbn.
  destruct (overlay_row d KIND_SIDEBAR_PINS id) as [rp|] eqn:Ep; [|done]. cbn.
  destruct (row_clocks rp !! "pinned") as [c|] eqn:Epc; [|done]. cbn. by rewrite (Hp rp c).
Qed.

(** A newer flag that says not pinned leaves the session nowhere. *)
Lemma location_unpinned d id rp clk :
  overlay_row d KIND_SIDEBAR_PINS id = Some rp → row_fields rp !! "pinned" = Some (Bool false) →
  row_clocks rp !! "pinned" = Some clk →
  (∀ rl c, overlay_row d LOCATIONS id = Some rl → row_clocks rl !! "location" = Some c → c <s clk) →
  location_of d id = "".
Proof.
  intros Ep Ef Ec Hl. unfold location_of, sidebar_location.
  set (lc := overlay_row d LOCATIONS id ≫= λ r, row_clocks r !! "location").
  assert (bool_decide (is_Some lc) && opt_str_leb (Some clk) lc = false) as Hn.
  { destruct lc as [c|] eqn:Elc; [|by rewrite bool_decide_false by (by intros [])].
    unfold lc in Elc. destruct (overlay_row d LOCATIONS id) as [rl|]; [|done]. cbn.
    unfold str_leb. by rewrite (Hl rl c eq_refl Elc). }
  clearbody lc. rewrite Ep. cbn [mbind option_bind]. rewrite Ec, Ef, Hn. done.
Qed.

(** Only the two rows of the session change. *)
Definition only (id : string) (d d' : RegistryDoc) : Prop :=
  ∀ kind i, ¬ ((kind = KIND_SIDEBAR_PINS ∨ kind = LOCATIONS) ∧ i = id) → overlay_row d' kind i = overlay_row d kind i.

Lemma only_places id d d' i : only id d d' → i ≠ id →
  location_of d' i = location_of d i ∧ (doc_wf d → pin_at d' i = pin_at d i).
Proof. intros Ho Hi. apply same_place; apply Ho; tauto. Qed.

Lemma only_trans id d1 d2 d3 : only id d1 d2 → only id d2 d3 → only id d1 d3.
Proof. intros H1 H2 k i Hne. by rewrite H2, H1. Qed.

Lemma wrote_only L d d' kind id set hlc :
  wrote L d d' kind id set hlc → kind = KIND_SIDEBAR_PINS ∨ kind = LOCATIONS → only id d d'.
Proof. intros W Hk k i Hne. apply (wr_other _ _ _ _ _ _ _ W). naive_solver. Qed.

Section Changes.
Variable len : RowOp → option Z.
Variable wall : nat → Z.
Variable L : Z.
Hypothesis wall_le : ∀ t, wall t ≤ L.

Let write := RegistryDoc.write len wall.
Let write_location := write_sidebar_location len wall.

Lemma write_moves kind id op set d : moves L d (write kind id op set d).
Proof using wall_le.
  unfold write, RegistryDoc.write. pose proof (next_moves wall L wall_le d) as Hn.
  destruct (RegistryDoc.next_hlc wall d) as [hlc d1]. etrans; [exact Hn|by apply put_moves].
Qed.

Lemma write_ticks kind id op set d : (rd_ticks d ≤ rd_ticks (write kind id op set d))%nat.
Proof using wall_le. apply write_moves. Qed.

Lemma write_location_ticks id loc d : (rd_ticks d ≤ rd_ticks (write_location id loc d))%nat.
Proof using wall_le.
  unfold write_location, write_sidebar_location. etrans; [|apply write_ticks]. by rewrite !observe_ticks.
Qed.

(** Both rows of a session observed. *)
Lemma observed id d :
  timely L d → in_time L d →
  let d' := observe_sidebar_row KIND_SIDEBAR_PINS id (observe_sidebar_row LOCATIONS id d) in
  timely L d' ∧ row_seen d' LOCATIONS id ∧ row_seen d' KIND_SIDEBAR_PINS id ∧
  clock_le (rd_clock d) (rd_clock d') ∧ rd_ticks d' = rd_ticks d ∧
  ∀ kind' id', overlay_row d' kind' id' = overlay_row d kind' id'.
Proof.
  intros Ht Hin d'. set (d1 := observe_sidebar_row LOCATIONS id d) in *.
  destruct (observe_spec L LOCATIONS id d Ht kind_locations Hin) as (Ht1 & Hs1 & Hc1). fold d1 in Ht1, Hs1, Hc1.
  assert (rd_ticks d1 = rd_ticks d) as Hk1 by apply observe_ticks.
  destruct (observe_spec L KIND_SIDEBAR_PINS id d1 Ht1 kind_pins) as (Ht2 & Hs2 & Hc2).
  { unfold in_time in *. by rewrite Hk1. }
  fold d' in Ht2, Hs2, Hc2. split_and!; [done| |done|by etrans|by unfold d'; rewrite observe_ticks|].
  - eapply row_seen_le; [exact Hs1|done|]. apply observe_overlay.
  - intros. unfold d', d1. by rewrite !observe_overlay.
Qed.

Lemma write_location_spec id loc d :
  let d' := write_location id loc d in
  timely L d → in_time L d' →
  ∃ hlc, wrote L d d' LOCATIONS id (fields [("location", Str loc)]) hlc ∧
    (∀ s, seen (rd_clock d) s → s <s hlc) ∧ seen (rd_clock d') hlc.
Proof using wall_le.
  intros d' Ht Hin. pose proof (write_location_ticks id loc d) as Htk. fold d' in Htk.
  destruct (observed id d Ht) as (Ht1 & Hs1 & _ & Hc1 & Hk1 & Hov1); [unfold in_time in *; lia|].
  unfold d', write_location, write_sidebar_location in *.
  set (d1 := observe_sidebar_row KIND_SIDEBAR_PINS id _) in *.
  destruct (write_spec len wall L wall_le LOCATIONS id (fields [("location", Str loc)]) d1 Ht1 kind_locations Hin Hs1)
    as (hlc & [W1 W2 W3 W4 (r & Hr & Hf & Hcl) W6] & Hnew & Hseen).
  exists hlc. split_and!; [|intros s Hs; apply Hnew; by eapply seen_mono|done].
  split; [done|by etrans|by rewrite <- Hk1| |exists r; by rewrite <- Hov1|done].
  intros kind' id' Hne. rewrite W4 by done. apply Hov1.
Qed.

(** The end of an unpin. *)
Lemma unpin_spec id d d3 :
  timely L d → row_seen d LOCATIONS id → row_seen d KIND_SIDEBAR_PINS id →
  d3 = d ∨ d3 = write_location id "" d →
  let d' := write KIND_SIDEBAR_PINS id Upsert (fields [("pinned", Bool false)]) d3 in
  in_time L d' →
  timely L d' ∧ only id d d' ∧ location_of d' id = "" ∧ pin_at d' id = None.
Proof using wall_le.
  intros Ht Hsl Hsp Hd3 d' Hin.
  assert (timely L d3 ∧ only id d d3 ∧ row_seen d3 LOCATIONS id ∧ row_seen d3 KIND_SIDEBAR_PINS id)
    as (Ht3 & Ho3 & Hsl3 & Hsp3).
  { destruct Hd3 as [->| ->]; [by split_and!|].
    pose proof (write_ticks KIND_SIDEBAR_PINS id Upsert (fields [("pinned", Bool false)]) (write_location id "" d)).
    destruct (write_location_spec id "" d Ht) as (hlc & W & _ & _).
    { fold d' in H. unfold in_time in *. lia. }
    split_and!; [apply W|by eapply wrote_only; [|right]|apply W|].
    eapply row_seen_le; [exact Hsp|apply W|]. apply (wr_other _ _ _ _ _ _ _ W). by intros [[=] _]. }
  destruct (write_spec len wall L wall_le KIND_SIDEBAR_PINS id (fields [("pinned", Bool false)]) d3 Ht3 kind_pins Hin Hsp3)
    as (hlc & W & Hnew & _). fold d' in W.
  destruct (wr_row _ _ _ _ _ _ _ W) as (r & Hr & Hf & Hc).
  assert (location_of d' id = "") as Hloc.
  { apply (location_unpinned d' id r hlc); [done|by rewrite Hf|by rewrite Hc|].
    intros rl c Hrl Hcl. apply Hnew.
    rewrite (wr_other _ _ _ _ _ _ _ W) in Hrl by (by intros [[=] _]). by eapply Hsl3. }
  split_and!; [apply W| |done|].
  - eapply only_trans; [exact Ho3|]. eapply wrote_only; [exact W|by left].
  - rewrite (pin_at_spec d' id r); [|apply W|done]. by rewrite Hloc.
Qed.

(** The end of a pin or a move. *)
Lemma place_spec change current d d' :
  let id := session_id change in
  timely L d → row_seen d LOCATIONS id → row_seen d KIND_SIDEBAR_PINS id →
  (is_pin change = false → location_of d id = "pinned") →
  place_pin len wall change current d = (d', Ok tt) → in_time L d' →
  ∃ key hlc i, timely L d' ∧ only id d d' ∧ location_of d' id = "pinned" ∧ pin_at d' id = Some key ∧
    position id (project change current) = Some i ∧
    pin_order_key_between
      (match i with O => None | S j => project change current !! j ≫= find_key (ordered_sidebar_pins d) end)
      (project change current !! S i ≫= find_key (ordered_sidebar_pins d)) hlc = Ok key.
Proof using wall_le.
  intros id Ht Hsl Hsp Hmove. unfold place_pin. fold id. destruct (position id _) as [i|] eqn:Ei; [|done].
  pose proof (next_spec wall L wall_le d Ht) as Hnx. pose proof (next_moves wall L wall_le d) as Hmv.
  destruct (RegistryDoc.next_hlc wall d) as [hlc d1]. cbn [fst snd] in *.
  destruct (pin_order_key_between _ _ hlc) as [key|e] eqn:Ek; [|done].
  set (set0 := if is_pin change then _ else _).
  set (d2 := if is_pin change then write_sidebar_location len wall id "pinned" d1 else d1).
  intros [= <-]. set (d' := RegistryDoc.enqueue_ops len wall _ d2). intros Hin.
  destruct (put_moves len wall L wall_le d2 [mkOp KIND_SIDEBAR_PINS id Upsert (Some (fields set0)) hlc None]) as [Htk2 _].
  fold d' in Htk2.
  assert (rd_ticks d1 ≤ rd_ticks d2)%nat as Htk1.
  { unfold d2. destruct (is_pin change); [apply write_location_ticks|done]. }
  destruct Hnx as (Ht1 & Hc1 & _ & Hov1 & Hs1 & Hn1); [unfold in_time in *; lia|].
  assert (timely L d2 ∧ only id d1 d2 ∧ clock_le (rd_clock d1) (rd_clock d2) ∧
    overlay_row d2 KIND_SIDEBAR_PINS id = overlay_row d KIND_SIDEBAR_PINS id ∧
    (is_pin change = true → ∃ r clk, overlay_row d2 LOCATIONS id = Some r ∧
       row_fields r !! "location" = Some (Str "pinned") ∧ row_clocks r !! "location" = Some clk ∧ hlc <s clk) ∧
    (is_pin change = false → d2 = d1)) as (Ht2 & Ho2 & Hc2 & Hp2 & Hl2 & Hm2).
  { unfold d2. destruct (is_pin change) eqn:Hpin; [|by split_and!].
    destruct (write_location_spec id "pinned" d1 Ht1) as (clk & W & Hnew & _).
    { unfold d2, write_location in *. unfold in_time in *. lia. }
    destruct (wr_row _ _ _ _ _ _ _ W) as (r & Hr & Hf & Hcl).
    split_and!; [apply W|by eapply wrote_only; [|right]|apply W| | |done].
    - rewrite <- Hov1. apply (wr_other _ _ _ _ _ _ _ W). by intros [[=] _].
    - intros _. exists r, clk. split_and!; [done|by rewrite Hf|by rewrite Hcl|by apply Hnew]. }
  clearbody d2.
  assert (wrote L d2 d' KIND_SIDEBAR_PINS id (fields set0) hlc) as W.
  { apply (put_spec len wall L wall_le); [done|apply kind_pins|done| |by eapply seen_mono|].
    - intros r k c Hr Hk. rewrite Hp2 in Hr. apply Hn1. by eapply Hsp.
    - eapply row_seen_le; [exact Hsp|by etrans|done]. }
  destruct (wr_row _ _ _ _ _ _ _ W) as (r & Hr & Hf & Hcl).
  assert (overlay_row d' LOCATIONS id = overlay_row d2 LOCATIONS id) as Hlo
    by (apply (wr_other _ _ _ _ _ _ _ W); by intros [[=] _]).
  assert (location_of d' id = "pinned") as Hloc.
  { destruct (is_pin change) eqn:Hpin.
    - destruct (Hl2 eq_refl) as (rl & clk & Hrl & Hfl & Hcll & Hlt).
      apply (location_register d' id rl "pinned" clk); [by rewrite Hlo|done|done|].
      intros rp c Hrp Hc. rewrite Hr in Hrp. injection Hrp as <-. rewrite Hcl in Hc.
      change (fields set0 !! "pinned") with (Some (Bool true)) in Hc. injection Hc as <-. by apply str_ltb_leb.
    - rewrite (Hm2 eq_refl) in *. rewrite <- (Hmove eq_refl). unfold location_of, sidebar_location.
      rewrite Hlo, Hov1, Hr.
      assert (row_clocks r !! "pinned" = overlay_row d KIND_SIDEBAR_PINS id ≫= λ r, row_clocks r !! "pinned") as Hc'.
      { rewrite Hcl. change (fields set0 !! "pinned") with (@None Value). by rewrite Hov1. }
      assert (row_fields r !! "pinned" = overlay_row d KIND_SIDEBAR_PINS id ≫= λ r, row_fields r !! "pinned") as Hf'.
      { rewrite Hf. unfold after_write. change (fields set0 !! "pinned") with (@None Value). rewrite Hov1.
        destruct (overlay_row d KIND_SIDEBAR_PINS id); cbn; [done|by rewrite lookup_empty]. }
      cbn [mbind option_bind]. rewrite Hc', Hf'.
      by destruct (overlay_row d KIND_SIDEBAR_PINS id) as [rp|]. }
  exists key, hlc, i. split_and!; [apply W| |done| |done|done].
  - intros k j Hne. rewrite (wr_other _ _ _ _ _ _ _ W) by naive_solver. by rewrite Ho2, Hov1.
  - rewrite (pin_at_spec d' id r); [|apply W|done]. rewrite decide_True by done.
    assert (row_fields r !! "orderKey" = Some (Str key)) as ->.
    { rewrite Hf. unfold after_write. assert (fields set0 !! "orderKey" = Some (Str key)) as ->; [|done].
      unfold set0. by destruct (is_pin change). }
    cbn. by rewrite (pin_order_key_valid _ _ _ _ Ek).
Qed.

End Changes.

Lemma only_initialized id d d' : only id d d' → sidebar_pins_initialized d' = sidebar_pins_initialized d.
Proof.
  intros Ho. unfold sidebar_pins_initialized, row_exists. rewrite Ho; [done|].
  intros [[[=]|[=]] _].
Qed.

(** Where a change of a pin puts its session. *)
Definition place_after (change : SidebarPinChange) (before : string) : string :=
  match change with Pin _ _ _ => "pinned" | Unpin _ => "" | _ => before end.

Lemma pins_same d d' :
  doc_wf d → doc_wf d' → (∀ i, pin_at d' i = pin_at d i) → ordered_sidebar_pins d' = ordered_sidebar_pins d.
Proof.
  intros Hwf Hwf' He. destruct (pins_sound d Hwf) as (H1 & H2 & H3). apply pins_unique; [done..|].
  intros i k. by rewrite He.
Qed.

(** A change of a pin that succeeds, past its checks. *)
Definition pin_change len wall (change : SidebarPinChange) (d : RegistryDoc)
    : RegistryDoc * result string unit :=
  let id := session_id change in
  let ids := (ordered_sidebar_pins d).*1 in
  let d := observe_sidebar_row KIND_SIDEBAR_PINS id (observe_sidebar_row LOCATIONS id d) in
  match change with
  | Unpin _ => return_ok (RegistryDoc.write len wall KIND_SIDEBAR_PINS id Upsert (fields [("pinned", Bool false)])
        (if bool_decide (id ∈ ids) then write_sidebar_location len wall id "" d else d))
  | Move _ _ _ => if negb (bool_decide (id ∈ ids)) then return_ok d else place_pin len wall change ids d
  | _ => place_pin len wall change ids d
  end.

Lemma change_pin_shape len wall change d d' :
  sidebar_pins_initialized d = true → (∀ c, change ≠ PSection c) →
  change_sidebar_pin len wall change d = (d', Ok tt) → pin_change len wall change d = (d', Ok tt).
Proof.
  intros Hinit Hc. assert (from_option snd [] (sidebar_preferences d) = (ordered_sidebar_pins d).*1) as Hcur
    by (unfold sidebar_preferences; by rewrite Hinit).
  unfold change_sidebar_pin, pin_change. rewrite Hcur. unfold initialize_sidebar_pins. rewrite Hinit.
  destruct change as [? ? ?|? ? ?|?|c]; [..|by destruct (Hc c)];
    (destruct (pin_id_error _); [done|]); cbn [is_pin andb]; [|done..].
  destruct (_ && _); [done|]. by destruct (negb (row_exists d KIND_CHATS _)).
Qed.

Lemma place_pin_ticks len wall L change current d d' :
  (∀ t, wall t ≤ L) → place_pin len wall change current d = (d', Ok tt) → (rd_ticks d ≤ rd_ticks d')%nat.
Proof.
  intros Hwall. unfold place_pin. destruct (position _ _); [|done].
  pose proof (next_moves wall L Hwall d) as [Hn _]. destruct (RegistryDoc.next_hlc wall d) as [hlc d1]. cbn [snd] in Hn.
  destruct (pin_order_key_between _ _ hlc); [|done]. intros [= <-]. etrans; [exact Hn|].
  etrans; [|apply (put_moves len wall L Hwall)].
  destruct (is_pin change); [by apply (write_location_ticks len wall L)|done].
Qed.

Lemma project_placed change ids :
  (∀ c, change ≠ PSection c) → (∀ i, change ≠ Unpin i) →
  (is_pin change = false → session_id change ∈ ids) →
  ∃ a, (a ≤ length (remove_id (session_id change) ids))%nat ∧
    project change ids = insert_at a (session_id change) (remove_id (session_id change) ids).
Proof.
  intros Hc Hu Hm. destruct change as [id after before|id after before|id|c]; cbn in *.
  - exists (anchor_index after before (remove_id id ids)). split; [apply anchor_le|done].
  - exists (anchor_index after before (remove_id id ids)). split; [apply anchor_le|].
    by rewrite bool_decide_true by auto.
  - by destruct (Hu id).
  - by destruct (Hc c).
Qed.

(** The effect of a change that the viewports project. *)
Definition projected (L : Z) (change : SidebarPinChange) (d d' : RegistryDoc) : Prop :=
  timely L d' ∧ (ordered_sidebar_pins d').*1 = project change (ordered_sidebar_pins d).*1 ∧
  location_of d' (session_id change) = place_after change (location_of d (session_id change)) ∧
  ∀ i, i ≠ session_id change → location_of d' i = location_of d i.

Definition observed_rows (id : string) (d : RegistryDoc) : RegistryDoc :=
  observe_sidebar_row KIND_SIDEBAR_PINS id (observe_sidebar_row LOCATIONS id d).

Section Projected.
Variable len : RowOp → option Z.
Variable wall : nat → Z.
Variable L : Z.
Hypothesis wall_le : ∀ t, wall t ≤ L.
Variable d : RegistryDoc.
Hypothesis d_timely : timely L d.
Hypothesis d_in_time : in_time L d.

Lemma observed_same id i :
  location_of (observed_rows id d) i = location_of d i ∧ pin_at (observed_rows id d) i = pin_at d i.
Proof using d_timely d_in_time.
  destruct (observed L id d d_timely d_in_time) as (_ & _ & _ & _ & _ & Hov).
  destruct (same_place d (observed_rows id d) i) as [? Hp]; [apply Hov..|]. split; [done|apply Hp, d_timely].
Qed.

Lemma observed_pins id : ordered_sidebar_pins (observed_rows id d) = ordered_sidebar_pins d.
Proof using d_timely d_in_time.
  apply pins_same; [apply d_timely|by apply (observed L id d)|apply observed_same].
Qed.

Lemma observed_others id dx i :
  only id (observed_rows id d) dx → i ≠ id → location_of dx i = location_of d i ∧ pin_at dx i = pin_at d i.
Proof using d_timely d_in_time.
  intros Ho Hi. destruct (only_places id _ dx i Ho Hi) as [E1 E2].
  rewrite E1, E2 by (by apply (observed L id d)). apply observed_same.
Qed.

Lemma unpin_projects id :
  let d2 := observed_rows id d in
  let d' := RegistryDoc.write len wall KIND_SIDEBAR_PINS id Upsert (fields [("pinned", Bool false)])
    (if bool_decide (id ∈ (ordered_sidebar_pins d).*1) then write_sidebar_location len wall id "" d2 else d2) in
  in_time L d' → projected L (Unpin id) d d'.
Proof using wall_le d_timely d_in_time.
  intros d2 d' Hin. destruct (observed L id d d_timely d_in_time) as (Ht2 & Hsl & Hsp & _).
  destruct (unpin_spec len wall L wall_le id d2
    (if bool_decide (id ∈ (ordered_sidebar_pins d).*1) then write_sidebar_location len wall id "" d2 else d2))
    as (H1 & H2 & H3 & H4); [done|done|done|case_bool_decide; auto|done|]. fold d' in H1, H2, H3, H4.
  split_and!; [done| |done|intros i Hi; by eapply observed_others].
  rewrite (pins_removed d d' id); [|apply d_timely|apply H1|intros i Hi; by eapply observed_others|done].
  by rewrite others_ids.
Qed.

(** A move of a session that is not pinned. *)
Lemma move_nothing id a b :
  id ∉ (ordered_sidebar_pins d).*1 → projected L (Move id a b) d (observed_rows id d).
Proof using d_timely d_in_time.
  intros Hni. split_and!; [by apply (observed L id d)| |apply observed_same|intros; apply observed_same].
  rewrite observed_pins. cbn. by rewrite bool_decide_false.
Qed.

Lemma pinned_here id : id ∈ (ordered_sidebar_pins d).*1 → location_of d id = "pinned".
Proof using d_timely.
  pose proof (t_wf _ _ d_timely) as Hwf. intros Hm. apply list_elem_of_fmap in Hm as ([j k] & Ej & Hin').
  cbn in Ej. subst j. apply (pins_sound d Hwf) in Hin'.
  destruct (overlay_row d KIND_SIDEBAR_PINS id) as [r|] eqn:Er; [|unfold pin_at in Hin'; by rewrite Er in Hin'].
  rewrite (pin_at_spec d id r Hwf Er) in Hin'. by case_decide.
Qed.

Lemma place_projects change d' :
  let id := session_id change in
  let ids := (ordered_sidebar_pins d).*1 in
  (∀ c, change ≠ PSection c) → (∀ i, change ≠ Unpin i) → (is_pin change = false → id ∈ ids) →
  place_pin len wall change ids (observed_rows id d) = (d', Ok tt) → in_time L d' → projected L change d d'.
Proof using wall_le d_timely d_in_time.
  intros id ids Hc Hu Hm Hpl Hin. destruct (observed L id d d_timely d_in_time) as (Ht2 & Hsl & Hsp & _).
  fold (observed_rows id d) in Ht2, Hsl, Hsp. pose proof (t_wf _ _ d_timely) as Hwf.
  assert (is_pin change = false → location_of (observed_rows id d) id = "pinned") as Hmv
    by (intros Hp; rewrite (proj1 (observed_same id id)); by apply pinned_here, Hm).
  destruct (place_spec len wall L wall_le change ids _ d' Ht2 Hsl Hsp Hmv Hpl Hin)
    as (key & hlc & i & H1 & H2 & H3 & H4 & Hi & Hk).
  fold id in H2, H3, H4, Hi. rewrite observed_pins in Hk.
  destruct (project_placed change ids Hc Hu Hm) as (a & Ha & Hproj). fold id in Ha, Hproj. rewrite Hproj in *.
  rewrite position_insert in Hi; [|rewrite remove_id_elem; tauto|done]. injection Hi as <-.
  unfold ids in Hk, Ha. rewrite <- others_ids in Hk, Ha. rewrite length_fmap in Ha.
  destruct (neighbours d id a key hlc Hwf Ha Hk) as [Hlow Hhigh].
  split_and!; [done| | |intros; by eapply observed_others].
  - rewrite (pins_placed d d' id key a Hwf); [|apply H1|intros; by eapply observed_others|done|done|done].
    by rewrite fmap_insert_at, others_ids.
  - fold id. rewrite H3. destruct change as [? ? ?|? ? ?|j|c]; [done| |by destruct (Hu j)|by destruct (Hc c)].
    symmetry. by apply pinned_here, Hm.
Qed.

End Projected.


(** ** A session is in one place *)

Lemma overlay_rows_ids d kind : doc_wf d → NoDup (row_id <$> overlay_rows d kind).
Proof.
  intros Hwf. destruct (overlay_rows_spec d kind) as (ids & Hnd & -> & _).
  induction ids as [|id ids IH]; [constructor|]. apply NoDup_cons in Hnd as [Hid Hnd]. cbn.
  destruct (overlay_row d kind id) as [r|] eqn:Er; [|by apply IH]. cbn. constructor; [|by apply IH].
  rewrite (overlay_row_id d _ _ _ Hwf Er), list_elem_of_fmap. intros (r' & E & Hin).
  apply list_elem_of_omap in Hin as (id' & Hin & Er'). rewrite (overlay_row_id d _ _ _ Hwf Er') in E. congruence.
Qed.

Lemma section_entry_spec d row s :
  section_entry d row = Some s →
  sec_id s = row_id row ∧ sec_collapsed s = row_flag "collapsed" row ∧
  (∀ x, x ∈ sec_session_ids s ↔ location_of d x = row_id row ∧ x ∈ row_id <$> overlay_rows d LOCATIONS) ∧
  (doc_wf d → NoDup (sec_session_ids s)).
Proof.
  unfold section_entry. destruct (row_fields row !! "name" ≫= as_str) as [name|]; [|done]. cbn [mbind option_bind].
  intros [= <-]. cbn [sec_id sec_collapsed sec_session_ids]. split_and!; [done|done| |].
  - intros x. rewrite sort_by_elem, !list_elem_of_fmap. split.
    + intros (r & -> & Hr). apply list_elem_of_filter in Hr as [? ?]. split; [done|by exists r].
    + intros (E & r & -> & Hr). exists r. split; [done|]. by apply list_elem_of_filter.
  - intros Hwf. rewrite sort_by_perm. apply NoDup_fmap_filter. by apply overlay_rows_ids.
Qed.

Lemma sections_spec d s :
  doc_wf d → s ∈ sidebar_sections d → ∃ row, overlay_row d SECTIONS (row_id row) = Some row ∧ row_flag "deleted" row = false ∧
    section_entry d row = Some s.
Proof.
  intros Hwf Hs. unfold sidebar_sections in Hs. apply list_elem_of_omap in Hs as (row & Hr & He). exists row.
  rewrite sort_by_elem in Hr. apply list_elem_of_filter in Hr as [Hd Hr].
  apply overlay_rows_elem in Hr as [id Hr]. by rewrite (overlay_row_id d _ _ _ Hwf Hr).
Qed.

Lemma all_sessions_elem x l : x ∈ all_sessions l ↔ ∃ s, s ∈ l ∧ x ∈ sec_session_ids s.
Proof.
  unfold all_sessions. induction l as [|s l IH]; cbn.
  - split; [by intros ?%elem_of_nil|by intros (s & ?%elem_of_nil & _)].
  - rewrite elem_of_app, IH. split.
    + intros [Hx|(s' & ? & ?)]; [exists s; split; [by left|done]|exists s'; split; [by right|done]].
    + intros (s' & [->|?]%elem_of_cons & ?); [by left|right; eauto].
Qed.

Lemma NoDup_all_sessions (place : string → string) l :
  NoDup (sec_id <$> l) → (∀ s, s ∈ l → NoDup (sec_session_ids s)) →
  (∀ s x, s ∈ l → x ∈ sec_session_ids s → place x = sec_id s) → NoDup (all_sessions l).
Proof.
  induction l as [|s l IH]; intros Hn Hs Hp; [constructor|]. unfold all_sessions. cbn.
  apply NoDup_cons in Hn as [Hi Hn]. apply NoDup_app. split_and!.
  - apply Hs. by left.
  - intros x Hx Hx'. apply all_sessions_elem in Hx' as (s' & Hs' & Hin).
    apply Hi, list_elem_of_fmap. exists s'. split; [|done].
    rewrite <- (Hp s x) by (done || by left). apply Hp; [by right|done].
  - apply IH; [done|intros; apply Hs; by right|intros; apply Hp; [by right|done]].
Qed.

(** The sections of a replica that has no section [pinned] are disjoint, and
    no session is both pinned and in one. *)
Lemma rows_place_once d
  (Hwf : doc_wf d) (Hp : overlay_row d SECTIONS "pinned" = None) :
  placement_wf (ordered_sidebar_pins d).*1 (sidebar_sections d).
Proof.
  assert (∀ s x, s ∈ sidebar_sections d → x ∈ sec_session_ids s → location_of d x = sec_id s) as Hloc.
  { intros s x Hs Hx. apply (sections_spec d) in Hs as (row & _ & _ & He); [|done].
    apply section_entry_spec in He as (-> & _ & He & _). by apply He in Hx as [? _]. }
  assert (NoDup (sec_id <$> sidebar_sections d)) as Hids.
  { unfold sidebar_sections. set (rows := sort_by section_leb _).
    assert (NoDup (row_id <$> rows)) as Hn.
    { unfold rows. rewrite sort_by_perm. apply NoDup_fmap_filter. by apply overlay_rows_ids. }
    clearbody rows. induction rows as [|r rows IH]; [constructor|]. apply NoDup_cons in Hn as [Hr Hn]. cbn.
    destruct (section_entry d r) as [s|] eqn:Es; [|by apply IH]. cbn. constructor; [|by apply IH].
    rewrite list_elem_of_fmap. intros (s' & E & Hs'). apply list_elem_of_omap in Hs' as (r' & Hr' & Es').
    apply section_entry_spec in Es as (Ei & _), Es' as (Ei' & _). apply Hr, list_elem_of_fmap. exists r'. split; [congruence|done]. }
  split; [done| |apply pins_sound, Hwf|].
  - apply (NoDup_all_sessions (location_of d)); [done| |done].
    intros s Hs. apply (sections_spec d) in Hs as (row & _ & _ & He); [|done]. by apply section_entry_spec in He as (_ & _ & _ & He); auto.
  - intros x Hx Hs. apply list_elem_of_fmap in Hx as ([i k] & E & Hin). cbn in E. subst i.
    apply (pins_sound d Hwf) in Hin. apply all_sessions_elem in Hs as (s & Hs & Hin').
    pose proof (Hloc s x Hs Hin') as Hl. apply (sections_spec d) in Hs as (row & Hrow & _ & He); [|done].
    apply section_entry_spec in He as (Ei & _). rewrite Ei in Hl.
    destruct (overlay_row d KIND_SIDEBAR_PINS x) as [r|] eqn:Er; [|unfold pin_at in Hin; by rewrite Er in Hin].
    rewrite (pin_at_spec d x r Hwf Er) in Hin. case_decide as Hpin; [|done]. rewrite Hpin in Hl. rewrite <- Hl in Hrow.
    congruence.
Qed.
