(* ===== verification/SidebarSections.v ===== *)
(** * SidebarSections: changes of the sidebar's sections

    Theorems about [change_sidebar_section] and [change_sidebar_pin] of
    Sidebar.v: a refused change shows nothing, what holds after any changes
    (sessions in one place, deleted sections), and where an assignment puts its
    session. *)

From S2P Require Import Prelude Text Hlc Json RegistryRow RegistryDoc Entities RegistryApi PinKeys Sidebar SidebarSpec.

(** ** What a change leaves alone

    [keeps K d d']: the rows [K] selects are as before. *)

Definition keeps (K : string → string → Prop) (d d' : RegistryDoc) : Prop :=
  doc_wf d → doc_wf d' ∧ ∀ kind id, K kind id → raw_row d' kind id = raw_row d kind id.

#[export] Instance keeps_preorder K : PreOrder (keeps K).
Proof.
  split; [by intros d Hwf|]. intros d1 d2 d3 H1 H2 Hwf. destruct (H1 Hwf) as [Hwf2 E1].
  destruct (H2 Hwf2) as [Hwf3 E2]. split; [done|]. intros. by rewrite E2, E1.
Qed.

Section Keeps.
Variable len : RowOp → option Z.
Variable wall : nat → Z.
Variable K : string → string → Prop.

Lemma keeps_observe kind id d : keeps K d (observe_sidebar_row kind id d).
Proof.
  intros Hwf. split; [|intros; apply observe_raw]. unfold observe_sidebar_row.
  destruct (_ ≫= _) as [c|]; [|done].
  eapply (doc_wf_queue d (set_clock _ d) (λ b, b)); [by split|by rewrite list_fmap_id|done|done].
Qed.

Lemma keeps_next d : keeps K d (RegistryDoc.next_hlc wall d).2.
Proof. intros Hwf. split; [by apply next_hlc_wf|intros; apply next_hlc_raw]. Qed.

Lemma keeps_write kind id op set d : ¬ K kind id → keeps K d (RegistryDoc.write len wall kind id op set d).
Proof.
  intros Hk Hwf. split; [by apply (write_raw len wall kind id op set d kind id)|].
  intros k i Hki. destruct (write_raw len wall kind id op set d k i Hwf) as [_ ->].
  rewrite decide_False; [done|]. by intros [-> ->].
Qed.

Lemma keeps_put kind id set hlc d :
  ¬ K kind id → keeps K d (RegistryDoc.enqueue_ops len wall [mkOp kind id Upsert set hlc None] d).
Proof.
  intros Hk Hwf. destruct (enqueue_ops_spec len wall [mkOp kind id Upsert set hlc None] d Hwf) as [Hwf' Hraw].
  split; [done|]. intros k i Hki. rewrite Hraw, filter_cons_False; [done|].
  unfold has_key, op_key. cbn. by intros [= -> ->].
Qed.

Lemma keeps_write_location id loc d : ¬ K LOCATIONS id → keeps K d (write_sidebar_location len wall id loc d).
Proof.
  intros Hk. unfold write_sidebar_location. etrans; [apply keeps_observe|]. etrans; [apply keeps_observe|].
  by apply keeps_write.
Qed.

Lemma keeps_initialize d :
  ¬ K KIND_PREFERENCES SIDEBAR_PINS_STATE_ID → keeps K d (initialize_sidebar_pins len wall d).
Proof. intros Hk. unfold initialize_sidebar_pins. destruct (sidebar_pins_initialized d); [done|by apply keeps_write]. Qed.

(** The section a change names. *)
Definition section_of (change : SidebarSectionChange) : option string :=
  match change with
  | SCreate id _ | SRename id _ | SCollapse id _ | SDelete id => Some id
  | _ => None
  end.

Lemma keeps_simple change d :
  ¬ K KIND_PREFERENCES SIDEBAR_PINS_STATE_ID →
  (∀ id, section_of change = Some id → valid_section_id id = true → ¬ K SECTIONS id) →
  keeps K d (simple_change len wall change d).1.
Proof.
  intros Hp Hs. unfold simple_change. destruct (section_error change) as [e|] eqn:Ee; [done|].
  assert (∀ id, section_of change = Some id → ¬ K SECTIONS id) as Hs'.
  { intros id E. apply Hs; [done|]. destruct change; cbn in *; try done; injection E as ->;
      destruct (valid_section_id id); done. }
  etrans; [by apply keeps_initialize|]. set (d0 := initialize_sidebar_pins len wall d). clearbody d0.
  destruct change as [id name|id name|id c|id|s o|l]; cbn [fst return_ok]; try done.
  - destruct (row_exists d0 SECTIONS id); [done|]. pose proof (keeps_next d0) as Hn.
    destruct (RegistryDoc.next_hlc wall d0) as [created d1]. etrans; [exact Hn|]. apply keeps_write. by apply Hs'.
  - destruct (live_sidebar_section d0 id); [|done]. etrans; [apply keeps_observe|]. apply keeps_write. by apply Hs'.
  - destruct (live_sidebar_section d0 id); [|done]. etrans; [apply keeps_observe|]. apply keeps_write. by apply Hs'.
  - etrans; [apply keeps_observe|]. apply keeps_write. by apply Hs'.
Qed.

Lemma simple_ok change d : section_error change = None → (simple_change len wall change d).2 = Ok tt.
Proof.
  intros E. unfold simple_change. rewrite E. destruct change; try done. 
  destruct (row_exists _ _ _); [done|]. by destruct (RegistryDoc.next_hlc wall _).
Qed.

Lemma keeps_sessions section ids d :
  (∀ id, ¬ K LOCATIONS id) → keeps K d (fold_left (import_session len wall section) ids d).
Proof.
  intros Hl. revert d. induction ids as [|id ids IH]; intros d; [done|]. cbn. etrans; [|apply IH].
  unfold import_session. destruct (_ && _ && _); [by apply keeps_write_location|done].
Qed.

Lemma keeps_import section d :
  ¬ K KIND_PREFERENCES SIDEBAR_PINS_STATE_ID → (∀ id, ¬ K LOCATIONS id) →
  (∀ id, valid_section_id id = true → ¬ K SECTIONS id) →
  keeps K d (import_section len wall section d).1.
Proof.
  intros Hp Hl Hs. unfold import_section. destruct (row_exists d SECTIONS _); [done|].
  pose proof (keeps_simple (SCreate (sec_id section) (sec_name section)) d Hp) as H1.
  destruct (simple_change _ _ _ d) as [d1 [u|e]]; cbn [and_then fst] in *; [|apply H1; eauto].
  etrans; [apply H1; eauto|]. etrans; [by apply (keeps_sessions (sec_id section) (sec_session_ids section))|].
  apply keeps_simple; eauto.
Qed.

Lemma import_ok section d : import_valid section = true → (import_section len wall section d).2 = Ok tt.
Proof.
  unfold import_valid. rewrite !andb_true_iff. intros [[H1 H2] H3]. unfold import_section.
  destruct (row_exists d SECTIONS _); [done|].
  pose proof (simple_ok (SCreate (sec_id section) (sec_name section)) d) as Hc. cbn in Hc. rewrite H1, H2 in Hc.
  destruct (simple_change _ _ (SCreate _ _) d) as [d1 [u|e]]; cbn [and_then snd] in *; [|by specialize (Hc eq_refl)].
  apply simple_ok. cbn. by rewrite H1.
Qed.

Lemma import_all_ok sections d :
  Forall (λ s, import_valid s = true) sections →
  (fold_left (λ o s, and_then o (import_section len wall s)) sections (return_ok d)).2 = Ok tt.
Proof.
  intros Hv. revert d. induction Hv as [|s l Hs Hv IH]; intros d; [done|]. cbn.
  pose proof (import_ok s d Hs) as Ho. destruct (import_section len wall s d) as [d1 o]. cbn in Ho. subst o. apply IH.
Qed.

Lemma keeps_import_all sections d :
  ¬ K KIND_PREFERENCES SIDEBAR_PINS_STATE_ID → (∀ id, ¬ K LOCATIONS id) →
  (∀ id, valid_section_id id = true → ¬ K SECTIONS id) →
  ∀ o, keeps K d o.1 → keeps K d (fold_left (λ o s, and_then o (import_section len wall s)) sections o).1.
Proof.
  intros Hp Hl Hs. induction sections as [|s l IH]; intros o Ho; [done|]. cbn. apply IH.
  destruct o as [d1 [u|e]]; [|done]. cbn. etrans; [exact Ho|by apply keeps_import].
Qed.

End Keeps.

(** ** Refusals *)

Definition shown_kind (kind _id : string) : Prop := kind ≠ KIND_PREFERENCES.

Lemma keeps_shown_initialize len wall d : keeps shown_kind d (initialize_sidebar_pins len wall d).
Proof. apply keeps_initialize. by intros []. Qed.

Lemma section_error_known change e : section_error change = Some e → e ≠ PANIC.
Proof. destruct change; cbn; case_match; try discriminate; by intros [= <-]. Qed.

Lemma key_loop_err fuel lo up nonce key e :
  key_loop fuel lo up nonce key = Err e → e = "Pin ordering key is too long".
Proof.
  revert lo up key. induction fuel as [|fuel IH]; intros lo up key; unfold key_loop; fold key_loop; [by intros [= <-]|].
  cbv zeta. destruct (_ <? _); [|apply IH]. destruct (_ <=? _); [done|by intros [= <-]].
Qed.

Lemma pin_order_key_err lo up nonce e : pin_order_key_between lo up nonce = Err e → e ≠ PANIC.
Proof.
  unfold pin_order_key_between. case_match; [by intros [= <-]|]. by intros ->%key_loop_err.
Qed.

Lemma assign_refused len wall s o d d' e :
  change_sidebar_section len wall (SAssign s o) d = (d', Err e) →
  keeps shown_kind d d' ∧ e ≠ PANIC.
Proof.
  cbn [change_sidebar_section]. destruct (section_error (SAssign s o)) as [e'|] eqn:Ee.
  { intros [= <- <-]. split; [done|by eapply section_error_known]. }
  set (d0 := initialize_sidebar_pins len wall d). pose proof (keeps_shown_initialize len wall d) as H0. fold d0 in H0.
  destruct (from_option _ false o); [by intros [= <- <-]|].
  destruct (negb _); [by intros [= <- <-]|].
  destruct o as [id|]; [|done]. intros E.
  match type of E with simple_change _ _ _ ?x = _ => pose proof (simple_ok len wall (SCollapse id false) x) as Hok end.
  rewrite E in Hok. cbn in Hok. cbn in Ee. destruct (negb (valid_id s)); [done|]. cbn in Ee.
  destruct (valid_section_id id); [by specialize (Hok eq_refl)|done].
Qed.

Lemma section_refused len wall change d d' e :
  change_sidebar_section len wall change d = (d', Err e) → keeps shown_kind d d' ∧ e ≠ PANIC.
Proof.
  assert (∀ c, simple_change len wall c d = (d', Err e) → keeps shown_kind d d' ∧ e ≠ PANIC) as Hs.
  { intros c E. destruct (section_error c) as [e'|] eqn:Ee.
    - unfold simple_change in E. rewrite Ee in E. injection E as <- <-.
      split; [done|by eapply section_error_known].
    - pose proof (simple_ok len wall c d Ee) as Hok. by rewrite E in Hok. }
  destruct change as [id name|id name|id c|id|s o|l]; [apply Hs..|apply assign_refused|].
  cbn [change_sidebar_section]. destruct (section_error (SImport l)) as [e'|] eqn:Ee.
  { intros [= <- <-]. split; [done|by eapply section_error_known]. }
  intros E. pose proof (import_all_ok len wall l (initialize_sidebar_pins len wall d)) as Hok.
  rewrite E in Hok. cbn in Hok, Ee. destruct (forallb import_valid l) eqn:Ef; [|done].
  assert (Forall (λ s, import_valid s = true) l) as Hl; [|by specialize (Hok Hl)].
  apply Forall_forall. intros s Hs'. rewrite forallb_forall in Ef. apply Ef. by apply list_elem_of_In.
Qed.

Lemma place_refused len wall change current d d' e :
  session_id change ∈ project change current →
  place_pin len wall change current d = (d', Err e) → keeps shown_kind d d' ∧ e ≠ PANIC.
Proof.
  intros Hin. unfold place_pin. destruct (position_elem _ _ Hin) as [i ->].
  pose proof (keeps_next wall shown_kind d) as Hn. destruct (RegistryDoc.next_hlc wall d) as [hlc d1]. cbn [snd] in Hn.
  destruct (pin_order_key_between _ _ hlc) as [k|e'] eqn:Ek; [done|]. intros [= <- <-]. split; [done|].
  by eapply pin_order_key_err.
Qed.

Lemma section_or_pin change : (∃ c, change = PSection c) ∨ ∀ c, change ≠ PSection c.
Proof. destruct change as [| | |c]; [by right..|left; by exists c]. Qed.

Lemma pin_refused len wall change d d' e :
  (∀ c, change ≠ PSection c) → change_sidebar_pin len wall change d = (d', Err e) →
  keeps shown_kind d d' ∧ e ≠ PANIC.
Proof.
  intros Hc. unfold change_sidebar_pin. set (id := session_id change). cbv zeta.
  set (current := from_option _ _ _).
  set (d2 := observe_sidebar_row _ _ (observe_sidebar_row _ _ _)).
  assert (keeps shown_kind d d2) as H2.
  { etrans; [apply (keeps_shown_initialize len wall)|]. etrans; apply keeps_observe. }
  assert (∀ e', pin_id_error id = Some e' → e' ≠ PANIC) as Hid
    by (intros e'; unfold pin_id_error; destruct (valid_id id); by intros [= <-]).
  assert (session_id change ∈ project change current → place_pin len wall change current d2 = (d', Err e) →
    keeps shown_kind d d' ∧ e ≠ PANIC) as Hpl.
  { intros Hin [Hk Hp]%place_refused; [|done]. split; [by etrans|done]. }
  destruct change as [i a b|i a b|i|c]; [..|by destruct (Hc c)];
    (destruct (pin_id_error id) as [e'|]; [intros [= <- <-]; split; [done|by apply Hid]|]); cbn [is_pin andb negb] in *.
  - case_match; [by intros [= <- <-]|]. case_match; [by intros [= <- <-]|].
    apply Hpl. cbn. rewrite insert_at_perm. left.
  - destruct (bool_decide (id ∈ current)) eqn:Eid; [|done]. apply Hpl. cbn. unfold id in Eid. cbn in Eid.
    rewrite Eid. rewrite insert_at_perm. left.
  - done.
Qed.

(** C37: A change the replica refuses shows nothing: whatever the error, and
    however far the change got before it, no row but the marker in
    [preferences] differs, an import is refused whole, and the error is never
    the panic of the [unwrap] on the position of the session. *)
Theorem refused_change_shows_nothing len wall change d d' e
  (Hwf : doc_wf d) (Hok : change_sidebar_pin len wall change d = (d', Err e)) :
  doc_wf d' ∧ e ≠ PANIC ∧
  ∀ kind id, kind ≠ KIND_PREFERENCES → overlay_row d' kind id = overlay_row d kind id.
Proof.
  assert (keeps shown_kind d d' ∧ e ≠ PANIC) as [Hk He].
  { destruct (section_or_pin change) as [[c ->]|Hc]; [by eapply section_refused|by eapply pin_refused]. }
  destruct (Hk Hwf) as [Hwf' Hr]. split_and!; [done|done|]. intros. by rewrite !overlay_row_raw, Hr.
Qed.

(** ** Whole changes *)

Section Changes.
Variable len : RowOp → option Z.
Variable wall : nat → Z.
Variable K : string → string → Prop.
Hypothesis K_preferences : ¬ K KIND_PREFERENCES SIDEBAR_PINS_STATE_ID.
Hypothesis K_locations : ∀ id, ¬ K LOCATIONS id.
Hypothesis K_pins : ∀ id, ¬ K KIND_SIDEBAR_PINS id.

Lemma keeps_place change current d : keeps K d (place_pin len wall change current d).1.
Proof using K_locations K_pins.
  unfold place_pin. destruct (position _ _) as [i|]; [|done].
  pose proof (keeps_next wall K d) as Hn. destruct (RegistryDoc.next_hlc wall d) as [hlc d1]. cbn [snd] in Hn.
  destruct (pin_order_key_between _ _ hlc); [|done]. etrans; [exact Hn|].
  etrans; [|by apply keeps_put]. destruct (is_pin change); [by apply keeps_write_location|done].
Qed.

Lemma keeps_pin change d :
  (∀ c, change ≠ PSection c) → keeps K d (change_sidebar_pin len wall change d).1.
Proof using K_preferences K_locations K_pins.
  intros Hc. unfold change_sidebar_pin. cbv zeta. set (current := from_option _ _ _).
  set (d2 := observe_sidebar_row _ _ (observe_sidebar_row _ _ _)).
  assert (keeps K d d2) as H2.
  { etrans; [by apply (keeps_initialize len wall)|]. etrans; apply keeps_observe. }
  destruct change as [i a b|i a b|i|c]; [..|by destruct (Hc c)]; (destruct (pin_id_error _); [done|]);
    cbn [is_pin andb].
  - case_match; [done|]. case_match; [done|]. etrans; [exact H2|apply keeps_place].
  - destruct (negb _); [done|]. etrans; [exact H2|apply keeps_place].
  - etrans; [exact H2|]. etrans; [|by apply keeps_write].
    destruct (bool_decide _); [by apply keeps_write_location|done].
Qed.

Lemma keeps_assigned s loc d :
  keeps K d (write_sidebar_location len wall s loc
    (RegistryDoc.write len wall KIND_SIDEBAR_PINS s Upsert (fields [("pinned", Bool false)])
      (observe_sidebar_row KIND_SIDEBAR_PINS s d))).
Proof using K_locations K_pins.
  etrans; [|by apply keeps_write_location]. etrans; [apply keeps_observe|]. by apply keeps_write.
Qed.

Lemma keeps_section change d :
  (∀ id, valid_section_id id = true → ¬ K SECTIONS id) →
  keeps K d (change_sidebar_section len wall change d).1.
Proof using K_preferences K_locations K_pins.
  intros Hs. destruct change as [id name|id name|id c|id|s o|l]; try (apply keeps_simple; eauto).
  - cbn [change_sidebar_section]. destruct (section_error _); [done|].
    destruct (from_option _ false o); [by apply keeps_initialize|].
    destruct (negb _); [by apply keeps_initialize|].
    destruct o as [id|]; (etrans; [by apply (keeps_initialize len wall)|]); [|by apply keeps_assigned].
    etrans; [by apply (keeps_assigned s id)|]. apply keeps_simple; eauto.
  - cbn [change_sidebar_section]. destruct (section_error _); [done|].
    apply keeps_import_all; [done|done|done|]. by apply keeps_initialize.
Qed.

End Changes.

(** ** Any number of changes *)

(** The state after a list of changes, refused ones included. *)
Definition after_changes len wall (changes : list SidebarPinChange) (d : RegistryDoc) : RegistryDoc :=
  fold_left (λ d c, (change_sidebar_pin len wall c d).1) changes d.

Lemma after_changes_ind len wall (P : RegistryDoc → Prop) changes d :
  (∀ c d, P d → P (change_sidebar_pin len wall c d).1) → P d → P (after_changes len wall changes d).
Proof. intros Hs. revert d. induction changes as [|c l IH]; intros d Hd; [done|]. apply IH. by apply Hs. Qed.

(** Rows of section ids that no change accepts. *)
Definition reserved (kind id : string) : Prop := kind = SECTIONS ∧ valid_section_id id = false.

Lemma reserved_kept len wall change d : keeps reserved d (change_sidebar_pin len wall change d).1.
Proof.
  assert (∀ kind id, kind ≠ SECTIONS → ¬ reserved kind id) as Hn by (by intros kind id Hk [? _]).
  destruct (section_or_pin change) as [[c ->]|Hc].
  - apply keeps_section; try (intros; by apply Hn). intros id Hv [_ E]. congruence.
  - apply keeps_pin; [..|done]; intros; by apply Hn.
Qed.

(** C9: Concurrent moves never put a session in two places: whatever rows the
    replicas wrote and in whatever order they merged, and after any changes of
    this replica, the sections have distinct ids, no session is in two of them
    or twice in one, and none is both pinned and in a section.  It needs that
    no row of a section has the id [pinned], and no change writes one. *)
Theorem placement_exclusive len wall changes d
  (Hwf : doc_wf d) (Hp : overlay_row d SECTIONS "pinned" = None) :
  let d' := after_changes len wall changes d in
  placement_wf (ordered_sidebar_pins d').*1 (sidebar_sections d').
Proof.
  assert (doc_wf (after_changes len wall changes d) ∧
    overlay_row (after_changes len wall changes d) SECTIONS "pinned" = None) as [Hwf' Hp'].
  { apply (after_changes_ind len wall (λ d, doc_wf d ∧ overlay_row d SECTIONS "pinned" = None)); [|done].
    intros c d1 [H1 H2]. destruct (reserved_kept len wall c d1 H1) as [H3 H4]. split; [done|].
    rewrite overlay_row_raw, H4, <- overlay_row_raw; done. }
  by apply rows_place_once.
Qed.

(** ** Deleted sections *)

Definition gone (id : string) (d : RegistryDoc) : Prop :=
  doc_wf d ∧ ∃ r, overlay_row d SECTIONS id = Some r ∧ row_flag "deleted" r = true.

Definition this_section (id kind i : string) : Prop := kind = SECTIONS ∧ i = id.

Section Deleted.
Variable len : RowOp → option Z.
Variable wall : nat → Z.
Variable id : string.

Lemma gone_keeps d d' : keeps (this_section id) d d' → gone id d → gone id d'.
Proof.
  intros Hk [Hwf (r & Hr & Hf)]. destruct (Hk Hwf) as [Hwf' E]. split; [done|]. exists r.
  by rewrite overlay_row_raw, E, <- overlay_row_raw.
Qed.

Lemma gone_exists d : gone id d → row_exists d SECTIONS id = true ∧ live_sidebar_section d id = false.
Proof. intros [_ (r & Hr & Hf)]. unfold row_exists, live_sidebar_section. rewrite Hr. cbn. by rewrite Hf. Qed.

Lemma gone_delete d :
  gone id d → gone id (RegistryDoc.write len wall SECTIONS id Upsert (fields [("deleted", Bool true)]) d).
Proof.
  intros [Hwf (r & Hr & Hf)].
  destruct (write_raw len wall SECTIONS id Upsert (fields [("deleted", Bool true)]) d SECTIONS id Hwf) as [Hwf' E].
  rewrite decide_True in E by done. apply overlay_row_live in Hr as [Hr Hd]. rewrite Hr in E.
  rewrite apply_row_live in E by done. split; [done|]. eexists. split.
  - rewrite overlay_row_raw, E. unfold live_only. cbn. by rewrite written_deleted, Hd.
  - unfold row_flag in *. apply bool_decide_eq_true in Hf. apply bool_decide_eq_true.
    rewrite written_fields. unfold field_after. by destruct (wins _ r "deleted").
Qed.

Lemma gone_initialize d : gone id d → gone id (initialize_sidebar_pins len wall d).
Proof. apply gone_keeps, keeps_initialize. by intros []. Qed.

Lemma gone_simple change d : gone id d → gone id (simple_change len wall change d).1.
Proof.
  intros Hg. destruct (decide (section_of change = Some id)) as [E|E].
  - unfold simple_change. destruct (section_error change); [done|]. apply gone_initialize in Hg.
    revert Hg. generalize (initialize_sidebar_pins len wall d) as d0. intros d0 Hg.
    destruct (gone_exists d0 Hg) as [He Hl].
    destruct change as [i name|i name|i c|i|s o|l]; cbn in E; simplify_eq; cbn [fst return_ok]; rewrite ?He, ?Hl; try done.
    apply gone_delete. eapply gone_keeps, Hg. apply keeps_observe.
  - eapply gone_keeps, Hg. apply keeps_simple; [by intros []|]. intros i Ei _ [_ ->]. done.
Qed.

Lemma gone_import section d : gone id d → gone id (import_section len wall section d).1.
Proof.
  intros Hg. unfold import_section. destruct (row_exists d SECTIONS _); [done|].
  pose proof (gone_simple (SCreate (sec_id section) (sec_name section)) d Hg) as H1.
  destruct (simple_change _ _ (SCreate _ _) d) as [d1 [u|e]]; cbn [and_then fst] in *; [|done].
  apply gone_simple. eapply gone_keeps, H1. apply keeps_sessions. by intros i [].
Qed.

Lemma gone_section change d : gone id d → gone id (change_sidebar_section len wall change d).1.
Proof.
  intros Hg. destruct change as [i name|i name|i c|i|s o|l]; try (by apply gone_simple);
    cbn [change_sidebar_section]; (destruct (section_error _); [done|]); apply gone_initialize in Hg.
  - destruct (from_option _ false o); [done|]. destruct (negb _); [done|].
    eapply gone_keeps in Hg; [|apply (keeps_assigned len wall _) with (s := s) (loc := default "" o); by intros ? []].
    destruct o as [i|]; [by apply gone_simple|done].
  - set (o := return_ok _). assert (gone id o.1) as Ho by done. clearbody o. revert o Ho.
    induction l as [|s l IH]; intros o Ho; [done|]. apply IH. destruct o as [d1 [u|e]]; [|done]. by apply gone_import.
Qed.

End Deleted.

(** C36: Deleting a section is final: after any further changes of this
    replica, whatever clocks its rows carry (renames, collapses, assignments
    to it, a second creation and an import of it included), the row of the
    section stays, marked deleted, and no section of that id is shown. *)
Theorem deleted_sections_stay_deleted len wall changes d id (Hg : gone id d) :
  gone id (after_changes len wall changes d) ∧
  ∀ s, s ∈ sidebar_sections (after_changes len wall changes d) → sec_id s ≠ id.
Proof.
  assert (gone id (after_changes len wall changes d)) as Hg'.
  { apply after_changes_ind; [|done]. intros c d1 H1. destruct (section_or_pin c) as [[c' ->]|Hc]; [by apply gone_section|].
    eapply gone_keeps, H1. apply keeps_pin; [by intros []|by intros ? []|by intros ? []|done]. }
  split; [done|]. destruct Hg' as [Hwf (r & Hr & Hf)]. intros s Hs <-.
  apply sections_spec in Hs as (row & Hrow & Hd & He); [|done]. apply section_entry_spec in He as (Ei & _).
  rewrite Ei, Hrow in Hr. congruence.
Qed.

(** ** Where an assignment puts its session *)

Section Assign.
Variable len : RowOp → option Z.
Variable wall : nat → Z.
Variable L : Z.
Hypothesis wall_le : ∀ t, wall t ≤ L.

Definition assigned (s loc : string) (d : RegistryDoc) : RegistryDoc :=
  write_sidebar_location len wall s loc
    (RegistryDoc.write len wall KIND_SIDEBAR_PINS s Upsert (fields [("pinned", Bool false)])
      (observe_sidebar_row KIND_SIDEBAR_PINS s d)).

Lemma assigned_ticks s loc d : (rd_ticks d ≤ rd_ticks (assigned s loc d))%nat.
Proof using wall_le.
  unfold assigned. etrans; [|by apply (write_location_ticks len wall L)].
  etrans; [|by apply (write_ticks len wall L)]. by rewrite observe_ticks.
Qed.

Lemma assigned_steps s loc d d1 d2 d3 :
  d1 = observe_sidebar_row KIND_SIDEBAR_PINS s d →
  d2 = RegistryDoc.write len wall KIND_SIDEBAR_PINS s Upsert (fields [("pinned", Bool false)]) d1 →
  d3 = write_sidebar_location len wall s loc d2 →
  timely L d → in_time L d3 → loc ≠ "pinned" →
  timely L d3 ∧ only s d d3 ∧ location_of d3 s = loc ∧ pin_at d3 s = None.
Proof using wall_le.
  intros E1 E2 E3 Ht Hin Hl.
  pose proof (write_location_ticks len wall L wall_le s loc d2) as Hk2.
  pose proof (write_ticks len wall L wall_le KIND_SIDEBAR_PINS s Upsert (fields [("pinned", Bool false)]) d1) as Hk1.
  rewrite <- E2 in Hk1. rewrite <- E3 in Hk2.
  assert (rd_ticks d1 = rd_ticks d) as Hk0 by (rewrite E1; apply observe_ticks). unfold in_time in *.
  destruct (observe_spec L KIND_SIDEBAR_PINS s d Ht kind_pins) as (Ht1 & Hs1 & _); [unfold in_time; lia|].
  rewrite <- E1 in Ht1, Hs1.
  destruct (write_spec len wall L wall_le KIND_SIDEBAR_PINS s (fields [("pinned", Bool false)]) d1 Ht1 kind_pins)
    as (hlc1 & W1 & _ & Hseen); [unfold in_time; rewrite <- E2; lia|done|]. rewrite <- E2 in W1, Hseen.
  destruct (write_location_spec len wall L wall_le s loc d2) as (hlc2 & W2 & Hnew & _);
    [apply W1|unfold in_time; rewrite <- E3; lia|].
  rewrite <- E3 in W2.
  destruct (wr_row _ _ _ _ _ _ _ W1) as (rp & Hrp & Hfp & Hcp).
  destruct (wr_row _ _ _ _ _ _ _ W2) as (rl & Hrl & Hfl & Hcl).
  assert (overlay_row d3 KIND_SIDEBAR_PINS s = Some rp) as Hrp'.
  { rewrite (wr_other _ _ _ _ _ _ _ W2) by (by intros [[=] _]). done. }
  assert (location_of d3 s = loc) as Hloc.
  { apply (location_register d3 s rl loc hlc2); [done|by rewrite Hfl|by rewrite Hcl|].
    intros rp' c Hr' Hc'. rewrite Hrp' in Hr'. injection Hr' as <-. rewrite Hcp in Hc'. cbn in Hc'.
    injection Hc' as <-. apply str_ltb_leb. by apply Hnew. }
  split_and!; [apply W2| |done|].
  - assert (only s d1 d2) as Ho1 by (eapply wrote_only; [exact W1|by left]).
    eapply only_trans; [|eapply wrote_only; [exact W2|by right]].
    intros k i Hne. rewrite Ho1, E1 by done. apply observe_overlay.
  - rewrite (pin_at_spec d3 s rp) by (done || apply W2). by rewrite Hloc, decide_False.
Qed.

Lemma assigned_spec s loc d :
  timely L d → in_time L (assigned s loc d) → loc ≠ "pinned" →
  timely L (assigned s loc d) ∧ only s d (assigned s loc d) ∧
  location_of (assigned s loc d) s = loc ∧ pin_at (assigned s loc d) s = None.
Proof using wall_le. by eapply assigned_steps. Qed.

(** An accepted assignment, past its checks. *)
Lemma assign_shape s o d d' :
  sidebar_pins_initialized d = true → change_sidebar_section len wall (SAssign s o) d = (d', Ok tt) →
  from_option valid_section_id true o = true ∧ from_option (live_sidebar_section d) true o = true ∧
  match o with
  | Some id => simple_change len wall (SCollapse id false) (assigned s id d)
  | None => return_ok (assigned s "" d)
  end = (d', Ok tt).
Proof.
  intros Hi. cbn [change_sidebar_section]. unfold initialize_sidebar_pins. rewrite Hi.
  destruct (section_error (SAssign s o)) eqn:Ee; [done|]. cbn in Ee. destruct (negb (valid_id s)); [done|].
  destruct o as [id|]; unfold default, from_option in *; cbv beta iota in *.
  - destruct (valid_section_id id); [|done]. destruct (live_sidebar_section d id); [|done]. cbn [negb].
    destruct (row_exists d KIND_CHATS s); [|done]. intros E. repeat split; done.
  - destruct (row_exists d KIND_CHATS s); [|done]. intros E. repeat split; done.
Qed.

(** Expanding a section shows only that. *)
Lemma expand_section_spec id d :
  let d' := (simple_change len wall (SCollapse id false) d).1 in
  timely L d → in_time L d' → sidebar_pins_initialized d = true →
  valid_section_id id = true → live_sidebar_section d id = true →
  timely L d' ∧ (∀ kind i, ¬ (kind = SECTIONS ∧ i = id) → overlay_row d' kind i = overlay_row d kind i) ∧
  ∃ r, overlay_row d' SECTIONS id = Some r ∧ row_flag "collapsed" r = false ∧ row_flag "deleted" r = false.
Proof using wall_le.
  intros d' Ht Hin Hi Hv Hl. assert (d' = RegistryDoc.write len wall SECTIONS id Upsert
    (fields [("collapsed", Bool false)]) (observe_sidebar_row SECTIONS id d)) as E.
  { unfold d', simple_change, initialize_sidebar_pins. cbn [section_error]. rewrite Hv, Hi. cbn. by rewrite Hl. }
  clearbody d'. subst d'. set (d1 := observe_sidebar_row SECTIONS id d) in *.
  pose proof kind_sections as Hk.
  pose proof (write_ticks len wall L wall_le SECTIONS id Upsert (fields [("collapsed", Bool false)]) d1) as Htk.
  assert (rd_ticks d1 = rd_ticks d) as Hk0 by apply observe_ticks.
  destruct (observe_spec L SECTIONS id d Ht Hk) as (Ht1 & Hs1 & _); [unfold in_time in *; lia|]. fold d1 in Ht1, Hs1.
  destruct (write_spec len wall L wall_le SECTIONS id (fields [("collapsed", Bool false)]) d1 Ht1 Hk Hin Hs1)
    as (hlc & W & _ & _). split_and!; [apply W| |].
  - intros kind i Hne. rewrite (wr_other _ _ _ _ _ _ _ W) by done. apply observe_overlay.
  - destruct (wr_row _ _ _ _ _ _ _ W) as (r & Hr & Hf & _). exists r. unfold row_flag. rewrite !Hf.
    split_and!; [done|done|]. unfold after_write. cbn. unfold d1. rewrite observe_overlay.
    unfold live_sidebar_section in Hl. destruct (overlay_row d SECTIONS id) as [r0|]; [|done]. cbn in Hl |- *.
    apply negb_true_iff in Hl. exact Hl.
Qed.

(** What a change that only touches the section's row leaves of an assignment. *)
Lemma assigned_places s o d d' :
  let d3 := assigned s (default "" o) d in
  timely L d → in_time L d3 → default "" o ≠ "pinned" → timely L d' →
  (∀ kind i, kind ≠ SECTIONS → overlay_row d' kind i = overlay_row d3 kind i) →
  location_of d' s = default "" o ∧ (∀ i, i ≠ s → location_of d' i = location_of d i) ∧
  (ordered_sidebar_pins d').*1 = project (PSection (SAssign s o)) (ordered_sidebar_pins d).*1.
Proof using wall_le.
  intros d3 Ht Hin3 Hl Ht' Hsame. pose proof (t_wf _ _ Ht) as Hwf.
  destruct (assigned_spec s (default "" o) d Ht Hin3 Hl) as (Ht3 & Ho3 & Hloc & Hpin). fold d3 in Ht3, Ho3, Hloc, Hpin.
  assert (∀ i, location_of d' i = location_of d3 i ∧ pin_at d' i = pin_at d3 i) as Hp.
  { intros i. destruct (same_place d3 d' i) as [? Hp]; [by apply Hsame..|]. split; [done|apply Hp, Ht3]. }
  assert (∀ i, i ≠ s → location_of d3 i = location_of d i ∧ pin_at d3 i = pin_at d i) as Hother.
  { intros i Hi. destruct (only_places s d d3 i Ho3 Hi) as [? Hq]. auto. }
  split_and!; [by rewrite (proj1 (Hp s))| |].
  - intros i Hi. rewrite (proj1 (Hp i)). by apply Hother.
  - rewrite (pins_removed d d' s), others_ids; [done|done|apply Ht'| |by rewrite (proj2 (Hp s))].
    intros i Hi. rewrite (proj2 (Hp i)). by apply Hother.
Qed.

Lemma expand_ticks id d : (rd_ticks d ≤ rd_ticks (simple_change len wall (SCollapse id false) d).1)%nat.
Proof using wall_le.
  unfold simple_change. destruct (section_error _); [done|]. cbn [fst return_ok]. unfold initialize_sidebar_pins.
  destruct (sidebar_pins_initialized d); (destruct (live_sidebar_section _ id);
    [etrans; [|by apply (write_ticks len wall L)]; rewrite observe_ticks|]); try done; by apply (write_ticks len wall L).
Qed.

End Assign.

(** C35: An accepted assignment does what the viewports project: the session
    is at its section, or nowhere when it names none, the pinned list is the
    projection of the old one, every other session stays where it was, and the
    section is shown, expanded. *)
Theorem assign_projects len wall L s o d d'
  (Hwall : ∀ t, wall t ≤ L) (Ht : timely L d) (Hinit : sidebar_pins_initialized d = true)
  (Hok : change_sidebar_section len wall (SAssign s o) d = (d', Ok tt)) (Hin : in_time L d') :
  timely L d' ∧ location_of d' s = default "" o ∧
  (∀ i, i ≠ s → location_of d' i = location_of d i) ∧
  (ordered_sidebar_pins d').*1 = project (PSection (SAssign s o)) (ordered_sidebar_pins d).*1 ∧
  ∀ id, o = Some id → ∃ r, overlay_row d' SECTIONS id = Some r ∧
    row_flag "collapsed" r = false ∧ row_flag "deleted" r = false.
Proof.
  destruct (assign_shape len wall s o d d' Hinit Hok) as (Hv & El & E). clear Hok.
  assert (default "" o ≠ "pinned") as Hl.
  { destruct o as [id|]; [|done]. intros E'. cbn in E', Hv. by subst id. }
  destruct o as [id|]; cbn in Hv, El |- *; cbn in Hl.
  - remember (assigned len wall s id d) as d3 eqn:E3.
    pose proof (expand_ticks len wall L Hwall id d3) as Htk. rewrite E in Htk. cbn [fst] in Htk.
    assert (in_time L d3) as Hin3 by (unfold in_time in *; lia).
    destruct (assigned_spec len wall L Hwall s id d Ht) as (Ht3 & Ho3 & _); [by rewrite <- E3|done|].
    rewrite <- E3 in Ht3, Ho3.
    destruct (expand_section_spec len wall L Hwall id d3 Ht3) as (H1 & H2 & H3);
      [by rewrite E|by rewrite (only_initialized s d d3)|done| |].
    { unfold live_sidebar_section in *. rewrite Ho3; [done|]. by intros [[[=]|[=]] _]. }
    rewrite E in H1, H2, H3. cbn [fst] in *.
    destruct (assigned_places len wall L Hwall s (Some id) d d' Ht) as (H4 & H5 & H6);
      [cbn; by rewrite <- E3|done|done|intros; cbn; rewrite <- E3; apply H2; tauto|].
    split_and!; [done..|by intros id' [= <-]].
  - assert (d' = assigned len wall s "" d) as E' by (unfold return_ok in E; congruence). rewrite E' in Hin.
    destruct (assigned_spec len wall L Hwall s "" d Ht Hin Hl) as (Ht3 & _).
    destruct (assigned_places len wall L Hwall s None d (assigned len wall s "" d) Ht Hin Hl Ht3) as (H4 & H5 & H6);
      [done|]. rewrite E'. by split_and!.
Qed.

(** ** Witnesses *)

Definition side_wall (n : nat) : Z := 1000.
Definition side_limit : Z := 10 ^ 12.

(** The chat [c], pins set up and the section [s] created. *)
Definition side_doc : RegistryDoc :=
  (change_sidebar_section ex_len side_wall (SCreate "s" "Section") ex_doc).1.

Lemma side_wall_le t : side_wall t ≤ side_limit.
Proof. done. Qed.

Lemma ex_doc_timely : timely side_limit ex_doc.
Proof.
  split; [apply ex_doc_wf|split; vm_compute; [split; done|discriminate]|].
  intros kind id r Hk Hr. exfalso. unfold raw_row, apply_all, pending_ops in Hr. simpl in Hr.
  change (auth_row (put_row ex_row ∅) kind id = Some r) in Hr. rewrite auth_row_put in Hr.
  case_decide as Hki; [|unfold auth_row in Hr; by rewrite lookup_empty in Hr].
  destruct Hki as [Hki _]. cbn in Hki. subst kind. unfold sidebar_kinds in Hk. by set_solver.
Qed.

Definition side_step1 : RegistryDoc := initialize_sidebar_pins ex_len side_wall ex_doc.
Definition side_step2 : RegistryDoc := (RegistryDoc.next_hlc side_wall side_step1).2.

Lemma side_step1_timely : timely side_limit side_step1.
Proof.
  destruct (write_spec ex_len side_wall side_limit side_wall_le KIND_PREFERENCES SIDEBAR_PINS_STATE_ID
    (fields [("initialized", Bool true)]) ex_doc ex_doc_timely) as (hlc & W & _).
  - unfold sidebar_kinds. set_solver.
  - vm_compute. done.
  - intros r k c Hr. vm_compute in Hr. discriminate.
  - apply W.
Qed.

Lemma side_doc_timely : timely side_limit side_doc.
Proof.
  destruct (next_spec side_wall side_limit side_wall_le side_step1 side_step1_timely) as (H2 & _); [vm_compute; done|].
  change (RegistryDoc.next_hlc side_wall side_step1).2 with side_step2 in H2.
  destruct (write_spec ex_len side_wall side_limit side_wall_le SECTIONS "s"
    (fields [("name", Str "Section"); ("collapsed", Bool false); ("deleted", Bool false);
             ("createdAt", Str (RegistryDoc.next_hlc side_wall side_step1).1)]) side_step2 H2) as (hlc & W & _).
  - apply kind_sections.
  - vm_compute. done.
  - intros r k c Hr. vm_compute in Hr. discriminate.
  - assert (side_doc = RegistryDoc.write ex_len side_wall SECTIONS "s" Upsert
      (fields [("name", Str "Section"); ("collapsed", Bool false); ("deleted", Bool false);
               ("createdAt", Str (RegistryDoc.next_hlc side_wall side_step1).1)]) side_step2) as ->
      by (vm_compute; reflexivity).
    apply (wr_timely _ _ _ _ _ _ _ W).
Qed.

Definition side_pinned : RegistryDoc := (change_sidebar_pin ex_len side_wall (Pin "c" None None) side_doc).1.


Definition side_assigned : RegistryDoc := (change_sidebar_section ex_len side_wall (SAssign "c" (Some "s")) side_doc).1.

Lemma assign_projects_witness : location_of side_assigned "c" = "s".
Proof.
  destruct (assign_projects ex_len side_wall side_limit "c" (Some "s") side_doc side_assigned)
    as (_ & H & _); [done|apply side_doc_timely|vm_compute; done|vm_compute; done|vm_compute; done|exact H].
Defined.

Lemma placement_exclusive_witness :
  placement_wf (ordered_sidebar_pins (after_changes ex_len side_wall [PSection (SAssign "c" (Some "s")); Pin "c" None None] side_doc)).*1
    (sidebar_sections (after_changes ex_len side_wall [PSection (SAssign "c" (Some "s")); Pin "c" None None] side_doc)).
Proof.
  exact (placement_exclusive ex_len side_wall [PSection (SAssign "c" (Some "s")); Pin "c" None None] side_doc
    (t_wf _ _ side_doc_timely) ltac:(vm_compute; reflexivity)).
Defined.

Lemma refused_change_shows_nothing_witness :
  let d := (change_sidebar_pin ex_len side_wall (PSection (SAssign "c" (Some "gone"))) side_doc).1 in
  overlay_row d LOCATIONS "c" = overlay_row side_doc LOCATIONS "c".
Proof.
  destruct (refused_change_shows_nothing ex_len side_wall (PSection (SAssign "c" (Some "gone"))) side_doc
    (change_sidebar_pin ex_len side_wall (PSection (SAssign "c" (Some "gone"))) side_doc).1 "Section no longer exists"
    (t_wf _ _ side_doc_timely) ltac:(vm_compute; reflexivity)) as (_ & _ & H).
  exact (H LOCATIONS "c" ltac:(discriminate)).
Defined.

Definition side_deleted : RegistryDoc := (change_sidebar_section ex_len side_wall (SDelete "s") side_doc).1.

Lemma deleted_sections_stay_deleted_witness :
  let d := after_changes ex_len side_wall
    [PSection (SCreate "s" "Again"); PSection (SImport [mkSection "s" "Again" ["c"] false])] side_deleted in
  sidebar_sections d = [].
Proof.
  intros d. assert (gone "s" side_deleted) as Hg.
  { split.
    - destruct (keeps_section ex_len side_wall (λ _ _, False) id (λ _, id) (λ _, id) (SDelete "s") side_doc (λ _ _, id)) as [H _];
        [apply side_doc_timely|exact H].
    - eexists. split; vm_compute; reflexivity. }
  destruct (deleted_sections_stay_deleted ex_len side_wall
    [PSection (SCreate "s" "Again"); PSection (SImport [mkSection "s" "Again" ["c"] false])] side_deleted "s" Hg) as [_ _].
  vm_compute. reflexivity.
Defined.

(** Unpinning a session that is in a section takes it out of the section: the
    flag is newer than the register, although the projection of the change
    leaves the sections alone. *)
Example unpin_leaves_section :
  let d := (change_sidebar_pin ex_len side_wall (Unpin "c") side_assigned).1 in
  sec_session_ids <$> sidebar_sections side_assigned = [["c"]] ∧
  sec_session_ids <$> sidebar_sections d = [[]] ∧
  project_sections (Unpin "c") (sidebar_sections side_assigned) = sidebar_sections side_assigned.
Proof. vm_compute. done. Qed.
