(* ===== verification/Commands.v ===== *)
(** * Commands: the durable command ledger

    Models crates/doc/src/commands.rs: the entries of a chat's command list,
    their expiry and cancellation rules, and [evaluate_command], the pure
    decision the host takes on an entry.  The request types come from
    crates/proto/src/agent.rs.  HostDrain.v models the workers that call it. *)

From S2P Require Import Prelude Text Json Entities.

(** ** Entries *)

Inductive SessionCommandKind := KRun | KSteer | KInterrupt | KRespondInput.

Inductive SessionCommandStatus :=
  | SPending | SApplied | SRejected | SExpired | SSuperseded | SCancelled.

#[export] Instance SessionCommandKind_eq_dec : EqDecision SessionCommandKind.
Proof. solve_decision. Defined.
#[export] Instance SessionCommandStatus_eq_dec : EqDecision SessionCommandStatus.
Proof. solve_decision. Defined.

Record WorktreeSpec := mkWorktree {
  wt_repo_path : string;
  wt_base : string;
  wt_space_id : option string
}.

Record McpServer := mkMcp {
  mcp_name : string;
  mcp_command : string;
  mcp_args : list string;
  mcp_env : gmap string string
}.

Record RunRequest := mkRunRequest {
  rr_prompt : string;
  rr_harness : option HarnessId;
  rr_model : option string;
  rr_reasoning : option ReasoningLevel;
  rr_model_options : list (string * Value);
  rr_cwd : string;
  rr_sandbox : SandboxLevel;
  rr_auto_approve : bool;
  rr_resume : option string;
  rr_attachments : list string;
  rr_worktree : option WorktreeSpec;
  rr_mcp : option McpServer
}.

Record UserInputAnswer := mkAnswer { ua_question_id : string; ua_labels : list string }.

Inductive SessionCommandPayload :=
  | PRun (request : RunRequest) (message_id : string)
  | PSteer (prompt : string) (message_id : option string)
  | PInterrupt
  | PRespondInput (request_id : string) (answers : list UserInputAnswer).

Definition payload_kind (p : SessionCommandPayload) : SessionCommandKind :=
  match p with
  | PRun _ _ => KRun | PSteer _ _ => KSteer | PInterrupt => KInterrupt
  | PRespondInput _ _ => KRespondInput
  end.

Record CommandBasedOn := mkBasedOn { bo_turn_id : option string; bo_frontier : option string }.

Record SessionCommandEntry := mkEntry {
  ce_id : string;
  ce_payload : SessionCommandPayload;
  ce_issued_by : string;
  ce_issued_at : Z;
  ce_based_on : option CommandBasedOn;
  ce_expires_at : option Z;
  ce_status : SessionCommandStatus;
  ce_resolution : option string
}.

Definition ce_kind (e : SessionCommandEntry) : SessionCommandKind := payload_kind (ce_payload e).

Definition COMMAND_DEFAULT_TTL_MS : Z := 24 * 60 * 60 * 1000.

Definition effective_expiry (e : SessionCommandEntry) : Z :=
  default (wrap_i64 (ce_issued_at e + COMMAND_DEFAULT_TTL_MS)) (ce_expires_at e).

Definition can_composer_cancel (e : SessionCommandEntry) (device : string) : bool :=
  bool_decide (ce_status e = SPending) && bool_decide (ce_issued_by e = device).

(** ** Evaluation *)

Inductive CommandDisposition := Skip | Expired | Superseded | Execute.

#[export] Instance CommandDisposition_eq_dec : EqDecision CommandDisposition.
Proof. solve_decision. Defined.

Record EvaluationContext := mkContextEval {
  cx_is_processed : string → bool;
  cx_now_ms : Z;
  cx_entries : list SessionCommandEntry;
  cx_current_turn_id : option string;
  cx_turn_is_past : string → bool
}.

Definition has_newer_interrupt (e : SessionCommandEntry) (entries : list SessionCommandEntry) : bool :=
  existsb (λ other, negb (bool_decide (ce_id other = ce_id e))
                    && bool_decide (ce_kind other = ce_kind e)
                    && bool_decide (ce_status other = SPending)
                    && (ce_issued_at e <? ce_issued_at other)) entries.

(** The interrupt aims at a turn that already finished. *)
Definition moot_interrupt (e : SessionCommandEntry) (cx : EvaluationContext) : bool :=
  match ce_based_on e ≫= bo_turn_id with
  | Some turn =>
      negb (bool_decide (cx_current_turn_id cx = Some turn)) && cx_turn_is_past cx turn
  | None => false
  end.

Definition evaluate_command (e : SessionCommandEntry) (cx : EvaluationContext) : CommandDisposition :=
  if cx_is_processed cx (ce_id e) then Skip
  else if effective_expiry e <=? cx_now_ms cx then Expired
  else if bool_decide (ce_kind e = KInterrupt) && has_newer_interrupt e (cx_entries cx)
  then Superseded
  else if bool_decide (ce_kind e = KInterrupt) && moot_interrupt e cx
  then Superseded
  else Execute.

(** C23: a command executes exactly when it is unprocessed and unexpired and is
    not an interrupt made redundant by a newer pending one or by its turn being
    over; a user prompt is never superseded. *)
Theorem evaluate_command_exact e cx :
  (evaluate_command e cx = Skip ↔ cx_is_processed cx (ce_id e) = true) ∧
  (evaluate_command e cx = Expired ↔
     cx_is_processed cx (ce_id e) = false ∧ effective_expiry e ≤ cx_now_ms cx) ∧
  (evaluate_command e cx = Superseded ↔
     cx_is_processed cx (ce_id e) = false ∧ cx_now_ms cx < effective_expiry e ∧
     ce_kind e = KInterrupt ∧
     ((∃ other, other ∈ cx_entries cx ∧ ce_id other ≠ ce_id e ∧ ce_kind other = KInterrupt ∧
         ce_status other = SPending ∧ ce_issued_at e < ce_issued_at other) ∨
      (∃ turn, ce_based_on e ≫= bo_turn_id = Some turn ∧ cx_current_turn_id cx ≠ Some turn ∧
         cx_turn_is_past cx turn = true))) ∧
  (ce_kind e ≠ KInterrupt → evaluate_command e cx ≠ Superseded).
Proof.
  assert (ce_kind e = KInterrupt → has_newer_interrupt e (cx_entries cx) = true ↔
    ∃ other, other ∈ cx_entries cx ∧ ce_id other ≠ ce_id e ∧ ce_kind other = KInterrupt ∧
      ce_status other = SPending ∧ ce_issued_at e < ce_issued_at other) as Hnew.
  { intros Hk. unfold has_newer_interrupt. rewrite existsb_exists. rewrite Hk.
    split; intros (o & Hin & H); exists o; rewrite <- list_elem_of_In in *.
    - rewrite !andb_true_iff, negb_true_iff, bool_decide_eq_false, !bool_decide_eq_true, Z.ltb_lt in H.
      tauto.
    - rewrite !andb_true_iff, negb_true_iff, bool_decide_eq_false, !bool_decide_eq_true, Z.ltb_lt.
      tauto. }
  assert (moot_interrupt e cx = true ↔ ∃ turn, ce_based_on e ≫= bo_turn_id = Some turn ∧
    cx_current_turn_id cx ≠ Some turn ∧ cx_turn_is_past cx turn = true) as Hmoot.
  { unfold moot_interrupt. destruct (ce_based_on e ≫= bo_turn_id) as [turn|].
    - rewrite andb_true_iff, negb_true_iff, bool_decide_eq_false. naive_solver.
    - naive_solver. }
  unfold evaluate_command. destruct (cx_is_processed cx (ce_id e)); [naive_solver|].
  destruct (Z.leb_spec (effective_expiry e) (cx_now_ms cx)); [naive_solver lia|].
  case_bool_decide as Hk; simpl; [specialize (Hnew Hk)|].
  - destruct (has_newer_interrupt e (cx_entries cx)) eqn:E1; [naive_solver lia|].
    destruct (moot_interrupt e cx) eqn:E2; naive_solver lia.
  - naive_solver lia.
Qed.
