(* ===== verification/Queue.v ===== *)
(** * Queue: the pending-message queue of a session document

    Models crates/doc/src/queue.rs.  The document keeps the queue as a movable
    list of maps; [QRow] is one element as the document has it, and the
    operations read and write map fields as the code does.  [QueuedMessage] is
    the decoded row.  The second half states what the operations promise as
    operations on lists of messages and proves that they refine them on every
    queue this code writes. *)

From S2P Require Import Prelude Text Json Entities.

(** ** Rows *)

Inductive QueueDeliveryGate :=
  | Editing (lease_id owner_device_id owner_instance_id : string)
      (acquired_at_ms expires_at_ms : Z) (base_text_hash : string)
  | ReviewRequired (previous_lease_id owner_device_id : string) (since_ms : Z) (base_text_hash : string).

#[export] Instance QueueDeliveryGate_eq_dec : EqDecision QueueDeliveryGate.
Proof. solve_decision. Defined.

Record QueuedMessage := mkQueued {
  qm_id : string;
  qm_text : string;
  qm_attachments : list string;
  qm_hold_for_turn_end : bool;
  qm_issued_by : string;
  qm_issued_at : Z;
  qm_edited_at : option Z;
  qm_delivery_gate : option QueueDeliveryGate
}.

#[export] Instance QueuedMessage_eq_dec : EqDecision QueuedMessage.
Proof. solve_decision. Defined.

Definition new_message (id text issued_by : string) : QueuedMessage :=
  mkQueued id text [] false issued_by 0 None None.

(** An element of the list: a map container, or a plain value. *)
Inductive QRow := RowMap (m : gmap string Value) | RowOther (v : Value).
Abbreviation Queue := (list QRow).

Definition row_get (r : QRow) (k : string) : option Value :=
  match r with
  | RowMap m => m !! k
  | RowOther (Object m) => obj_get m k
  | RowOther _ => None
  end.

Definition gate_to_value (g : QueueDeliveryGate) : Value :=
  match g with
  | Editing lease owner instance acquired expires hash =>
      Object [("kind", Str "editing"); ("leaseId", Str lease); ("ownerDeviceId", Str owner);
              ("ownerInstanceId", Str instance); ("acquiredAtMs", Number acquired);
              ("expiresAtMs", Number expires); ("baseTextHash", Str hash)]
  | ReviewRequired lease owner since hash =>
      Object [("kind", Str "reviewRequired"); ("previousLeaseId", Str lease);
              ("ownerDeviceId", Str owner); ("sinceMs", Number since); ("baseTextHash", Str hash)]
  end.

Definition gate_from_value (v : Value) : option QueueDeliveryGate :=
  m ← as_object v;
  kind ← req as_str (obj_get m "kind");
  if String.eqb kind "editing" then
    lease ← req as_str (obj_get m "leaseId");
    owner ← req as_str (obj_get m "ownerDeviceId");
    instance ← req as_str (obj_get m "ownerInstanceId");
    acquired ← req as_i64 (obj_get m "acquiredAtMs");
    expires ← req as_i64 (obj_get m "expiresAtMs");
    hash ← req as_str (obj_get m "baseTextHash");
    Some (Editing lease owner instance acquired expires hash)
  else if String.eqb kind "reviewRequired" then
    lease ← req as_str (obj_get m "previousLeaseId");
    owner ← req as_str (obj_get m "ownerDeviceId");
    since ← req as_i64 (obj_get m "sinceMs");
    hash ← req as_str (obj_get m "baseTextHash");
    Some (ReviewRequired lease owner since hash)
  else None.

(** A gate this build cannot read blocks the row. *)
Definition gate_of (v : option Value) : option QueueDeliveryGate :=
  match v with
  | None | Some Null => None
  | Some gate => Some (default (ReviewRequired "" "" 0 "") (gate_from_value gate))
  end.

Definition queued_from_json (r : QRow) : option QueuedMessage :=
  id ← row_get r "id" ≫= as_str;
  let id := trim id in
  if bool_decide (id = "") then None else
  text ← row_get r "text" ≫= as_str;
  if bool_decide (trim text = "") then None else
  Some (mkQueued id text
    (default [] (row_get r "attachments" ≫= as_strs))
    (default false (row_get r "holdForTurnEnd" ≫= as_bool))
    (default "" (row_get r "issuedBy" ≫= as_str))
    (default 0 (row_get r "issuedAt" ≫= as_i64))
    (row_get r "editedAt" ≫= as_i64)
    (gate_of (row_get r "deliveryGate"))).

Definition strs (l : list string) : Value := Array (Str <$> l).

Definition write_queued_map (item : QueuedMessage) : gmap string Value :=
  let m := <["issuedAt" := Number (qm_issued_at item)]>
           (<["issuedBy" := Str (qm_issued_by item)]>
           (<["text" := Str (qm_text item)]>
           (<["id" := Str (qm_id item)]> ∅))) in
  let m := if bool_decide (qm_attachments item = []) then m
           else <["attachments" := strs (qm_attachments item)]> m in
  let m := if qm_hold_for_turn_end item then <["holdForTurnEnd" := Bool true]> m else m in
  let m := match qm_edited_at item with Some at_ => <["editedAt" := Number at_]> m | None => m end in
  match qm_delivery_gate item with
  | Some gate => <["deliveryGate" := gate_to_value gate]> m
  | None => m
  end.

(** ** Operations *)

Definition read_queue (q : Queue) : list QueuedMessage := omap queued_from_json q.

Definition has_id (id : string) (r : QRow) : bool :=
  match r with
  | RowMap m => bool_decide (m !! "id" = Some (Str id))
  | RowOther _ => false
  end.

Fixpoint index_of (q : Queue) (id : string) : option nat :=
  match q with
  | [] => None
  | r :: q => if has_id id r then Some O else S <$> index_of q id
  end.

Definition queued_ok (item : QueuedMessage) : result string unit :=
  if bool_decide (trim (qm_id item) = "") then Err "queued message id required"
  else if bool_decide (trim (qm_text item) = "") then Err "queued message text required"
  else Ok tt.

Definition push_queued (item : QueuedMessage) (q : Queue) : result string Queue :=
  _ <-? queued_ok item;;
  Ok (q ++ [RowMap (write_queued_map item)]).

Definition insert_queued (index : nat) (item : QueuedMessage) (q : Queue) : result string Queue :=
  _ <-? queued_ok item;;
  Ok (insert_at (index `min` length q) (RowMap (write_queued_map item)) q).

Definition remove_queued (id : string) (q : Queue) : Queue * bool :=
  match index_of q id with
  | Some i => (delete i q, true)
  | None => (q, false)
  end.

(** The map of row [id] rewritten by [f]. *)
Definition update_row (id : string) (f : gmap string Value → gmap string Value) (q : Queue)
    : Queue * bool :=
  match index_of q id with
  | Some i => (alter (λ r, match r with RowMap m => RowMap (f m) | r => r end) i q, true)
  | None => (q, false)
  end.

Definition text_is (text : string) (r : QRow) : bool := bool_decide (row_get r "text" = Some (Str text)).

Definition write_text (text : string) (now : Z) (m : gmap string Value) : gmap string Value :=
  if text_is text (RowMap m) then m
  else <["editedAt" := Number now]> (<["text" := Str text]> m).

Definition set_queued_text (id text : string) (now : Z) (q : Queue) : Queue * bool :=
  if bool_decide (trim text = "") then remove_queued id q else
  match index_of q id ≫= (q !!.) with
  | Some r => if text_is text r then (q, false) else update_row id (write_text text now) q
  | None => (q, false)
  end.

Definition set_queued_delivery_gate (id : string) (gate : option QueueDeliveryGate) (q : Queue)
    : Queue * bool :=
  update_row id (λ m, match gate with
                      | Some g => <["deliveryGate" := gate_to_value g]> m
                      | None => delete "deliveryGate" m
                      end) q.

Definition finish_queued_edit_with_attachments (id : string) (replacement : option string)
    (attachments : option (list string)) (now : Z) (q : Queue) : Queue * bool :=
  if match replacement with Some text => bool_decide (trim text = "") | None => false end
  then remove_queued id q
  else update_row id (λ m,
    let m := match replacement with Some text => write_text text now m | None => m end in
    let m := match attachments with
             | Some a => <["editedAt" := Number now]> (<["attachments" := strs a]> m)
             | None => m
             end in
    delete "deliveryGate" m) q.

Definition move_queued (id : string) (to : nat) (q : Queue) : Queue * bool :=
  match index_of q id with
  | None => (q, false)
  | Some from =>
      let to := (to `min` (length q - 1))%nat in
      if bool_decide (from = to) then (q, false)
      else match q !! from with
           | Some r => (insert_at to r (delete from q), true)
           | None => (q, false)
           end
  end.

Definition take_queued (id : string) (q : Queue) : Queue * option QueuedMessage :=
  match index_of q id with
  | None => (q, None)
  | Some i =>
      let item := List.find (λ m, bool_decide (qm_id m = id)) (read_queue q) in
      if bool_decide (is_Some (item ≫= qm_delivery_gate)) then (q, None)
      else (delete i q, item)
  end.

Definition take_queue_head (q : Queue) : Queue * option QueuedMessage :=
  match read_queue q with
  | [] => (q, None)
  | h :: _ => take_queued (qm_id h) q
  end.

(** ** What the rows stand for *)

Definition ms_ok (o : option Z) : Prop := ∀ ms, o = Some ms → is_i64 ms.

Definition gate_ok (g : QueueDeliveryGate) : Prop :=
  match g with
  | Editing _ _ _ acquired expires _ => is_i64 acquired ∧ is_i64 expires
  | ReviewRequired _ _ since _ => is_i64 since
  end.

(** Messages the code writes: an id with no surrounding blanks, a text that is
    not blank, times in range. *)
Record queued_wf (item : QueuedMessage) : Prop := {
  qw_id : trim (qm_id item) = qm_id item ∧ qm_id item ≠ "";
  qw_text : trim (qm_text item) ≠ "";
  qw_issued : is_i64 (qm_issued_at item);
  qw_edited : ms_ok (qm_edited_at item);
  qw_gate g : qm_delivery_gate item = Some g → gate_ok g
}.

Lemma gate_roundtrip g : gate_ok g → gate_from_value (gate_to_value g) = Some g.
Proof.
  destruct g as [lease owner inst a e hash|lease owner since hash]; intros H;
    unfold gate_from_value, gate_to_value, as_object, req; cbn -[as_i64].
  - destruct H. by rewrite !as_i64_number.
  - by rewrite as_i64_number.
Qed.

Lemma gate_of_some g : gate_ok g → gate_of (Some (gate_to_value g)) = Some g.
Proof.
  intros H. unfold gate_of. rewrite gate_roundtrip by done. by destruct g.
Qed.

Lemma strs_roundtrip l : as_strs (strs l) = Some l.
Proof. apply as_strs_map. Qed.

(** [row_rep r item]: the map [r] stands for [item], under its own id. *)
Definition row_rep (r : QRow) (item : QueuedMessage) : Prop :=
  ∃ m, r = RowMap m ∧ m !! "id" = Some (Str (qm_id item)) ∧ queued_from_json r = Some item ∧
    queued_wf item.

Definition rep (q : Queue) (items : list QueuedMessage) : Prop := Forall2 row_rep q items.

(** The fields of a row, decoded. *)
Lemma queued_from_json_map m item :
  m !! "id" = Some (Str (qm_id item)) → queued_wf item →
  queued_from_json (RowMap m) = Some item ↔
    m !! "text" = Some (Str (qm_text item)) ∧
    default [] (m !! "attachments" ≫= as_strs) = qm_attachments item ∧
    default false (m !! "holdForTurnEnd" ≫= as_bool) = qm_hold_for_turn_end item ∧
    default "" (m !! "issuedBy" ≫= as_str) = qm_issued_by item ∧
    default 0 (m !! "issuedAt" ≫= as_i64) = qm_issued_at item ∧
    (m !! "editedAt" ≫= as_i64) = qm_edited_at item ∧
    gate_of (m !! "deliveryGate") = qm_delivery_gate item.
Proof.
  intros Hid [[Hid1 Hid2] Htext _ _ _]. unfold queued_from_json. cbn [row_get]. rewrite Hid.
  cbn [mbind option_bind as_str]. rewrite Hid1, bool_decide_eq_false_2 by done. split.
  - intros H. destruct (m !! "text") as [[]|]; try done. cbn [mbind option_bind as_str] in H.
    case_bool_decide; [done|]. injection H as <-. done.
  - intros (Ht & H2 & H3 & H4 & H5 & H6 & H7). rewrite Ht. cbn [mbind option_bind as_str].
    rewrite bool_decide_eq_false_2 by done. rewrite H2, H3, H4, H5, H6, H7. by destruct item.
Qed.

(** Looks a constant key up in a map built from constant keys. *)
Ltac row_lookup :=
  repeat first [ rewrite lookup_insert_ne by done | rewrite lookup_insert_eq
               | rewrite lookup_delete_ne by done | rewrite lookup_delete_eq ].

Lemma write_queued_map_rep item : queued_wf item → row_rep (RowMap (write_queued_map item)) item.
Proof.
  intros Hwf. exists (write_queued_map item).
  assert (write_queued_map item !! "id" = Some (Str (qm_id item))) as Hid.
  { unfold write_queued_map. destruct (qm_delivery_gate item), (qm_edited_at item),
      (qm_hold_for_turn_end item); case_bool_decide; row_lookup; done. }
  split; [done|]. split; [done|]. split; [|done].
  apply queued_from_json_map; [done|done|]. destruct Hwf as [_ _ H3 H4 H5].
  unfold write_queued_map.
  destruct (qm_delivery_gate item) as [g|], (qm_edited_at item) as [e|], (qm_hold_for_turn_end item);
    case_bool_decide as Ha; row_lookup; cbn [mbind option_bind as_str as_bool default from_option id];
    rewrite ?strs_roundtrip, ?(as_i64_number _ H3), ?gate_of_some, ?as_i64_number by auto;
    rewrite ?Ha; split_and!; done.
Qed.

(** ** The promise: operations on a list of messages *)

Fixpoint position_of (id : string) (items : list QueuedMessage) : option nat :=
  match items with
  | [] => None
  | m :: items => if bool_decide (qm_id m = id) then Some O else S <$> position_of id items
  end.

Definition find_message (id : string) (items : list QueuedMessage) : option QueuedMessage :=
  position_of id items ≫= (items !!.).

Definition spec_remove (id : string) (items : list QueuedMessage) : list QueuedMessage * bool :=
  match position_of id items with
  | Some i => (delete i items, true)
  | None => (items, false)
  end.

Definition spec_update (id : string) (f : QueuedMessage → QueuedMessage) (items : list QueuedMessage)
    : list QueuedMessage * bool :=
  match position_of id items with
  | Some i => (alter f i items, true)
  | None => (items, false)
  end.

Definition with_text (text : string) (now : Z) (m : QueuedMessage) : QueuedMessage :=
  if bool_decide (qm_text m = text) then m
  else mkQueued (qm_id m) text (qm_attachments m) (qm_hold_for_turn_end m) (qm_issued_by m)
         (qm_issued_at m) (Some now) (qm_delivery_gate m).
Definition with_attachments (a : list string) (now : Z) (m : QueuedMessage) : QueuedMessage :=
  mkQueued (qm_id m) (qm_text m) a (qm_hold_for_turn_end m) (qm_issued_by m) (qm_issued_at m)
    (Some now) (qm_delivery_gate m).
Definition with_gate (gate : option QueueDeliveryGate) (m : QueuedMessage) : QueuedMessage :=
  mkQueued (qm_id m) (qm_text m) (qm_attachments m) (qm_hold_for_turn_end m) (qm_issued_by m)
    (qm_issued_at m) (qm_edited_at m) gate.

Definition spec_set_text (id text : string) (now : Z) (items : list QueuedMessage)
    : list QueuedMessage * bool :=
  if bool_decide (trim text = "") then spec_remove id items else
  match find_message id items with
  | Some m => if bool_decide (qm_text m = text) then (items, false)
              else spec_update id (with_text text now) items
  | None => (items, false)
  end.

Definition finish_edit (replacement : option string) (attachments : option (list string)) (now : Z)
    (m : QueuedMessage) : QueuedMessage :=
  let m := match replacement with Some text => with_text text now m | None => m end in
  let m := match attachments with Some a => with_attachments a now m | None => m end in
  with_gate None m.

Definition spec_finish (id : string) (replacement : option string) (attachments : option (list string))
    (now : Z) (items : list QueuedMessage) : list QueuedMessage * bool :=
  if match replacement with Some text => bool_decide (trim text = "") | None => false end
  then spec_remove id items
  else spec_update id (finish_edit replacement attachments now) items.

Definition spec_move (id : string) (to : nat) (items : list QueuedMessage) : list QueuedMessage * bool :=
  match position_of id items with
  | None => (items, false)
  | Some from =>
      let to := (to `min` (length items - 1))%nat in
      if bool_decide (from = to) then (items, false)
      else match items !! from with
           | Some m => (insert_at to m (delete from items), true)
           | None => (items, false)
           end
  end.

(** A gated message is not handed out. *)
Definition spec_take (id : string) (items : list QueuedMessage)
    : list QueuedMessage * option QueuedMessage :=
  match position_of id items, find_message id items with
  | Some i, Some m => if bool_decide (qm_delivery_gate m = None) then (delete i items, Some m)
                      else (items, None)
  | _, _ => (items, None)
  end.

Lemma position_of_Some id items i :
  position_of id items = Some i → ∃ m, items !! i = Some m ∧ qm_id m = id.
Proof.
  revert i. induction items as [|m items IH]; intros i; simpl; [done|].
  case_bool_decide; [intros [= <-]; by exists m|].
  destruct (position_of id items); simpl; [|done]. intros [= <-]. by apply IH.
Qed.

Lemma find_message_List_find id items :
  List.find (λ m, bool_decide (qm_id m = id)) items = find_message id items.
Proof.
  unfold find_message. induction items as [|m items IH]; simpl; [done|].
  case_bool_decide; [done|]. rewrite IH. by destruct (position_of id items).
Qed.

Lemma find_message_Some id items m :
  find_message id items = Some m → m ∈ items ∧ qm_id m = id.
Proof.
  unfold find_message. destruct (position_of id items) as [i|] eqn:E; [|done]. simpl. intros Hi.
  apply position_of_Some in E as (m' & Hm' & Hid). split; [by eapply list_elem_of_lookup_2|congruence].
Qed.

(** ** The rows refine it *)

Lemma rep_read q items : rep q items → read_queue q = items.
Proof.
  induction 1 as [|r item q items (m & -> & _ & Hj & _) _ IH]; [done|].
  unfold read_queue in *. cbn [omap list_omap]. rewrite Hj. f_equal. exact IH.
Qed.

Lemma rep_index q items id : rep q items → index_of q id = position_of id items.
Proof.
  induction 1 as [|r item q items (m & -> & Hid & _) _ IH]; [done|].
  cbn [index_of position_of has_id]. rewrite Hid, IH.
  case_bool_decide as H1; case_bool_decide as H2; congruence.
Qed.

Lemma rep_insert q items i item :
  rep q items → queued_wf item →
  rep (insert_at i (RowMap (write_queued_map item)) q) (insert_at i item items).
Proof.
  intros Hr Hwf. unfold rep, insert_at. apply Forall2_app; [by apply Forall2_take|].
  constructor; [by apply write_queued_map_rep|by apply Forall2_drop].
Qed.

Lemma rep_alter q items i f g :
  rep q items →
  (∀ m item, m !! "id" = Some (Str (qm_id item)) → row_rep (RowMap m) item → row_rep (RowMap (f m)) (g item)) →
  rep (alter (λ r, match r with RowMap m => RowMap (f m) | r => r end) i q) (alter g i items).
Proof.
  intros Hr H. apply Forall2_alter; [done|]. intros r item Hr1 Hr2 (m & -> & Hid & Hj & Hwf).
  apply H; [done|]. by exists m.
Qed.

Lemma row_rep_map m item :
  row_rep (RowMap m) item ↔ m !! "id" = Some (Str (qm_id item)) ∧ queued_wf item ∧
    queued_from_json (RowMap m) = Some item.
Proof. split; [intros (m' & [= <-] & ?); tauto|]. intros (? & ? & ?). by exists m. Qed.

Lemma row_rep_text m item text now :
  trim text ≠ "" → is_i64 now → row_rep (RowMap m) item →
  row_rep (RowMap (write_text text now m)) (with_text text now item).
Proof.
  rewrite !row_rep_map. intros Ht Hn (Hid & Hwf & Hj).
  pose proof (proj1 (queued_from_json_map _ _ Hid Hwf) Hj) as (H1 & H2 & H3 & H4 & H5 & H6 & H7).
  unfold write_text, with_text, text_is. cbn [row_get]. rewrite H1.
  case_bool_decide as E1; case_bool_decide as E2; try congruence; [done|].
  assert (queued_wf (mkQueued (qm_id item) text (qm_attachments item) (qm_hold_for_turn_end item)
    (qm_issued_by item) (qm_issued_at item) (Some now) (qm_delivery_gate item))) as Hwf'.
  { destruct Hwf. split; cbn; try done. by intros ? [= <-]. }
  split; [by row_lookup|]. split; [done|].
  apply queued_from_json_map; [by row_lookup|done|]. row_lookup. cbn.
  split_and!; try done. by apply as_i64_number.
Qed.

Lemma row_rep_attachments m item a now :
  is_i64 now → row_rep (RowMap m) item →
  row_rep (RowMap (<["editedAt" := Number now]> (<["attachments" := strs a]> m))) (with_attachments a now item).
Proof.
  rewrite !row_rep_map. intros Hn (Hid & Hwf & Hj).
  pose proof (proj1 (queued_from_json_map _ _ Hid Hwf) Hj) as (H1 & H2 & H3 & H4 & H5 & H6 & H7).
  assert (queued_wf (with_attachments a now item)) as Hwf'.
  { destruct Hwf. split; cbn; try done. by intros ? [= <-]. }
  split; [by row_lookup|]. split; [done|].
  apply queued_from_json_map; [by row_lookup|done|]. row_lookup. cbn [mbind option_bind].
  rewrite strs_roundtrip, as_i64_number by done. split_and!; done.
Qed.

Lemma row_rep_gate m item g :
  (∀ g', g = Some g' → gate_ok g') → row_rep (RowMap m) item →
  row_rep (RowMap (match g with Some g => <["deliveryGate" := gate_to_value g]> m
                   | None => delete "deliveryGate" m end)) (with_gate g item).
Proof.
  rewrite !row_rep_map. intros Hg (Hid & Hwf & Hj).
  pose proof (proj1 (queued_from_json_map _ _ Hid Hwf) Hj) as (H1 & H2 & H3 & H4 & H5 & H6 & H7).
  assert (queued_wf (with_gate g item)) as Hwf' by (destruct Hwf; by split).
  destruct g as [g|].
  - split; [by row_lookup|]. split; [done|].
    apply queued_from_json_map; [by row_lookup|done|]. row_lookup.
    rewrite gate_of_some by auto. split_and!; done.
  - split; [by row_lookup|]. split; [done|].
    apply queued_from_json_map; [by row_lookup|done|]. row_lookup. split_and!; done.
Qed.

(** [p] on the rows answers as [s] on the messages and leaves rows for its messages. *)
Definition same {A} (p : Queue * A) (s : list QueuedMessage * A) : Prop := rep p.1 s.1 ∧ p.2 = s.2.

Lemma rep_lookup q items i r : rep q items → q !! i = Some r → ∃ m, items !! i = Some m ∧ row_rep r m.
Proof. intros Hr. by apply Forall2_lookup_l. Qed.

Lemma remove_refines q items id : rep q items → same (remove_queued id q) (spec_remove id items).
Proof.
  intros Hr. unfold remove_queued, spec_remove. rewrite (rep_index _ _ _ Hr).
  destruct (position_of id items); [|done]. split; [|done]. by apply Forall2_delete.
Qed.

Lemma update_refines q items id f g :
  rep q items → (∀ m item, row_rep (RowMap m) item → row_rep (RowMap (f m)) (g item)) →
  same (update_row id f q) (spec_update id g items).
Proof.
  intros Hr H. unfold update_row, spec_update. rewrite (rep_index _ _ _ Hr).
  destruct (position_of id items); [|done]. split; [|done]. apply rep_alter; auto.
Qed.

Lemma set_text_refines q items id text now :
  rep q items → is_i64 now → same (set_queued_text id text now q) (spec_set_text id text now items).
Proof.
  intros Hr Hn. unfold set_queued_text, spec_set_text. case_bool_decide as Ht; [by apply remove_refines|].
  unfold find_message. rewrite (rep_index _ _ _ Hr).
  destruct (position_of id items) as [i|] eqn:Ei; [|done]. cbn [mbind option_bind].
  apply position_of_Some in Ei as (item & Hitem & _).
  destruct (Forall2_lookup_r _ _ _ _ _ Hr Hitem) as (r & -> & Hrr). rewrite Hitem.
  assert (text_is text r = bool_decide (qm_text item = text)) as ->.
  { destruct Hrr as (m & -> & Hid & Hj & Hwf). unfold text_is. cbn [row_get].
    apply (queued_from_json_map _ _ Hid Hwf) in Hj as [-> _]. apply bool_decide_ext. naive_solver. }
  case_bool_decide; [done|]. apply update_refines; [done|]. intros. by apply row_rep_text.
Qed.

Lemma gate_refines q items id g :
  rep q items → (∀ g', g = Some g' → gate_ok g') →
  same (set_queued_delivery_gate id g q) (spec_update id (with_gate g) items).
Proof. intros Hr Hg. apply update_refines; [done|]. intros. by apply row_rep_gate. Qed.

Lemma finish_refines q items id text a now :
  rep q items → is_i64 now →
  same (finish_queued_edit_with_attachments id text a now q) (spec_finish id text a now items).
Proof.
  intros Hr Hn. unfold finish_queued_edit_with_attachments, spec_finish, finish_edit.
  destruct (match text with Some _ => _ | None => _ end) eqn:Et; [by apply remove_refines|].
  apply update_refines; [done|]. intros m item H. cbv zeta.
  apply (row_rep_gate _ _ None); [done|].
  assert (row_rep (RowMap (match text with Some text => write_text text now m | None => m end))
    (match text with Some text => with_text text now item | None => item end)) as H'.
  { destruct text as [text|]; [|done]. apply row_rep_text; [|done|done].
    by apply bool_decide_eq_false in Et. }
  destruct a as [a|]; [by apply row_rep_attachments|done].
Qed.

Lemma move_refines q items id to : rep q items → same (move_queued id to q) (spec_move id to items).
Proof.
  intros Hr. unfold move_queued, spec_move. rewrite (rep_index _ _ _ Hr).
  rewrite (Forall2_length _ _ _ Hr).
  destruct (position_of id items) as [i|] eqn:Ei; [|done]. case_bool_decide; [done|].
  apply position_of_Some in Ei as (item & Hitem & _).
  destruct (Forall2_lookup_r _ _ _ _ _ Hr Hitem) as (r & -> & Hrr). rewrite Hitem. split; [|done].
  cbn [fst]. unfold rep, insert_at. apply Forall2_app; [by apply Forall2_take, Forall2_delete|].
  constructor; [done|]. by apply Forall2_drop, Forall2_delete.
Qed.

Lemma take_refines q items id : rep q items → same (take_queued id q) (spec_take id items).
Proof.
  intros Hr. unfold take_queued, spec_take. rewrite (rep_index _ _ _ Hr), (rep_read _ _ Hr).
  rewrite find_message_List_find. unfold find_message.
  destruct (position_of id items) as [i|] eqn:Ei; [|done]. cbn [mbind option_bind].
  apply position_of_Some in Ei as (item & Hitem & _). rewrite Hitem. cbn [mbind option_bind].
  destruct (qm_delivery_gate item) as [g|].
  - rewrite bool_decide_eq_true_2 by eauto. by rewrite bool_decide_eq_false_2.
  - rewrite bool_decide_eq_false_2 by (by apply is_Some_None_inv || intros [? [=]]).
    rewrite bool_decide_eq_true_2 by done. split; [|done]. by apply Forall2_delete.
Qed.

Lemma queued_ok_wf item : queued_wf item → queued_ok item = Ok tt.
Proof.
  intros [[H1 H2] H3 _ _ _]. unfold queued_ok. rewrite H1.
  by rewrite !bool_decide_eq_false_2.
Qed.

(** C17: on every queue this code writes, each operation on the document's maps
    answers and changes the decoded messages as the operation on lists does:
    one row per message, in order, and a gated row is never handed out. *)
Theorem queue_refines q items now :
  rep q items → is_i64 now →
  read_queue q = items ∧
  (∀ item i, queued_wf item →
     (∃ q', push_queued item q = Ok q' ∧ rep q' (items ++ [item])) ∧
     (∃ q', insert_queued i item q = Ok q' ∧ rep q' (insert_at (i `min` length items) item items))) ∧
  (∀ id, same (remove_queued id q) (spec_remove id items)) ∧
  (∀ id, same (take_queued id q) (spec_take id items)) ∧
  (∀ id to, same (move_queued id to q) (spec_move id to items)) ∧
  (∀ id text, same (set_queued_text id text now q) (spec_set_text id text now items)) ∧
  (∀ id g, gate_ok g →
     same (set_queued_delivery_gate id (Some g) q) (spec_update id (with_gate (Some g)) items)) ∧
  (∀ id text a, same (finish_queued_edit_with_attachments id text a now q)
                  (spec_finish id text a now items)).
Proof.
  intros Hr Hn. split; [by apply rep_read|]. split.
  { intros item i Hwf. unfold push_queued, insert_queued. rewrite (queued_ok_wf _ Hwf).
    cbn [result_bind]. split; eexists; (split; [done|]).
    - apply Forall2_app; [done|]. constructor; [by apply write_queued_map_rep|constructor].
    - rewrite (Forall2_length _ _ _ Hr). by apply rep_insert. }
  split_and!; intros; [by apply remove_refines|by apply take_refines|by apply move_refines
    |by apply set_text_refines| |by apply finish_refines].
  apply gate_refines; [done|]. by intros ? [= <-].
Qed.

Definition ex_message (id text : string) : QueuedMessage := new_message id text "dev-a".
Definition ex_queue : Queue := RowMap ∘ write_queued_map <$> [ex_message "a" "one"; ex_message "b" "two"].

Lemma ex_message_wf id text :
  trim id = id ∧ id ≠ "" → trim text ≠ "" → queued_wf (ex_message id text).
Proof. intros H1 H2. by split. Qed.

Lemma ex_queue_rep : rep ex_queue [ex_message "a" "one"; ex_message "b" "two"].
Proof. repeat constructor; by apply write_queued_map_rep, ex_message_wf. Qed.

Lemma queue_refines_witness :
  read_queue ex_queue = [ex_message "a" "one"; ex_message "b" "two"] ∧
  same (take_queued "b" ex_queue) (spec_take "b" [ex_message "a" "one"; ex_message "b" "two"]) ∧
  (take_queued "b" ex_queue).2 = Some (ex_message "b" "two").
Proof.
  destruct (queue_refines ex_queue [ex_message "a" "one"; ex_message "b" "two"] 5 ex_queue_rep)
    as (H & _ & _ & Ht & _); [by split|].
  split; [exact H|]. split; [apply Ht|reflexivity].
Defined.

(** [push_queued] accepts an id with surrounding blanks, which [read_queue]
    shows trimmed; taking the row under its stored id drops it unread, even
    while it is gated. *)
Lemma untrimmed_row_is_dropped :
  let item := mkQueued " a" "one" [] false "d" 0 None (Some (ReviewRequired "" "" 0 "")) in
  ∃ q, push_queued item [] = Ok q ∧ qm_id <$> read_queue q = ["a"] ∧
       take_queued "a" q = (q, None) ∧ take_queued " a" q = ([], None).
Proof. eexists. split; [reflexivity|]. split_and!; reflexivity. Qed.
