(* ===== verification/QueueHost.v ===== *)
(** * QueueHost: delivery of queued messages by the chat's host

    Models the queue operations of crates/engine/src/doc_host.rs over the
    document queue of Queue.v: edit leases (begin, renew, finish, expire),
    explicit sends, steering, and the drain.  All of them run under the chat's
    drain lock; a send keeps the lock while the agent is asked to take the
    message, so a send is two steps, the take and the answer, between which only
    the unlocked edits of the document can happen.  The clock, fresh ids, the
    state of the agent and the presence of attachments are arguments. *)

From S2P Require Import Prelude Text Json Entities Queue.

Inductive QueueSend := NextTurn | Steer | Interrupt.

(** A taken message whose dispatch has not answered. *)
Record Sending := mkSending {
  sd_item : QueuedMessage;
  sd_send : QueueSend;
  sd_was_paused : bool
}.

Record QueueHost := mkQueueHost {
  qh_queue : Queue;
  qh_paused : bool;
  qh_steered : list string;
  qh_sending : option Sending;
  qh_sent : list QueuedMessage      (* accepted by the agent, in order *)
}.

Definition with_queue (q : Queue) (s : QueueHost) : QueueHost :=
  mkQueueHost q (qh_paused s) (qh_steered s) (qh_sending s) (qh_sent s).

Definition QUEUE_EDIT_LEASE_MS : Z := 60000.

Inductive BeginQueueEditOutcome :=
  | Acquired (lease_id text : string) (attachments : list string) (base_text_hash : string)
      (expires_at_ms : Z)
  | Locked (owner_device_id : string) (expires_at_ms : Z)
  | BeginMissing.

Inductive RenewQueueEditOutcome := Renewed (expires_at_ms : Z) | RenewLost | RenewMissing.

Inductive FinishQueueEditAction := Commit | Cancel | Discard | ReleaseUnchanged.

#[export] Instance FinishQueueEditAction_eq_dec : EqDecision FinishQueueEditAction.
Proof. solve_decision. Defined.

Inductive FinishQueueEditOutcome :=
  | Committed | Cancelled | Discarded | Released
  | Conflict (current_text : string) | Lost | Missing
  | CommitRequiresText.           (* the error of a commit without text or hash *)

Definition find_row (id : string) (s : QueueHost) : option QueuedMessage :=
  List.find (λ m, bool_decide (qm_id m = id)) (read_queue (qh_queue s)).

Definition ATTACHMENT_ONLY_PROMPT : string := "See the attached image(s).".
Definition ATTACHMENT_PROMPT_HEADER : string := "Attached images (local files — open them to view):".

Definition newline : string := String "010" "".

Fixpoint join_lines (l : list string) : string :=
  match l with
  | [] => ""
  | [s] => s
  | s :: l => s +:+ newline +:+ join_lines l
  end.

(** [s.strip_suffix(t)] *)
Fixpoint strip_suffix (t s : string) : option string :=
  if bool_decide (s = t) then Some "" else
  match s with
  | EmptyString => None
  | String a s => String a <$> strip_suffix t s
  end.

Definition attachment_trailer (attachments : list string) : string :=
  newline +:+ newline +:+ ATTACHMENT_PROMPT_HEADER +:+ newline
  +:+ join_lines ((λ path, "- " +:+ path) <$> attachments).

Definition queued_message_prompt (text : string) (attachments : list string) : string :=
  if bool_decide (attachments = []) then text else
  let trailer := attachment_trailer attachments in
  let body := default text (strip_suffix trailer text) in
  (if bool_decide (trim body = "") then ATTACHMENT_ONLY_PROMPT else body) +:+ trailer.

(** [take_while(|row| steered.contains(row))] *)
Fixpoint take_while_in (steered ids : list string) : list string :=
  match ids with
  | [] => []
  | i :: ids => if bool_decide (i ∈ steered) then i :: take_while_in steered ids else []
  end.

Section Host.
(** [queue_text_hash]: the SHA-256 of the text. *)
Variable queue_text_hash : string → string.

(** ** Edit leases *)

Definition set_gate (id : string) (g : QueueDeliveryGate) (s : QueueHost) : QueueHost * bool :=
  let '(q, changed) := set_queued_delivery_gate id (Some g) (qh_queue s) in
  (with_queue q s, changed).

(** The lease is granted. *)
Definition acquire (id owner instance : string) (now : Z) (lease : string) (item : QueuedMessage)
    (s : QueueHost) : QueueHost * BeginQueueEditOutcome :=
  let expires := wrap_i64 (now + QUEUE_EDIT_LEASE_MS) in
  let hash := queue_text_hash (qm_text item) in
  let '(s, changed) := set_gate id (Editing lease owner instance now expires hash) s in
  if changed then (s, Acquired lease (qm_text item) (qm_attachments item) hash expires)
  else (s, BeginMissing).

Definition begin_queued_message_edit (id owner instance : string) (now : Z) (lease : string)
    (s : QueueHost) : QueueHost * BeginQueueEditOutcome :=
  match find_row id s with
  | None => (s, BeginMissing)
  | Some item =>
      match qm_delivery_gate item with
      | Some (Editing _ holder _ _ expires _) =>
          if now <? expires then (s, Locked holder expires)
          else acquire id owner instance now lease item s
      | _ => acquire id owner instance now lease item s
      end
  end.

Definition renew_queued_message_edit (id lease : string) (now : Z) (s : QueueHost)
    : QueueHost * RenewQueueEditOutcome :=
  match find_row id s with
  | None => (s, RenewMissing)
  | Some item =>
      match qm_delivery_gate item with
      | Some (Editing current owner instance acquired expires hash) =>
          if negb (bool_decide (current = lease)) then (s, RenewLost)
          else if expires <=? now then
            ((set_gate id (ReviewRequired current owner now hash) s).1, RenewLost)
          else
            let expires := wrap_i64 (now + QUEUE_EDIT_LEASE_MS) in
            let '(s, changed) := set_gate id (Editing current owner instance acquired expires hash) s in
            if changed then (s, Renewed expires) else (s, RenewMissing)
      | _ => (s, RenewLost)
      end
  end.

(** The lease that may resolve the row, and the hash of the text it edits. *)
Definition resolvable (g : option QueueDeliveryGate) : option (string * string) :=
  match g with
  | Some (Editing lease _ _ _ _ hash) => Some (lease, hash)
  | Some (ReviewRequired lease _ _ hash) => Some (lease, hash)
  | None => None
  end.

Definition finish_queued_message_edit (id lease : string) (action : FinishQueueEditAction)
    (text expected : option string) (attachments : option (list string)) (now : Z) (s : QueueHost)
    : QueueHost * FinishQueueEditOutcome :=
  if bool_decide (action = Commit) && (bool_decide (text = None) || bool_decide (expected = None))
  then (s, CommitRequiresText)
  else match find_row id s with
  | None => (s, Missing)
  | Some item =>
      match resolvable (qm_delivery_gate item) with
      | None => (s, Lost)
      | Some (current, hash) =>
          if negb (bool_decide (current = lease)) then (s, Lost)
          else if bool_decide (action = Commit)
                  && (negb (bool_decide (expected = Some hash))
                      || negb (bool_decide (queue_text_hash (qm_text item) = hash)))
          then (s, Conflict (qm_text item))
          else
            let replacement := match action with
              | Commit => Some (default "" text)
              | Cancel | ReleaseUnchanged => None
              | Discard => Some ""
              end in
            let '(q, found) := finish_queued_edit_with_attachments id replacement
              (if bool_decide (action = Commit) then attachments else None) now (qh_queue s) in
            if found then
              (with_queue q s,
               match action with
               | Commit => Committed | Cancel => Cancelled
               | Discard => Discarded | ReleaseUnchanged => Released
               end)
            else (s, Missing)
      end
  end.

Definition expire_queued_message_edit (id lease : string) (scheduled : Z) (now : Z) (s : QueueHost)
    : QueueHost :=
  match find_row id s ≫= qm_delivery_gate with
  | Some (Editing current owner _ _ expires hash) =>
      if negb (bool_decide (current = lease)) || negb (expires =? scheduled) || (now <? expires)
      then s
      else (set_gate id (ReviewRequired current owner now hash) s).1
  | _ => s
  end.

(** ** Sends *)

Definition remove_queued_message (id : string) (s : QueueHost) : QueueHost :=
  with_queue (remove_queued id (qh_queue s)).1 s.

(** The row leaves the queue and its dispatch starts. *)
Definition start_sending (q : Queue) (item : QueuedMessage) (send : QueueSend) (s : QueueHost)
    : QueueHost :=
  match send with
  | NextTurn =>
      mkQueueHost q (qh_paused s) (filter (λ row, row ≠ qm_id item) (qh_steered s))
        (Some (mkSending item send (qh_paused s))) (qh_sent s)
  | _ => mkQueueHost q false (qh_steered s) (Some (mkSending item send (qh_paused s))) (qh_sent s)
  end.

Definition send_queued_now (id : string) (s : QueueHost) : QueueHost :=
  match find_row id s with
  | None => s
  | Some candidate =>
      if bool_decide (is_Some (qm_delivery_gate candidate)) then s else
      match take_queued id (qh_queue s) with
      | (q, Some item) => start_sending q item Interrupt s
      | (q, None) => with_queue q s
      end
  end.

(** Where a newly steered row goes, and the steered rows with it. *)
Definition steer_slot (id : string) (q : Queue) (steered : list string) : nat * list string :=
  let items := read_queue q in
  let live := filter (λ row, row ∈ qm_id <$> items) steered in
  (length (take_while_in live (qm_id <$> items)), live ++ [id]).

Definition steer_queued_now (id : string) (defers_to_turn_end : bool) (s : QueueHost) : QueueHost :=
  match find_row id s with
  | None => s
  | Some candidate =>
      if negb (bool_decide (qm_attachments candidate = []))
         || bool_decide (is_Some (qm_delivery_gate candidate)) then s
      else match take_queued id (qh_queue s) with
      | (q, None) => with_queue q s
      | (q, Some item) =>
          if defers_to_turn_end then
            let '(slot, steered) := steer_slot (qm_id item) q (qh_steered s) in
            match insert_queued slot item q with
            | Ok q => mkQueueHost q false steered (qh_sending s) (qh_sent s)
            | Err _ => mkQueueHost q (qh_paused s) steered (qh_sending s) (qh_sent s)
            end
          else start_sending q item Steer s
      end
  end.

(** One round of the drain's loop: what happens to the head. *)
Definition drain_queue (now : Z) (turn_in_flight : bool) (missing : QueuedMessage → bool)
    (s : QueueHost) : QueueHost :=
  if qh_paused s then s else
  match read_queue (qh_queue s) with
  | [] => s
  | head :: _ =>
      match qm_delivery_gate head with
      | Some (Editing lease owner _ _ expires hash) =>
          if expires <=? now
          then (set_gate (qm_id head) (ReviewRequired lease owner now hash) s).1
          else s
      | Some (ReviewRequired _ _ _ _) => s
      | None =>
          if turn_in_flight || missing head then s else
          match take_queued (qm_id head) (qh_queue s) with
          | (q, Some item) => start_sending q item NextTurn s
          | (q, None) => with_queue q s
          end
      end
  end.

(** [dispatch_queued] answers.  A refused message goes back to the front. *)
Definition dispatch_answer (accepted : bool) (s : QueueHost) : QueueHost :=
  match qh_sending s with
  | None => s
  | Some (mkSending item send was_paused) =>
      if accepted then
        mkQueueHost (qh_queue s) (qh_paused s) (qh_steered s) None (qh_sent s ++ [item])
      else
        mkQueueHost (match insert_queued 0 item (qh_queue s) with Ok q => q | Err _ => qh_queue s end)
          (match send with NextTurn => true | _ => was_paused || qh_paused s end)
          (qh_steered s) None (qh_sent s)
  end.

(** ** The host *)

Inductive QueueAction :=
  | QPush (item : QueuedMessage)
  | QSetText (id text : string) (now : Z)
  | QMove (id : string) (to : nat)
  | QRemove (id : string)
  | QBegin (id owner instance : string) (now : Z) (lease : string)
  | QRenew (id lease : string) (now : Z)
  | QFinish (id lease : string) (action : FinishQueueEditAction) (text expected : option string)
      (attachments : option (list string)) (now : Z)
  | QExpire (id lease : string) (scheduled now : Z)
  | QSendNow (id : string)
  | QSteerNow (id : string) (defers : bool)
  | QDrain (now : Z) (turn_in_flight : bool) (missing : QueuedMessage → bool)
  | QAnswer (accepted : bool).

(** The drain lock: while a dispatch is out, the operations that take it wait. *)
Definition locked (s : QueueHost) (s' : QueueHost) : QueueHost :=
  match qh_sending s with Some _ => s | None => s' end.

Definition queue_step (a : QueueAction) (s : QueueHost) : QueueHost :=
  match a with
  | QPush item => match push_queued item (qh_queue s) with Ok q => with_queue q s | Err _ => s end
  | QSetText id text now => with_queue (set_queued_text id text now (qh_queue s)).1 s
  | QMove id to => with_queue (move_queued id to (qh_queue s)).1 s
  | QRemove id => locked s (remove_queued_message id s)
  | QBegin id owner instance now lease => locked s (begin_queued_message_edit id owner instance now lease s).1
  | QRenew id lease now => locked s (renew_queued_message_edit id lease now s).1
  | QFinish id lease action text expected atts now =>
      locked s (finish_queued_message_edit id lease action text expected atts now s).1
  | QExpire id lease scheduled now => locked s (expire_queued_message_edit id lease scheduled now s)
  | QSendNow id => locked s (send_queued_now id s)
  | QSteerNow id defers => locked s (steer_queued_now id defers s)
  | QDrain now in_flight missing => locked s (drain_queue now in_flight missing s)
  | QAnswer accepted => dispatch_answer accepted s
  end.
End Host.

(** ** What every message goes through *)

Definition sending_message (s : QueueHost) : list QueuedMessage :=
  match qh_sending s with Some sd => [sd_item sd] | None => [] end.

(** Queued, being sent, sent. *)
Definition messages (s : QueueHost) : list QueuedMessage :=
  read_queue (qh_queue s) ++ sending_message s ++ qh_sent s.

Definition body (m : QueuedMessage) : string * string * list string :=
  (qm_id m, qm_text m, qm_attachments m).

Definition bodies (s : QueueHost) := body <$> messages s.
Definition ids (s : QueueHost) : list string := qm_id <$> messages s.

Record host_wf (s : QueueHost) : Prop := {
  hw_rep : rep (qh_queue s) (read_queue (qh_queue s));
  hw_sending m : m ∈ sending_message s → queued_wf m;
  hw_once : NoDup (ids s)
}.

Lemma ids_bodies s : ids s = (λ b, b.1.1) <$> bodies s.
Proof. unfold ids, bodies. by rewrite <- list_fmap_compose. Qed.

(** Message [id] is there, behind a gate. *)
Definition gated (id : string) (items : list QueuedMessage) : Prop :=
  ∃ m, m ∈ items ∧ qm_id m = id ∧ qm_delivery_gate m ≠ None.

(** The step keeps every message and what was typed, opens no gate and un-sends
    nothing. *)
Definition conserves (s s' : QueueHost) : Prop :=
  host_wf s' ∧ bodies s' ≡ₚ bodies s ∧ qh_sent s `prefix_of` qh_sent s' ∧
  (∀ id, gated id (read_queue (qh_queue s)) → gated id (read_queue (qh_queue s'))).

Lemma gated_subset id l1 l2 : (∀ m, m ∈ l1 → qm_delivery_gate m ≠ None → m ∈ l2) → gated id l1 → gated id l2.
Proof. intros H (m & Hm & Hid & Hg). exists m. auto. Qed.

Lemma gated_update id i f items :
  (∀ m, qm_id (f m) = qm_id m) → (∀ m, qm_delivery_gate m ≠ None → qm_delivery_gate (f m) ≠ None) →
  gated id items → gated id (spec_update i f items).1.
Proof.
  intros Hf Hg (m & Hm & Hid & Hgm). unfold spec_update.
  destruct (position_of i items) as [j|]; [|by exists m]. cbn [fst].
  apply list_elem_of_lookup in Hm as (k & Hk). destruct (decide (k = j)) as [->|Hne].
  - exists (f m). split_and!; [|by rewrite Hf|by apply Hg].
    apply list_elem_of_lookup. exists j. by rewrite list_lookup_alter_eq, Hk.
  - exists m. split_and!; try done. apply list_elem_of_lookup. exists k. by rewrite list_lookup_alter_ne.
Qed.

Lemma conserves_refl s : host_wf s → conserves s s.
Proof. intros H. split; [done|]. split; [done|]. by split. Qed.

Lemma conserves_intro s s' items :
  host_wf s → rep (qh_queue s') items → (∀ m, m ∈ sending_message s' → queued_wf m) →
  body <$> items ++ sending_message s' ++ qh_sent s' ≡ₚ bodies s →
  qh_sent s `prefix_of` qh_sent s' →
  (∀ id, gated id (read_queue (qh_queue s)) → gated id items) → conserves s s'.
Proof.
  intros Hw Hr Hs Hp Hpre Hg. pose proof (rep_read _ _ Hr) as Hi.
  assert (bodies s' ≡ₚ bodies s) as Hb by (unfold bodies, messages; by rewrite Hi).
  split_and!; [split|done|done|by rewrite Hi].
  - by rewrite Hi.
  - done.
  - rewrite ids_bodies, Hb, <- ids_bodies. apply Hw.
Qed.

Lemma conserves_queue s q items :
  host_wf s → rep q items → body <$> items ≡ₚ body <$> read_queue (qh_queue s) →
  (∀ id, gated id (read_queue (qh_queue s)) → gated id items) →
  conserves s (with_queue q s).
Proof.
  intros Hw Hr Hp Hg. apply (conserves_intro _ _ items); [done|done|apply Hw| |done|done].
  unfold bodies, messages. rewrite !fmap_app. by rewrite Hp.
Qed.

Lemma spec_update_bodies id f items :
  (∀ m, body (f m) = body m) → body <$> (spec_update id f items).1 = body <$> items.
Proof.
  intros H. unfold spec_update. destruct (position_of id items); [|done]. by apply fmap_alter_same.
Qed.

Lemma set_gate_conserves id g s : host_wf s → gate_ok g → conserves s (set_gate id g s).1.
Proof.
  intros Hw Hg. unfold set_gate.
  pose proof (gate_refines _ _ id (Some g) (hw_rep _ Hw)) as [Hr _]; [by intros ? [= <-]|].
  destruct (set_queued_delivery_gate _ _ _) as [q b]. cbn in Hr |- *.
  eapply conserves_queue; [done|exact Hr|by rewrite spec_update_bodies|].
  intros i. by apply gated_update.
Qed.

Lemma spec_take_perm id items rest m :
  spec_take id items = (rest, Some m) →
  items ≡ₚ m :: rest ∧ qm_id m = id ∧ qm_delivery_gate m = None.
Proof.
  unfold spec_take. destruct (position_of id items) as [i|] eqn:Ei; [|done].
  destruct (find_message id items) as [m'|] eqn:Em; [|done]. case_bool_decide; [|done].
  intros [= <- <-]. pose proof (find_message_Some _ _ _ Em) as [_ ?].
  unfold find_message in Em. rewrite Ei in Em. split_and!; [|done|done].
  by apply delete_Permutation.
Qed.

Lemma spec_take_None id items rest : spec_take id items = (rest, None) → rest = items.
Proof.
  unfold spec_take. destruct (position_of id items); [|by intros [= <-]].
  destruct (find_message id items); [|by intros [= <-]]. case_bool_decide; by intros [= <-].
Qed.

(** [take_queued] on a queue in order. *)
Lemma take_effect id s :
  host_wf s →
  match take_queued id (qh_queue s) with
  | (q, Some m) => ∃ rest, rep q rest ∧ read_queue (qh_queue s) ≡ₚ m :: rest ∧ queued_wf m ∧
                     qm_delivery_gate m = None ∧ qm_id m = id
  | (q, None) => rep q (read_queue (qh_queue s))
  end.
Proof.
  intros Hw. pose proof (take_refines _ _ id (hw_rep _ Hw)) as [Hr He].
  destruct (take_queued id (qh_queue s)) as [q o]. cbn in Hr, He.
  destruct (spec_take id (read_queue (qh_queue s))) as [rest o'] eqn:E. cbn in Hr, He. subst o'.
  destruct o as [m|]; [|apply spec_take_None in E; by subst rest].
  exists rest. apply spec_take_perm in E as (Hp & Hid & Hg). split_and!; try done.
  pose proof (hw_rep _ Hw) as Hq.
  assert (m ∈ read_queue (qh_queue s)) as Hin by (rewrite Hp; left).
  apply list_elem_of_lookup in Hin as (i & Hi).
  destruct (Forall2_lookup_r _ _ _ _ _ Hq Hi) as (r & _ & (mm & _ & _ & _ & ?)). done.
Qed.

Lemma start_sending_conserves id q m send s :
  host_wf s → qh_sending s = None → take_queued id (qh_queue s) = (q, Some m) →
  conserves s (start_sending q m send s).
Proof.
  intros Hw Hn Ht. pose proof (take_effect id s Hw) as He. rewrite Ht in He.
  destruct He as (rest & Hr & Hp & Hwf & Hg & _).
  apply (conserves_intro _ _ rest); [done|by destruct send| | |by destruct send|].
  - intros m'. destruct send; cbn; intros ->%list_elem_of_singleton; done.
  - unfold bodies, messages, sending_message. rewrite Hn, Hp.
    destruct send; cbn [start_sending qh_sending qh_sent sd_item]; rewrite !fmap_app; cbn;
      by rewrite <- Permutation_middle.
  - intros i. apply gated_subset. intros m' Hin Hg'. rewrite Hp in Hin.
    apply elem_of_cons in Hin as [->|?]; done.
Qed.

Lemma take_none_conserves id q s :
  host_wf s → take_queued id (qh_queue s) = (q, None) → conserves s (with_queue q s).
Proof.
  intros Hw Ht. pose proof (take_effect id s Hw) as He. rewrite Ht in He.
  by apply (conserves_queue _ _ (read_queue (qh_queue s))).
Qed.

Lemma answer_conserves accepted s : host_wf s → conserves s (dispatch_answer accepted s).
Proof.
  intros Hw. unfold dispatch_answer.
  destruct (qh_sending s) as [[item send paused]|] eqn:Es; [|by apply conserves_refl].
  assert (queued_wf item) as Hi by (apply (hw_sending _ Hw); unfold sending_message; rewrite Es; by left).
  destruct accepted.
  - apply (conserves_intro _ _ (read_queue (qh_queue s))); [done|apply Hw| | |by eexists|done].
    + intros m Hm. by apply not_elem_of_nil in Hm.
    + unfold bodies, messages, sending_message. rewrite Es. cbn. rewrite !fmap_app. cbn.
      by rewrite <- Permutation_cons_append.
  - unfold insert_queued. rewrite (queued_ok_wf _ Hi). cbn [result_bind Nat.min].
    apply (conserves_intro _ _ (insert_at 0 item (read_queue (qh_queue s)))); [done| | | |done|].
    + apply rep_insert; [apply Hw|done].
    + intros m Hm. by apply not_elem_of_nil in Hm.
    + unfold bodies, messages, sending_message. rewrite Es. cbn. rewrite !fmap_app. cbn.
      by rewrite <- Permutation_middle.
    + intros i. apply gated_subset. intros m Hm _. rewrite insert_at_perm. by right.
Qed.

Lemma move_perm id to items : (spec_move id to items).1 ≡ₚ items.
Proof.
  unfold spec_move. destruct (position_of id items) as [i|]; [|done]. case_bool_decide; [done|].
  destruct (items !! i) as [m|] eqn:E; [|done]. cbn. rewrite insert_at_perm.
  symmetry. by apply delete_Permutation.
Qed.

Lemma move_conserves id to s : host_wf s → conserves s (with_queue (move_queued id to (qh_queue s)).1 s).
Proof.
  intros Hw. pose proof (move_refines _ _ id to (hw_rep _ Hw)) as [Hr _].
  eapply conserves_queue; [done|exact Hr|by rewrite move_perm|].
  intros i. apply gated_subset. intros m Hm _. by rewrite move_perm.
Qed.

Lemma find_row_gate id s m g :
  host_wf s → find_row id s = Some m → qm_delivery_gate m = Some g → gate_ok g.
Proof.
  intros Hw Hf Hg. unfold find_row in Hf. apply find_some in Hf as [Hin _].
  apply list_elem_of_In, list_elem_of_lookup in Hin as (i & Hi).
  destruct (Forall2_lookup_r _ _ _ _ _ (hw_rep _ Hw) Hi) as (r & _ & (mm & _ & _ & _ & Hwf)).
  by apply (qw_gate _ Hwf).
Qed.

Lemma steer_conserves id defers s :
  host_wf s → qh_sending s = None → conserves s (steer_queued_now id defers s).
Proof.
  intros Hw Hn. unfold steer_queued_now.
  destruct (find_row id s) as [c|]; [|by apply conserves_refl].
  destruct (_ || _); [by apply conserves_refl|].
  destruct (take_queued id (qh_queue s)) as [q [m|]] eqn:Et; [|by eapply take_none_conserves].
  destruct defers; [|by eapply start_sending_conserves].
  pose proof (take_effect id s Hw) as He. rewrite Et in He. destruct He as (rest & Hr & Hp & Hwf & Hg & _).
  destruct (steer_slot (qm_id m) q (qh_steered s)) as [slot steered].
  unfold insert_queued. rewrite (queued_ok_wf _ Hwf). cbn [result_bind].
  apply (conserves_intro _ _ (insert_at (slot `min` length q) m rest)); [done| |apply Hw| |done|].
  - by apply rep_insert.
  - unfold bodies, messages, sending_message. cbn [qh_sending qh_sent].
    by rewrite insert_at_perm, Hp.
  - intros i. apply gated_subset. intros m' Hm' _. by rewrite insert_at_perm, <- Hp.
Qed.

Section Steps.
Variable text_hash : string → string.

Lemma acquire_conserves id owner instance now lease item s :
  host_wf s → is_i64 now → conserves s (acquire text_hash id owner instance now lease item s).1.
Proof.
  intros Hw Hn. unfold acquire.
  pose proof (set_gate_conserves id (Editing lease owner instance now
    (wrap_i64 (now + QUEUE_EDIT_LEASE_MS)) (text_hash (qm_text item))) s Hw) as H.
  destruct (set_gate _ _ s) as [s' b]. destruct b; apply H; split; try done; apply wrap_i64_range.
Qed.

Lemma begin_conserves id owner instance now lease s :
  host_wf s → is_i64 now →
  conserves s (begin_queued_message_edit text_hash id owner instance now lease s).1.
Proof.
  intros Hw Hn. unfold begin_queued_message_edit.
  repeat case_match; solve [by apply conserves_refl | by apply acquire_conserves].
Qed.

Lemma renew_conserves id lease now s :
  host_wf s → is_i64 now → conserves s (renew_queued_message_edit id lease now s).1.
Proof.
  intros Hw Hn. unfold renew_queued_message_edit.
  destruct (find_row id s) as [m|] eqn:Hf; [|by apply conserves_refl].
  destruct (qm_delivery_gate m) as [[cur owner inst acq exp hash|]|] eqn:Hg; try by apply conserves_refl.
  pose proof (find_row_gate _ _ _ _ Hw Hf Hg) as [Ha _].
  destruct (negb _); [by apply conserves_refl|].
  destruct (exp <=? now); [by apply set_gate_conserves|].
  pose proof (set_gate_conserves id (Editing cur owner inst acq
    (wrap_i64 (now + QUEUE_EDIT_LEASE_MS)) hash) s Hw) as H.
  destruct (set_gate _ _ s) as [s' b]. destruct b; apply H; split; try done; apply wrap_i64_range.
Qed.

Lemma expire_conserves id lease scheduled now s :
  host_wf s → is_i64 now → conserves s (expire_queued_message_edit id lease scheduled now s).
Proof.
  intros Hw Hn. unfold expire_queued_message_edit.
  destruct (find_row id s ≫= qm_delivery_gate) as [[]|]; try by apply conserves_refl.
  destruct (_ || _); [by apply conserves_refl|by apply set_gate_conserves].
Qed.

Lemma drain_conserves now in_flight missing s :
  host_wf s → qh_sending s = None → is_i64 now →
  conserves s (drain_queue now in_flight missing s).
Proof.
  intros Hw Hs Hn. unfold drain_queue. destruct (qh_paused s); [by apply conserves_refl|].
  destruct (read_queue (qh_queue s)) as [|h l]; [by apply conserves_refl|].
  destruct (qm_delivery_gate h) as [[]|]; [|by apply conserves_refl|].
  - destruct (_ <=? _); [by apply set_gate_conserves|by apply conserves_refl].
  - destruct (_ || _); [by apply conserves_refl|].
    destruct (take_queued (qm_id h) (qh_queue s)) as [q [m|]] eqn:Et;
      [by eapply start_sending_conserves|by eapply take_none_conserves].
Qed.

Lemma send_now_conserves id s :
  host_wf s → qh_sending s = None → conserves s (send_queued_now id s).
Proof.
  intros Hw Hs. unfold send_queued_now. destruct (find_row id s) as [c|]; [|by apply conserves_refl].
  case_bool_decide; [by apply conserves_refl|].
  destruct (take_queued id (qh_queue s)) as [q [m|]] eqn:Et;
    [by eapply start_sending_conserves|by eapply take_none_conserves].
Qed.

(** ** Edits of one message *)

(** Only message [id] of the queue may change or go. *)
Definition edits_only (id : string) (s s' : QueueHost) : Prop :=
  host_wf s' ∧ qh_sent s' = qh_sent s ∧ qh_sending s' = qh_sending s ∧
  filter (λ m, qm_id m ≠ id) (read_queue (qh_queue s')) = filter (λ m, qm_id m ≠ id) (read_queue (qh_queue s)) ∧
  (ids s' ≡ₚ ids s ∨ ids s ≡ₚ id :: ids s').

Lemma edits_refl id s : host_wf s → edits_only id s s.
Proof. intros H. split_and!; auto. Qed.

Lemma filter_alter_other id f items :
  (∀ m, qm_id (f m) = qm_id m) →
  filter (λ m, qm_id m ≠ id) (spec_update id f items).1 = filter (λ m, qm_id m ≠ id) items.
Proof.
  intros Hf. unfold spec_update. destruct (position_of id items) as [i|] eqn:E; [|done]. cbn [fst].
  revert i E. induction items as [|m items IH]; intros i; cbn [position_of]; [done|].
  case_bool_decide as Hm.
  - intros [= <-]. change (alter f 0%nat (m :: items)) with (f m :: items). rewrite !filter_cons_False; [done|tauto|rewrite Hf; tauto].
  - destruct (position_of id items) as [j|]; cbn [fmap option_fmap option_map]; [|done]. intros [= <-]. change (alter f (S j) (m :: items)) with (m :: alter f j items).
    rewrite !filter_cons_True by done. f_equal. by apply IH.
Qed.

Lemma filter_remove_other id items :
  filter (λ m, qm_id m ≠ id) (spec_remove id items).1 = filter (λ m, qm_id m ≠ id) items.
Proof.
  unfold spec_remove. destruct (position_of id items) as [i|] eqn:E; [|done]. cbn [fst].
  revert i E. induction items as [|m items IH]; intros i; cbn [position_of]; [done|].
  case_bool_decide as Hm.
  - intros [= <-]. change (delete 0%nat (m :: items)) with items. rewrite filter_cons_False; [done|tauto].
  - destruct (position_of id items) as [j|]; cbn [fmap option_fmap option_map]; [|done]. intros [= <-]. change (delete (S j) (m :: items)) with (m :: delete j items).
    rewrite !filter_cons_True by done. f_equal. by apply IH.
Qed.

Lemma spec_remove_ids id items :
  qm_id <$> (spec_remove id items).1 = qm_id <$> items ∨
  qm_id <$> items ≡ₚ id :: (qm_id <$> (spec_remove id items).1).
Proof.
  unfold spec_remove. destruct (position_of id items) as [i|] eqn:E; [|by left]. right. cbn.
  apply position_of_Some in E as (m & Hm & <-).
  change (qm_id m :: (qm_id <$> delete i items)) with (qm_id <$> m :: delete i items).
  apply fmap_Permutation. by apply delete_Permutation.
Qed.

Lemma edits_intro id s q items :
  host_wf s → rep q items →
  filter (λ m, qm_id m ≠ id) items = filter (λ m, qm_id m ≠ id) (read_queue (qh_queue s)) →
  (qm_id <$> items = qm_id <$> read_queue (qh_queue s) ∨
   qm_id <$> read_queue (qh_queue s) ≡ₚ id :: (qm_id <$> items)) →
  edits_only id s (with_queue q s).
Proof.
  intros Hw Hr Hf Hi. pose proof (rep_read _ _ Hr) as Hrd.
  assert (ids (with_queue q s) ≡ₚ ids s ∨ ids s ≡ₚ id :: ids (with_queue q s)) as Hids.
  { unfold ids, messages. cbn [qh_queue with_queue]. rewrite Hrd, !fmap_app.
    destruct Hi as [Hi|Hi]; rewrite Hi; [left|right]; done. }
  split_and!; try done; [|cbn [qh_queue with_queue]; by rewrite Hrd].
  split; [cbn [qh_queue with_queue]; by rewrite Hrd|apply Hw|].
  destruct Hids as [->|Hids]; [apply Hw|]. pose proof (hw_once _ Hw) as Ho. rewrite Hids in Ho.
  by apply NoDup_cons in Ho as [_ ?].
Qed.

Lemma remove_edits id s : host_wf s → edits_only id s (with_queue (remove_queued id (qh_queue s)).1 s).
Proof.
  intros Hw. pose proof (remove_refines _ _ id (hw_rep _ Hw)) as [Hr _].
  eapply edits_intro; [done|exact Hr|apply filter_remove_other|apply spec_remove_ids].
Qed.

Lemma with_text_id text now m : qm_id (with_text text now m) = qm_id m.
Proof. unfold with_text. by case_bool_decide. Qed.

Lemma update_edits id f s q :
  host_wf s → (∀ m, qm_id (f m) = qm_id m) →
  rep q (spec_update id f (read_queue (qh_queue s))).1 → edits_only id s (with_queue q s).
Proof.
  intros Hw Hf Hr. eapply edits_intro; [done|exact Hr|by apply filter_alter_other|left].
  unfold spec_update. destruct (position_of _ _); [|done]. by apply fmap_alter_same.
Qed.

Lemma set_text_edits id text now s :
  host_wf s → is_i64 now → edits_only id s (with_queue (set_queued_text id text now (qh_queue s)).1 s).
Proof.
  intros Hw Hn. pose proof (set_text_refines _ _ id text now (hw_rep _ Hw) Hn) as [Hr _].
  revert Hr. unfold set_queued_text, spec_set_text. case_bool_decide; intros Hr; [by apply remove_edits|].
  destruct (find_message id _); [case_bool_decide|].
  - eapply edits_intro; [done|exact Hr|done|by left].
  - eapply update_edits; [done| |exact Hr]. apply with_text_id.
  - eapply edits_intro; [done|exact Hr|done|by left].
Qed.

Lemma finish_edit_id text atts now m : qm_id (finish_edit text atts now m) = qm_id m.
Proof. unfold finish_edit. destruct text, atts; cbn; by rewrite ?with_text_id. Qed.

Lemma finish_edits id lease action text expected atts now s :
  host_wf s → is_i64 now →
  edits_only id s (finish_queued_message_edit text_hash id lease action text expected atts now s).1.
Proof.
  intros Hw Hn. unfold finish_queued_message_edit. destruct (_ && _); [by apply edits_refl|].
  destruct (find_row id s) as [item|]; [|by apply edits_refl].
  destruct (resolvable _) as [[cur hash]|]; [|by apply edits_refl].
  destruct (negb _); [by apply edits_refl|]. destruct (_ && _); [by apply edits_refl|].
  set (t := match action with Commit => _ | _ => _ end).
  set (a := if bool_decide (action = Commit) then atts else None).
  pose proof (finish_refines _ _ id t a now (hw_rep _ Hw) Hn) as [Hr _].
  destruct (finish_queued_edit_with_attachments id t a now (qh_queue s)) as [q b]. cbn [fst] in Hr.
  assert (edits_only id s (with_queue q s)) as He.
  { unfold spec_finish in Hr. destruct (match t with Some _ => _ | None => _ end).
    - eapply edits_intro; [done|exact Hr|apply filter_remove_other|apply spec_remove_ids].
    - eapply update_edits; [done| |exact Hr]. apply finish_edit_id. }
  destruct b; [exact He|by apply edits_refl].
Qed.
End Steps.

Section Runs.
Variable text_hash : string → string.

(** Times in range; a new message gets a new id. *)
Definition act_ok (a : QueueAction) (s : QueueHost) : Prop :=
  match a with
  | QPush item => queued_wf item ∧ qm_id item ∉ ids s
  | QSetText _ _ now | QBegin _ _ _ now _ | QRenew _ _ now | QFinish _ _ _ _ _ _ now
  | QExpire _ _ _ now | QDrain now _ _ => is_i64 now
  | _ => True
  end.

Definition edited (a : QueueAction) : option string :=
  match a with
  | QSetText id _ _ | QRemove id | QFinish id _ _ _ _ _ _ => Some id
  | _ => None
  end.

Definition step_effect (a : QueueAction) (s s' : QueueHost) : Prop :=
  match a, edited a with
  | QPush item, _ =>
      host_wf s' ∧ bodies s' ≡ₚ body item :: bodies s ∧ qh_sent s' = qh_sent s ∧
      read_queue (qh_queue s') = read_queue (qh_queue s) ++ [item]
  | _, Some id => edits_only id s s'
  | _, None => conserves s s'
  end.

Lemma push_effect item s :
  host_wf s → queued_wf item → qm_id item ∉ ids s →
  step_effect (QPush item) s (queue_step text_hash (QPush item) s).
Proof.
  intros Hw Hi Hf. cbn [queue_step step_effect]. unfold push_queued. rewrite (queued_ok_wf _ Hi).
  cbn [result_bind].
  assert (rep (qh_queue s ++ [RowMap (write_queued_map item)]) (read_queue (qh_queue s) ++ [item])) as Hr.
  { apply Forall2_app; [apply Hw|]. constructor; [by apply write_queued_map_rep|constructor]. }
  pose proof (rep_read _ _ Hr) as Hrd.
  assert (bodies (with_queue (qh_queue s ++ [RowMap (write_queued_map item)]) s) ≡ₚ body item :: bodies s) as Hb.
  { unfold bodies, messages. cbn [qh_queue with_queue]. rewrite Hrd, <- app_assoc, !fmap_app.
    cbn. by rewrite <- Permutation_middle. }
  split_and!; [split|done|done|done].
  - cbn [qh_queue with_queue]. by rewrite Hrd.
  - apply Hw.
  - rewrite ids_bodies, Hb, fmap_cons, <- ids_bodies. constructor; [done|apply Hw].
Qed.

Lemma locked_conserves s s' : host_wf s → (qh_sending s = None → conserves s s') → conserves s (locked s s').
Proof. intros Hw H. unfold locked. destruct (qh_sending s); [by apply conserves_refl|by apply H]. Qed.

Lemma locked_edits id s s' : host_wf s → edits_only id s s' → edits_only id s (locked s s').
Proof. intros Hw H. unfold locked. destruct (qh_sending s); [by apply edits_refl|done]. Qed.

Lemma step_effects a s :
  host_wf s → act_ok a s → step_effect a s (queue_step text_hash a s).
Proof.
  intros Hw Ha. destruct a; cbn [act_ok] in Ha.
  - destruct Ha. by apply push_effect.
  - by apply set_text_edits.
  - by apply move_conserves.
  - apply locked_edits; [done|]. by apply remove_edits.
  - apply locked_conserves; [done|]. intros _. by apply begin_conserves.
  - apply locked_conserves; [done|]. intros _. by apply renew_conserves.
  - apply locked_edits; [done|]. by apply finish_edits.
  - apply locked_conserves; [done|]. intros _. by apply expire_conserves.
  - apply locked_conserves; [done|]. by apply send_now_conserves.
  - apply locked_conserves; [done|]. by apply steer_conserves.
  - apply locked_conserves; [done|]. intros. by apply drain_conserves.
  - by apply answer_conserves.
Qed.

Fixpoint acts_ok (acts : list QueueAction) (s : QueueHost) : Prop :=
  match acts with
  | [] => True
  | a :: acts => act_ok a s ∧ acts_ok acts (queue_step text_hash a s)
  end.

Definition queue_run (acts : list QueueAction) (s : QueueHost) : QueueHost :=
  fold_left (λ s a, queue_step text_hash a s) acts s.

Lemma step_wf a s : host_wf s → act_ok a s → host_wf (queue_step text_hash a s).
Proof. intros Hw Ha. pose proof (step_effects a s Hw Ha) as H. destruct a; apply H. Qed.

(** C10: no operation of the host or of another device loses, duplicates or
    rewrites a message it is not about: a new message is added at the back, an
    edit, a removal or a finished edit touches the message of that id alone, and
    every other operation, a refused send included, keeps what every queued, in
    flight or sent message says; sent messages stay sent, and no id is ever in
    two places. *)
Theorem queue_step_exact a s :
  host_wf s → act_ok a s →
  step_effect a s (queue_step text_hash a s) ∧ NoDup (ids (queue_step text_hash a s)) ∧
  qh_sent s `prefix_of` qh_sent (queue_step text_hash a s).
Proof.
  intros Hw Ha. pose proof (step_effects a s Hw Ha) as H. split; [done|].
  split; [apply (step_wf a s Hw Ha)|].
  destruct a; cbn [step_effect edited] in H; try apply H.
  - destruct H as (_ & _ & -> & _). done.
  - destruct H as (_ & -> & _). done.
  - destruct H as (_ & -> & _). done.
  - destruct H as (_ & -> & _). done.
Qed.

(** ** Leases *)

(** The action resolves or removes the row. *)
Definition releases (id : string) (a : QueueAction) : bool :=
  match a with
  | QSetText i text _ => bool_decide (i = id) && bool_decide (trim text = "")
  | QRemove i | QFinish i _ _ _ _ _ _ => bool_decide (i = id)
  | _ => false
  end.

Lemma gated_other i id l1 l2 :
  i ≠ id → filter (λ m, qm_id m ≠ i) l2 = filter (λ m, qm_id m ≠ i) l1 → gated id l1 → gated id l2.
Proof.
  intros Hne Hf (m & Hm & Hid & Hg).
  assert (m ∈ filter (λ m, qm_id m ≠ i) l2) as Hin.
  { rewrite Hf. apply list_elem_of_filter. split; [congruence|done]. }
  apply list_elem_of_filter in Hin as [_ Hin]. by exists m.
Qed.

Lemma set_text_gated id i text now q items :
  rep q items → is_i64 now → trim text ≠ "" → gated id items →
  gated id (read_queue (set_queued_text i text now q).1).
Proof.
  intros Hr Hn Ht Hg. pose proof (set_text_refines _ _ i text now Hr Hn) as [Hr' _].
  rewrite (rep_read _ _ Hr'). unfold spec_set_text. rewrite bool_decide_eq_false_2 by done.
  destruct (find_message i items); [case_bool_decide|]; [done| |done].
  apply gated_update; [apply with_text_id| |done]. intros m'. unfold with_text. by case_bool_decide.
Qed.

Lemma gated_step id a s :
  host_wf s → act_ok a s → releases id a = false →
  gated id (read_queue (qh_queue s)) → gated id (read_queue (qh_queue (queue_step text_hash a s))).
Proof.
  intros Hw Ha Hr Hg. pose proof (step_effects a s Hw Ha) as H.
  destruct a as [item|i text now|i to|i|i ow inst now l|i l now|i l ac t e at_ now|i l sc now|i|i d|now f ms|b];
    cbn [step_effect edited releases] in H, Hr; try (by apply H).
  - destruct H as (_ & _ & _ & ->). destruct Hg as (m & Hm & ?). exists m. rewrite elem_of_app. auto.
  - apply andb_false_iff in Hr. rewrite !bool_decide_eq_false in Hr. destruct Hr as [Hne|Ht].
    + destruct H as (_ & _ & _ & Hf & _). by eapply gated_other.
    + by apply (set_text_gated _ _ _ _ _ _ (hw_rep _ Hw)).
  - apply bool_decide_eq_false in Hr. destruct H as (_ & _ & _ & Hf & _). by eapply gated_other.
  - apply bool_decide_eq_false in Hr. destruct H as (_ & _ & _ & Hf & _). by eapply gated_other.
Qed.

Lemma gated_run id acts s :
  host_wf s → acts_ok acts s → Forall (λ a, releases id a = false) acts →
  gated id (read_queue (qh_queue s)) →
  host_wf (queue_run acts s) ∧ gated id (read_queue (qh_queue (queue_run acts s))).
Proof.
  intros Hw Ha Hr Hg. revert s Hw Ha Hg.
  induction Hr as [|a acts Hr _ IH]; intros s Hw Ha Hg; [done|]. destruct Ha as [Ha Has].
  apply IH; [by apply step_wf|done|by apply gated_step].
Qed.

(** C6: from the moment an edit lease is granted until the edit is finished or
    the row removed, the message is in the queue, behind a gate, and neither on
    its way to the agent nor sent, whatever drains, sends, steers, expiries,
    stolen or renewed leases, moves and edits happen meanwhile. *)
Theorem lease_protects id acts s :
  host_wf s → acts_ok acts s → Forall (λ a, releases id a = false) acts →
  gated id (read_queue (qh_queue s)) →
  (gated id (read_queue (qh_queue (queue_run acts s)))) ∧
  id ∉ (qm_id <$> sending_message (queue_run acts s)) ∧
  id ∉ (qm_id <$> qh_sent (queue_run acts s)).
Proof.
  intros Hw Ha Hr Hg. destruct (gated_run id acts s Hw Ha Hr Hg) as [Hw' Hg']. split; [done|].
  destruct Hg' as (m & Hm & <- & _). pose proof (hw_once _ Hw') as Hn.
  unfold ids, messages in Hn. rewrite !fmap_app in Hn. apply NoDup_app in Hn as (_ & Hd & _).
  specialize (Hd (qm_id m)). rewrite not_elem_of_app in Hd. apply Hd. by apply list_elem_of_fmap_2.
Qed.

Lemma find_row_position id s :
  host_wf s → find_row id s = find_message id (read_queue (qh_queue s)).
Proof. intros _. unfold find_row. apply find_message_List_find. Qed.

(** C22: finishing an edit takes effect exactly under the lease the row carries,
    and a commit only over the very text the edit started from; a commit with
    blank text and a discard remove the row, every other outcome opens the gate
    or changes nothing. *)
Theorem finish_edit_exact id lease action text expected atts now s item current hash :
  host_wf s → is_i64 now →
  find_row id s = Some item → resolvable (qm_delivery_gate item) = Some (current, hash) →
  let r := finish_queued_message_edit text_hash id lease action text expected atts now s in
  let items := read_queue (qh_queue s) in
  (lease ≠ current → r.1 = s ∧ (r.2 = Lost ∨ r.2 = CommitRequiresText)) ∧
  (lease = current →
     match action with
     | Commit =>
         ∀ t h, text = Some t → expected = Some h →
         if decide (h = hash ∧ text_hash (qm_text item) = hash) then
           r.2 = Committed ∧
           read_queue (qh_queue r.1) =
             (if decide (trim t = "") then (spec_remove id items).1
              else (spec_update id (finish_edit (Some t) atts now) items).1)
         else r = (s, Conflict (qm_text item))
     | Discard => r.2 = Discarded ∧ read_queue (qh_queue r.1) = (spec_remove id items).1
     | Cancel => r.2 = Cancelled ∧ read_queue (qh_queue r.1) = (spec_update id (with_gate None) items).1
     | ReleaseUnchanged =>
         r.2 = Released ∧ read_queue (qh_queue r.1) = (spec_update id (with_gate None) items).1
     end).
Proof.
  intros Hw Hn Hf Hres r items. subst r.
  assert (∃ i, position_of id items = Some i) as (i & Hpos).
  { rewrite find_row_position in Hf by done. unfold find_message in Hf. unfold items.
    destruct (position_of id _); [by eexists|done]. }
  assert (∀ t a, let p := finish_queued_edit_with_attachments id t a now (qh_queue s) in
    p.2 = true ∧ read_queue p.1 = (spec_finish id t a now items).1) as Hfin.
  { intros t a. destruct (finish_refines _ _ id t a now (hw_rep _ Hw) Hn) as [H1 H2].
    cbv zeta. rewrite H2, (rep_read _ _ H1). split; [|done].
    unfold spec_finish, spec_remove, spec_update. fold items. rewrite Hpos. destruct t as [t0|]; [case_bool_decide|]; done. }
  unfold finish_queued_message_edit. rewrite Hf, Hres. split.
  - intros Hne. rewrite (bool_decide_eq_false_2 (current = lease)) by congruence.
    destruct (_ && _); auto.
  - intros ->. rewrite (bool_decide_eq_true_2 (current = current)) by done. cbn [negb].
    destruct action.
    + intros t h -> ->. rewrite (bool_decide_eq_true_2 (Commit = Commit)), !bool_decide_eq_false_2 by done.
      cbn [orb andb]. destruct (decide (h = hash ∧ _)) as [[-> He]|Hc].
      * rewrite !bool_decide_eq_true_2 by done. cbn [negb orb].
        specialize (Hfin (Some (default "" (Some t))) atts). cbv zeta in Hfin.
        destruct (finish_queued_edit_with_attachments _ _ _ _ _) as [q b]. cbn [fst snd] in Hfin |- *.
        destruct Hfin as [-> Hq]. split; [done|]. cbn [fst qh_queue with_queue]. rewrite Hq.
        unfold spec_finish. cbn [default from_option]. case_bool_decide; case_decide; done.
      * destruct (negb _ || negb _) eqn:E; [done|]. exfalso. apply Hc.
        apply orb_false_iff in E as [E1 E2]. apply negb_false_iff, bool_decide_eq_true in E1, E2.
        split; congruence.
    + rewrite (bool_decide_eq_false_2 (Cancel = Commit)) by done. cbn [andb].
      specialize (Hfin None None). cbv zeta in Hfin.
      destruct (finish_queued_edit_with_attachments _ _ _ _ _) as [q b]. cbn [fst snd] in Hfin |- *.
      destruct Hfin as [-> Hq]. split; [done|]. exact Hq.
    + rewrite (bool_decide_eq_false_2 (Discard = Commit)) by done. cbn [andb].
      specialize (Hfin (Some "") None). cbv zeta in Hfin.
      destruct (finish_queued_edit_with_attachments _ _ _ _ _) as [q b]. cbn [fst snd] in Hfin |- *.
      destruct Hfin as [-> Hq]. split; [done|]. exact Hq.
    + rewrite (bool_decide_eq_false_2 (ReleaseUnchanged = Commit)) by done. cbn [andb].
      specialize (Hfin None None). cbv zeta in Hfin.
      destruct (finish_queued_edit_with_attachments _ _ _ _ _) as [q b]. cbn [fst snd] in Hfin |- *.
      destruct Hfin as [-> Hq]. split; [done|]. exact Hq.
Qed.

(** An idle host hands the head of the queue to the agent as the next turn,
    unless the queue is paused, the head is gated or its attachments are on
    their way; a refusal puts it back at the head and pauses the queue. *)
Theorem drain_sends_head now in_flight missing s head rest :
  host_wf s → is_i64 now → qh_sending s = None → read_queue (qh_queue s) = head :: rest →
  let s1 := queue_step text_hash (QDrain now in_flight missing) s in
  (if decide (qh_paused s = false ∧ qm_delivery_gate head = None ∧ in_flight = false ∧ missing head = false)
   then qh_sending s1 = Some (mkSending head NextTurn false) ∧ read_queue (qh_queue s1) = rest ∧
     qh_sent (queue_step text_hash (QAnswer true) s1) = qh_sent s ++ [head] ∧
     read_queue (qh_queue (queue_step text_hash (QAnswer false) s1)) = head :: rest ∧
     qh_paused (queue_step text_hash (QAnswer false) s1) = true
   else qh_sending s1 = None ∧ qm_id <$> read_queue (qh_queue s1) = qm_id <$> head :: rest ∧
     qh_sent s1 = qh_sent s).
Proof.
  intros Hw Hn Hs Hq s1. subst s1. cbn [queue_step]. unfold locked. rewrite Hs.
  unfold drain_queue. rewrite Hq.
  destruct (qh_paused s) eqn:Hp.
  { rewrite decide_False by naive_solver. by rewrite Hq. }
  destruct (qm_delivery_gate head) as [g|] eqn:Hg.
  { rewrite decide_False by naive_solver.
    assert (∀ id g, gate_ok g → qh_sending (set_gate id g s).1 = None ∧
      qm_id <$> read_queue (qh_queue (set_gate id g s).1) = qm_id <$> head :: rest ∧
      qh_sent (set_gate id g s).1 = qh_sent s) as Hset.
    { intros id g' Hg'. unfold set_gate.
      pose proof (gate_refines _ _ id (Some g') (hw_rep _ Hw)) as [Hr _]; [by intros ? [= <-]|].
      destruct (set_queued_delivery_gate _ _ _) as [q b].
      cbn [fst with_queue qh_queue qh_sending qh_sent] in Hr |- *.
      rewrite (rep_read _ _ Hr), Hq. split_and!; [done| |done].
      unfold spec_update. destruct (position_of _ _); [|done]. by apply fmap_alter_same. }
    destruct g; [destruct (_ <=? _); [by apply Hset|]|]; by rewrite Hq. }
  destruct in_flight; [rewrite decide_False by naive_solver; cbn [orb]; by rewrite Hq|].
  destruct (missing head) eqn:Hm; [rewrite decide_False by naive_solver; cbn [orb]; by rewrite Hq|].
  rewrite decide_True by done. cbn [orb].
  pose proof (take_refines _ _ (qm_id head) (hw_rep _ Hw)) as [Hr He]. rewrite Hq in Hr, He.
  assert (spec_take (qm_id head) (head :: rest) = (rest, Some head)) as Hsp.
  { unfold spec_take, find_message. cbn [position_of]. rewrite bool_decide_eq_true_2 by done.
    cbn. by rewrite Hg. }
  rewrite Hsp in Hr, He. destruct (take_queued (qm_id head) (qh_queue s)) as [q o].
  cbn [fst snd] in Hr, He. subst o. pose proof (rep_read _ _ Hr) as Hrd.
  assert (queued_wf head) as Hwf.
  { pose proof (hw_rep _ Hw) as Hall. rewrite Hq in Hall. by inversion Hall as [|? ? ? ? (? & ? & ? & ? & ?)]. }
  unfold start_sending, dispatch_answer. cbn [qh_sending qh_queue qh_sent]. rewrite Hp.
  unfold insert_queued. rewrite (queued_ok_wf _ Hwf). cbn [result_bind Nat.min qh_queue qh_paused].
  split_and!; [done|done|done| |done].
  rewrite (rep_read _ (insert_at 0 head rest)); [done|]. by apply rep_insert.
Qed.
End Runs.

(** Expanding a prompt that is already expanded changes nothing. *)
Lemma strip_suffix_app t s : strip_suffix t (s +:+ t) = Some s.
Proof.
  induction s as [|a s IH].
  - destruct t as [|c t]; cbn [String.append strip_suffix]; by rewrite bool_decide_eq_true_2.
  - cbn [String.append strip_suffix]. rewrite bool_decide_eq_false_2.
    + by rewrite IH.
    + intros Hl. apply (f_equal String.length) in Hl. cbn in Hl. rewrite str_length_app in Hl. lia.
Qed.

Lemma prompt_expansion_idempotent text atts :
  queued_message_prompt (queued_message_prompt text atts) atts = queued_message_prompt text atts.
Proof.
  unfold queued_message_prompt. case_bool_decide as Ha; [done|].
  rewrite strip_suffix_app. cbn [default from_option id].
  set (t := attachment_trailer atts).
  set (b := if bool_decide (trim (default text (strip_suffix t text)) = "") then _ else _).
  assert (trim b ≠ "") as Hb; [|by rewrite (bool_decide_eq_false_2 (trim b = ""))].
  unfold b. case_bool_decide; [|done]. by vm_compute.
Qed.

(** ** A run *)

Definition ex_host : QueueHost := mkQueueHost [] false [] None [].
Definition ex_push : list QueueAction := [QPush (ex_message "a" "one"); QPush (ex_message "b" "two")].
Definition ex_lease : list QueueAction :=
  ex_push ++ [QBegin "a" "dev-b" "ui" 0 "l1"].
(** The lease expires under a drain, a send is refused, another device types. *)
Definition ex_meanwhile : list QueueAction :=
  [QSendNow "a"; QDrain 1 false (λ _, false); QExpire "a" "l1" 60000 60000; QDrain 60001 false (λ _, false);
   QMove "a" 1; QDrain 60002 false (λ _, false); QAnswer true; QSetText "a" "one!" 60003;
   QDrain 60004 false (λ _, false); QSteerNow "a" false].
Definition ex_hash (s : string) : string := s.

Lemma ex_host_wf : host_wf ex_host.
Proof. split; [constructor|intros m Hm; by apply not_elem_of_nil in Hm|constructor]. Qed.

Lemma queue_run_wf hash acts s : host_wf s → acts_ok hash acts s → host_wf (queue_run hash acts s).
Proof.
  revert s. induction acts as [|a acts IH]; intros s Hw Ha; [done|]. destruct Ha.
  apply IH; [by apply step_wf|done].
Qed.

(** [acts_ok] of a concrete run. *)
Ltac acts_ok_tac :=
  cbn [acts_ok act_ok]; split_and?;
  first [ exact I | by apply ex_message_wf
        | by (apply (bool_decide_eq_true_1 _); vm_compute; reflexivity) | by split ].

Lemma ex_lease_wf : host_wf (queue_run ex_hash ex_lease ex_host).
Proof. apply queue_run_wf; [apply ex_host_wf|]. unfold ex_lease, ex_push. cbn [app]. acts_ok_tac. Qed.

Lemma queue_step_exact_witness :
  ∃ s, s = queue_run ex_hash ex_push ex_host ∧ ids s = ["a"; "b"] ∧
  qh_sent s `prefix_of` qh_sent (queue_step ex_hash (QDrain 1 false (λ _, false)) s).
Proof.
  eexists. split; [reflexivity|]. split; [vm_compute; reflexivity|].
  apply (queue_step_exact ex_hash (QDrain 1 false (λ _, false)) (queue_run ex_hash ex_push ex_host)); [|by split].
  apply queue_run_wf; [apply ex_host_wf|]. unfold ex_push. acts_ok_tac.
Defined.

Lemma lease_protects_witness :
  let s := queue_run ex_hash ex_meanwhile (queue_run ex_hash ex_lease ex_host) in
  gated "a" (read_queue (qh_queue s)) ∧ qm_id <$> qh_sent s = ["b"] ∧
  qm_text <$> read_queue (qh_queue s) = ["one!"].
Proof.
  split; [|split; vm_compute; reflexivity].
  apply (lease_protects ex_hash "a" ex_meanwhile (queue_run ex_hash ex_lease ex_host)).
  - apply ex_lease_wf.
  - unfold ex_meanwhile. acts_ok_tac.
  - repeat (constructor; [reflexivity|]). constructor.
  - eexists. split; [vm_compute; left|]. split; [reflexivity|]. done.
Defined.

Lemma finish_edit_exact_witness :
  ∃ s', finish_queued_message_edit ex_hash "a" "l1" Commit (Some "ONE") (Some "one") None 7
          (queue_run ex_hash ex_lease ex_host) = (s', Committed) ∧
        qm_text <$> read_queue (qh_queue s') = ["ONE"; "two"].
Proof.
  destruct (finish_edit_exact ex_hash "a" "l1" Commit (Some "ONE") (Some "one") None 7
    (queue_run ex_hash ex_lease ex_host)
    (mkQueued "a" "one" [] false "dev-a" 0 None (Some (Editing "l1" "dev-b" "ui" 0 60000 "one")))
    "l1" "one" ex_lease_wf ltac:(by split) ltac:(vm_compute; reflexivity) ltac:(reflexivity)) as [_ H].
  specialize (H eq_refl "ONE" "one" eq_refl eq_refl). rewrite decide_True in H by done.
  destruct H as [H1 H2].
  exists (finish_queued_message_edit ex_hash "a" "l1" Commit (Some "ONE") (Some "one") None 7
    (queue_run ex_hash ex_lease ex_host)).1.
  split; [apply injective_projections; [reflexivity|exact H1]|].
  rewrite H2. vm_compute. reflexivity.
Defined.

Lemma drain_sends_head_witness :
  ∃ s, s = queue_run ex_hash ex_push ex_host ∧
  qh_sending (queue_step ex_hash (QDrain 1 false (λ _, false)) s)
    = Some (mkSending (ex_message "a" "one") NextTurn false).
Proof.
  eexists. split; [reflexivity|].
  pose proof (drain_sends_head ex_hash 1 false (λ _, false) (queue_run ex_hash ex_push ex_host)
    (ex_message "a" "one") [ex_message "b" "two"]) as H. cbv zeta in H.
  rewrite decide_True in H by (vm_compute; done). apply H.
  - apply queue_run_wf; [apply ex_host_wf|]. unfold ex_push. acts_ok_tac.
  - by split.
  - reflexivity.
  - vm_compute. reflexivity.
Defined.
