(* ===== verification/View.v ===== *)
(** * View: the derivations every viewport shares

    Models crates/proto/src/view.rs: the staleness gate of a chat's status, the
    sort orders of chats, tabs and spaces, the space that stands for a project,
    and the boot gate.  Instants are epoch milliseconds. *)

From S2P Require Import Prelude Text Json Entities.

(** ** Status *)

Inductive Indicator := INone | IWorking | IAwaitingInput | IErrored.

#[export] Instance Indicator_eq_dec : EqDecision Indicator.
Proof. solve_decision. Defined.

Definition SESSION_STALE_MS : Z := 45000.

Definition effective_indicator (session : option Session) (now : Z) : Indicator :=
  match session with
  | None => INone
  | Some s =>
      match se_status s with
      | Idle => INone
      | Errored => IErrored
      | Working | AwaitingInput =>
          if SESSION_STALE_MS <? now - se_updated_at s then INone
          else if bool_decide (se_status s = Working) then IWorking else IAwaitingInput
      end
  end.

Definition display_status (chat : Chat) (session : option Session) (now : Z) : ChatIndicator :=
  let live := match session with
              | Some s => if bool_decide (effective_indicator (Some s) now = INone) then None else Some s
              | None => None
              end in
  chat_indicator chat live.

Definition attention_rank (status : ChatIndicator) : Z :=
  match status with
  | IndAwaitingInput => 0 | IndErrored => 1 | IndWorking => 2 | IndCompleted => 3 | IndIdle => 4
  end.

(** ** Sort orders *)

(** [a.cmp(&b).then_with(...)] as the comparison "not greater". *)
Definition then_with (x y : Z) (rest : bool) : bool := (x <? y) || (x =? y) && rest.

Definition recency (c : Chat) : Z := default (ch_created_at c) (ch_last_message_at c).

Definition active_le (a b : ChatIndicator * Chat) : bool :=
  then_with (recency b.2) (recency a.2) (str_leb (ch_id a.2) (ch_id b.2)).
Definition tab_le (a b : Chat) : bool :=
  then_with (ch_created_at a) (ch_created_at b) (str_leb (ch_id a) (ch_id b)).
Definition space_le (a b : Space) : bool :=
  then_with (sp_created_at a) (sp_created_at b) (str_leb (sp_id a) (sp_id b)).
Definition chat_le (a b : Chat) : bool :=
  then_with (recency b) (recency a)
    (then_with (ch_created_at b) (ch_created_at a) (str_leb (ch_id a) (ch_id b))).

Definition sort_active : list (ChatIndicator * Chat) → list (ChatIndicator * Chat) := sort_by active_le.
Definition sort_tabs : list Chat → list Chat := sort_by tab_le.
Definition sort_spaces : list Space → list Space := sort_by space_le.
Definition sort_chats : list Chat → list Chat := sort_by chat_le.

(** ** Projects *)

Definition project_key (s : Space) : string :=
  match sp_repository_id s with
  | Some r => "repo:" +:+ r
  | None => sp_id s
  end.

(** [min_by_key]: the first of the least elements. *)
Definition min_by {A} (le : A → A → bool) (l : list A) : option A :=
  match l with
  | [] => None
  | x :: l => Some (fold_left (λ best y, if le best y then best else y) l x)
  end.

Definition representative_space (spaces : list Space) (s : Space) : Space :=
  match sp_repository_id s with
  | None => s
  | Some r => default s (min_by space_le (filter (λ o, sp_repository_id o = Some r) spaces))
  end.

(** ** The boot gate *)

Inductive ConnectionStatus := Connecting | ConnReady | ConnFailed (error : string).
Inductive WorkspaceScope := Local | Synced | Development.

Section Gate.
Context {UserProfile : Type}.

Inductive AuthState :=
  | SignedOut
  | NeedsOrganization (user : UserProfile)
  | SignedIn (user : UserProfile) (org_id : option string).

Inductive GatePhase := GLoading | GFailed (error : string) | GSignIn | GOrgGate | GReady.

Definition gate_phase (connection : ConnectionStatus) (scope : option WorkspaceScope)
    (auth : option AuthState) : GatePhase :=
  match connection with
  | Connecting => GLoading
  | ConnFailed err => GFailed err
  | ConnReady =>
      match default Synced scope with
      | Local | Development => GReady
      | Synced =>
          match auth with
          | Some (NeedsOrganization _) => GOrgGate
          | Some (SignedIn _ _) => GReady
          | Some SignedOut | None => GSignIn
          end
      end
  end.
End Gate.

(** ** Properties *)

(** The staleness gate and the status derivation, read as one table. *)
Lemma display_status_table chat session now :
  display_status chat session now =
    let rest := if unseen chat then IndCompleted else IndIdle in
    match session with
    | None => rest
    | Some s =>
        match se_status s with
        | Idle => rest
        | Errored => if unseen chat then IndErrored else IndIdle
        | Working => if SESSION_STALE_MS <? now - se_updated_at s then rest else IndWorking
        | AwaitingInput => if SESSION_STALE_MS <? now - se_updated_at s then rest else IndAwaitingInput
        end
    end.
Proof.
  unfold display_status, effective_indicator, chat_indicator. destruct session as [s|]; [|done].
  destruct (se_status s) eqn:Es.
  - rewrite bool_decide_eq_true_2 by done. done.
  - destruct (_ <? _); [rewrite bool_decide_eq_true_2 by done; done|].
    rewrite bool_decide_eq_false_2 by (by rewrite bool_decide_eq_true_2 by done). cbn. by rewrite Es.
  - destruct (_ <? _); [rewrite bool_decide_eq_true_2 by done; done|].
    rewrite bool_decide_eq_false_2 by (by rewrite bool_decide_eq_false_2 by done). cbn. by rewrite Es.
  - rewrite bool_decide_eq_false_2 by done. cbn. by rewrite Es.
Qed.

Lemma exists_some {A} (x : A) (P : A → Prop) : (∃ y, Some x = Some y ∧ P y) ↔ P x.
Proof. split; [by intros (y & [= <-] & ?)|eauto]. Qed.

Lemma forall_some {A} (x : A) (P : A → Prop) : (∀ y, Some x = Some y → P y) ↔ P x.
Proof. split; [auto|by intros ? y [= <-]]. Qed.

(** A session can show as working or waiting only while its row is at most
    45 seconds old; a stale, idle or absent session shows what the seen marker
    says, and an error shows until the chat is seen. *)
Theorem display_status_exact chat session now :
  let fresh s := now - se_updated_at s ≤ SESSION_STALE_MS in
  (display_status chat session now = IndWorking ↔
     ∃ s, session = Some s ∧ se_status s = Working ∧ fresh s) ∧
  (display_status chat session now = IndAwaitingInput ↔
     ∃ s, session = Some s ∧ se_status s = AwaitingInput ∧ fresh s) ∧
  (display_status chat session now = IndErrored ↔
     unseen chat = true ∧ ∃ s, session = Some s ∧ se_status s = Errored) ∧
  ((∀ s, session = Some s → se_status s = Idle ∨ (se_status s ≠ Errored ∧ ¬ fresh s)) →
     display_status chat session now = if unseen chat then IndCompleted else IndIdle).
Proof.
  intros fresh. rewrite display_status_table. subst fresh. cbv zeta.
  destruct session as [s|]; [|destruct (unseen chat); split_and!; naive_solver].
  destruct (se_status s) eqn:Es;
    try destruct (Z.ltb_spec SESSION_STALE_MS (now - se_updated_at s)); destruct (unseen chat);
    rewrite !exists_some, forall_some, Es; split_and!; intuition (congruence || lia).
Qed.

Lemma then_with_total x y p q : p = true ∨ q = true → then_with x y p = true ∨ then_with y x q = true.
Proof.
  unfold then_with. rewrite !orb_true_iff, !andb_true_iff, !Z.ltb_lt, !Z.eqb_eq.
  intros H. destruct (Z.lt_trichotomy x y) as [?|[?|?]]; intuition lia.
Qed.

Lemma then_with_trans x y z p q r :
  (p = true → q = true → r = true) →
  then_with x y p = true → then_with y z q = true → then_with x z r = true.
Proof.
  unfold then_with. rewrite !orb_true_iff, !andb_true_iff, !Z.ltb_lt, !Z.eqb_eq.
  intros H [?|[-> Hp]] [?|[-> Hq]]; intuition lia.
Qed.

Lemma then_with_antisym x y p q : then_with x y p = true → then_with y x q = true → p = true ∧ q = true.
Proof.
  unfold then_with. rewrite !orb_true_iff, !andb_true_iff, !Z.ltb_lt, !Z.eqb_eq. intuition lia.
Qed.

#[local] Hint Resolve then_with_total str_leb_total : core.

Lemma active_le_total a b : active_le a b = true ∨ active_le b a = true.
Proof. unfold active_le. auto. Qed.
Lemma tab_le_total a b : tab_le a b = true ∨ tab_le b a = true.
Proof. unfold tab_le. auto. Qed.
Lemma space_le_total a b : space_le a b = true ∨ space_le b a = true.
Proof. unfold space_le. auto. Qed.
Lemma chat_le_total a b : chat_le a b = true ∨ chat_le b a = true.
Proof. unfold chat_le. auto. Qed.

Lemma active_le_trans a b c : active_le a b = true → active_le b c = true → active_le a c = true.
Proof. unfold active_le. intros H1 H2. eapply then_with_trans; [|exact H2|exact H1].
  intros. by eapply str_leb_trans. Qed.
Lemma tab_le_trans a b c : tab_le a b = true → tab_le b c = true → tab_le a c = true.
Proof. apply then_with_trans. apply str_leb_trans. Qed.
Lemma space_le_trans a b c : space_le a b = true → space_le b c = true → space_le a c = true.
Proof. apply then_with_trans. apply str_leb_trans. Qed.
Lemma chat_le_trans a b c : chat_le a b = true → chat_le b c = true → chat_le a c = true.
Proof.
  unfold chat_le. intros H1 H2. eapply then_with_trans; [|exact H2|exact H1]. clear H1 H2.
  intros H1 H2. eapply then_with_trans; [|exact H1|exact H2]. intros. by eapply str_leb_trans.
Qed.

(** Elements of a list with distinct keys are determined by them. *)
Lemma NoDup_key_inj {A} (key : A → string) (l : list A) x y :
  NoDup (key <$> l) → x ∈ l → y ∈ l → key x = key y → x = y.
Proof.
  intros Hn Hx Hy He. apply list_elem_of_lookup in Hx as (i & Hi), Hy as (j & Hj).
  assert (i = j) as ->; [|congruence].
  eapply NoDup_lookup; [exact Hn|..]; rewrite list_lookup_fmap.
  - by rewrite Hi.
  - rewrite Hj. cbn. by rewrite He.
Qed.

Lemma sort_canonical {A} (le : A → A → bool) (key : A → string) l1 l2 :
  (∀ x y, le x y = true ∨ le y x = true) → (∀ x y z, le x y = true → le y z = true → le x z = true) →
  (∀ x y, le x y = true → le y x = true → key x = key y) →
  NoDup (key <$> l1) → l1 ≡ₚ l2 → sort_by le l1 = sort_by le l2.
Proof.
  intros Ht Htr Ha Hn Hp. apply sort_by_unique; [done|done| |done].
  intros x y Hx Hy H1 H2. eapply NoDup_key_inj; eauto.
Qed.

Lemma active_le_key x y : active_le x y = true → active_le y x = true → ch_id x.2 = ch_id y.2.
Proof.
  unfold active_le. intros H1 H2. destruct (then_with_antisym _ _ _ _ H1 H2). by apply str_leb_antisym.
Qed.
Lemma tab_le_key x y : tab_le x y = true → tab_le y x = true → ch_id x = ch_id y.
Proof.
  unfold tab_le. intros H1 H2. destruct (then_with_antisym _ _ _ _ H1 H2). by apply str_leb_antisym.
Qed.
Lemma space_le_key x y : space_le x y = true → space_le y x = true → sp_id x = sp_id y.
Proof.
  unfold space_le. intros H1 H2. destruct (then_with_antisym _ _ _ _ H1 H2). by apply str_leb_antisym.
Qed.
Lemma chat_le_key x y : chat_le x y = true → chat_le y x = true → ch_id x = ch_id y.
Proof.
  unfold chat_le. intros H1 H2. destruct (then_with_antisym _ _ _ _ H1 H2) as [H3 H4].
  destruct (then_with_antisym _ _ _ _ H3 H4). by apply str_leb_antisym.
Qed.

Lemma sort_by_fmap {A} (le : A → A → bool) (f : A → A) l :
  (∀ x y, le (f x) (f y) = le x y) → sort_by le (f <$> l) = f <$> sort_by le l.
Proof.
  intros H. assert (∀ x l, insert_by le (f x) (f <$> l) = f <$> insert_by le x l) as Hi.
  { intros x l'. induction l' as [|y l' IH]; [done|]. cbn. rewrite H. destruct (le x y); [done|].
    cbn. f_equal. exact IH. }
  induction l as [|x l IH]; [done|]. cbn. unfold sort_by in IH. by rewrite IH, Hi.
Qed.

(** Every device shows the same rows in the same order: with distinct ids
    each sort depends on the set of rows alone, and the order of the active list
    does not depend on the statuses. *)
Theorem sort_orders_canonical :
  (∀ l1 l2, NoDup ((λ r, ch_id r.2) <$> l1) → l1 ≡ₚ l2 → sort_active l1 = sort_active l2) ∧
  (∀ l1 l2, NoDup (ch_id <$> l1) → l1 ≡ₚ l2 → sort_tabs l1 = sort_tabs l2) ∧
  (∀ l1 l2, NoDup (sp_id <$> l1) → l1 ≡ₚ l2 → sort_spaces l1 = sort_spaces l2) ∧
  (∀ l1 l2, NoDup (ch_id <$> l1) → l1 ≡ₚ l2 → sort_chats l1 = sort_chats l2) ∧
  (∀ l (status : Chat → ChatIndicator),
     let set r := (status r.2, r.2) in
     sort_active (set <$> l) = set <$> sort_active l) ∧
  (∀ l, StronglySorted (λ a b, chat_le a b = true) (sort_chats l) ∧ sort_chats l ≡ₚ l).
Proof.
  split_and!.
  - intros. by apply (sort_canonical _ (λ r, ch_id r.2)); eauto using active_le_total, active_le_trans, active_le_key.
  - intros. by apply (sort_canonical _ ch_id); eauto using tab_le_total, tab_le_trans, tab_le_key.
  - intros. by apply (sort_canonical _ sp_id); eauto using space_le_total, space_le_trans, space_le_key.
  - intros. by apply (sort_canonical _ ch_id); eauto using chat_le_total, chat_le_trans, chat_le_key.
  - intros l status set. by apply sort_by_fmap.
  - intros l. split; [|apply sort_by_perm].
    apply sort_by_sorted; [apply chat_le_total|apply chat_le_trans].
Qed.

(** ** The space that speaks for a project *)

Lemma min_by_spec {A} (le : A → A → bool) (x : A) l :
  (∀ x y, le x y = true ∨ le y x = true) → (∀ x y z, le x y = true → le y z = true → le x z = true) →
  let best := fold_left (λ best y, if le best y then best else y) l x in
  best ∈ x :: l ∧ ∀ y, y ∈ x :: l → le best y = true.
Proof.
  intros Ht Htr. revert x. induction l as [|y l IH]; intros x best.
  - split; [by left|]. intros y ->%list_elem_of_singleton. by destruct (Ht x x).
  - subst best. cbn. specialize (IH (if le x y then x else y)) as [H1 H2]. split.
    + apply elem_of_cons in H1 as [->|H1]; [|by right; right].
      destruct (le x y); [left|right; left].
    + assert (le (if le x y then x else y) x = true ∧ le (if le x y then x else y) y = true) as [Hx Hy].
      { destruct (le x y) eqn:E; [split; [by destruct (Ht x x)|done]|].
        destruct (Ht x y); [congruence|]. split; [done|by destruct (Ht y y)]. }
      intros z Hz. rewrite !elem_of_cons in Hz. destruct Hz as [->|[->|Hz]].
      * eapply Htr; [apply H2; by left|done].
      * eapply Htr; [apply H2; by left|done].
      * apply H2. by right.
Qed.

(** A repository is represented by its oldest space: a member of the project,
    least in creation order with the id as tie-break, and the same one for every
    member and for every order in which a device holds the spaces. *)
Theorem representative_space_exact spaces s r :
  s ∈ spaces → sp_repository_id s = Some r → NoDup (sp_id <$> spaces) →
  let rep := representative_space spaces s in
  rep ∈ spaces ∧ sp_repository_id rep = Some r ∧ project_key rep = project_key s ∧
  (∀ o, o ∈ spaces → sp_repository_id o = Some r → space_le rep o = true) ∧
  (∀ spaces' s', spaces' ≡ₚ spaces → sp_repository_id s' = Some r →
     representative_space spaces' s' = rep).
Proof.
  intros Hs Hr Hn rep.
  assert (∀ spaces' s', spaces' ≡ₚ spaces → sp_repository_id s' = Some r →
    let rep := representative_space spaces' s' in
    rep ∈ spaces ∧ sp_repository_id rep = Some r ∧
    ∀ o, o ∈ spaces → sp_repository_id o = Some r → space_le rep o = true) as Hrep.
  { intros spaces' s' Hp Hr'. unfold representative_space. rewrite Hr'.
    destruct (filter (λ o, sp_repository_id o = Some r) spaces') as [|x l] eqn:E.
    - exfalso. assert (s ∈ filter (λ o, sp_repository_id o = Some r) spaces') as Hin; [|rewrite E in Hin; set_solver].
      apply list_elem_of_filter. by rewrite Hp.
    - cbn [min_by default from_option].
      destruct (min_by_spec space_le x l space_le_total space_le_trans) as [H1 H2].
      cbv zeta in H1, H2. rewrite <- E in H1, H2.
      apply list_elem_of_filter in H1 as [H1 H1']. rewrite Hp in H1'. split_and!; [done|done|].
      intros o Ho Hro. apply H2. apply list_elem_of_filter. by rewrite Hp. }
  destruct (Hrep spaces s) as (H1 & H2 & H3); [done|done|]. fold rep in H1, H2, H3.
  split_and!; [done|done| |done|].
  - unfold project_key. by rewrite H2, Hr.
  - intros spaces' s' Hp Hr'. destruct (Hrep spaces' s' Hp Hr') as (H4 & H5 & H6).
    apply (NoDup_key_inj sp_id spaces); [done..|]. apply space_le_key; auto.
Qed.

Definition ex_space (id : string) (created : Z) : Space :=
  mkSpace id "d" "/p" None true None None (Some "r") created.

Lemma representative_space_exact_witness :
  representative_space [ex_space "b" 2; ex_space "a" 1] (ex_space "b" 2) = ex_space "a" 1 ∧
  representative_space [ex_space "a" 1; ex_space "b" 2] (ex_space "a" 1) = ex_space "a" 1.
Proof.
  split; [reflexivity|].
  apply (representative_space_exact [ex_space "b" 2; ex_space "a" 1] (ex_space "b" 2) "r").
  - left.
  - reflexivity.
  - apply (bool_decide_eq_true_1 _). vm_compute. reflexivity.
  - apply Permutation_swap.
  - reflexivity.
Defined.
