(* ===== verification/Agent.v ===== *)
(** * Agent: the normalized event stream of a harness

    The event and tool-call types of crates/proto/src/agent.rs that the
    transcript fold consumes, with the derivations defined on them. *)

From S2P Require Import Prelude Text Json Entities.

Inductive TodoStatus := TodoPending | TodoInProgress | TodoCompleted.

#[export] Instance TodoStatus_eq_dec : EqDecision TodoStatus.
Proof. solve_decision. Defined.

Definition todo_status_parse (raw : string) : TodoStatus :=
  if existsb (String.eqb raw) ["completed"; "complete"; "done"] then TodoCompleted
  else if existsb (String.eqb raw) ["in_progress"; "inProgress"; "in-progress"; "active"]
  then TodoInProgress
  else TodoPending.

Record TodoItem := mkTodo { td_text : string; td_done : bool; td_status : option TodoStatus }.

#[export] Instance TodoItem_eq_dec : EqDecision TodoItem.
Proof. solve_decision. Defined.

Definition todo_new (text : string) (status : TodoStatus) : TodoItem :=
  mkTodo text (bool_decide (status = TodoCompleted))
    (if bool_decide (status = TodoInProgress) then Some status else None).

Definition todo_status (t : TodoItem) : TodoStatus :=
  if td_done t then TodoCompleted else default TodoPending (td_status t).

(** Building an item from a status and reading it back is the identity. *)
Lemma todo_status_new text status : todo_status (todo_new text status) = status.
Proof. by destruct status. Qed.

Inductive ToolCall :=
  | Exec (command : string)
  | ReadFile (path : string)
  | WriteFile (path : string) (content : option string)
  | EditFile (path : string) (old_string new_string : option string)
  | ApplyPatch (path : option string)
  | Search (pattern : string) (path : option string)
  | Glob (pattern : string)
  | WebFetch (url : string) (prompt : option string)
  | WebSearch (query : string)
  | Todo (items : list TodoItem)
  | Mcp (server tool : string) (input : option Value)
  | Unknown (name : string) (input : option Value).

#[export] Instance ToolCall_eq_dec : EqDecision ToolCall.
Proof. solve_decision. Defined.

Definition is_subagent_spawn (c : ToolCall) : bool :=
  match c with
  | Unknown name _ | Mcp _ name _ => String.eqb name "Agent" || String.prefix "Agent: " name
  | _ => false
  end.

Definition call_input (c : ToolCall) : option Value :=
  match c with Unknown _ input | Mcp _ _ input => input | _ => None end.

(** [Value::get] by key. *)
Definition value_get (v : Value) (k : string) : option Value :=
  match v with Object m => obj_get m k | _ => None end.

Definition SUBAGENT_MODEL_KEYS : list string := ["model"; "modelId"; "model_id"; "subagent_model"].
Definition SUBAGENT_INPUT_KEEP : list string :=
  ["model"; "modelId"; "model_id"; "subagent_model"; "subagent_type"].

Definition subagent_model (c : ToolCall) : option string :=
  if is_subagent_spawn c then
    input ← call_input c;
    model ← head (omap (λ key, value_get input key ≫= as_str) SUBAGENT_MODEL_KEYS);
    if bool_decide (trim model = "") then None else Some (trim model)
  else None.

Record SlashCommand := mkSlash {
  sl_name : string;
  sl_description : string;
  sl_input_hint : option string
}.

Record ToolDiff := mkDiff { df_path : string; df_old_text : option string; df_new_text : string }.

#[export] Instance ToolDiff_eq_dec : EqDecision ToolDiff.
Proof. solve_decision. Defined.

Record UserInputQuestion := mkQuestion {
  uq_id : string;
  uq_header : string;
  uq_question : string;
  uq_options : list string;
  uq_multi_select : bool;
  uq_prefill : option string;
  uq_multiline : bool
}.

#[export] Instance UserInputQuestion_eq_dec : EqDecision UserInputQuestion.
Proof. solve_decision. Defined.

Inductive DoneStatus := DoneCompleted | DoneInterrupted | DoneErrored.

Inductive AgentEvent :=
  | SessionStarted (harness : HarnessId) (model : string) (tools : list string) (cwd : string)
      (session_id assistant_message_id : string)
  | TextDelta (text : string)
  | GeneratedImage (id path name mime_type : string)
  | ReasoningDelta (text : string)
  | AssistantMessageCompleted (assistant_message_id : string)
  | EvToolCall (id : string) (call : ToolCall)
  | EvToolResult (id : string) (is_error : bool) (output : option string) (diff : option ToolDiff)
  | ContextUsage (tokens window : option Z)
  | Usage (input_tokens output_tokens : Z)
  | AvailableCommands (commands : list SlashCommand)
  | EvError (message : string)
  | InputRequested (request_id : string) (questions : list UserInputQuestion)
  | InputResolved (request_id : string)
  | Steered (assistant_message_id next_assistant_message_id : option string)
  | Done (status : DoneStatus) (result error session_id : option string)
  | UserMessage (text : string)
  | Subagent (parent_tool_use_id : string) (event : AgentEvent).
