(* ===== verification/Parts.v ===== *)
(** * Parts: the rendered parts of a message

    Models crates/doc/src/parts.rs: the fold of agent events into parts, the
    render-only privacy policy, sidecar references and continuation splitting.
    The line diff of the [similar] crate and the lengths of serialized JSON are
    parameters. *)

From S2P Require Import Prelude Text Json Entities Agent.

Definition MSG_INLINE_MAX : Z := 256 * 1024.

Record ToolDiffStat := mkStat { ts_path : string; ts_additions : Z; ts_deletions : Z }.

#[export] Instance ToolDiffStat_eq_dec : EqDecision ToolDiffStat.
Proof. solve_decision. Defined.

Inductive MessageStatus := Streaming | Complete | Aborted.
Inductive SubagentStatus := SubRunning | SubDone | SubFailed.

#[export] Instance MessageStatus_eq_dec : EqDecision MessageStatus.
Proof. solve_decision. Defined.
#[export] Instance SubagentStatus_eq_dec : EqDecision SubagentStatus.
Proof. solve_decision. Defined.

(** The fields of [MessagePart::Tool]. *)
Record ToolPart := mkTool {
  tp_id : string;
  tp_call : ToolCall;
  tp_is_error : bool;
  tp_resolved : bool;
  tp_output : option string;
  tp_diff : option ToolDiff;
  tp_output_ref : option string;
  tp_output_bytes : option Z;
  tp_diff_ref : option string;
  tp_diff_stats : option (list ToolDiffStat);
  tp_subagent_ref : option string;
  tp_subagent_status : option SubagentStatus;
  tp_subagent_tail : option string
}.

#[export] Instance ToolPart_eq_dec : EqDecision ToolPart.
Proof. solve_decision. Defined.

Inductive MessagePart :=
  | PText (id text : string)
  | PImage (id path name mime_type : string)
  | PReasoning (id text : string)
  | PTool (t : ToolPart)
  | PInput (id request_id : string) (questions : list UserInputQuestion) (resolved : bool)
  | PError (id message : string)
  | PFork (id source_chat_id source_title : string).

#[export] Instance MessagePart_eq_dec : EqDecision MessagePart.
Proof. solve_decision. Defined.

Definition part_id (p : MessagePart) : string :=
  match p with
  | PText id _ | PImage id _ _ _ | PReasoning id _ | PInput id _ _ _ | PError id _ | PFork id _ _ => id
  | PTool t => tp_id t
  end.

(** ** The fold *)

(** [text.lines().count()] *)
Fixpoint count_lines (s : string) : Z :=
  match s with
  | EmptyString => 0
  | String c EmptyString => 1
  | String c r => if (c =? "010")%char then 1 + count_lines r else count_lines r
  end.

Definition new_tool (id : string) (call : ToolCall) : ToolPart :=
  mkTool id call false false None None None None None None None None None.

Definition with_call (call : ToolCall) (t : ToolPart) : ToolPart :=
  mkTool (tp_id t) call (tp_is_error t) (tp_resolved t) (tp_output t) (tp_diff t) (tp_output_ref t)
    (tp_output_bytes t) (tp_diff_ref t) (tp_diff_stats t) (tp_subagent_ref t)
    (tp_subagent_status t) (tp_subagent_tail t).

Definition with_subagent_status (s : option SubagentStatus) (t : ToolPart) : ToolPart :=
  mkTool (tp_id t) (tp_call t) (tp_is_error t) (tp_resolved t) (tp_output t) (tp_diff t) (tp_output_ref t)
    (tp_output_bytes t) (tp_diff_ref t) (tp_diff_stats t) (tp_subagent_ref t) s (tp_subagent_tail t).

Definition is_tool (id : string) (p : MessagePart) : bool :=
  match p with PTool t => bool_decide (tp_id t = id) | _ => false end.

(** [iter_mut().find(f)] rewritten by [g]; [None] when there is none. *)
Fixpoint replace_first {A} (f : A → bool) (g : A → A) (l : list A) : option (list A) :=
  match l with
  | [] => None
  | x :: l => if f x then Some (g x :: l) else cons x <$> replace_first f g l
  end.

(** What a subagent event says about its chip. *)
Definition subagent_lifecycle (e : AgentEvent) : option SubagentStatus :=
  match e with
  | Done DoneErrored _ _ _ => Some SubFailed
  | Done _ _ _ _ => Some SubDone
  | UserMessage _ | Steered _ _ => Some SubRunning
  | _ => None
  end.

Definition fold_lifecycle (status : option SubagentStatus) (t : ToolPart) : ToolPart :=
  match status with
  | Some s => with_subagent_status (Some s) t
  | None =>
      match tp_subagent_status t with
      | Some SubDone | Some SubFailed => t
      | _ => with_subagent_status (Some SubRunning) t
      end
  end.

Definition push_error (message : string) (out : list MessagePart) : list MessagePart :=
  out ++ [PError ("e" +:+ show_Z (Z.of_nat (length out))) message].

Section Fold.
(** Added and deleted lines of a text diff. *)
Variable line_changes : string → string → Z * Z.

Definition diff_stat (d : ToolDiff) : ToolDiffStat :=
  match df_old_text d with
  | None => mkStat (df_path d) (count_lines (df_new_text d)) 0
  | Some old =>
      let '(additions, deletions) := line_changes old (df_new_text d) in
      mkStat (df_path d) additions deletions
  end.

(** A result resolves the chip; output and diff text stay out of the document. *)
Definition resolve_tool (is_error : bool) (diff : option ToolDiff) (t : ToolPart) : ToolPart :=
  mkTool (tp_id t) (tp_call t) is_error true None None (tp_output_ref t) None (tp_diff_ref t)
    ((λ d, [diff_stat d]) <$> diff) (tp_subagent_ref t) (tp_subagent_status t) (tp_subagent_tail t).

Definition fold_event_into_parts (out : list MessagePart) (event : AgentEvent) : list MessagePart :=
  match event with
  | SessionStarted _ _ _ _ _ _ | Steered _ _ => []
  | TextDelta text =>
      match last out with
      | Some (PText id tail) => removelast out ++ [PText id (tail +:+ text)]
      | _ => out ++ [PText ("t" +:+ show_Z (Z.of_nat (length out))) text]
      end
  | GeneratedImage id path name mime_type =>
      let image := PImage id path name mime_type in
      default (out ++ [image])
        (replace_first (λ p, bool_decide (part_id p = id)) (λ _, image) out)
  | ReasoningDelta text =>
      if bool_decide (text = "") then out else
      match last out with
      | Some (PReasoning id tail) => removelast out ++ [PReasoning id (tail +:+ text)]
      | _ => out ++ [PReasoning ("r" +:+ show_Z (Z.of_nat (length out))) text]
      end
  | EvToolCall id call =>
      default (out ++ [PTool (new_tool id call)])
        (replace_first (is_tool id)
           (λ p, match p with PTool t => PTool (with_call call t) | p => p end) out)
  | EvToolResult id is_error _ diff =>
      (λ p, match p with
            | PTool t => if bool_decide (tp_id t = id) then PTool (resolve_tool is_error diff t) else p
            | _ => p
            end) <$> out
  | InputRequested request_id questions =>
      let id := "in-" +:+ request_id in
      if existsb (λ p, bool_decide (part_id p = id)) out then out
      else out ++ [PInput id request_id questions false]
  | InputResolved request_id =>
      (λ p, match p with
            | PInput id rid questions resolved =>
                PInput id rid questions (bool_decide (rid = request_id) || resolved)
            | _ => p
            end) <$> out
  | EvError message => push_error message out
  | Done _ _ error _ => match error with Some message => push_error message out | None => out end
  | Subagent parent event =>
      (λ p, match p with
            | PTool t =>
                if bool_decide (tp_id t = parent) && is_subagent_spawn (tp_call t)
                then PTool (fold_lifecycle (subagent_lifecycle event) t) else p
            | _ => p
            end) <$> out
  | AssistantMessageCompleted _ | Usage _ _ | ContextUsage _ _ | AvailableCommands _
  | UserMessage _ => out
  end.

Definition fold_events (events : list AgentEvent) (out : list MessagePart) : list MessagePart :=
  fold_left fold_event_into_parts events out.
End Fold.

(** ** Sidecar *)

Definition stamp_refs (chat_id : string) (t : ToolPart) : ToolPart :=
  if tp_resolved t then
    mkTool (tp_id t) (tp_call t) (tp_is_error t) (tp_resolved t) (tp_output t) (tp_diff t)
      (if bool_decide (tp_output_ref t = None) && bool_decide (is_Some (tp_output_bytes t))
       then Some (chat_id +:+ "/" +:+ tp_id t) else tp_output_ref t)
      (tp_output_bytes t)
      (if bool_decide (tp_diff_ref t = None) && bool_decide (is_Some (tp_diff_stats t))
       then Some (chat_id +:+ "/" +:+ tp_id t +:+ ".diff") else tp_diff_ref t)
      (tp_diff_stats t) (tp_subagent_ref t) (tp_subagent_status t) (tp_subagent_tail t)
  else t.

Definition apply_sidecar_refs (chat_id : string) (parts : list MessagePart) : list MessagePart :=
  (λ p, match p with PTool t => PTool (stamp_refs chat_id t) | p => p end) <$> parts.

Record SidecarPayload := mkSidecar {
  sc_part_id : string;
  sc_output : option string;
  sc_diff : option ToolDiff
}.

Definition sidecar_payload (event : AgentEvent) : option SidecarPayload :=
  match event with
  | EvToolResult id _ output diff =>
      let output := match output with
                    | Some o => if bool_decide (trim o = "") then None else Some o
                    | None => None
                    end in
      if bool_decide (output = None) && bool_decide (diff = None) then None
      else Some (mkSidecar id output diff)
  | _ => None
  end.

(** ** Privacy *)

Definition spawn_badge (c : ToolCall) : option Value :=
  if is_subagent_spawn c then
    input ← call_input c;
    let kept := omap (λ key,
      value ← value_get input key ≫= as_str;
      if bool_decide (trim value = "") then None else Some (key, Str (trim value))) SUBAGENT_INPUT_KEEP in
    if bool_decide (kept = []) then None else Some (Object kept)
  else None.

Definition sanitize_tool_call (c : ToolCall) : ToolCall :=
  match c with
  | WriteFile path _ => WriteFile path None
  | EditFile path _ _ => EditFile path None None
  | WebFetch url _ => WebFetch url None
  | Mcp server tool _ => Mcp server tool (spawn_badge c)
  | Unknown name _ => Unknown name (spawn_badge c)
  | other => other
  end.

(** ** Splitting *)

(** [&s[..n]] and [&s[n..]]. *)
Fixpoint str_take (n : nat) (s : string) : string :=
  match n, s with
  | S n, String c s => String c (str_take n s)
  | _, _ => ""
  end.
Fixpoint str_drop (n : nat) (s : string) : string :=
  match n, s with
  | S n, String _ s => str_drop n s
  | _, _ => s
  end.

(** A byte that continues a UTF-8 character. *)
Definition is_continuation (c : ascii) : bool := ((128 <=? code c) && (code c <? 192))%N.

(** [str::is_char_boundary] *)
Definition is_char_boundary (s : string) (n : nat) : bool :=
  match n with
  | O => true
  | _ => match str_drop n s with
         | String c _ => negb (is_continuation c)
         | EmptyString => (n =? String.length s)%nat
         end
  end.

(** Back from [n] to a boundary, unless [n] is the end. *)
Fixpoint back_to_boundary (s : string) (n : nat) : nat :=
  match n with
  | O => O
  | S n' => if (n <? String.length s)%nat && negb (is_char_boundary s n)
            then back_to_boundary s n' else n
  end.

Definition continuation_id (root : string) (index : Z) : string := root +:+ "#c" +:+ show_Z index.

Section Split.
(** [MSG_INLINE_MAX], and the serialized lengths of the JSON fields. *)
Variable max_inline : Z.
Variable call_len : ToolCall → Z.
Variable diff_len : ToolDiff → Z.
Variable stats_len : list ToolDiffStat → Z.
Variable questions_len : list UserInputQuestion → Z.

Definition str_len (s : string) : Z := Z.of_nat (String.length s).

Definition byte_len (p : MessagePart) : Z :=
  match p with
  | PText _ text | PReasoning _ text => str_len text
  | PTool t =>
      call_len (tp_call t) + from_option str_len 0 (tp_output t) + from_option diff_len 0 (tp_diff t)
      + from_option stats_len 0 (tp_diff_stats t)
  | PInput _ _ questions _ => questions_len questions
  | PImage id path name mime_type => str_len id + str_len path + str_len name + str_len mime_type
  | PError _ message => str_len message
  | PFork _ chat title => str_len chat + str_len title
  end.

(** Where the next piece of the remaining text ends; the guard takes all of it. *)
Definition piece_end (text : string) : nat :=
  let e := back_to_boundary text (Z.to_nat (Z.min max_inline (str_len text))) in
  if (e =? 0)%nat then String.length text else e.

Fixpoint text_pieces (fuel : nat) (text : string) : list string :=
  match fuel, text with
  | S fuel, String _ _ =>
      str_take (piece_end text) text :: text_pieces fuel (str_drop (piece_end text) text)
  | _, _ => []
  end.

Definition sub_id (id : string) (piece : nat) : string :=
  match piece with O => id | _ => id +:+ "~" +:+ show_Z (Z.of_nat piece) end.

(** The parts one part is stored as. *)
Definition expand (p : MessagePart) : list MessagePart :=
  match p with
  | PText id text =>
      if max_inline <? str_len text
      then imap (λ i body, PText (sub_id id i) body) (text_pieces (String.length text) text) else [p]
  | PReasoning id text =>
      if max_inline <? str_len text
      then imap (λ i body, PReasoning (sub_id id i) body) (text_pieces (String.length text) text) else [p]
  | _ => [p]
  end.

(** The closed chunks, the open one, and its size. *)
Record Chunking := mkChunking {
  ck_closed : list (list MessagePart);
  ck_open : list MessagePart;
  ck_bytes : Z
}.

Definition push_part (st : Chunking) (part : MessagePart) : Chunking :=
  let len := byte_len part in
  if (0 <? ck_bytes st) && (max_inline <? ck_bytes st + len)
  then mkChunking (ck_closed st ++ [ck_open st]) [part] len
  else mkChunking (ck_closed st) (ck_open st ++ [part]) (ck_bytes st + len).

Definition split_parts (parts : list MessagePart) : list (list MessagePart) :=
  let st := fold_left push_part (parts ≫= expand) (mkChunking [] [] 0) in
  ck_closed st ++ [ck_open st].

Definition join_continuations (entries : list (list MessagePart)) : list MessagePart := concat entries.

Definition chunk_bytes (chunk : list MessagePart) : Z := foldr (λ p n, byte_len p + n) 0 chunk.
End Split.
