(* ===== verification/PartsSpec.v ===== *)
(** * PartsSpec: what the fold, the privacy policy and the splitting promise

    Theorems about Parts.v: the transcript text is the concatenation of the
    streamed deltas of the current turn, tool chips carry their latest call and
    never an output or a diff, sanitizing is idempotent and keeps short
    identifiers only, and splitting loses nothing and respects the inline
    limit. *)

From S2P Require Import Prelude Text Json Entities Agent Parts.

(** ** Turns *)

Definition is_turn_boundary (e : AgentEvent) : bool :=
  match e with SessionStarted _ _ _ _ _ _ | Steered _ _ => true | _ => false end.

(** The events since the last boundary. *)
Definition current_turn (events : list AgentEvent) : list AgentEvent :=
  fold_left (λ acc e, if is_turn_boundary e then [] else acc ++ [e]) events [].

Fixpoint concat_map {A} (f : A → string) (l : list A) : string :=
  match l with [] => "" | x :: l => f x +:+ concat_map f l end.

Definition text_deltas : list AgentEvent → string :=
  concat_map (λ e, match e with TextDelta t => t | _ => "" end).
Definition reasoning_deltas : list AgentEvent → string :=
  concat_map (λ e, match e with ReasoningDelta t => t | _ => "" end).

Definition text_body (p : MessagePart) : string := match p with PText _ t => t | _ => "" end.
Definition reasoning_body (p : MessagePart) : string := match p with PReasoning _ t => t | _ => "" end.
Definition text_of : list MessagePart → string := concat_map text_body.
Definition reasoning_of : list MessagePart → string := concat_map reasoning_body.

Definition last_call (id : string) (events : list AgentEvent) : option ToolCall :=
  fold_left (λ acc e, match e with
                      | EvToolCall i c => if bool_decide (i = id) then Some c else acc
                      | _ => acc
                      end) events None.

(** The chips: id and call. *)
Definition call_of (p : MessagePart) : option (string * ToolCall) :=
  match p with PTool t => Some (tp_id t, tp_call t) | _ => None end.
Definition calls (parts : list MessagePart) : list (string * ToolCall) := omap call_of parts.

(** A generated image has an id of its own. *)
Definition image_fresh (events : list AgentEvent) : Prop :=
  ∀ id path name mime, GeneratedImage id path name mime ∈ events →
    (∀ n, id ≠ "t" +:+ show_Z n ∧ id ≠ "r" +:+ show_Z n) ∧ (∀ c, EvToolCall id c ∉ events).

(** Chips carry no output and no diff text. *)
Definition stripped (p : MessagePart) : Prop :=
  match p with
  | PTool t => tp_output t = None ∧ tp_diff t = None ∧ tp_output_bytes t = None
  | _ => True
  end.

Definition named (p : MessagePart) : Prop :=
  match p with
  | PText id _ => ∃ n, id = "t" +:+ show_Z n
  | PReasoning id _ => ∃ n, id = "r" +:+ show_Z n
  | _ => True
  end.

Lemma concat_map_app {A} (f : A → string) l1 l2 :
  concat_map f (l1 ++ l2) = concat_map f l1 +:+ concat_map f l2.
Proof. induction l1 as [|x l1 IH]; cbn; [done|]. by rewrite IH, str_app_assoc. Qed.

Lemma concat_map_fmap {A} (f : A → string) (g : A → A) l :
  (∀ x, f (g x) = f x) → concat_map f (g <$> l) = concat_map f l.
Proof. intros H. induction l as [|x l IH]; cbn; [done|]. rewrite H. f_equal. exact IH. Qed.

Lemma replace_first_Some {A} f g (l l' : list A) :
  replace_first f g l = Some l' → ∃ l1 x l2, l = l1 ++ x :: l2 ∧ l' = l1 ++ g x :: l2 ∧ f x = true ∧
    ∀ y, y ∈ l1 → f y = false.
Proof.
  revert l'. induction l as [|x l IH]; intros l'; cbn; [done|]. destruct (f x) eqn:E.
  - intros [= <-]. exists [], x, l. split_and!; try done. intros y Hy. by apply not_elem_of_nil in Hy.
  - destruct (replace_first f g l) as [l0|]; cbn; [|done]. intros [= <-].
    destruct (IH _ eq_refl) as (l1 & y & l2 & -> & -> & Hy & Hn). exists (x :: l1), y, l2.
    split_and!; try done. intros z [->|?]%elem_of_cons; auto.
Qed.

Lemma replace_first_None {A} f g (l : list A) :
  replace_first f g l = None → ∀ x, x ∈ l → f x = false.
Proof.
  induction l as [|x l IH]; cbn; intros H y Hy; [by apply not_elem_of_nil in Hy|].
  destruct (f x) eqn:E; [done|]. destruct (replace_first f g l); [done|].
  apply elem_of_cons in Hy as [->|?]; auto.
Qed.

Lemma last_removelast (l : list MessagePart) x : last l = Some x → l = removelast l ++ [x].
Proof.
  intros H. apply last_Some in H as (l' & ->). by rewrite removelast_last.
Qed.

Lemma calls_app l1 l2 : calls (l1 ++ l2) = calls l1 ++ calls l2.
Proof. apply omap_app. Qed.

Lemma calls_fmap f l : (∀ p, call_of (f p) = call_of p) → calls (f <$> l) = calls l.
Proof.
  intros H. unfold calls. rewrite omap_fmap_list. induction l as [|p l IH]; [done|].
  cbn [omap list_omap]. rewrite H. destruct (call_of p); [f_equal|]; exact IH.
Qed.

Lemma last_call_snoc id evs e :
  last_call id (evs ++ [e]) =
    match e with
    | EvToolCall i c => if bool_decide (i = id) then Some c else last_call id evs
    | _ => last_call id evs
    end.
Proof. unfold last_call. by rewrite fold_left_app. Qed.

Lemma last_call_elem id evs c : last_call id evs = Some c → EvToolCall id c ∈ evs.
Proof.
  induction evs as [|e evs IH] using rev_ind; [done|]. rewrite last_call_snoc, elem_of_app.
  destruct e; auto. case_bool_decide as H; auto. intros [= ->]. subst. right. by left.
Qed.

(** ** The fold keeps what the turn has streamed *)

Record fold_ok (evs : list AgentEvent) (out : list MessagePart) : Prop := {
  fo_text : text_of out = text_deltas evs;
  fo_reasoning : reasoning_of out = reasoning_deltas evs;
  fo_named : Forall named out;
  fo_stripped : Forall stripped out;
  fo_once : NoDup (calls out).*1;
  fo_calls id c : (id, c) ∈ calls out ↔ last_call id evs = Some c
}.

Definition quiet (e : AgentEvent) : Prop :=
  match e with TextDelta _ | ReasoningDelta _ | EvToolCall _ _ => False | _ => True end.

Lemma fold_ok_quiet evs out e out' :
  fold_ok evs out → quiet e →
  text_of out' = text_of out → reasoning_of out' = reasoning_of out →
  Forall named out' → Forall stripped out' → calls out' = calls out → fold_ok (evs ++ [e]) out'.
Proof.
  intros [H1 H2 _ _ H5 H6] Hq Ht Hr Hn Hs Hc. split; [| |done|done|rewrite Hc; exact H5|].
  - rewrite Ht, H1. unfold text_deltas. rewrite concat_map_app.
    destruct e; try done; cbn; by rewrite str_app_nil_r.
  - rewrite Hr, H2. unfold reasoning_deltas. rewrite concat_map_app.
    destruct e; try done; cbn; by rewrite str_app_nil_r.
  - intros id c. rewrite Hc, H6, last_call_snoc. destruct e; cbn in Hq; tauto.
Qed.

(** Parts rewritten one by one without touching what the fold promises. *)
Lemma fold_ok_map evs out e g :
  fold_ok evs out → quiet e →
  (∀ p, text_body (g p) = text_body p ∧ reasoning_body (g p) = reasoning_body p ∧
        (named p → named (g p)) ∧ (stripped p → stripped (g p)) ∧ call_of (g p) = call_of p) →
  fold_ok (evs ++ [e]) (g <$> out).
Proof.
  intros Hok Hq Hg. eapply fold_ok_quiet; [exact Hok|done|..].
  - apply concat_map_fmap. intros. apply Hg.
  - apply concat_map_fmap. intros. apply Hg.
  - apply Forall_fmap. eapply Forall_impl; [exact (fo_named _ _ Hok)|]. intros p Hp.
    destruct (Hg p) as (_ & _ & Hn & _). exact (Hn Hp).
  - apply Forall_fmap. eapply Forall_impl; [exact (fo_stripped _ _ Hok)|]. intros p Hp.
    destruct (Hg p) as (_ & _ & _ & Hs & _). exact (Hs Hp).
  - apply calls_fmap. intros. apply Hg.
Qed.

(** A new part that is not a chip and has no streamed text. *)
Lemma fold_ok_push evs out e p :
  fold_ok evs out → quiet e → text_body p = "" → reasoning_body p = "" → named p → call_of p = None →
  fold_ok (evs ++ [e]) (out ++ [p]).
Proof.
  intros Hok Hq Ht Hr Hn Hc. eapply fold_ok_quiet; [exact Hok|done|..].
  - unfold text_of. rewrite concat_map_app. cbn. by rewrite Ht, str_app_nil_r.
  - unfold reasoning_of. rewrite concat_map_app. cbn. by rewrite Hr, str_app_nil_r.
  - apply Forall_app. split; [apply Hok|]. by constructor.
  - apply Forall_app. split; [apply Hok|]. constructor; [by destruct p|done].
  - rewrite calls_app. unfold calls at 2. cbn. by rewrite Hc, app_nil_r.
Qed.

Lemma fold_text evs out text lc :
  fold_ok evs out → fold_ok (evs ++ [TextDelta text]) (fold_event_into_parts lc out (TextDelta text)).
Proof.
  intros [H1 H2 H3 H4 H5 H6]. cbn [fold_event_into_parts].
  set (out' := match last out with Some (PText id tail) => _ | _ => _ end).
  assert (∃ l id t0, out' = l ++ [PText id (t0 +:+ text)] ∧ (∃ n, id = "t" +:+ show_Z n) ∧
    text_of l +:+ t0 = text_of out ∧ reasoning_of l = reasoning_of out ∧ Forall named l ∧ Forall stripped l ∧
    calls l = calls out) as (l & id & t0 & -> & Hid & Ht & Hr & Hn & Hs & Hc).
  { assert (out' = out ++ [PText ("t" +:+ show_Z (Z.of_nat (length out))) text] ∨
      ∃ l id t0, out = l ++ [PText id t0] ∧ out' = l ++ [PText id (t0 +:+ text)]) as [->|(l & id & t0 & -> & ->)].
    { unfold out'. destruct (last out) as [[]|] eqn:E; auto. right.
      apply last_Some in E as (l & ->). exists l, id, text0. by rewrite removelast_last. }
    - exists out, ("t" +:+ show_Z (Z.of_nat (length out))), "". split_and!; try done; [by eexists|].
      apply str_app_nil_r.
    - apply Forall_app in H3 as [H3 H3'], H4 as [H4 _]. exists l, id, t0.
      split_and!; try done.
      + by inversion_clear H3'.
      + unfold text_of. rewrite concat_map_app. cbn. by rewrite str_app_nil_r.
      + unfold reasoning_of. rewrite concat_map_app. cbn. by rewrite str_app_nil_r.
      + rewrite calls_app. cbn. by rewrite app_nil_r. }
  assert (calls (l ++ [PText id (t0 +:+ text)]) = calls out) as Hc'.
  { rewrite calls_app, Hc. cbn. by rewrite app_nil_r. }
  split.
  - unfold text_of, text_deltas in *. rewrite !concat_map_app. cbn.
    by rewrite !str_app_nil_r, <- str_app_assoc, Ht, H1.
  - unfold reasoning_of, reasoning_deltas in *. rewrite !concat_map_app. cbn.
    by rewrite !str_app_nil_r, Hr, H2.
  - apply Forall_app. split; [done|]. by constructor.
  - apply Forall_app. split; [done|]. by constructor.
  - by rewrite Hc'.
  - intros i c. by rewrite Hc', H6, last_call_snoc.
Qed.

Lemma fold_reasoning evs out text lc :
  fold_ok evs out → fold_ok (evs ++ [ReasoningDelta text]) (fold_event_into_parts lc out (ReasoningDelta text)).
Proof.
  intros [H1 H2 H3 H4 H5 H6]. cbn [fold_event_into_parts]. case_bool_decide as He.
  { subst text. split; try done.
    - unfold text_deltas. rewrite concat_map_app. cbn. by rewrite str_app_nil_r.
    - unfold reasoning_deltas. rewrite concat_map_app. cbn. by rewrite str_app_nil_r.
    - intros id c. by rewrite last_call_snoc. }
  set (out' := match last out with Some (PReasoning id tail) => _ | _ => _ end).
  assert (∃ l id t0, out' = l ++ [PReasoning id (t0 +:+ text)] ∧ (∃ n, id = "r" +:+ show_Z n) ∧
    reasoning_of l +:+ t0 = reasoning_of out ∧ text_of l = text_of out ∧ Forall named l ∧ Forall stripped l ∧
    calls l = calls out) as (l & id & t0 & -> & Hid & Ht & Hr & Hn & Hs & Hc).
  { assert (out' = out ++ [PReasoning ("r" +:+ show_Z (Z.of_nat (length out))) text] ∨
      ∃ l id t0, out = l ++ [PReasoning id t0] ∧ out' = l ++ [PReasoning id (t0 +:+ text)])
      as [->|(l & id & t0 & -> & ->)].
    { unfold out'. destruct (last out) as [[]|] eqn:E; auto. right.
      apply last_Some in E as (l & ->). exists l, id, text0. by rewrite removelast_last. }
    - exists out, ("r" +:+ show_Z (Z.of_nat (length out))), "". split_and!; try done; [by eexists|].
      apply str_app_nil_r.
    - apply Forall_app in H3 as [H3 H3'], H4 as [H4 _]. exists l, id, t0.
      split_and!; try done.
      + by inversion_clear H3'.
      + unfold reasoning_of. rewrite concat_map_app. cbn. by rewrite str_app_nil_r.
      + unfold text_of. rewrite concat_map_app. cbn. by rewrite str_app_nil_r.
      + rewrite calls_app. cbn. by rewrite app_nil_r. }
  assert (calls (l ++ [PReasoning id (t0 +:+ text)]) = calls out) as Hc'.
  { rewrite calls_app, Hc. cbn. by rewrite app_nil_r. }
  split.
  - unfold text_of, text_deltas in *. rewrite !concat_map_app. cbn.
    by rewrite !str_app_nil_r, Hr, H1.
  - unfold reasoning_of, reasoning_deltas in *. rewrite !concat_map_app. cbn.
    by rewrite !str_app_nil_r, <- str_app_assoc, Ht, H2.
  - apply Forall_app. split; [done|]. by constructor.
  - apply Forall_app. split; [done|]. by constructor.
  - by rewrite Hc'.
  - intros i c. by rewrite Hc', H6, last_call_snoc.
Qed.

Lemma fold_image evs out id path name mime lc :
  fold_ok evs out →
  (∀ n, id ≠ "t" +:+ show_Z n ∧ id ≠ "r" +:+ show_Z n) → (∀ c, EvToolCall id c ∉ evs) →
  fold_ok (evs ++ [GeneratedImage id path name mime])
    (fold_event_into_parts lc out (GeneratedImage id path name mime)).
Proof.
  intros Hok Hn Hc. cbn [fold_event_into_parts].
  destruct (replace_first _ _ out) as [out'|] eqn:E; cbn [default from_option Datatypes.id];
    [|by apply fold_ok_push].
  apply replace_first_Some in E as (l1 & x & l2 & -> & -> & Hx & _).
  apply bool_decide_eq_true in Hx.
  assert (text_body x = "" ∧ reasoning_body x = "" ∧ call_of x = None) as (Ht & Hr & Hcx).
  { pose proof (fo_named _ _ Hok) as Hnm. apply Forall_app in Hnm as [_ Hnm].
    inversion_clear Hnm as [|? ? Hx' _]. destruct x as [i t| | i t|t| | |]; cbn in Hx; try done.
    - destruct Hx' as (n & ->). subst. by destruct (Hn n).
    - destruct Hx' as (n & ->). subst. by destruct (Hn n).
    - exfalso. apply (Hc (tp_call t)), last_call_elem, (fo_calls _ _ Hok).
      rewrite calls_app, elem_of_app. right. cbn. rewrite Hx. left. }
  eapply fold_ok_quiet; [exact Hok|done|..].
  - unfold text_of. rewrite !concat_map_app. cbn. by rewrite Ht.
  - unfold reasoning_of. rewrite !concat_map_app. cbn. by rewrite Hr.
  - pose proof (fo_named _ _ Hok) as H. apply Forall_app in H as [Ha Hb]. apply Forall_app.
    split; [done|]. inversion_clear Hb. by constructor.
  - pose proof (fo_stripped _ _ Hok) as H. apply Forall_app in H as [Ha Hb]. apply Forall_app.
    split; [done|]. inversion_clear Hb. by constructor.
  - rewrite !calls_app. f_equal. unfold calls. cbn [omap list_omap call_of]. by rewrite Hcx.
Qed.

Lemma fold_tool_call evs out id c lc :
  fold_ok evs out → fold_ok (evs ++ [EvToolCall id c]) (fold_event_into_parts lc out (EvToolCall id c)).
Proof.
  intros Hok. pose proof Hok as [H1 H2 H3 H4 H5 H6]. cbn [fold_event_into_parts].
  set (out' := default _ _).
  assert (text_of out' = text_of out ∧ reasoning_of out' = reasoning_of out ∧
    Forall named out' ∧ Forall stripped out' ∧
    ((∃ l1 c0 l2, calls out = l1 ++ (id, c0) :: l2 ∧ calls out' = l1 ++ (id, c) :: l2) ∨
     (id ∉ (calls out).*1 ∧ calls out' = calls out ++ [(id, c)]))) as (Ht & Hr & Hn & Hs & Hc).
  { unfold out'. destruct (replace_first _ _ out) as [l'|] eqn:E; cbn [default from_option Datatypes.id].
    - apply replace_first_Some in E as (l1 & x & l2 & -> & -> & Hx & _).
      destruct x as [| | |t| | |]; try done. cbn in Hx. apply bool_decide_eq_true in Hx as <-.
      apply Forall_app in H3 as [H3 H3'], H4 as [H4 H4'].
      inversion_clear H3' as [|? ? _ H3a]. inversion_clear H4' as [|? ? H4a H4b].
      split_and!.
      + unfold text_of. by rewrite !concat_map_app.
      + unfold reasoning_of. by rewrite !concat_map_app.
      + apply Forall_app. split; [done|]. by constructor.
      + apply Forall_app. split; [done|]. by constructor.
      + left. exists (calls l1), (tp_call t), (calls l2). by rewrite !calls_app.
    - split_and!.
      + unfold text_of. rewrite concat_map_app. cbn. by rewrite str_app_nil_r.
      + unfold reasoning_of. rewrite concat_map_app. cbn. by rewrite str_app_nil_r.
      + apply Forall_app. split; [done|]. by constructor.
      + apply Forall_app. split; [done|]. by repeat constructor.
      + right. rewrite calls_app. split; [|done].
        intros ([i c'] & -> & Hin)%list_elem_of_fmap. unfold calls in Hin.
        apply list_elem_of_omap in Hin as (p & Hp & Hcp). destruct p as [| | |t| | |]; try done.
        injection Hcp as <- <-. pose proof (replace_first_None _ _ _ E _ Hp) as Hf. cbn in Hf.
        by rewrite bool_decide_eq_true_2 in Hf. }
  split; [| |done|done| |].
  - rewrite Ht, H1. unfold text_deltas. rewrite concat_map_app. cbn. by rewrite str_app_nil_r.
  - rewrite Hr, H2. unfold reasoning_deltas. rewrite concat_map_app. cbn. by rewrite str_app_nil_r.
  - destruct Hc as [(l1 & c0 & l2 & Ha & ->)|[Hni ->]].
    + rewrite Ha in H5. by rewrite fmap_app in H5 |- *.
    + rewrite fmap_app. apply NoDup_app. split_and!; [done| |apply NoDup_singleton].
      intros x Hx ->%list_elem_of_singleton. done.
  - intros i c'. rewrite last_call_snoc.
    destruct Hc as [(l1 & c0 & l2 & Ha & ->)|[Hni ->]].
    + rewrite Ha, fmap_app in H5. cbn in H5.
      apply NoDup_app in H5 as (_ & Hd & [Hd2 _]%NoDup_cons).
      assert (∀ c1, (id, c1) ∉ l1 ∧ (id, c1) ∉ l2) as Hno.
      { intros c1. split; intros Hin.
        - apply (Hd id); [|left]. by apply (list_elem_of_fmap_2 fst _ (id, c1)).
        - apply Hd2. by apply (list_elem_of_fmap_2 fst _ (id, c1)). }
      rewrite !elem_of_app, !elem_of_cons. case_bool_decide as Hi.
      * subst i. split; [|intros [= ->]; tauto]. intros [Hx|[[= ->]|Hx]]; [|done|]; by apply Hno in Hx.
      * rewrite <- H6, Ha, elem_of_app, elem_of_cons. naive_solver.
    + rewrite elem_of_app, list_elem_of_singleton, H6. case_bool_decide as Hi;
        [|split; [intros [?|[= -> _]]; done|by left]].
      subst i. split; [|intros [= ->]; auto]. intros [Hx|[= ->]]; [|done].
      exfalso. apply Hni. apply H6 in Hx. by apply (list_elem_of_fmap_2 fst _ (id, c')).
Qed.

Lemma fold_step_ok evs out e lc :
  fold_ok evs out → is_turn_boundary e = false →
  (∀ id path name mime, e = GeneratedImage id path name mime →
     (∀ n, id ≠ "t" +:+ show_Z n ∧ id ≠ "r" +:+ show_Z n) ∧ (∀ c, EvToolCall id c ∉ evs)) →
  fold_ok (evs ++ [e]) (fold_event_into_parts lc out e).
Proof.
  intros Hok Hb Hi. destruct e; try done.
  - by apply fold_text.
  - destruct (Hi _ _ _ _ eq_refl). by apply fold_image.
  - by apply fold_reasoning.
  - eapply fold_ok_quiet; [exact Hok|done|done|done|apply Hok|apply Hok|done].
  - by apply fold_tool_call.
  - apply fold_ok_map; [done|done|]. intros [| | |t| | |]; try done. case_bool_decide; done.
  - eapply fold_ok_quiet; [exact Hok|done|done|done|apply Hok|apply Hok|done].
  - eapply fold_ok_quiet; [exact Hok|done|done|done|apply Hok|apply Hok|done].
  - eapply fold_ok_quiet; [exact Hok|done|done|done|apply Hok|apply Hok|done].
  - by apply fold_ok_push.
  - cbn [fold_event_into_parts]. cbv zeta. destruct (existsb _ _).
    + eapply fold_ok_quiet; [exact Hok|done|done|done|apply Hok|apply Hok|done].
    + by apply fold_ok_push.
  - apply fold_ok_map; [done|done|]. by intros [].
  - cbn [fold_event_into_parts]. destruct error.
    + by apply fold_ok_push.
    + eapply fold_ok_quiet; [exact Hok|done|done|done|apply Hok|apply Hok|done].
  - eapply fold_ok_quiet; [exact Hok|done|done|done|apply Hok|apply Hok|done].
  - apply fold_ok_map; [done|done|]. intros [| | |t| | |]; try done.
    destruct (_ && _); [|done]. unfold fold_lifecycle.
    destruct (subagent_lifecycle e); [done|]. by destruct (tp_subagent_status t) as [[]|].
Qed.

(** C18: after any stream of events the parts show the current turn: the text and
    the reasoning are exactly the concatenation of its deltas, there is one chip
    per called tool with its latest call, and no chip carries a tool output or a
    diff text. *)
Theorem fold_events_exact lc events :
  image_fresh events →
  let out := fold_events lc events [] in
  let turn := current_turn events in
  text_of out = text_deltas turn ∧ reasoning_of out = reasoning_deltas turn ∧
  NoDup (calls out).*1 ∧ (∀ id c, (id, c) ∈ calls out ↔ last_call id turn = Some c) ∧
  Forall stripped out.
Proof.
  intros Hi out turn. enough (fold_ok turn out ∧ (∀ e, e ∈ turn → e ∈ events)) as [[] _] by done.
  subst out turn. unfold fold_events, current_turn.
  induction events as [|e events IH] using rev_ind.
  { split; [|intros e He; by apply not_elem_of_nil in He]. split; try done; [constructor|].
    intros id c. split; [intros H; by apply not_elem_of_nil in H|done]. }
  rewrite !fold_left_app. cbn [fold_left].
  destruct IH as [IH Hsub].
  { intros id path name mime Hin. destruct (Hi id path name mime) as [H1 H2]; [rewrite elem_of_app; auto|].
    split; [done|]. intros c Hc. apply (H2 c). rewrite elem_of_app. auto. }
  destruct (is_turn_boundary e) eqn:Hb.
  - split; [|intros x Hx; by apply not_elem_of_nil in Hx].
    destruct e; try done; (split; try done; [constructor|]; intros id c;
      split; [intros H; by apply not_elem_of_nil in H|done]).
  - split.
    + apply fold_step_ok; [done|done|]. intros id path name mime ->.
      destruct (Hi id path name mime) as [H1 H2]; [rewrite elem_of_app; right; left|].
      split; [done|]. intros c Hc. apply (H2 c). rewrite elem_of_app. auto.
    + intros x. rewrite !elem_of_app. intros [?|?]; auto.
Qed.

Definition ex_lines (_ _ : string) : Z * Z := (1, 1).
Definition ex_events : list AgentEvent :=
  [TextDelta "old"; Steered None None; TextDelta "Hel"; TextDelta "lo"; EvToolCall "x" (Exec "ls");
   EvToolCall "x" (Exec "ls -l"); EvToolResult "x" false (Some "secret") (Some (mkDiff "f" None "y"));
   GeneratedImage "img" "/p" "n" "image/png"; ReasoningDelta "hm"; TextDelta "!"].

Lemma fold_events_exact_witness :
  text_of (fold_events ex_lines ex_events []) = "Hello!" ∧
  calls (fold_events ex_lines ex_events []) = [("x", Exec "ls -l")] ∧
  Forall stripped (fold_events ex_lines ex_events []).
Proof.
  assert (image_fresh ex_events) as H.
  { intros id path name mime Hin. unfold ex_events in Hin.
    repeat (apply elem_of_cons in Hin as [[=]|Hin]); [|by apply not_elem_of_nil in Hin]. subst.
    split; [by split|]. intros c Hc. unfold ex_events in Hc.
    repeat (apply elem_of_cons in Hc as [[=]|Hc]). by apply not_elem_of_nil in Hc. }
  destruct (fold_events_exact ex_lines ex_events H) as (H1 & _ & _ & _ & H5).
  split; [exact H1|]. split; [reflexivity|exact H5].
Defined.

(** ** Splitting *)

Lemma str_take_drop n s : str_take n s +:+ str_drop n s = s.
Proof. revert s. induction n as [|n IH]; intros [|c s]; cbn; try done. by rewrite IH. Qed.

Lemma str_take_length n s : String.length (str_take n s) = (n `min` String.length s)%nat.
Proof. revert s. induction n as [|n IH]; intros [|c s]; cbn; try done. by rewrite IH. Qed.

Lemma str_drop_length n s : String.length (str_drop n s) = (String.length s - n)%nat.
Proof. revert s. induction n as [|n IH]; intros [|c s]; cbn; try done. Qed.

Lemma str_drop_drop n k s : str_drop n (str_drop k s) = str_drop (k + n) s.
Proof. revert s. induction k as [|k IH]; intros [|c s]; cbn; try done. by destruct n. Qed.

(** No character has more than three continuation bytes. *)
Definition utf8_ok (s : string) : Prop :=
  ∀ i, (i + 4 ≤ String.length s)%nat →
    ∃ j c r, (i ≤ j < i + 4)%nat ∧ str_drop j s = String c r ∧ is_continuation c = false.

Lemma utf8_ok_drop k s : utf8_ok s → utf8_ok (str_drop k s).
Proof.
  intros H i Hi. rewrite str_drop_length in Hi. destruct (H (k + i)%nat) as (j & c & r & Hj & Hd & Hc); [lia|].
  exists (j - k)%nat, c, r. split; [lia|]. rewrite str_drop_drop. by replace (k + (j - k))%nat with j by lia.
Qed.

Lemma back_le s n : (back_to_boundary s n ≤ n)%nat.
Proof. induction n as [|n IH]; cbn [back_to_boundary]; [lia|]. destruct (_ && _); lia. Qed.

Lemma back_is_boundary s n : (n ≤ String.length s)%nat →
  back_to_boundary s n = String.length s ∨ is_char_boundary s (back_to_boundary s n) = true.
Proof.
  induction n as [|n IH]; intros Hn; cbn [back_to_boundary]; [by right|].
  destruct (S n <? String.length s)%nat eqn:E1; cbn [andb].
  - destruct (is_char_boundary s (S n)) eqn:E2; cbn [negb]; [by right|]. apply IH. lia.
  - left. apply Nat.ltb_ge in E1. lia.
Qed.

(** A boundary between [j] and [n] stops the search. *)
Lemma back_ge s j n : (1 ≤ j ≤ n)%nat → is_char_boundary s j = true → (j ≤ back_to_boundary s n)%nat.
Proof.
  intros Hj Hb. induction n as [|n IH]; [lia|]. cbn [back_to_boundary].
  destruct (_ && negb _) eqn:E; [|lia]. apply IH.
  apply andb_true_iff in E as [_ E]. destruct (decide (j = S n)) as [->|]; [|lia].
  by rewrite Hb in E.
Qed.

Section SplitSpec.
Variable max_inline : Z.
Variable call_len : ToolCall → Z.
Variable diff_len : ToolDiff → Z.
Variable stats_len : list ToolDiffStat → Z.
Variable questions_len : list UserInputQuestion → Z.
Hypothesis max_ge : 4 ≤ max_inline.

Abbreviation len := (byte_len call_len diff_len stats_len questions_len).
Abbreviation bytes := (chunk_bytes call_len diff_len stats_len questions_len).

Lemma piece_end_bounds s :
  s ≠ "" → utf8_ok s →
  (1 ≤ piece_end max_inline s ≤ String.length s)%nat ∧ Z.of_nat (piece_end max_inline s) ≤ max_inline ∧
  (piece_end max_inline s = String.length s ∨ is_char_boundary s (piece_end max_inline s) = true).
Proof using max_ge.
  intros Hs Hu. unfold piece_end. set (n := Z.to_nat (Z.min max_inline (str_len s))).
  assert (1 ≤ String.length s)%nat as Hl by (destruct s; [done|cbn; lia]).
  assert (n ≤ String.length s)%nat as Hn by (unfold n, str_len; lia).
  assert (1 ≤ back_to_boundary s n)%nat as Hb.
  { destruct (decide (n = String.length s)) as [E|E].
    - rewrite E. destruct (String.length s) as [|k] eqn:El; [lia|]. cbn [back_to_boundary].
      rewrite El, Nat.ltb_irrefl. cbn. lia.
    - assert (4 ≤ n < String.length s)%nat as H4 by (unfold n, str_len in *; lia).
      destruct (Hu (n - 3)%nat) as (j & c & r & Hj & Hd & Hc); [lia|].
      assert (j ≤ back_to_boundary s n)%nat; [|lia].
      apply back_ge; [lia|]. unfold is_char_boundary. destruct j; [lia|]. by rewrite Hd, Hc. }
  pose proof (back_le s n) as Hle. pose proof (back_is_boundary s n Hn) as Hbd.
  destruct (Nat.eqb_spec (back_to_boundary s n) 0); [lia|].
  split; [lia|]. split; [unfold n, str_len in *; lia|done].
Qed.

(** The pieces of a text: none empty, none over the limit, nothing lost. *)
Lemma text_pieces_spec fuel s :
  (String.length s ≤ fuel)%nat → utf8_ok s →
  concat_map (λ x, x) (text_pieces max_inline fuel s) = s ∧
  Forall (λ x, x ≠ "" ∧ str_len x ≤ max_inline) (text_pieces max_inline fuel s).
Proof using max_ge.
  revert s. induction fuel as [|fuel IH]; intros s Hf Hu.
  { destruct s; [by split|cbn in Hf; lia]. }
  destruct s as [|c s']; [by split|]. cbn [text_pieces].
  set (s := String c s') in *. destruct (piece_end_bounds s) as (Hb & Hm & _); [done|done|].
  destruct (IH (str_drop (piece_end max_inline s) s)) as [H1 H2].
  - rewrite str_drop_length. lia.
  - by apply utf8_ok_drop.
  - split; [cbn [concat_map]; by rewrite H1, str_take_drop|]. constructor; [|done].
    split; [|unfold str_len; rewrite str_take_length; lia].
    intros E. apply (f_equal String.length) in E. rewrite str_take_length in E. cbn [String.length] in E. lia.
Qed.

Definition streamed (p : MessagePart) : option (string * string) :=
  match p with PText id t | PReasoning id t => Some (id, t) | _ => None end.

(** The stored form of one part: itself, or pieces of its text under derived ids. *)
Definition expansion (p : MessagePart) (l : list MessagePart) : Prop :=
  l = [p] ∧ (is_Some (streamed p) → len p ≤ max_inline) ∨
  ∃ id text bodies, streamed p = Some (id, text) ∧ concat_map (λ x, x) bodies = text ∧
    omap streamed l = imap (λ i b, (sub_id id i, b)) bodies ∧
    Forall (λ q, is_Some (streamed q) ∧ 0 < len q ≤ max_inline) l ∧
    Forall (λ q, match p with PText _ _ => ∃ i t, q = PText i t | _ => ∃ i t, q = PReasoning i t end) l.

Definition part_ok (p : MessagePart) : Prop :=
  0 ≤ len p ∧ ∀ id t, streamed p = Some (id, t) → utf8_ok t.

Lemma str_len_pos s : s ≠ "" → 0 < str_len s.
Proof using. unfold str_len. destruct s; [done|cbn; lia]. Qed.

Lemma expand_spec p : part_ok p → expansion p (expand max_inline p).
Proof using max_ge.
  intros [_ Hu]. assert (∀ (mk : string → string → MessagePart) id text,
    (∀ i t, streamed (mk i t) = Some (i, t)) → (∀ i t, len (mk i t) = str_len t) → utf8_ok text →
    let l := imap (λ i b, mk (sub_id id i) b) (text_pieces max_inline (String.length text) text) in
    ∃ bodies, concat_map (λ x, x) bodies = text ∧
      omap streamed l = imap (λ i b, (sub_id id i, b)) bodies ∧
      Forall (λ q, is_Some (streamed q) ∧ 0 < len q ≤ max_inline) l ∧
      Forall (λ q, ∃ i t, q = mk i t) l) as Hmk.
  { intros mk id text Hs Hl Ht l. destruct (text_pieces_spec (String.length text) text) as [H1 H2]; [done|done|].
    exists (text_pieces max_inline (String.length text) text). split; [done|]. split.
    - clear H1 H2. subst l. generalize (text_pieces max_inline (String.length text) text). intros bs.
      assert (∀ f : nat → string, omap streamed (imap (λ i b, mk (f i) b) bs) = imap (λ i b, (f i, b)) bs) as H; [|by apply H].
      induction bs as [|b bs IH]; intros f; [done|]. rewrite !imap_cons. cbn [omap list_omap].
      rewrite Hs. f_equal. apply (IH (λ i, f (S i))).
    - subst l. split; apply Forall_forall; intros q Hq; apply elem_of_lookup_imap in Hq as (i & b & -> & Hb).
      + rewrite Hs, Hl. eapply Forall_lookup_1 in H2 as [Hne Hle]; [|exact Hb].
        split; [by eexists|]. split; [by apply str_len_pos|done].
      + by eexists _, _. }
  destruct p as [id t|id pa n mt|id t|t|id r q b|id m|id c t]; cbn [expand];
    try (by left; split; [done|intros [? [=]]]).
  - destruct (Z.ltb_spec max_inline (str_len t)); [|left; split; [done|by intros _]]. right.
    destruct (Hmk PText id t) as (bodies & H1 & H2 & H3 & H4); [done|done|by eapply Hu|]. by exists id, t, bodies.
  - destruct (Z.ltb_spec max_inline (str_len t)); [|left; split; [done|by intros _]]. right.
    destruct (Hmk PReasoning id t) as (bodies & H1 & H2 & H3 & H4); [done|done|by eapply Hu|]. by exists id, t, bodies.
Qed.

(** A chunk is within the limit, or is one part that cannot be cut after parts of
    no size. *)
Definition chunk_ok (chunk : list MessagePart) : Prop :=
  bytes chunk ≤ max_inline ∨
  ∃ zs big, chunk = zs ++ [big] ∧ bytes zs = 0 ∧
    streamed big = None.

Lemma chunk_bytes_app l1 l2 :
  bytes (l1 ++ l2) =
  bytes l1 + bytes l2.
Proof using.
  unfold chunk_bytes. induction l1 as [|p l1 IH]; [done|]. cbn [app foldr]. rewrite IH. lia.
Qed.

Lemma bytes_one p : bytes [p] = len p.
Proof using. unfold chunk_bytes. cbn [foldr]. lia. Qed.

Lemma push_part_spec st p :
  0 ≤ len p → (is_Some (streamed p) → len p ≤ max_inline) →
  ck_bytes st = bytes (ck_open st) →
  0 ≤ ck_bytes st → Forall chunk_ok (ck_closed st) → chunk_ok (ck_open st) →
  let st' := push_part max_inline call_len diff_len stats_len questions_len st p in
  concat (ck_closed st') ++ ck_open st' = (concat (ck_closed st) ++ ck_open st) ++ [p] ∧
  ck_bytes st' = bytes (ck_open st') ∧
  0 ≤ ck_bytes st' ∧ Forall chunk_ok (ck_closed st') ∧ chunk_ok (ck_open st').
Proof using.
  intros Hp Hs Hb H0 Hc Ho st'. subst st'. unfold push_part.
  destruct (Z.ltb_spec 0 (ck_bytes st)); cbn [andb];
    [destruct (Z.ltb_spec max_inline (ck_bytes st + len p))|]; cbn [ck_closed ck_open ck_bytes].
  - split_and!; try done.
    + by rewrite concat_app, <- app_assoc; cbn; rewrite app_nil_r, <- app_assoc.
    + rewrite bytes_one. lia.
    + apply Forall_app. split; [done|]. constructor; [done|constructor].
    + destruct (streamed p) eqn:E.
      * left. rewrite bytes_one. specialize (Hs ltac:(by eexists)). lia.
      * right. by exists [], p.
  - split_and!; try done; [by rewrite app_assoc| |lia|].
    + rewrite chunk_bytes_app, bytes_one. lia.
    + left. rewrite chunk_bytes_app, bytes_one. lia.
  - split_and!; try done; [by rewrite app_assoc| |lia|].
    + rewrite chunk_bytes_app, bytes_one. lia.
    + destruct (streamed p) eqn:E.
      * left. rewrite chunk_bytes_app, bytes_one. specialize (Hs ltac:(by eexists)). lia.
      * right. exists (ck_open st), p. split_and!; [done|lia|done].
Qed.

Lemma fold_push_spec parts st :
  Forall (λ p, 0 ≤ len p ∧ (is_Some (streamed p) → len p ≤ max_inline)) parts →
  ck_bytes st = bytes (ck_open st) → 0 ≤ ck_bytes st → Forall chunk_ok (ck_closed st) → chunk_ok (ck_open st) →
  let st' := fold_left (push_part max_inline call_len diff_len stats_len questions_len) parts st in
  concat (ck_closed st') ++ ck_open st' = (concat (ck_closed st) ++ ck_open st) ++ parts ∧
  Forall chunk_ok (ck_closed st') ∧ chunk_ok (ck_open st').
Proof using.
  intros H. revert st. induction H as [|p parts [Hp Hs] _ IH]; intros st Hb H0 Hc Ho.
  - cbn. by rewrite app_nil_r.
  - destruct (push_part_spec st p Hp Hs Hb H0 Hc Ho) as (E1 & E2 & E3 & E4 & E5).
    destruct (IH _ E2 E3 E4 E5) as (F1 & F2 & F3). cbn [fold_left]. split_and!; [|done|done].
    cbv zeta in F1. rewrite F1, E1, <- (app_assoc _ [p]). done.
Qed.

End SplitSpec.

Definition ex_parts : list MessagePart :=
  [PText "t0" "abcdefghij"; PError "e1" "x"; PReasoning "r2" "uvw"; PInput "in-1" "1" [] false].
Definition ex_questions (_ : list UserInputQuestion) : Z := 9.


(** ** Privacy *)

(** What the badge keeps of one input key. *)
Definition badge_entry (input : Value) (key : string) : option (string * Value) :=
  value ← value_get input key ≫= as_str;
  if bool_decide (trim value = "") then None else Some (key, Str (trim value)).

Lemma badge_entry_shape input key :
  badge_entry input key = None ∨
  ∃ v, badge_entry input key = Some (key, Str v) ∧ trim v = v ∧ v ≠ "".
Proof.
  unfold badge_entry. destruct (value_get input key ≫= as_str) as [v|]; cbn; [|auto].
  case_bool_decide; [auto|]. right. exists (trim v). by rewrite trim_idem.
Qed.

Definition badge_of (input : Value) (keys : list string) : list (string * Value) :=
  omap (badge_entry input) keys.

Definition badge (input : Value) : list (string * Value) := badge_of input SUBAGENT_INPUT_KEEP.

Lemma badge_of_cons input k keys :
  badge_of input (k :: keys) =
    match badge_entry input k with Some e => e :: badge_of input keys | None => badge_of input keys end.
Proof. done. Qed.

Lemma badge_of_get input keys key :
  obj_get (badge_of input keys) key = if decide (key ∈ keys) then snd <$> badge_entry input key else None.
Proof.
  induction keys as [|k keys IH]; [done|]. rewrite badge_of_cons.
  destruct (badge_entry_shape input k) as [E|(v & E & _)]; rewrite E.
  - rewrite IH. destruct (decide (key = k)) as [->|Hne].
    + rewrite (decide_True (P:=k ∈ k :: keys)) by left. rewrite E. by destruct (decide _).
    + destruct (decide (key ∈ keys)), (decide (key ∈ k :: keys)); set_solver.
  - cbn [obj_get]. destruct (String.eqb_spec k key) as [->|Hne].
    + rewrite decide_True by left. by rewrite E.
    + rewrite IH. destruct (decide (key ∈ keys)), (decide (key ∈ k :: keys)); set_solver.
Qed.

Lemma badge_idempotent input : badge (Object (badge input)) = badge input.
Proof.
  unfold badge. set (keys := SUBAGENT_INPUT_KEEP).
  enough (∀ l, (∀ k, k ∈ l → k ∈ keys) → badge_of (Object (badge_of input keys)) l = badge_of input l) as H
    by (by apply H).
  induction l as [|k l IH]; intros Hl; [done|]. rewrite !badge_of_cons, IH by (intros; apply Hl; by right).
  assert (badge_entry (Object (badge_of input keys)) k = badge_entry input k) as ->; [|done].
  unfold badge_entry at 1. cbn [value_get]. rewrite badge_of_get, decide_True by (apply Hl; left).
  destruct (badge_entry_shape input k) as [E|(v & E & Ht & Hn)]; rewrite E; [done|].
  cbn. by rewrite Ht, bool_decide_eq_false_2.
Qed.

Lemma spawn_badge_eq c :
  spawn_badge c =
    if is_subagent_spawn c then
      input ← call_input c; if bool_decide (badge input = []) then None else Some (Object (badge input))
    else None.
Proof. done. Qed.

Lemma spawn_badge_idempotent c c' :
  is_subagent_spawn c' = is_subagent_spawn c → call_input c' = spawn_badge c →
  spawn_badge c' = spawn_badge c.
Proof.
  intros Hs Hi. rewrite (spawn_badge_eq c'), Hs, Hi, spawn_badge_eq.
  destruct (is_subagent_spawn c); [|done]. destruct (call_input c) as [input|]; [|done]. cbn [mbind option_bind].
  destruct (decide (badge input = [])) as [E|E].
  - by rewrite (bool_decide_eq_true_2 _ E).
  - rewrite (bool_decide_eq_false_2 _ E). cbn [mbind option_bind]. rewrite badge_idempotent.
    by rewrite (bool_decide_eq_false_2 _ E).
Qed.

(** C31: sanitizing a call twice is sanitizing it once; a sanitized call carries no
    file content, no edited text and no prompt, and of a free-form input at most
    the whitelisted identifiers of a subagent spawn, trimmed. *)
Theorem sanitize_exact c :
  sanitize_tool_call (sanitize_tool_call c) = sanitize_tool_call c ∧
  match sanitize_tool_call c with
  | WriteFile _ content => content = None
  | EditFile _ old new => old = None ∧ new = None
  | WebFetch _ prompt => prompt = None
  | Mcp _ _ (Some input) | Unknown _ (Some input) =>
      is_subagent_spawn c = true ∧
      ∃ kept, input = Object kept ∧ kept ≠ [] ∧
        ∀ k v, (k, v) ∈ kept → k ∈ SUBAGENT_INPUT_KEEP ∧ ∃ s, v = Str s ∧ trim s = s ∧ s ≠ ""
  | _ => True
  end.
Proof.
  assert (∀ input, spawn_badge c = Some input → is_subagent_spawn c = true ∧
    ∃ kept, input = Object kept ∧ kept ≠ [] ∧
      ∀ k v, (k, v) ∈ kept → k ∈ SUBAGENT_INPUT_KEEP ∧ ∃ s, v = Str s ∧ trim s = s ∧ s ≠ "") as Hb.
  { intros input. rewrite spawn_badge_eq. destruct (is_subagent_spawn c); [|done].
    destruct (call_input c) as [i|]; [|done]. cbn [mbind option_bind]. case_bool_decide; [done|].
    intros [= <-]. split; [done|]. exists (badge i). split_and!; [done|done|].
    intros k v Hin. unfold badge in Hin. apply list_elem_of_omap in Hin as (key & Hkey & He).
    destruct (badge_entry_shape i key) as [E|(s & E & Ht & Hn)]; rewrite E in He; [done|].
    injection He as <- <-. split; [done|]. by exists s. }
  destruct c; cbn [sanitize_tool_call]; try done.
  - split.
    + f_equal. by apply spawn_badge_idempotent.
    + destruct (spawn_badge _) as [v|]; [by apply Hb|done].
  - split.
    + f_equal. by apply spawn_badge_idempotent.
    + destruct (spawn_badge _) as [v|]; [by apply Hb|done].
Qed.
