(* ===== verification/ToolJson.v ===== *)
(** * ToolJson: the JSON of tool calls, diffs and questions

    The serialized forms that serde derives for the types of
    crates/proto/src/agent.rs and crates/doc/src/parts.rs that a session
    document stores.  A derived struct reads an object by its field names or an
    array by position; an enum of unit variants reads its name, or an object
    with the name as its only key. *)

From S2P Require Import Prelude Text Json Entities Agent Parts.

(** ** Derived deserializers *)

(** Where a field of a name is in the array form. *)
Fixpoint index_in (names : list string) (k : string) : option nat :=
  match names with
  | [] => None
  | n :: names => if String.eqb n k then Some O else S <$> index_in names k
  end.

(** The fields of a struct: [names] in declaration order, of which an array
    must hold at least [least]. *)
Definition struct_of (names : list string) (least : nat) (v : Value)
    : option (string → option Value) :=
  match v with
  | Object m => Some (obj_get m)
  | Array l =>
      if (least <=? length l)%nat && (length l <=? length names)%nat
      then Some (λ k, i ← index_in names k; l !! i)
      else None
  | _ => None
  end.

Definition enum_of {A} (name : A → string) (all : list A) (v : Value) : option A :=
  match v with
  | Object [(k, Null)] => by_name name all (Str k)
  | _ => by_name name all v
  end.

Definition as_u64 (v : Value) : option Z :=
  match v with
  | Number n => if (0 <=? n) && (n <? 2 ^ 64) then Some n else None
  | _ => None
  end.

Definition as_list {A} (dec : Value → option A) (v : Value) : option (list A) :=
  match v with Array l => mapM dec l | _ => None end.

(** A field that is not written when absent. *)
Definition opt_field (k : string) (v : option Value) : list (string * Value) :=
  match v with Some v => [(k, v)] | None => [] end.

(** ** Todo items *)

Definition todo_status_name (s : TodoStatus) : string :=
  match s with TodoPending => "pending" | TodoInProgress => "inProgress" | TodoCompleted => "completed" end.

Definition todo_status_of : Value → option TodoStatus :=
  enum_of todo_status_name [TodoPending; TodoInProgress; TodoCompleted].

Definition lenient_todo_status (v : option Value) : option TodoStatus :=
  match v with None | Some Null => None | Some v => todo_status_of v end.

Definition todo_to_value (t : TodoItem) : Value :=
  Object ([("text", Str (td_text t)); ("done", Bool (td_done t))]
          ++ opt_field "status" ((λ s, Str (todo_status_name s)) <$> td_status t)).

Definition todo_from_value (v : Value) : option TodoItem :=
  f ← struct_of ["text"; "done"; "status"] 2 v;
  text ← req as_str (f "text");
  done ← req as_bool (f "done");
  Some (mkTodo text done (lenient_todo_status (f "status"))).

(** ** Tool calls

    Tagged by [kind]; the variants keep the names of their fields. *)

Definition call_to_value (c : ToolCall) : Value :=
  let tagged kind fs := Object (("kind", Str kind) :: fs) in
  match c with
  | Exec command => tagged "exec" [("command", Str command)]
  | ReadFile path => tagged "readFile" [("path", Str path)]
  | WriteFile path content => tagged "writeFile" (("path", Str path) :: opt_field "content" (Str <$> content))
  | EditFile path old new =>
      tagged "editFile" (("path", Str path) :: opt_field "old_string" (Str <$> old)
        ++ opt_field "new_string" (Str <$> new))
  | ApplyPatch path => tagged "applyPatch" (opt_field "path" (Str <$> path))
  | Search pattern path => tagged "search" (("pattern", Str pattern) :: opt_field "path" (Str <$> path))
  | Glob pattern => tagged "glob" [("pattern", Str pattern)]
  | WebFetch url prompt => tagged "webFetch" (("url", Str url) :: opt_field "prompt" (Str <$> prompt))
  | WebSearch query => tagged "webSearch" [("query", Str query)]
  | Todo items => tagged "todo" [("items", Array (todo_to_value <$> items))]
  | Mcp server tool input =>
      tagged "mcp" ([("server", Str server); ("tool", Str tool)] ++ opt_field "input" input)
  | Unknown name input => tagged "unknown" (("name", Str name) :: opt_field "input" input)
  end.

(** The tag and the rest: an object with the key, or an array that starts with
    the tag. *)
Definition tagged_of (v : Value) : option (string * Value) :=
  match v with
  | Object m => kind ← req as_str (obj_get m "kind"); Some (kind, v)
  | Array (Str kind :: l) => Some (kind, Array l)
  | _ => None
  end.

Definition call_from_value (v : Value) : option ToolCall :=
  '(kind, v) ← tagged_of v;
  if String.eqb kind "exec" then
    f ← struct_of ["command"] 1 v; Exec <$> req as_str (f "command")
  else if String.eqb kind "readFile" then
    f ← struct_of ["path"] 1 v; ReadFile <$> req as_str (f "path")
  else if String.eqb kind "writeFile" then
    f ← struct_of ["path"; "content"] 2 v;
    path ← req as_str (f "path"); WriteFile path <$> opt as_str (f "content")
  else if String.eqb kind "editFile" then
    f ← struct_of ["path"; "old_string"; "new_string"] 3 v;
    path ← req as_str (f "path"); old ← opt as_str (f "old_string");
    EditFile path old <$> opt as_str (f "new_string")
  else if String.eqb kind "applyPatch" then
    f ← struct_of ["path"] 1 v; ApplyPatch <$> opt as_str (f "path")
  else if String.eqb kind "search" then
    f ← struct_of ["pattern"; "path"] 2 v;
    pattern ← req as_str (f "pattern"); Search pattern <$> opt as_str (f "path")
  else if String.eqb kind "glob" then
    f ← struct_of ["pattern"] 1 v; Glob <$> req as_str (f "pattern")
  else if String.eqb kind "webFetch" then
    f ← struct_of ["url"; "prompt"] 2 v;
    url ← req as_str (f "url"); WebFetch url <$> opt as_str (f "prompt")
  else if String.eqb kind "webSearch" then
    f ← struct_of ["query"] 1 v; WebSearch <$> req as_str (f "query")
  else if String.eqb kind "todo" then
    f ← struct_of ["items"] 0 v; Todo <$> dflt [] (as_list todo_from_value) (f "items")
  else if String.eqb kind "mcp" then
    f ← struct_of ["server"; "tool"; "input"] 3 v;
    server ← req as_str (f "server"); tool ← req as_str (f "tool");
    Mcp server tool <$> opt Some (f "input")
  else if String.eqb kind "unknown" then
    f ← struct_of ["name"; "input"] 2 v;
    name ← req as_str (f "name"); Unknown name <$> opt Some (f "input")
  else None.

(** ** Diffs, stats and questions *)

Definition diff_to_value (d : ToolDiff) : Value :=
  Object (("path", Str (df_path d)) :: opt_field "oldText" (Str <$> df_old_text d)
          ++ [("newText", Str (df_new_text d))]).

Definition diff_from_value (v : Value) : option ToolDiff :=
  f ← struct_of ["path"; "oldText"; "newText"] 3 v;
  path ← req as_str (f "path"); old ← opt as_str (f "oldText"); new ← req as_str (f "newText");
  Some (mkDiff path old new).

Definition stat_to_value (s : ToolDiffStat) : Value :=
  Object [("path", Str (ts_path s)); ("additions", Number (ts_additions s));
          ("deletions", Number (ts_deletions s))].

Definition stat_from_value (v : Value) : option ToolDiffStat :=
  f ← struct_of ["path"; "additions"; "deletions"] 3 v;
  path ← req as_str (f "path"); additions ← req as_u64 (f "additions");
  deletions ← req as_u64 (f "deletions");
  Some (mkStat path additions deletions).

Definition question_to_value (q : UserInputQuestion) : Value :=
  Object ([("id", Str (uq_id q)); ("header", Str (uq_header q)); ("question", Str (uq_question q));
           ("options", Array (Str <$> uq_options q)); ("multiSelect", Bool (uq_multi_select q))]
          ++ opt_field "prefill" (Str <$> uq_prefill q) ++ [("multiline", Bool (uq_multiline q))]).

Definition question_from_value (v : Value) : option UserInputQuestion :=
  f ← struct_of ["id"; "header"; "question"; "options"; "multiSelect"; "prefill"; "multiline"] 4 v;
  id ← req as_str (f "id"); header ← req as_str (f "header"); question ← req as_str (f "question");
  options ← req as_strs (f "options"); multi ← dflt false as_bool (f "multiSelect");
  prefill ← opt as_str (f "prefill"); multiline ← dflt false as_bool (f "multiline");
  Some (mkQuestion id header question options multi prefill multiline).

(** ** What is written reads back *)

(** An input of JSON null reads back as no input. *)
Definition call_shown (c : ToolCall) : ToolCall :=
  match c with
  | Mcp server tool (Some Null) => Mcp server tool None
  | Unknown name (Some Null) => Unknown name None
  | c => c
  end.

Definition stat_ok (s : ToolDiffStat) : Prop := 0 ≤ ts_additions s < 2 ^ 64 ∧ 0 ≤ ts_deletions s < 2 ^ 64.

Lemma mapM_fmap_back {A B} (enc : A → B) (dec : B → option A) l :
  Forall (λ x, dec (enc x) = Some x) l → mapM dec (enc <$> l) = Some l.
Proof. induction 1 as [|x l Hx _ IH]; [done|]. cbn. rewrite Hx. cbn. change (list_fmap A B enc l) with (enc <$> l). by rewrite IH. Qed.

Lemma as_strs_back l : as_strs (Array (Str <$> l)) = Some l.
Proof. apply mapM_fmap_back. by apply Forall_true. Qed.

Lemma todo_back t : todo_from_value (todo_to_value t) = Some t.
Proof. by destruct t as [text d [[]|]]. Qed.

Lemma call_back c : call_from_value (call_to_value c) = Some (call_shown c).
Proof.
  destruct c as [s|s|s [o|]|s [o|] [n|]|[o|]|s [o|]|s|s [o|]|s|l|s t [[]|]|s [[]|]]; try reflexivity.
  cbn. by rewrite (mapM_fmap_back todo_to_value todo_from_value l) by (apply Forall_true, todo_back).
Qed.

Lemma diff_back d : diff_from_value (diff_to_value d) = Some d.
Proof. by destruct d as [p [o|] n]. Qed.

Lemma as_u64_back n : 0 ≤ n < 2 ^ 64 → as_u64 (Number n) = Some n.
Proof. intros [H1 H2]. unfold as_u64. rewrite (proj2 (Z.leb_le _ _) H1), (proj2 (Z.ltb_lt _ _) H2). done. Qed.

Lemma stat_back s : stat_ok s → stat_from_value (stat_to_value s) = Some s.
Proof.
  intros [H1 H2]. destruct s as [p a d]. cbn in H1, H2. unfold stat_from_value, stat_to_value.
  cbn [struct_of mbind option_bind obj_get String.eqb Ascii.eqb Bool.eqb req as_str ts_path ts_additions ts_deletions].
  by rewrite (as_u64_back a), (as_u64_back d).
Qed.

Lemma question_back q : question_from_value (question_to_value q) = Some q.
Proof.
  destruct q as [i h t o m [p|] l]; unfold question_from_value, question_to_value;
    cbn -[as_strs]; by rewrite as_strs_back.
Qed.

