(* ===== verification/Schema.v ===== *)
(** * Schema: the messages of a session document

    Models crates/doc/src/schema.rs: the flat form of a part, the maps and
    lists the document stores, the tolerant reader, the operations on stored
    messages and the incremental writer of a streaming entry.  A LoroText and a
    LoroList are the contents they have on one device; a value stored in a
    container reads back as it is.  The commands of the document are in
    Commands.v and HostDrain.v, its queue in Queue.v. *)

From S2P Require Import Prelude Text Json Entities Agent Parts ToolJson.

(** ** Entries and flat parts *)

Inductive MessageRole := RoleUser | RoleAssistant | RoleSystem.

#[export] Instance MessageRole_eq_dec : EqDecision MessageRole.
Proof. solve_decision. Defined.

Record SessionMessageEntry := mkMessage {
  me_id : string;
  me_role : MessageRole;
  me_parts : list MessagePart;
  me_created_at : Z;
  me_device_id : string;
  me_status : option MessageStatus;
  me_continuation_of : option string;
  me_duration_ms : option Z
}.

#[export] Instance SessionMessageEntry_eq_dec : EqDecision SessionMessageEntry.
Proof. solve_decision. Defined.

Record DocPartJson := mkDocPart {
  dp_id : string;
  dp_kind : string;
  dp_path : option string;
  dp_name : option string;
  dp_mime_type : option string;
  dp_text : option string;
  dp_reasoning : option string;
  dp_call : option Value;
  dp_is_error : option bool;
  dp_questions : option Value;
  dp_resolved : option bool;
  dp_message : option string;
  dp_source_chat_id : option string;
  dp_source_title : option string;
  dp_output : option string;
  dp_diff : option Value;
  dp_output_ref : option string;
  dp_output_bytes : option Z;
  dp_diff_ref : option string;
  dp_diff_stats : option Value;
  dp_subagent_ref : option string;
  dp_subagent_status : option string;
  dp_subagent_tail : option string
}.

Definition subagent_status_name (s : SubagentStatus) : string :=
  match s with SubRunning => "running" | SubDone => "done" | SubFailed => "failed" end.

Definition subagent_status_of (s : string) : option SubagentStatus :=
  find (λ x, String.eqb (subagent_status_name x) s) [SubRunning; SubDone; SubFailed].

Definition stats_to_value (l : list ToolDiffStat) : Value := Array (stat_to_value <$> l).
Definition questions_to_value (l : list UserInputQuestion) : Value := Array (question_to_value <$> l).

Definition to_doc_part (part : MessagePart) : DocPartJson :=
  match part with
  | PImage id path name mime_type =>
      mkDocPart id "image" (Some path) (Some name) (Some mime_type)
        None None None None None None None None None None None None None None None None None None
  | PText id text =>
      mkDocPart id "text" None None None (Some text)
        None None None None None None None None None None None None None None None None None
  | PReasoning id text =>
      mkDocPart id "reasoning" None None None None (Some text)
        None None None None None None None None None None None None None None None None
  | PTool t =>
      mkDocPart (tp_id t) "tool" None None None None None (Some (call_to_value (tp_call t)))
        (if tp_resolved t then Some (tp_is_error t) else None) None None None None None
        (tp_output t) (diff_to_value <$> tp_diff t) (tp_output_ref t) (tp_output_bytes t)
        (tp_diff_ref t) (stats_to_value <$> tp_diff_stats t) (tp_subagent_ref t)
        (subagent_status_name <$> tp_subagent_status t) (tp_subagent_tail t)
  | PInput _ request_id questions resolved =>
      mkDocPart request_id "input" None None None None None None None
        (Some (questions_to_value questions)) (Some resolved)
        None None None None None None None None None None None None
  | PError id message =>
      mkDocPart id "error" None None None None None None None None None (Some message)
        None None None None None None None None None None None
  | PFork id source_chat_id source_title =>
      mkDocPart id "fork" None None None None None None None None None None
        (Some source_chat_id) (Some source_title) None None None None None None None None None
  end.

Definition IMAGE_TYPES : list string := ["image/png"; "image/jpeg"; "image/webp"; "image/gif"].

Definition image_part (id : string) (path name mime_type : option string) : MessagePart :=
  match path, name, mime_type with
  | Some path, Some name, Some mime_type =>
      if negb (bool_decide (path = "")) && negb (bool_decide (name = ""))
         && existsb (String.eqb mime_type) IMAGE_TYPES
      then PImage id path name mime_type
      else PError id "Generated image unavailable"
  | _, _, _ => PError id "Generated image unavailable"
  end.

Definition from_doc_part (p : DocPartJson) : MessagePart :=
  let kind := dp_kind p in
  if String.eqb kind "image" then image_part (dp_id p) (dp_path p) (dp_name p) (dp_mime_type p)
  else if String.eqb kind "tool" then
    match dp_call p ≫= call_from_value with
    | Some call =>
        PTool (mkTool (dp_id p) call (default false (dp_is_error p))
          (bool_decide (is_Some (dp_is_error p))) (dp_output p) (dp_diff p ≫= diff_from_value)
          (dp_output_ref p) (dp_output_bytes p) (dp_diff_ref p)
          (dp_diff_stats p ≫= as_list stat_from_value) (dp_subagent_ref p)
          (dp_subagent_status p ≫= subagent_status_of) (dp_subagent_tail p))
    | None => PText (dp_id p) ""
    end
  else if String.eqb kind "input" then
    PInput (dp_id p) (dp_id p) (default [] (dp_questions p ≫= as_list question_from_value))
      (default false (dp_resolved p))
  else if String.eqb kind "error" then PError (dp_id p) (default "" (dp_message p))
  else if String.eqb kind "reasoning" then PReasoning (dp_id p) (default "" (dp_reasoning p))
  else if String.eqb kind "fork" then
    PFork (dp_id p) (default "" (dp_source_chat_id p)) (default "" (dp_source_title p))
  else PText (dp_id p) (default "" (dp_text p)).

(** ** Containers *)

(** A field of a part map: a value, or a text container. *)
Inductive PField := FVal (v : Value) | FText (text : string).

Inductive PItem := PartMap (m : gmap string PField) | PartOther (v : Value).

(** A field of an entry map: a value, or the list of parts. *)
Inductive EField := EVal (v : Value) | EParts (l : list PItem).

Inductive MItem := EntryMap (m : gmap string EField) | EntryOther (v : Value).

Record SessionDoc := mkSessionDoc { sd_meta : gmap string Value; sd_messages : list MItem }.

Definition set_meta (m : gmap string Value) (d : SessionDoc) : SessionDoc := mkSessionDoc m (sd_messages d).
Definition set_messages (l : list MItem) (d : SessionDoc) : SessionDoc := mkSessionDoc (sd_meta d) l.

(** [get_deep_value().to_json_value()] *)
Definition deep_field (f : PField) : Value := match f with FVal v => v | FText t => Str t end.

Definition deep_part (p : PItem) : Value :=
  match p with
  | PartMap m => Object (map_to_list (deep_field <$> m))
  | PartOther v => v
  end.

Definition deep_entry_field (f : EField) : Value :=
  match f with EVal v => v | EParts l => Array (deep_part <$> l) end.

Definition deep_entry (e : MItem) : Value :=
  match e with
  | EntryMap m => Object (map_to_list (deep_entry_field <$> m))
  | EntryOther v => v
  end.

(** ** Writing *)

Definition put_opt {A} (k : string) (enc : A → PField) (v : option A) (m : gmap string PField)
    : gmap string PField :=
  match v with Some v => <[k := enc v]> m | None => m end.

Definition str_field (s : string) : PField := FVal (Str s).
Definition bool_field (b : bool) : PField := FVal (Bool b).

(** [output_bytes as i64] *)
Definition num_field (n : Z) : PField := FVal (Number (wrap_i64 n)).

(** The fields that an update of a part may write. *)
Definition put_live_fields (p : DocPartJson) (m : gmap string PField) : gmap string PField :=
  put_opt "subagentTail" str_field (dp_subagent_tail p)
  (put_opt "subagentStatus" str_field (dp_subagent_status p)
  (put_opt "subagentRef" str_field (dp_subagent_ref p)
  (put_opt "diffStats" FVal (dp_diff_stats p)
  (put_opt "diffRef" str_field (dp_diff_ref p)
  (put_opt "outputBytes" num_field (dp_output_bytes p)
  (put_opt "outputRef" str_field (dp_output_ref p)
  (put_opt "diff" FVal (dp_diff p)
  (put_opt "output" str_field (dp_output p)
  (put_opt "message" str_field (dp_message p)
  (put_opt "resolved" bool_field (dp_resolved p)
  (put_opt "questions" FVal (dp_questions p)
  (put_opt "isError" bool_field (dp_is_error p)
  (put_opt "call" FVal (dp_call p)
  (put_opt "mimeType" str_field (dp_mime_type p)
  (put_opt "name" str_field (dp_name p)
  (put_opt "path" str_field (dp_path p) m)))))))))))))))).

Definition push_part (part : MessagePart) : PItem :=
  let p := to_doc_part part in
  let m := <["kind" := str_field (dp_kind p)]> (<["id" := str_field (dp_id p)]> ∅) in
  let m := put_opt "reasoning" FText (dp_reasoning p) (put_opt "text" FText (dp_text p) m) in
  PartMap (put_opt "sourceTitle" str_field (dp_source_title p)
    (put_opt "sourceChatId" str_field (dp_source_chat_id p) (put_live_fields p m))).

(** [LoroText::update], where the field is a text. *)
Definition rewrite_text (k : string) (text : option string) (m : gmap string PField) : gmap string PField :=
  match text, m !! k with
  | Some text, Some (FText _) => <[k := FText text]> m
  | _, _ => m
  end.

Definition update_part_fields (part : MessagePart) (m : gmap string PField) : gmap string PField :=
  let p := to_doc_part part in
  rewrite_text "reasoning" (dp_reasoning p) (rewrite_text "text" (dp_text p) (put_live_fields p m)).

Definition role_name (r : MessageRole) : string :=
  match r with RoleUser => "user" | RoleAssistant => "assistant" | RoleSystem => "system" end.

Definition message_status_str (s : MessageStatus) : string :=
  match s with Streaming => "streaming" | Complete => "complete" | Aborted => "aborted" end.

Definition put_entry {A} (k : string) (enc : A → Value) (v : option A) (m : gmap string EField)
    : gmap string EField :=
  match v with Some v => <[k := EVal (enc v)]> m | None => m end.

Definition write_entry_scalar_fields (e : SessionMessageEntry) : gmap string EField :=
  put_entry "durationMs" Number (me_duration_ms e)
  (put_entry "continuationOf" Str (me_continuation_of e)
  (put_entry "status" (λ s, Str (message_status_str s)) (me_status e)
  (<["deviceId" := EVal (Str (me_device_id e))]>
  (<["createdAt" := EVal (Number (me_created_at e))]>
  (<["role" := EVal (Str (role_name (me_role e)))]>
  (<["id" := EVal (Str (me_id e))]> ∅)))))).

Definition push_message (e : SessionMessageEntry) (d : SessionDoc) : SessionDoc :=
  set_messages (sd_messages d ++
    [EntryMap (<["parts" := EParts (push_part <$> me_parts e)]> (write_entry_scalar_fields e))]) d.

(** ** Reading *)

Definition DOC_PART_FIELDS : list string :=
  ["id"; "kind"; "path"; "name"; "mimeType"; "text"; "reasoning"; "call"; "isError"; "questions";
   "resolved"; "message"; "sourceChatId"; "sourceTitle"; "output"; "diff"; "outputRef"; "outputBytes";
   "diffRef"; "diffStats"; "subagentRef"; "subagentStatus"; "subagentTail"].

Definition doc_part_from_value (v : Value) : option DocPartJson :=
  f ← struct_of DOC_PART_FIELDS 2 v;
  id ← req as_str (f "id");
  kind ← req as_str (f "kind");
  path ← opt as_str (f "path");
  name ← opt as_str (f "name");
  mime_type ← opt as_str (f "mimeType");
  text ← opt as_str (f "text");
  reasoning ← opt as_str (f "reasoning");
  call ← opt Some (f "call");
  is_error ← opt as_bool (f "isError");
  questions ← opt Some (f "questions");
  resolved ← opt as_bool (f "resolved");
  message ← opt as_str (f "message");
  source_chat_id ← opt as_str (f "sourceChatId");
  source_title ← opt as_str (f "sourceTitle");
  output ← opt as_str (f "output");
  diff ← opt Some (f "diff");
  output_ref ← opt as_str (f "outputRef");
  output_bytes ← opt as_u64 (f "outputBytes");
  diff_ref ← opt as_str (f "diffRef");
  diff_stats ← opt Some (f "diffStats");
  subagent_ref ← opt as_str (f "subagentRef");
  subagent_status ← opt as_str (f "subagentStatus");
  subagent_tail ← opt as_str (f "subagentTail");
  Some (mkDocPart id kind path name mime_type text reasoning call is_error questions resolved message
    source_chat_id source_title output diff output_ref output_bytes diff_ref diff_stats subagent_ref
    subagent_status subagent_tail).

Definition role_of : Value → option MessageRole := enum_of role_name [RoleUser; RoleAssistant; RoleSystem].
Definition message_status_of : Value → option MessageStatus :=
  enum_of message_status_str [Streaming; Complete; Aborted].

Definition RAW_ENTRY_FIELDS : list string :=
  ["id"; "role"; "parts"; "createdAt"; "deviceId"; "status"; "continuationOf"; "durationMs"].

(** The strict shape of an entry. *)
Definition raw_entry (v : Value) : option SessionMessageEntry :=
  f ← struct_of RAW_ENTRY_FIELDS 5 v;
  id ← req as_str (f "id");
  role ← req role_of (f "role");
  parts ← dflt [] (as_list doc_part_from_value) (f "parts");
  created_at ← req as_i64 (f "createdAt");
  device_id ← req as_str (f "deviceId");
  status ← opt message_status_of (f "status");
  continuation_of ← opt as_str (f "continuationOf");
  duration_ms ← opt as_i64 (f "durationMs");
  Some (mkMessage id role (from_doc_part <$> parts) created_at device_id status continuation_of duration_ms).

Definition salvage_part (part : Value) (entry_id : string) (ix : nat) : option MessagePart :=
  obj ← as_object part;
  let id := default (entry_id +:+ "#recovered-" +:+ show_Z (Z.of_nat ix)) (obj_get obj "id" ≫= as_str) in
  let field k := obj_get obj k ≫= as_str in
  if bool_decide (field "kind" = Some "image")
  then Some (image_part id (field "path") (field "name") (field "mimeType"))
  else match field "reasoning" with
  | Some reasoning => Some (PReasoning id reasoning)
  | None =>
  match field "text" with
  | Some text => Some (PText id text)
  | None =>
  match obj_get obj "call" ≫= call_from_value with
  | Some call =>
      Some (PTool (mkTool id call (default false (obj_get obj "isError" ≫= as_bool))
        (default true (obj_get obj "resolved" ≫= as_bool)) (field "output")
        None None None None None None None None))
  | None => PError id <$> field "message"
  end end end.

Section Read.
(** The text of the hash that stands in for a missing id. *)
Variable stable_hash : Value → string.

Definition salvage_parts (id : string) (parts : list Value) : list MessagePart :=
  omap Datatypes.id (imap (λ ix part,
    match doc_part_from_value part with
    | Some p => Some (from_doc_part p)
    | None => salvage_part part id ix
    end) parts).

Definition salvage_entry (v : Value) : option SessionMessageEntry :=
  obj ← as_object v;
  let id := default ("recovered-" +:+ stable_hash v) (obj_get obj "id" ≫= as_str) in
  Some (mkMessage id
    (default RoleAssistant (obj_get obj "role" ≫= role_of))
    (match obj_get obj "parts" with Some (Array parts) => salvage_parts id parts | _ => [] end)
    (default 0 (obj_get obj "createdAt" ≫= as_i64))
    (default "" (obj_get obj "deviceId" ≫= as_str))
    (obj_get obj "status" ≫= message_status_of)
    (obj_get obj "continuationOf" ≫= as_str)
    (obj_get obj "durationMs" ≫= as_i64)).

Definition entry_from_json (v : Value) : option SessionMessageEntry :=
  match raw_entry v with Some e => Some e | None => salvage_entry v end.

Definition read_entries (d : SessionDoc) : list SessionMessageEntry :=
  omap (λ e, entry_from_json (deep_entry e)) (sd_messages d).
End Read.

(** ** Continuations and tails *)

Definition extend (parts : list MessagePart) (duration : option Z) (e : SessionMessageEntry) : SessionMessageEntry :=
  mkMessage (me_id e) (me_role e) (me_parts e ++ parts) (me_created_at e) (me_device_id e) (me_status e)
    (me_continuation_of e) (match duration with Some _ => duration | None => me_duration_ms e end).

(** The entries so far, and where the last root of each id is. *)
Definition join_step (st : list SessionMessageEntry * gmap string nat) (e : SessionMessageEntry)
    : list SessionMessageEntry * gmap string nat :=
  let '(out, root_index) := st in
  match me_continuation_of e with
  | Some root =>
      match root_index !! root with
      | Some i => (alter (extend (me_parts e) (me_duration_ms e)) i out, root_index)
      | None => (out ++ [e], root_index)
      end
  | None => (out ++ [e], <[me_id e := length out]> root_index)
  end.

Definition join_continuation_entries (entries : list SessionMessageEntry) : list SessionMessageEntry :=
  if existsb (λ e, bool_decide (is_Some (me_continuation_of e))) entries
  then (fold_left join_step entries ([], ∅)).1
  else entries.

Definition TAIL_MESSAGE_COUNT : nat := 64.
Definition SESSION_SCHEMA_VERSION : Z := 1.

Definition chat_id (d : SessionDoc) : option string := sd_meta d !! "chatId" ≫= as_str.

Record SessionTail := mkTail_ {
  st_chat_id : string;
  st_schema_version : Z;
  st_messages : list SessionMessageEntry;
  st_total_messages : nat;
  st_updated_at : Z
}.

Section Tails.
Variable stable_hash : Value → string.
(** What the shallow value of a map shows for a container in it. *)
Variable container_id : string.

Definition shallow_field (f : EField) : Value := match f with EVal v => v | EParts _ => Str container_id end.

(** The value of an entry with the last parts that still fit, and what is left
    of the budget. *)
Definition opening_value (m : gmap string EField) (remaining : nat) : Value * nat :=
  let '(tail, remaining) :=
    match m !! "parts" with
    | Some (EParts parts) =>
        let count := (remaining `min` length parts)%nat in
        (deep_part <$> drop (length parts - count) parts, (remaining - (count `max` 1) `min` remaining)%nat)
    | _ => ([], (remaining - 1)%nat)
    end in
  (Object (map_to_list (<["parts" := Array tail]> (shallow_field <$> m))), remaining).

(** The walk from the newest entry back. *)
Fixpoint opening_walk (newest_first : list MItem) (remaining : nat) : list SessionMessageEntry :=
  match newest_first, remaining with
  | [], _ | _, O => []
  | EntryOther _ :: rest, _ => opening_walk rest remaining
  | EntryMap m :: rest, _ =>
      let '(value, remaining) := opening_value m remaining in
      match entry_from_json stable_hash value with
      | Some e => e :: opening_walk rest remaining
      | None => opening_walk rest remaining
      end
  end.

Definition take_root (e : SessionMessageEntry) : SessionMessageEntry :=
  match me_continuation_of e with
  | Some root => mkMessage root (me_role e) (me_parts e) (me_created_at e) (me_device_id e) (me_status e)
                   None (me_duration_ms e)
  | None => e
  end.

Definition read_opening_tail (max_parts : nat) (d : SessionDoc) : list SessionMessageEntry :=
  join_continuation_entries
    match reverse (opening_walk (reverse (sd_messages d)) max_parts) with
    | first :: entries => take_root first :: entries
    | [] => []
    end.

Definition materialize_tail (now : Z) (tail_count : nat) (d : SessionDoc) : SessionTail :=
  let all := join_continuation_entries (read_entries stable_hash d) in
  let start := (length all - (if (tail_count =? 0)%nat then TAIL_MESSAGE_COUNT else tail_count))%nat in
  mkTail_ (default "" (chat_id d)) SESSION_SCHEMA_VERSION (drop start all) (length all) now.
End Tails.

(** ** Operations on stored messages *)

Definition init (chat_id : string) : SessionDoc :=
  mkSessionDoc (<["schemaVersion" := Number SESSION_SCHEMA_VERSION]> (<["chatId" := Str chat_id]> ∅)) [].

Definition fork_history_session (d : SessionDoc) : option string := sd_meta d !! "forkHistorySession" ≫= as_str.

Definition set_fork_history_session (session_id : string) (d : SessionDoc) : SessionDoc :=
  if bool_decide (fork_history_session d = Some session_id) then d
  else set_meta (<["forkHistorySession" := Str session_id]> (sd_meta d)) d.

Record ContextUsage := mkUsage { cu_tokens : option Z; cu_window : option Z }.

#[export] Instance ContextUsage_eq_dec : EqDecision ContextUsage.
Proof. solve_decision. Defined.

Section Usage.
(** The JSON text of a usage, and its parser. *)
Variable usage_text : ContextUsage → string.
Variable usage_parse : string → option ContextUsage.

Definition context_usage (d : SessionDoc) : option ContextUsage :=
  (sd_meta d !! "contextUsage" ≫= as_str) ≫= usage_parse.

Definition update_context_usage (tokens window : option Z) (d : SessionDoc) : SessionDoc :=
  let previous := default (mkUsage None None) (context_usage d) in
  let next := mkUsage (match tokens with Some _ => tokens | None => cu_tokens previous end)
                (match window with Some n => if 0 <? n then window else cu_window previous
                              | None => cu_window previous end) in
  if bool_decide (next = previous) then d
  else set_meta (<["contextUsage" := Str (usage_text next)]> (sd_meta d)) d.

Definition clear_context_usage (d : SessionDoc) : SessionDoc :=
  set_meta (delete "contextUsage" (sd_meta d)) d.
End Usage.

Definition entry_has_id (id : string) (e : MItem) : bool :=
  match e with
  | EntryMap m => match m !! "id" with Some (EVal (Str s)) => String.eqb s id | _ => false end
  | EntryOther _ => false
  end.

Definition part_field_is (k s : string) (m : gmap string PField) : bool :=
  match m !! k with Some (FVal (Str s')) => String.eqb s' s | _ => false end.

Definition part_has_id (id : string) (p : PItem) : bool :=
  match p with PartMap m => part_field_is "id" id m | PartOther _ => false end.

Definition entry_parts (e : MItem) : option (list PItem) :=
  match e with
  | EntryMap m => match m !! "parts" with Some (EParts l) => Some l | _ => None end
  | EntryOther _ => None
  end.

Definition set_parts (l : list PItem) (e : MItem) : MItem :=
  match e with EntryMap m => EntryMap (<["parts" := EParts l]> m) | e => e end.

Definition set_entry_field (k : string) (v : Value) (e : MItem) : MItem :=
  match e with EntryMap m => EntryMap (<[k := EVal v]> m) | e => e end.

(** The first message [f] rewrites. *)
Fixpoint first_rewrite {A} (f : A → option A) (l : list A) : option (list A) :=
  match l with
  | [] => None
  | x :: l => match f x with Some y => Some (y :: l) | None => cons x <$> first_rewrite f l end
  end.

Definition on_messages (f : list MItem → option (list MItem)) (d : SessionDoc) : SessionDoc * bool :=
  match f (sd_messages d) with Some l => (set_messages l d, true) | None => (d, false) end.

Definition set_message_status (id : string) (status : MessageStatus) : SessionDoc → SessionDoc * bool :=
  on_messages (first_rewrite (λ e,
    if entry_has_id id e then Some (set_entry_field "status" (Str (message_status_str status)) e) else None)).

Definition append_error_part (id part_id message : string) : SessionDoc → SessionDoc * bool :=
  on_messages (first_rewrite (λ e,
    if entry_has_id id e then
      parts ← entry_parts e;
      Some (if existsb (part_has_id part_id) parts then e
            else set_parts (parts ++ [push_part (PError part_id message)]) e)
    else None)).

Definition resolve_part (request_id : string) (p : PItem) : option PItem :=
  match p with
  | PartMap m =>
      if part_field_is "kind" "input" m && part_field_is "id" request_id m
      then Some (PartMap (<["resolved" := bool_field true]> m)) else None
  | PartOther _ => None
  end.

Definition resolve_input (request_id : string) : SessionDoc → SessionDoc * bool :=
  on_messages (first_rewrite (λ e,
    parts ← entry_parts e;
    parts ← first_rewrite (resolve_part request_id) parts;
    Some (set_parts parts e))).

(** The call of a spawn chip, as the part stores it. *)
Definition stored_spawn (m : gmap string PField) : bool :=
  match m !! "call" with
  | Some (FVal v) => from_option is_subagent_spawn false (call_from_value v)
  | _ => false
  end.

(** The first tool part of the id, written if it is a spawn. *)
Definition chip_part (part_id : string) (subagent_ref status tail : option string) (p : PItem)
    : option (option PItem) :=
  match p with
  | PartMap m =>
      if part_field_is "kind" "tool" m && part_field_is "id" part_id m then
        Some (if stored_spawn m then
          Some (PartMap (put_opt "subagentTail" str_field tail
            (put_opt "subagentStatus" str_field status (put_opt "subagentRef" str_field subagent_ref m))))
        else None)
      else None
  | PartOther _ => None
  end.

(** The first element [f] decides on: [None] when it decides on none,
    [Some None] when it refuses. *)
Fixpoint first_found {A} (f : A → option (option A)) (l : list A) : option (option (list A)) :=
  match l with
  | [] => None
  | x :: l =>
      match f x with
      | Some found => Some ((λ y, y :: l) <$> found)
      | None => option_map (option_map (cons x)) (first_found f l)
      end
  end.

Definition chip_entry (part_id : string) (r s t : option string) (e : MItem) : option (option MItem) :=
  match entry_parts e with
  | Some parts => option_map (option_map (λ parts, set_parts parts e)) (first_found (chip_part part_id r s t) parts)
  | None => None
  end.

Definition update_subagent_chip (part_id : string) (subagent_ref status tail : option string)
  : SessionDoc → SessionDoc * bool :=
  on_messages (λ l,
    reverse <$> mjoin (first_found (chip_entry part_id subagent_ref status tail) (reverse l))).

(** ** The writer of a streaming entry *)

Record SegmentWriter := mkWriter {
  sw_entry_index : nat;
  sw_written : list MessagePart;
  sw_created_at : Z
}.

Definition begin (entry_id device_id : string) (created_at : Z) (d : SessionDoc) : SegmentWriter * SessionDoc :=
  let e := mkMessage entry_id RoleAssistant [] created_at device_id (Some Streaming) None None in
  (mkWriter (length (sd_messages d)) [] created_at,
   set_messages (sd_messages d ++ [EntryMap (<["parts" := EParts []]> (write_entry_scalar_fields e))]) d).

Definition resume (entry_index : nat) (written : list MessagePart) (d : SessionDoc) : SegmentWriter :=
  mkWriter entry_index written
    match sd_messages d !! entry_index with
    | Some (EntryMap m) => match m !! "createdAt" with Some (EVal v) => default 0 (as_i64 v) | _ => 0 end
    | _ => 0
    end.

(** The field and the tail of a text body that grew. *)
Definition grown (prev part : MessagePart) : option (string * string) :=
  match prev, part with
  | PText _ old, PText _ new =>
      if String.prefix old new then Some ("text", str_drop (String.length old) new) else None
  | PReasoning _ old, PReasoning _ new =>
      if String.prefix old new then Some ("reasoning", str_drop (String.length old) new) else None
  | _, _ => None
  end.

Definition append_text (k delta : string) (m : gmap string PField) : result string (gmap string PField) :=
  match m !! k with
  | Some (FText t) => Ok (<[k := FText (t +:+ delta)]> m)
  | _ => Err (k +:+ " part missing LoroText")
  end.

(** A part map rewritten in place. *)
Definition at_part (i : nat) (f : gmap string PField → result string (gmap string PField)) (parts : list PItem)
    : result string (list PItem) :=
  match parts !! i with
  | Some (PartMap m) => match f m with Ok m => Ok (<[i := PartMap m]> parts) | Err e => Err e end
  | _ => Err ("part map missing at " +:+ show_Z (Z.of_nat i))
  end.

(** How the stored part [i] follows a change of the folded one. *)
Definition sync_part (i : nat) (prev part : MessagePart) (parts : list PItem) : result string (list PItem) :=
  match grown prev part with
  | Some (field, delta) =>
      if bool_decide (delta = "") then Ok parts else at_part i (append_text field delta) parts
  | None => at_part i (λ m, Ok (update_part_fields part m)) parts
  end.

(** The loop over the folded parts, with the stored parts and the mirror; what
    was written before an error stays. *)
Fixpoint sync_loop (i : nat) (folded : list MessagePart) (parts : list PItem) (written : list MessagePart)
    : list PItem * list MessagePart * result string unit :=
  match folded with
  | [] => (parts, written, Ok tt)
  | part :: folded =>
      match written !! i with
      | None => sync_loop (S i) folded (parts ++ [push_part part]) (written ++ [part])
      | Some prev =>
          if bool_decide (prev = part) then sync_loop (S i) folded parts written
          else match sync_part i prev part parts with
               | Ok parts => sync_loop (S i) folded parts (<[i := part]> written)
               | Err e => (parts, written, Err e)
               end
      end
  end.

Definition sync (folded : list MessagePart) (w : SegmentWriter) (d : SessionDoc)
    : SegmentWriter * SessionDoc * result string unit :=
  match sd_messages d !! sw_entry_index w with
  | Some (EntryMap m) =>
      match m !! "parts" with
      | Some (EParts parts) =>
          let '(parts, written, r) := sync_loop 0 folded parts (sw_written w) in
          (mkWriter (sw_entry_index w) written (sw_created_at w),
           set_messages (<[sw_entry_index w := EntryMap (<["parts" := EParts parts]> m)]> (sd_messages d)) d, r)
      | _ => (w, d, Err "streaming entry parts list missing")
      end
  | _ => (w, d, Err "streaming entry map missing")
  end.

(** [clock] is the wall clock, [None] when it is before the epoch. *)
Definition finish (clock : option Z) (folded : list MessagePart) (status : MessageStatus) (w : SegmentWriter)
    (d : SessionDoc) : SessionDoc * result string unit :=
  match sync folded w d with
  | (w, d, Ok _) =>
      match sd_messages d !! sw_entry_index w with
      | Some (EntryMap m) =>
          let m := <["status" := EVal (Str (message_status_str status))]> m in
          let m := if 0 <? sw_created_at w
                   then <["durationMs" :=
                     EVal (Number (Z.max (wrap_i64 (default (sw_created_at w) clock - sw_created_at w)) 0))]> m
                   else m in
          (set_messages (<[sw_entry_index w := EntryMap m]> (sd_messages d)) d, Ok tt)
      | _ => (d, Err "streaming entry map missing")
      end
  | (_, d, Err e) => (d, Err e)
  end.
