(* ===== verification/SchemaSpec.v ===== *)
(** * SchemaSpec: what a session document reads back

    Theorems about Schema.v: a message reads back as it was pushed, the strict
    and the tolerant reader agree and no entry costs more than its broken
    fields, continuations join onto their roots, and the opening tail is the
    end of the full read. *)

From S2P Require Import Prelude Text Json Entities Agent Parts ToolJson Schema.

(** ** Maps as objects *)

Lemma obj_get_elem l k v : NoDup l.*1 → (k, v) ∈ l → obj_get l k = Some v.
Proof.
  induction l as [|[k' v'] l IH]; [by intros _ ?%elem_of_nil|]. cbn. intros [Hk Hn]%NoDup_cons Hin.
  destruct (String.eqb_spec k' k) as [->|Hne].
  - apply elem_of_cons in Hin as [[= ->]|Hin]; [done|]. destruct Hk. apply list_elem_of_fmap. by exists (k, v).
  - apply IH; [done|]. apply elem_of_cons in Hin as [[= -> ->]|?]; done.
Qed.

Lemma obj_get_none l k : k ∉ l.*1 → obj_get l k = None.
Proof.
  induction l as [|[k' v'] l IH]; [done|]. cbn. intros [Hne Hk]%not_elem_of_cons.
  destruct (String.eqb_spec k' k); [congruence|by apply IH].
Qed.

Lemma obj_get_map (m : gmap string Value) k : obj_get (map_to_list m) k = m !! k.
Proof.
  destruct (m !! k) as [v|] eqn:E.
  - apply obj_get_elem; [apply NoDup_fst_map_to_list|]. by apply elem_of_map_to_list.
  - apply obj_get_none. rewrite list_elem_of_fmap. intros ([k' v] & -> & Hin%elem_of_map_to_list). cbn in E. congruence.
Qed.

(** ** Part maps

    [flat m p]: the map [m] stores the fields of [p]. *)

Definition dp_fields (p : DocPartJson) : list (string * option PField) :=
  [("id", Some (str_field (dp_id p))); ("kind", Some (str_field (dp_kind p)));
   ("path", str_field <$> dp_path p); ("name", str_field <$> dp_name p);
   ("mimeType", str_field <$> dp_mime_type p); ("text", FText <$> dp_text p);
   ("reasoning", FText <$> dp_reasoning p); ("call", FVal <$> dp_call p);
   ("isError", bool_field <$> dp_is_error p); ("questions", FVal <$> dp_questions p);
   ("resolved", bool_field <$> dp_resolved p); ("message", str_field <$> dp_message p);
   ("sourceChatId", str_field <$> dp_source_chat_id p); ("sourceTitle", str_field <$> dp_source_title p);
   ("output", str_field <$> dp_output p); ("diff", FVal <$> dp_diff p);
   ("outputRef", str_field <$> dp_output_ref p); ("outputBytes", num_field <$> dp_output_bytes p);
   ("diffRef", str_field <$> dp_diff_ref p); ("diffStats", FVal <$> dp_diff_stats p);
   ("subagentRef", str_field <$> dp_subagent_ref p); ("subagentStatus", str_field <$> dp_subagent_status p);
   ("subagentTail", str_field <$> dp_subagent_tail p)].

Definition flat (m : gmap string PField) (p : DocPartJson) : Prop :=
  foldr (λ f rest, m !! f.1 = f.2 ∧ rest) True (dp_fields p).

Lemma lookup_put_opt {A} k (enc : A → PField) v m :
  put_opt k enc v m !! k = match v with Some v => Some (enc v) | None => m !! k end.
Proof. unfold put_opt. destruct v; by simplify_map_eq. Qed.

Lemma lookup_put_opt_ne {A} k k' (enc : A → PField) v m :
  String.eqb k k' = false → put_opt k enc v m !! k' = m !! k'.
Proof. intros Hne%String.eqb_neq. unfold put_opt. destruct v; by simplify_map_eq. Qed.

Lemma lookup_rewrite_text k t m :
  rewrite_text k t m !! k = match t, m !! k with Some t, Some (FText _) => Some (FText t) | _, _ => m !! k end.
Proof. unfold rewrite_text. destruct t as [t|]; [|done]. destruct (m !! k) as [[]|] eqn:E; by simplify_map_eq. Qed.

Lemma lookup_rewrite_text_ne k k' t m : String.eqb k k' = false → rewrite_text k t m !! k' = m !! k'.
Proof.
  intros Hne%String.eqb_neq. unfold rewrite_text. destruct t as [t|]; [|done].
  destruct (m !! k) as [[]|] eqn:E; by simplify_map_eq.
Qed.

Lemma lookup_insert_ne_key (k k' : string) (f : PField) (m : gmap string PField) :
  String.eqb k k' = false → <[k := f]> m !! k' = m !! k'.
Proof. intros Hne%String.eqb_neq. by simplify_map_eq. Qed.

(** Look a field up through the writes to the other fields. *)
Ltac part_lookup :=
  repeat first
    [ rewrite lookup_put_opt_ne by reflexivity | rewrite lookup_put_opt
    | rewrite lookup_rewrite_text_ne by reflexivity | rewrite lookup_rewrite_text
    | rewrite lookup_insert_ne_key by reflexivity | rewrite lookup_insert_eq ].

Lemma push_part_flat p : ∃ m, push_part p = PartMap m ∧ flat m (to_doc_part p).
Proof.
  unfold push_part. eexists. split; [reflexivity|]. set (d := to_doc_part p). clearbody d. unfold flat, dp_fields.
  cbn [foldr fst snd]. unfold put_live_fields.
  repeat (split; [part_lookup; rewrite ?lookup_empty; try reflexivity; by case_match|]). done.
Qed.

(** The values of a flat part that read back. *)
Record dp_ok (p : DocPartJson) : Prop := {
  dpo_call : dp_call p ≠ Some Null;
  dpo_questions : dp_questions p ≠ Some Null;
  dpo_diff : dp_diff p ≠ Some Null;
  dpo_stats : dp_diff_stats p ≠ Some Null;
  dpo_bytes n : dp_output_bytes p = Some n → 0 ≤ n < 2 ^ 63
}.

Lemma opt_str_back o : opt as_str (deep_field <$> (str_field <$> o)) = Some o.
Proof. by destruct o. Qed.
Lemma opt_text_back o : opt as_str (deep_field <$> (FText <$> o)) = Some o.
Proof. by destruct o. Qed.
Lemma opt_bool_back o : opt as_bool (deep_field <$> (bool_field <$> o)) = Some o.
Proof. by destruct o as [[]|]. Qed.
Lemma opt_json_back o : o ≠ Some Null → opt Some (deep_field <$> (FVal <$> o)) = Some o.
Proof. by destruct o as [[]|]. Qed.
Lemma opt_num_back o :
  (∀ n, o = Some n → 0 ≤ n < 2 ^ 63) → opt as_u64 (deep_field <$> (num_field <$> o)) = Some o.
Proof.
  destruct o as [n|]; [|done]. intros H. specialize (H n eq_refl). cbn [fmap option_fmap option_map deep_field num_field opt].
  rewrite wrap_i64_small by (unfold is_i64; lia). by rewrite as_u64_back by lia.
Qed.

Lemma flat_reads m p : flat m p → dp_ok p → doc_part_from_value (deep_part (PartMap m)) = Some p.
Proof.
  intros Hf [H1 H2 H3 H4 H5]. unfold flat, dp_fields in Hf. cbn [foldr fst snd] in Hf.
  destruct Hf as (F1 & F2 & F3 & F4 & F5 & F6 & F7 & F8 & F9 & F10 & F11 & F12 & F13 & F14 & F15 & F16 & F17 & F18 &
    F19 & F20 & F21 & F22 & F23 & _).
  unfold doc_part_from_value, deep_part. cbn [struct_of mbind option_bind]. rewrite !obj_get_map, !lookup_fmap.
  rewrite F1, F2, F3, F4, F5, F6, F7, F8, F9, F10, F11, F12, F13, F14, F15, F16, F17, F18, F19, F20, F21, F22, F23.
  rewrite !opt_str_back, !opt_text_back, !opt_bool_back, !opt_json_back, opt_num_back by done.
  by destruct p.
Qed.

(** ** A part reads back *)

Definition part_ok (p : MessagePart) : Prop :=
  match p with
  | PTool t => (∀ n, tp_output_bytes t = Some n → 0 ≤ n < 2 ^ 63) ∧
               (∀ l, tp_diff_stats t = Some l → Forall stat_ok l)
  | _ => True
  end.

(** What the reader shows of a part: an input is named by its request, an
    unresolved call is no error, an image of an unknown type is unavailable. *)
Definition stored (p : MessagePart) : MessagePart :=
  match p with
  | PImage id path name mime_type => image_part id (Some path) (Some name) (Some mime_type)
  | PInput _ request_id questions resolved => PInput request_id request_id questions resolved
  | PTool t =>
      PTool (mkTool (tp_id t) (call_shown (tp_call t)) (tp_resolved t && tp_is_error t) (tp_resolved t)
        (tp_output t) (tp_diff t) (tp_output_ref t) (tp_output_bytes t) (tp_diff_ref t) (tp_diff_stats t)
        (tp_subagent_ref t) (tp_subagent_status t) (tp_subagent_tail t))
  | p => p
  end.

Lemma call_to_value_object c : call_to_value c ≠ Null.
Proof. by destruct c. Qed.

Lemma to_doc_part_ok p : part_ok p → dp_ok (to_doc_part p).
Proof.
  intros Hp. destruct p as [| | |t| | |]; split; cbn; try done.
  - intros [= E]. by apply (call_to_value_object (tp_call t)).
  - by destruct (tp_diff t).
  - by destruct (tp_diff_stats t).
  - apply Hp.
Qed.

Lemma subagent_status_back o : (subagent_status_name <$> o) ≫= subagent_status_of = o.
Proof. by destruct o as [[]|]. Qed.

Lemma diff_option_back o : (diff_to_value <$> o) ≫= diff_from_value = o.
Proof. destruct o; [apply diff_back|done]. Qed.

Lemma stats_option_back o :
  (∀ l, o = Some l → Forall stat_ok l) → (stats_to_value <$> o) ≫= as_list stat_from_value = o.
Proof.
  destruct o as [l|]; [|done]. intros H. cbn. apply mapM_fmap_back. apply (Forall_impl stat_ok); [by apply H|apply stat_back].
Qed.

Lemma to_from_doc_part p : part_ok p → from_doc_part (to_doc_part p) = stored p.
Proof.
  intros Hp. destruct p as [id text|id path name mime|id text|t|id rid qs r|id m|id c t]; try reflexivity.
  - unfold from_doc_part, to_doc_part. cbn [dp_kind dp_call dp_is_error dp_output dp_diff dp_output_ref dp_output_bytes
      dp_diff_ref dp_diff_stats dp_subagent_ref dp_subagent_status dp_subagent_tail dp_id String.eqb Ascii.eqb Bool.eqb].
    cbn [mbind option_bind]. rewrite call_back. change (option_bind ?A ?B ?f ?o) with (o ≫= f).
    destruct Hp as [_ Hs]. unfold stored. repeat f_equal; try done.
    + by destruct (tp_resolved t).
    + by destruct (tp_resolved t).
    + apply diff_option_back.
    + by apply stats_option_back.
    + apply subagent_status_back.
  - cbn. unfold as_list. rewrite (mapM_fmap_back question_to_value question_from_value qs); [done|].
    apply Forall_true, question_back.
Qed.

Lemma push_part_reads p : part_ok p →
  doc_part_from_value (deep_part (push_part p)) = Some (to_doc_part p) ∧
  from_doc_part (to_doc_part p) = stored p.
Proof.
  intros Hp. destruct (push_part_flat p) as (m & -> & Hf). split; [|by apply to_from_doc_part].
  apply flat_reads; [done|by apply to_doc_part_ok].
Qed.

(** ** A message reads back *)

Record entry_ok (e : SessionMessageEntry) : Prop := {
  eo_parts : Forall part_ok (me_parts e);
  eo_created : is_i64 (me_created_at e);
  eo_duration n : me_duration_ms e = Some n → is_i64 n
}.

Definition stored_entry (e : SessionMessageEntry) : SessionMessageEntry :=
  mkMessage (me_id e) (me_role e) (stored <$> me_parts e) (me_created_at e) (me_device_id e) (me_status e)
    (me_continuation_of e) (me_duration_ms e).

Lemma obj_get_entry (m : gmap string EField) k :
  obj_get (map_to_list (deep_entry_field <$> m)) k = deep_entry_field <$> m !! k.
Proof. by rewrite obj_get_map, lookup_fmap. Qed.

Lemma lookup_put_entry {A} k (enc : A → Value) v m :
  put_entry k enc v m !! k = match v with Some v => Some (EVal (enc v)) | None => m !! k end.
Proof. unfold put_entry. destruct v; by simplify_map_eq. Qed.

Lemma lookup_put_entry_ne {A} k k' (enc : A → Value) v m :
  String.eqb k k' = false → put_entry k enc v m !! k' = m !! k'.
Proof. intros Hne%String.eqb_neq. unfold put_entry. destruct v; by simplify_map_eq. Qed.

Lemma lookup_entry_ne (k k' : string) (f : EField) (m : gmap string EField) :
  String.eqb k k' = false → <[k := f]> m !! k' = m !! k'.
Proof. intros Hne%String.eqb_neq. by simplify_map_eq. Qed.

Ltac entry_lookup :=
  repeat first
    [ rewrite lookup_put_entry_ne by reflexivity | rewrite lookup_put_entry
    | rewrite lookup_entry_ne by reflexivity | rewrite lookup_insert_eq ].

(** The fields an entry map of this code has, whatever its parts. *)
Record entry_fields (m : gmap string EField) (e : SessionMessageEntry) : Prop := {
  ef_id : m !! "id" = Some (EVal (Str (me_id e)));
  ef_role : m !! "role" = Some (EVal (Str (role_name (me_role e))));
  ef_created : m !! "createdAt" = Some (EVal (Number (me_created_at e)));
  ef_device : m !! "deviceId" = Some (EVal (Str (me_device_id e)));
  ef_status : m !! "status" = (λ s, EVal (Str (message_status_str s))) <$> me_status e;
  ef_continuation : m !! "continuationOf" = (λ s, EVal (Str s)) <$> me_continuation_of e;
  ef_duration : m !! "durationMs" = (λ n, EVal (Number n)) <$> me_duration_ms e
}.

Lemma write_entry_fields e l :
  entry_fields (<["parts" := EParts l]> (write_entry_scalar_fields e)) e.
Proof.
  unfold write_entry_scalar_fields.
  split; entry_lookup; rewrite ?lookup_empty; try reflexivity; by case_match.
Qed.

Lemma role_back r : role_of (Str (role_name r)) = Some r.
Proof. by destruct r. Qed.
Lemma message_status_back s : message_status_of (Str (message_status_str s)) = Some s.
Proof. by destruct s. Qed.

(** Stored parts that show [ps]. *)
Definition shows (item : PItem) (p : MessagePart) : Prop :=
  ∃ d, doc_part_from_value (deep_part item) = Some d ∧ from_doc_part d = p.

Lemma shows_parts items ps :
  Forall2 shows items ps → ∃ ds, mapM doc_part_from_value (deep_part <$> items) = Some ds ∧ from_doc_part <$> ds = ps.
Proof.
  induction 1 as [|i p items ps (d & Hd & <-) _ (ds & Hm & <-)]; [by exists []|].
  exists (d :: ds). split; [|done]. cbn. rewrite Hd. cbn. change (list_fmap PItem Value deep_part items) with (deep_part <$> items).
  by rewrite Hm.
Qed.

Lemma entry_reads hash m e items ps :
  entry_fields m e → m !! "parts" = Some (EParts items) → Forall2 shows items ps →
  is_i64 (me_created_at e) → (∀ n, me_duration_ms e = Some n → is_i64 n) →
  entry_from_json hash (deep_entry (EntryMap m)) =
    Some (mkMessage (me_id e) (me_role e) ps (me_created_at e) (me_device_id e) (me_status e)
      (me_continuation_of e) (me_duration_ms e)).
Proof.
  intros [F1 F2 F3 F4 F5 F6 F7] Hp Hs Hc Hd. destruct (shows_parts items ps Hs) as (ds & Hm & <-).
  unfold entry_from_json, raw_entry, deep_entry. cbn [struct_of mbind option_bind].
  rewrite !obj_get_entry, F1, F2, F3, F4, F5, F6, F7, Hp.
  cbn [fmap option_fmap option_map deep_entry_field req dflt as_str mbind option_bind].
  rewrite role_back. cbn [option_bind]. unfold as_list. rewrite Hm. cbn [option_bind].
  rewrite as_i64_number by done. cbn [option_bind].
  destruct (me_status e) as [s|]; cbn [option_map opt fmap option_fmap deep_entry_field];
    [change (message_status_of (deep_entry_field (EVal (Str (message_status_str s))))) with
      (message_status_of (Str (message_status_str s))); rewrite message_status_back|];
    cbn [option_map option_bind];
    (destruct (me_continuation_of e) as [c|]; cbn [option_map opt fmap option_fmap deep_entry_field as_str option_bind]);
    (destruct (me_duration_ms e) as [n|]; cbn [option_map opt fmap option_fmap deep_entry_field option_bind];
      [rewrite as_i64_number by auto|]); done.
Qed.

Lemma pushed_shows ps : Forall part_ok ps → Forall2 shows (push_part <$> ps) (stored <$> ps).
Proof.
  induction 1 as [|p ps Hp _ IH]; constructor; [|done]. exists (to_doc_part p). by apply push_part_reads.
Qed.

Lemma pushed_entry_reads hash e :
  entry_ok e →
  entry_from_json hash (deep_entry (EntryMap (<["parts" := EParts (push_part <$> me_parts e)]> (write_entry_scalar_fields e)))) =
    Some (stored_entry e).
Proof.
  intros He. rewrite (entry_reads hash _ e (push_part <$> me_parts e) (stored <$> me_parts e)); [done|apply write_entry_fields|..].
  - by rewrite lookup_insert_eq.
  - apply pushed_shows, He.
  - apply He.
  - apply He.
Qed.

(** C13: A message reads back as it was pushed, after the messages there were:
    every field of the entry and of each part, but for what the flat form
    does not keep: the part id of an input, the error flag of a call that is
    not resolved, an image of an unknown type. *)
Theorem push_message_reads hash e d (He : entry_ok e) :
  read_entries hash (push_message e d) = read_entries hash d ++ [stored_entry e].
Proof.
  unfold read_entries, push_message. cbn [sd_messages set_messages]. rewrite omap_app. f_equal. cbn [omap list_omap].
  by rewrite pushed_entry_reads.
Qed.

(** ** Tolerance *)

Lemma opt_strict {A} (dec : Value → option A) v x :
  dec Null = None → opt dec v = Some x → x = v ≫= dec.
Proof.
  intros Hn. destruct v as [v|]; [|by intros [= <-]].
  destruct (decide (v = Null)) as [->|Hv]; [intros [= <-]; cbn; by rewrite Hn|].
  assert (opt dec (Some v) = Some <$> dec v) as -> by (by destruct v). cbn.
  destruct (dec v); [by intros [= <-]|done].
Qed.

Lemma mapM_salvage id parts ds :
  mapM doc_part_from_value parts = Some ds → salvage_parts id parts = from_doc_part <$> ds.
Proof.
  unfold salvage_parts. intros Hm. apply mapM_Some in Hm.
  assert (∀ f : nat → Value → option MessagePart,
    (∀ i v d, doc_part_from_value v = Some d → f i v = Some (from_doc_part d)) →
    omap Datatypes.id (imap f parts) = from_doc_part <$> ds) as Hgo.
  { induction Hm as [|v d parts ds Hv _ IH]; intros f Hf; [done|]. cbn. rewrite (Hf 0%nat v d) by done. cbn.
    f_equal. apply IH. intros i v' d' E. by apply Hf. }
  apply Hgo. intros i v d E. by rewrite E.
Qed.

(** The strict shape reads nothing the tolerant reader would read otherwise. *)
Lemma raw_entry_salvage hash m e :
  raw_entry (Object m) = Some e → salvage_entry hash (Object m) = Some e.
Proof.
  unfold raw_entry, salvage_entry. cbn [struct_of as_object mbind option_bind].
  destruct (req as_str (obj_get m "id")) as [id|] eqn:E1; [|done].
  destruct (req role_of (obj_get m "role")) as [role|] eqn:E2; [|done].
  destruct (dflt [] _ (obj_get m "parts")) as [ds|] eqn:E3; [|done].
  destruct (req as_i64 (obj_get m "createdAt")) as [created|] eqn:E4; [|done].
  destruct (req as_str (obj_get m "deviceId")) as [device|] eqn:E5; [|done].
  destruct (opt message_status_of (obj_get m "status")) as [status|] eqn:E6; [|done].
  destruct (opt as_str (obj_get m "continuationOf")) as [cont|] eqn:E7; [|done].
  destruct (opt as_i64 (obj_get m "durationMs")) as [duration|] eqn:E8; [|done].
  cbn [mbind option_bind]. intros [= <-]. unfold req in *.
  apply opt_strict in E6, E7, E8; [|done..]. subst status cont duration.
  cbn [mbind option_bind] in *. rewrite E1, E2, E4, E5. cbn [default]. do 2 f_equal.
  destruct (obj_get m "parts") as [[]|]; cbn in E3; try done; [by apply mapM_salvage|by injection E3 as <-].
Qed.

Lemma entry_object hash m : entry_from_json hash (Object m) = salvage_entry hash (Object m).
Proof.
  unfold entry_from_json. destruct (raw_entry (Object m)) as [e|] eqn:E; [|done].
  by rewrite (raw_entry_salvage hash m e E).
Qed.

(** C12: An entry never costs more than its broken fields: whatever object a
    peer wrote, reading it succeeds, and each field is read by itself, so a
    field that is missing or ill-typed takes a stand-in and leaves the others
    alone; a part that the strict shape rejects is salvaged by itself, and
    every part that it accepts is there. *)
Theorem entry_costs_broken_fields hash m :
  ∃ e, entry_from_json hash (Object m) = Some e ∧
    me_id e = default ("recovered-" +:+ hash (Object m)) (obj_get m "id" ≫= as_str) ∧
    me_role e = default RoleAssistant (obj_get m "role" ≫= role_of) ∧
    me_created_at e = default 0 (obj_get m "createdAt" ≫= as_i64) ∧
    me_device_id e = default "" (obj_get m "deviceId" ≫= as_str) ∧
    me_status e = obj_get m "status" ≫= message_status_of ∧
    me_continuation_of e = obj_get m "continuationOf" ≫= as_str ∧
    me_duration_ms e = obj_get m "durationMs" ≫= as_i64 ∧
    (∀ parts, obj_get m "parts" = Some (Array parts) →
      (length (me_parts e) ≤ length parts)%nat ∧
      (∀ v d, v ∈ parts → doc_part_from_value v = Some d → from_doc_part d ∈ me_parts e) ∧
      ∀ v text, v ∈ parts → value_get v "kind" = None → value_get v "reasoning" = None →
        value_get v "text" = Some (Str text) → ∃ id, PText id text ∈ me_parts e).
Proof.
  rewrite entry_object.
  unfold salvage_entry. cbn [as_object mbind option_bind]. eexists. split; [reflexivity|].
  cbn [me_id me_role me_created_at me_device_id me_status me_continuation_of me_duration_ms me_parts].
  split_and!; try done. intros parts ->. set (id := default _ _). clearbody id. unfold salvage_parts.
  set (f := λ ix part, _). split; [|split].
  - etrans; [apply length_omap_le|]. by rewrite length_imap.
  - intros v d Hv Hd. apply list_elem_of_lookup in Hv as [i Hi]. apply list_elem_of_omap.
    exists (Some (from_doc_part d)). split; [|done]. apply list_elem_of_lookup. exists i.
    rewrite list_lookup_imap, Hi. cbn. unfold f. by rewrite Hd.
  - intros v text Hv Hk Hr Ht. apply list_elem_of_lookup in Hv as [i Hi].
    assert (∃ id', f i v = Some (PText id' text)) as [id' Hf].
    { unfold f. destruct v as [| | | | |o]; try done. cbn in Hk, Hr, Ht.
      assert (doc_part_from_value (Object o) = None) as ->.
      { unfold doc_part_from_value. cbn [struct_of mbind option_bind]. rewrite Hk. by destruct (req as_str (obj_get o "id")). }
      unfold salvage_part. cbn [as_object mbind option_bind]. rewrite Hk, Hr, Ht. cbn. eauto. }
    exists id'. apply list_elem_of_omap. exists (Some (PText id' text)). split; [|done].
    apply list_elem_of_lookup. exists i. by rewrite list_lookup_imap, Hi, <- Hf.
Qed.

(** ** Joining continuations *)

Definition gather (id : string) (later : list SessionMessageEntry) (e : SessionMessageEntry) : SessionMessageEntry :=
  fold_left (λ e f, if bool_decide (me_continuation_of f = Some id)
                    then extend (me_parts f) (me_duration_ms f) e else e) later e.

(** Roots collect the later entries that continue them; a continuation of an
    id in [seen] is in its root, any other stays. *)
Fixpoint join_spec (seen : list string) (l : list SessionMessageEntry) : list SessionMessageEntry :=
  match l with
  | [] => []
  | e :: l =>
      match me_continuation_of e with
      | Some root => if bool_decide (root ∈ seen) then join_spec seen l else e :: join_spec seen l
      | None => gather (me_id e) l e :: join_spec (me_id e :: seen) l
      end
  end.

Definition is_root (e : SessionMessageEntry) : Prop := me_continuation_of e = None.
#[export] Instance is_root_dec e : Decision (is_root e).
Proof. unfold is_root. apply _. Defined.

Definition root_ids (l : list SessionMessageEntry) : list string := me_id <$> filter is_root l.

Record join_inv (out : list SessionMessageEntry) (idx : gmap string nat) (seen : list string) : Prop := {
  ji_seen id : id ∈ seen ↔ is_Some (idx !! id);
  ji_at id i : idx !! id = Some i → ∃ e, out !! i = Some e ∧ me_id e = id
}.

Definition joined (idx : gmap string nat) (l : list SessionMessageEntry) (i : nat) (e : SessionMessageEntry)
    : SessionMessageEntry :=
  if bool_decide (idx !! me_id e = Some i) then gather (me_id e) l e else e.

Lemma gather_skip id f l e : me_continuation_of f ≠ Some id → gather id (f :: l) e = gather id l e.
Proof. intros H. unfold gather. cbn. by rewrite bool_decide_false. Qed.

Lemma gather_take id f l e :
  me_continuation_of f = Some id → gather id (f :: l) e = gather id l (extend (me_parts f) (me_duration_ms f) e).
Proof. intros H. unfold gather. cbn [fold_left]. by rewrite bool_decide_true. Qed.

Lemma joined_skip idx f l i e :
  (∀ root, me_continuation_of f = Some root → idx !! root = None) → joined idx (f :: l) i e = joined idx l i e.
Proof.
  intros H. unfold joined. case_bool_decide as Hi; [|done]. apply gather_skip.
  intros E. apply H in E. congruence.
Qed.

Lemma imap_ext_lookup {A B} (f g : nat → A → B) l :
  (∀ i x, l !! i = Some x → f i x = g i x) → imap f l = imap g l.
Proof.
  intros H. apply list_eq. intros i. rewrite !list_lookup_imap. destruct (l !! i) as [x|] eqn:E; [|done].
  cbn. f_equal. by apply H.
Qed.

Lemma join_loop l : ∀ out idx seen,
  join_inv out idx seen → NoDup (root_ids l) → (∀ id, id ∈ root_ids l → id ∉ seen) →
  (fold_left join_step l (out, idx)).1 = imap (joined idx l) out ++ join_spec seen l.
Proof.
  induction l as [|e l IH]; intros out idx seen Hi Hnd Hfresh.
  - cbn. rewrite app_nil_r. apply list_eq. intros i. rewrite list_lookup_imap.
    destruct (out !! i) as [x|]; [|done]. cbn. f_equal. unfold joined. by case_bool_decide.
  - cbn [fold_left join_step join_spec]. unfold root_ids in Hnd, Hfresh. rewrite filter_cons in Hnd, Hfresh.
    destruct (me_continuation_of e) as [root|] eqn:Ec.
    + rewrite decide_False in Hnd, Hfresh by (unfold is_root; congruence).
      destruct (idx !! root) as [i|] eqn:Er.
      * rewrite bool_decide_true by (apply (ji_seen _ _ _ Hi); by rewrite Er). rewrite (IH _ _ seen); [|split|done|done].
        -- f_equal. apply list_eq. intros j. rewrite !list_lookup_imap, list_lookup_alter.
           destruct (decide (i = j)) as [<-|Hij].
           ++ destruct (ji_at _ _ _ Hi _ _ Er) as (x & Hx & Hid). rewrite Hx. cbn [fmap option_fmap option_map]. f_equal. unfold joined.
              change (me_id (extend (me_parts e) (me_duration_ms e) x)) with (me_id x).
              rewrite Hid, Er, !bool_decide_true by done. symmetry. apply gather_take. congruence.
           ++ destruct (out !! j) as [x|]; [|done]. cbn. f_equal. unfold joined. case_bool_decide as Hj; [|done].
              symmetry. apply gather_skip. rewrite Ec. intros [= ->]. congruence.
        -- apply Hi.
        -- intros id j Hj. destruct (ji_at _ _ _ Hi _ _ Hj) as (x & Hx & Hid). rewrite list_lookup_alter.
           case_decide; subst; rewrite Hx; (eexists; split; [reflexivity|done]).
      * rewrite bool_decide_false by (rewrite (ji_seen _ _ _ Hi), Er; by intros [? ?]).
        rewrite (IH _ _ seen); [|split|done|done].
        -- rewrite imap_app, <- app_assoc. cbn. f_equal.
           ++ apply imap_ext_lookup. intros j x _. symmetry. apply joined_skip. intros r E. congruence.
           ++ f_equal. unfold joined. rewrite bool_decide_false; [done|]. rewrite Nat.add_0_r. intros E.
              destruct (ji_at _ _ _ Hi _ _ E) as (x & Hx & _). apply lookup_lt_Some in Hx. lia.
        -- apply Hi.
        -- intros id j Hj. destruct (ji_at _ _ _ Hi _ _ Hj) as (x & Hx & Hid). exists x.
           split; [|done]. by apply lookup_app_l_Some.
    + rewrite decide_True in Hnd, Hfresh by done. cbn in Hnd, Hfresh. apply NoDup_cons in Hnd as [Hni Hnd].
      assert (idx !! me_id e = None) as Hne.
      { apply eq_None_not_Some. rewrite <- (ji_seen _ _ _ Hi). apply Hfresh. left. }
      rewrite (IH _ _ (me_id e :: seen)); [|split|done|].
      * rewrite imap_app, <- app_assoc. cbn. f_equal.
        -- apply imap_ext_lookup. intros j x Hx. rewrite joined_skip by congruence. unfold joined.
           apply lookup_lt_Some in Hx. destruct (decide (me_id x = me_id e)) as [E|E].
           ++ rewrite E, Hne, lookup_insert_eq. rewrite !bool_decide_false by (done || (intros [= <-]; lia)). done.
           ++ by rewrite lookup_insert_ne by done.
        -- f_equal. unfold joined. rewrite Nat.add_0_r, lookup_insert_eq. by rewrite bool_decide_true.
      * intros id. rewrite elem_of_cons. destruct (decide (id = me_id e)) as [->|Hd].
        -- rewrite lookup_insert_eq. split; [eauto|by left].
        -- rewrite lookup_insert_ne by done. rewrite (ji_seen _ _ _ Hi). tauto.
      * intros id j Hj. destruct (decide (id = me_id e)) as [->|Hd].
        -- rewrite lookup_insert_eq in Hj. injection Hj as <-. exists e. by rewrite list_lookup_middle.
        -- rewrite lookup_insert_ne in Hj by done. destruct (ji_at _ _ _ Hi _ _ Hj) as (x & Hx & Hid). exists x.
           split; [|done]. by apply lookup_app_l_Some.
      * intros id Hid [->|Hin]%elem_of_cons; [done|]. apply (Hfresh id); [by right|done].
Qed.

Definition all_parts (l : list SessionMessageEntry) : list MessagePart := concat (me_parts <$> l).

Lemma all_parts_app l k : all_parts (l ++ k) = all_parts l ++ all_parts k.
Proof. unfold all_parts. by rewrite fmap_app, concat_app. Qed.

Lemma all_parts_alter ps duration i l :
  is_Some (l !! i) → all_parts (alter (extend ps duration) i l) ≡ₚ all_parts l ++ ps.
Proof.
  intros [e He]. rewrite <- (take_drop_middle l i e He) at 2.
  assert (alter (extend ps duration) i l = take i l ++ extend ps duration e :: drop (S i) l) as ->.
  { apply lookup_lt_Some in He as Hl. rewrite <- (take_drop_middle l i e He) at 1.
    rewrite <- (Nat.add_0_r i) at 1. rewrite <- (length_take_le l i) at 1 by lia. by rewrite alter_app_r. }
  rewrite !all_parts_app. unfold all_parts. cbn. rewrite <- !app_assoc. apply Permutation_app_head, Permutation_app_head.
  apply Permutation_app_comm.
Qed.

Lemma join_loop_parts l : ∀ out idx,
  (∀ id i, idx !! id = Some i → (i < length out)%nat) →
  all_parts (fold_left join_step l (out, idx)).1 ≡ₚ all_parts out ++ all_parts l.
Proof.
  induction l as [|e l IH]; intros out idx Hi; [cbn; by rewrite app_nil_r|]. cbn [fold_left join_step].
  assert (all_parts (e :: l) = me_parts e ++ all_parts l) as -> by done.
  assert (all_parts (out ++ [e]) = all_parts out ++ me_parts e) as Happ
    by (rewrite all_parts_app; unfold all_parts; cbn; by rewrite app_nil_r).
  destruct (me_continuation_of e) as [root|]; [destruct (idx !! root) as [i|] eqn:Er|].
  - rewrite IH; [|intros id j Hj; rewrite length_alter; by eapply Hi].
    rewrite all_parts_alter by (apply lookup_lt_is_Some; by eapply Hi). by rewrite app_assoc.
  - rewrite IH, Happ, app_assoc; [done|]. intros id j Hj%Hi. rewrite length_app. lia.
  - rewrite IH, Happ, app_assoc; [done|]. intros id j. rewrite length_app, lookup_insert. cbn.
    case_decide; [intros [= <-]; lia|intros Hj%Hi; lia].
Qed.

Lemma join_spec_roots l seen : Forall is_root l → join_spec seen l = l.
Proof.
  intros Hr. revert seen. induction Hr as [|e l He Hl IH]; intros seen; [done|]. cbn. unfold is_root in He. rewrite He.
  rewrite IH. f_equal. clear IH He. unfold gather. induction Hl as [|f l Hf Hl IH]; [done|]. cbn.
  unfold is_root in Hf. by rewrite Hf.
Qed.

Lemma no_continuation l :
  existsb (λ e, bool_decide (is_Some (me_continuation_of e))) l = false → Forall is_root l.
Proof.
  intros He. apply Forall_forall. intros e Hin. destruct (me_continuation_of e) eqn:Ec; [|done].
  assert (existsb (λ e, bool_decide (is_Some (me_continuation_of e))) l = true); [|congruence].
  apply existsb_exists. exists e. split; [by apply list_elem_of_In|]. rewrite Ec. by apply bool_decide_eq_true.
Qed.

Lemma join_parts l : all_parts (join_continuation_entries l) ≡ₚ all_parts l.
Proof. unfold join_continuation_entries. destruct (existsb _ l); [by apply join_loop_parts|done]. Qed.

(** C38: Joining continuations loses nothing: every part is shown once,
    whatever ids the entries have; and where no two roots share an id, each
    root shows its own parts and then those of the later entries that continue
    it, in order, with the last duration among them, while a continuation
    without a root before it is shown by itself. *)
Theorem join_continuations_exact l :
  all_parts (join_continuation_entries l) ≡ₚ all_parts l ∧
  (NoDup (root_ids l) → join_continuation_entries l = join_spec [] l).
Proof.
  split; [apply join_parts|]. intros Hnd. unfold join_continuation_entries. destruct (existsb _ l) eqn:Ee.
  - rewrite (join_loop l [] ∅ []); [done|split|done|by intros ? ? ?%elem_of_nil].
    + intros id. rewrite lookup_empty. split; [by intros ?%elem_of_nil|by intros []].
    + intros id i. by rewrite lookup_empty.
  - symmetry. by apply join_spec_roots, no_continuation.
Qed.

(** ** The opening tail *)

Lemma length_salvage_parts id parts : (length (salvage_parts id parts) ≤ length parts)%nat.
Proof. unfold salvage_parts. etrans; [apply length_omap_le|]. by rewrite length_imap. Qed.

Lemma object_parts hash m tail e :
  obj_get m "parts" = Some (Array tail) → entry_from_json hash (Object m) = Some e →
  (length (me_parts e) ≤ length tail)%nat.
Proof.
  intros Hp. rewrite entry_object. unfold salvage_entry. cbn [as_object mbind option_bind]. rewrite Hp.
  intros [= <-]. apply length_salvage_parts.
Qed.

Section Tail.
Variable hash : Value → string.
Variable cid : string.

Lemma opening_value_parts m remaining :
  (0 < remaining)%nat →
  ∃ o tail, (opening_value cid m remaining).1 = Object o ∧ obj_get o "parts" = Some (Array tail) ∧
    (length tail + (opening_value cid m remaining).2 ≤ remaining)%nat.
Proof.
  intros Hr. unfold opening_value. destruct (m !! "parts") as [[v|parts]|];
    (eexists _, _; split; [reflexivity|]; rewrite obj_get_map, lookup_insert_eq; split; [reflexivity|]);
    cbn [fst snd length]; try lia.
  rewrite length_fmap, length_drop. lia.
Qed.

Lemma walk_bound l : ∀ n, (length (all_parts (opening_walk hash cid l n)) ≤ n)%nat.
Proof.
  induction l as [|[m|v] l IH]; intros n; cbn [opening_walk]; [cbn; lia|..].
  - destruct n as [|n]; [cbn; lia|]. destruct (opening_value_parts m (S n)) as (o & tail & Ho & Ht & Hl); [lia|].
    destruct (opening_value cid m (S n)) as [value r] eqn:E. cbn [fst snd] in *. subst value.
    destruct (entry_from_json hash (Object o)) as [e|] eqn:Ee; [|specialize (IH r); lia].
    pose proof (object_parts hash o tail e Ht Ee). unfold all_parts in *. cbn. rewrite length_app. specialize (IH r). lia.
  - destruct n; [cbn; lia|apply IH].
Qed.

(** An entry map whose parts are its only container. *)
Definition plain (e : MItem) : Prop :=
  ∃ m parts, e = EntryMap m ∧ m !! "parts" = Some (EParts parts) ∧ ∀ k l, m !! k = Some (EParts l) → k = "parts".

Definition cost (e : MItem) : nat := from_option (λ l, Nat.max (length l) 1) 0%nat (entry_parts e).

Lemma opening_full m parts n :
  m !! "parts" = Some (EParts parts) → (∀ k l, m !! k = Some (EParts l) → k = "parts") →
  (Nat.max (length parts) 1 ≤ n)%nat →
  opening_value cid m n = (deep_entry (EntryMap m), (n - Nat.max (length parts) 1)%nat).
Proof.
  intros Hp Honly Hn. unfold opening_value. rewrite Hp. f_equal; [|f_equal; lia].
  rewrite Nat.min_r by lia. rewrite Nat.sub_diag. cbn [deep_entry]. do 2 f_equal. apply map_eq. intros k.
  rewrite lookup_fmap. destruct (decide (k = "parts")) as [->|Hk].
  - by rewrite lookup_insert_eq, Hp.
  - rewrite lookup_insert_ne, lookup_fmap by done. destruct (m !! k) as [[v|l]|] eqn:E; [done| |done].
    by apply Honly in E.
Qed.

Lemma walk_full l : ∀ n,
  Forall plain l → (sum_list (cost <$> l) ≤ n)%nat →
  opening_walk hash cid l n = omap (λ e, entry_from_json hash (deep_entry e)) l.
Proof.
  induction l as [|e l IH]; intros n Hp Hn; [done|]. apply Forall_cons in Hp as [(m & parts & -> & Hm & Honly) Hp].
  change (cost (EntryMap m) + sum_list (cost <$> l) ≤ n)%nat in Hn. assert (cost (EntryMap m) = Nat.max (length parts) 1) as Hc
    by (unfold cost, entry_parts; by rewrite Hm).
  rewrite Hc in Hn. destruct n as [|n]; [exfalso; lia|]. cbn [opening_walk].
  rewrite (opening_full m parts) by (done || lia). cbn [omap list_omap].
  destruct (entry_from_json hash (deep_entry (EntryMap m))); [f_equal|]; apply IH; done || lia.
Qed.

Lemma take_root_parts e : me_parts (take_root e) = me_parts e.
Proof. unfold take_root. by destruct (me_continuation_of e). Qed.

Definition first_root (l : list SessionMessageEntry) : list SessionMessageEntry :=
  match l with first :: entries => take_root first :: entries | [] => [] end.

Lemma first_root_parts l : all_parts (first_root l) = all_parts l.
Proof. destruct l as [|e l]; [done|]. unfold all_parts. cbn. by rewrite take_root_parts. Qed.

Lemma all_parts_reverse l : length (all_parts (reverse l)) = length (all_parts l).
Proof.
  induction l as [|e l IH]; [done|]. rewrite reverse_cons, all_parts_app, length_app, IH.
  unfold all_parts. cbn. rewrite app_nil_r, length_app. lia.
Qed.

(** The opening tail never shows more parts than it was asked for, and
    when the document has no more parts than that it is the full read, with the
    first entry named by its root. *)
Theorem opening_tail_exact n d :
  (length (all_parts (read_opening_tail hash cid n d)) ≤ n)%nat ∧
  (Forall plain (sd_messages d) → (sum_list (cost <$> sd_messages d) ≤ n)%nat →
   read_opening_tail hash cid n d = join_continuation_entries (first_root (read_entries hash d))).
Proof.
  unfold read_opening_tail. fold (first_root (reverse (opening_walk hash cid (reverse (sd_messages d)) n))). split.
  - rewrite join_parts, first_root_parts, all_parts_reverse. apply walk_bound.
  - intros Hp Hn. f_equal. f_equal. rewrite walk_full; [|by apply Forall_reverse|].
    + unfold read_entries. generalize (sd_messages d) as l. intros l. induction l as [|e l IH]; [done|].
      rewrite reverse_cons, omap_app, reverse_app, IH. cbn. by destruct (entry_from_json _ _).
    + rewrite fmap_reverse. by rewrite (reverse_Permutation (cost <$> sd_messages d)).
Qed.
End Tail.

(** ** Spawn chips *)

Lemma first_found_spec {A} (f : A → option (option A)) l :
  match first_found f l with
  | None => ∀ i x, l !! i = Some x → f x = None
  | Some found => ∃ i x y, l !! i = Some x ∧ f x = Some y ∧ found = (λ y, <[i := y]> l) <$> y ∧
      ∀ j z, (j < i)%nat → l !! j = Some z → f z = None
  end.
Proof.
  induction l as [|x l IH]; [done|]. cbn. destruct (f x) as [y|] eqn:E.
  - exists 0%nat, x, y. split_and!; [done|done|by destruct y|]. intros j z Hj. lia.
  - destruct (first_found f l) as [found|]; cbn.
    + destruct IH as (i & x' & y & H1 & H2 & -> & H4). exists (S i), x', y. split_and!; [done|done|by destruct y|].
      intros [|j] z Hj Hz; [by injection Hz as <-|]. apply (H4 j z); [lia|done].
    + intros [|i] z Hz; [by injection Hz as <-|by apply (IH i)].
Qed.

(** The stored part is the chip of the tool call. *)
Definition is_chip (part_id : string) (item : PItem) : Prop :=
  ∃ m, item = PartMap m ∧ part_field_is "kind" "tool" m = true ∧ part_field_is "id" part_id m = true.

Lemma chip_part_none part_id r s t item : chip_part part_id r s t item = None → ¬ is_chip part_id item.
Proof. intros H (m & -> & H1 & H2). cbn in H. by rewrite H1, H2 in H. Qed.

Definition chip_fields : list string := ["subagentRef"; "subagentStatus"; "subagentTail"].

Lemma chip_part_some part_id r s t item found :
  chip_part part_id r s t item = Some (Some found) →
  ∃ m m', item = PartMap m ∧ found = PartMap m' ∧ is_chip part_id item ∧ stored_spawn m = true ∧
    (∀ k, k ∉ chip_fields → m' !! k = m !! k) ∧
    m' !! "subagentRef" = from_option (λ v, Some (str_field v)) (m !! "subagentRef") r ∧
    m' !! "subagentStatus" = from_option (λ v, Some (str_field v)) (m !! "subagentStatus") s ∧
    m' !! "subagentTail" = from_option (λ v, Some (str_field v)) (m !! "subagentTail") t.
Proof.
  destruct item as [m|]; [|done]. cbn. destruct (_ && _) eqn:E; [|done]. destruct (stored_spawn m) eqn:Es; [|done].
  intros [= <-]. apply andb_true_iff in E as [E1 E2]. eexists m, _. split; [done|]. split; [reflexivity|].
  split; [by exists m|]. split; [done|]. split.
  - intros k Hk. unfold chip_fields in Hk. rewrite !not_elem_of_cons in Hk. destruct Hk as (K1 & K2 & K3 & _).
    rewrite !lookup_put_opt_ne; [done|..]; apply String.eqb_neq; congruence.
  - split_and!; part_lookup; by case_match.
Qed.

(** C39: The lifecycle of a subagent only ever lands on a spawn chip: an update
    that reports success wrote exactly the given fields of the newest stored
    tool part of that id, whose call is a spawn, and no other field, part or
    entry; in every other case the document is untouched. *)
Theorem chip_update_exact part_id r s t d :
  let '(d', found) := update_subagent_chip part_id r s t d in
  (found = false → d' = d) ∧
  (found = true → ∃ i e l j m m',
    sd_messages d !! i = Some e ∧ entry_parts e = Some l ∧ l !! j = Some (PartMap m) ∧
    is_chip part_id (PartMap m) ∧ stored_spawn m = true ∧
    d' = set_messages (<[i := set_parts (<[j := PartMap m']> l) e]> (sd_messages d)) d ∧
    (∀ k, k ∉ chip_fields → m' !! k = m !! k) ∧
    m' !! "subagentStatus" = from_option (λ v, Some (str_field v)) (m !! "subagentStatus") s ∧
    (∀ i' e' l' item, (i < i')%nat → sd_messages d !! i' = Some e' → entry_parts e' = Some l' → item ∈ l' →
      ¬ is_chip part_id item)).
Proof.
  unfold update_subagent_chip, on_messages.
  pose proof (first_found_spec (chip_entry part_id r s t) (reverse (sd_messages d))) as Hs.
  destruct (first_found _ _) as [[l'|]|] eqn:Ef; cbn [mjoin option_join fmap option_fmap option_map]; try done.
  split; [done|]. intros _. destruct Hs as (i & e & y & Hi & He & Hy & Hbefore).
  assert ((i < length (sd_messages d))%nat) as Hlt by (apply lookup_lt_Some in Hi; by rewrite length_reverse in Hi).
  destruct y as [e'|]; [|done]. injection Hy as ->. unfold chip_entry in He.
  destruct (entry_parts e) as [l|] eqn:El; [|done].
  pose proof (first_found_spec (chip_part part_id r s t) l) as Hp.
  destruct (first_found (chip_part part_id r s t) l) as [[k|]|]; cbn in He; try done. injection He as <-.
  destruct Hp as (j & item & y & Hj & Hc & Hy & _). destruct y as [found|]; [|done]. injection Hy as ->.
  destruct (chip_part_some _ _ _ _ _ _ Hc) as (m & m' & -> & -> & H1 & H2 & H3 & _ & H4 & _).
  set (n := length (sd_messages d)) in *. rewrite reverse_lookup in Hi by done. fold n in Hi.
  exists (n - S i)%nat, e, l, j, m, m'. split_and!; try done.
  - f_equal. apply list_eq. intros q. destruct (decide (q < n)%nat) as [Hq|Hq].
    + rewrite reverse_lookup by (by rewrite length_insert, length_reverse). rewrite length_insert, length_reverse. fold n.
      destruct (decide (q = n - S i)%nat) as [->|Hne].
      * replace (n - S (n - S i))%nat with i by lia. rewrite !list_lookup_insert_eq; [done|done|by rewrite length_reverse].
      * rewrite !list_lookup_insert_ne by lia. rewrite reverse_lookup by lia. f_equal. lia.
    + rewrite !lookup_ge_None_2; [done|rewrite length_insert; lia|rewrite length_reverse, length_insert, length_reverse; lia].
  - intros i' e' l'' x Hi' He' Hl' Hx Hchip. assert (i' < n)%nat as Hlt' by (by apply lookup_lt_Some in He').
    assert (reverse (sd_messages d) !! (n - S i')%nat = Some e') as Hrev.
    { rewrite reverse_lookup by lia. fold n. replace (n - S (n - S i'))%nat with i' by lia. done. }
    specialize (Hbefore (n - S i')%nat e' ltac:(lia) Hrev). unfold chip_entry in Hbefore. rewrite Hl' in Hbefore.
    pose proof (first_found_spec (chip_part part_id r s t) l'') as Hn.
    destruct (first_found (chip_part part_id r s t) l''); [done|].
    apply list_elem_of_lookup in Hx as [q Hq]. by apply (chip_part_none _ _ _ _ _ (Hn q x Hq)).
Qed.

(** ** Witnesses *)

Definition ex_entry : SessionMessageEntry :=
  mkMessage "m" RoleUser
    [PText "t0" "hi"; PInput "in-r" "r" [] true; PTool (new_tool "c" (Exec "ls"))] 5 "dev" (Some Complete) None (Some 7).

Lemma push_message_reads_witness :
  me_parts <$> read_entries (λ _, "0") (push_message ex_entry (init "chat")) =
    [[PText "t0" "hi"; PInput "r" "r" [] true; PTool (new_tool "c" (Exec "ls"))]].
Proof.
  rewrite (push_message_reads (λ _, "0") ex_entry (init "chat")); [reflexivity|]. split.
  - repeat constructor; done.
  - unfold is_i64. cbn. lia.
  - intros n [= <-]. unfold is_i64. lia.
Defined.

(** A chip update is refused for a call that is no spawn, and an orphan
    continuation is shown by itself. *)
Example chip_refused :
  update_subagent_chip "c" (Some "ref") None None (push_message ex_entry (init "chat")) =
    (push_message ex_entry (init "chat"), false).
Proof. vm_compute. done. Qed.
