(* ===== verification/SegmentSpec.v ===== *)
(** * SegmentSpec: the streamed entry follows the fold

    Theorems about the segment writer of Schema.v: each flush brings the stored
    parts to the folded ones, so that with the fold of Parts.v the entry shows
    what the agent's events fold to, at every flush and when it is finished. *)

From S2P Require Import Prelude Text Json Entities Agent Parts PartsSpec ToolJson Schema SchemaSpec.

(** ** Updates that the stored map can follow

    A field that was written is never removed, and the kind and the identity
    of a part are written once. *)

Definition kept {A} (o n : option A) : Prop := n = None → o = None.

#[export] Instance kept_preorder {A} : PreOrder (@kept A).
Proof. unfold kept. split; [intros x; done|]. intros x y z H1 H2 E. auto. Qed.

Lemma kept_some {A} (o : option A) x : kept o (Some x).
Proof. done. Qed.

Record updates (o n : DocPartJson) : Prop := {
  up_id : dp_id n = dp_id o;
  up_kind : dp_kind n = dp_kind o;
  up_chat : dp_source_chat_id n = dp_source_chat_id o;
  up_title : dp_source_title n = dp_source_title o;
  up_text : dp_text n = None ↔ dp_text o = None;
  up_reasoning : dp_reasoning n = None ↔ dp_reasoning o = None;
  up_path : kept (dp_path o) (dp_path n);
  up_name : kept (dp_name o) (dp_name n);
  up_mime : kept (dp_mime_type o) (dp_mime_type n);
  up_call : kept (dp_call o) (dp_call n);
  up_error : kept (dp_is_error o) (dp_is_error n);
  up_questions : kept (dp_questions o) (dp_questions n);
  up_resolved : kept (dp_resolved o) (dp_resolved n);
  up_message : kept (dp_message o) (dp_message n);
  up_output : kept (dp_output o) (dp_output n);
  up_diff : kept (dp_diff o) (dp_diff n);
  up_output_ref : kept (dp_output_ref o) (dp_output_ref n);
  up_bytes : kept (dp_output_bytes o) (dp_output_bytes n);
  up_diff_ref : kept (dp_diff_ref o) (dp_diff_ref n);
  up_stats : kept (dp_diff_stats o) (dp_diff_stats n);
  up_sub_ref : kept (dp_subagent_ref o) (dp_subagent_ref n);
  up_sub_status : kept (dp_subagent_status o) (dp_subagent_status n);
  up_sub_tail : kept (dp_subagent_tail o) (dp_subagent_tail n)
}.

#[export] Instance updates_preorder : PreOrder updates.
Proof.
  split; [intros x; by split|]. intros x y z [] []. split; try congruence; try (by etrans); tauto.
Qed.

Definition part_le (o n : MessagePart) : Prop := updates (to_doc_part o) (to_doc_part n).

#[export] Instance part_le_preorder : PreOrder part_le.
Proof. split; [intros x; apply (reflexivity (to_doc_part x))|intros x y z H1 H2]. unfold part_le in *. by etrans. Qed.

Lemma flat_update m o n :
  flat m o → updates o (to_doc_part n) → flat (update_part_fields n m) (to_doc_part n).
Proof.
  unfold flat, dp_fields. cbn [foldr fst snd].
  intros (F1 & F2 & F3 & F4 & F5 & F6 & F7 & F8 & F9 & F10 & F11 & F12 & F13 & F14 & F15 & F16 & F17 & F18 &
    F19 & F20 & F21 & F22 & F23 & _) U.
  unfold update_part_fields. set (d := to_doc_part n) in *. clearbody d.
  assert (∀ A (enc : A → PField) (x y : option A) v, kept x y → v = enc <$> x →
    match y with Some v => Some (enc v) | None => v end = enc <$> y) as Hk.
  { intros A enc x y v Hxy ->. destruct y; [done|]. by rewrite Hxy. }
  assert (∀ (x y : option string) (v : option PField), (y = None ↔ x = None) → v = FText <$> x →
    match y with
    | Some t => match v with Some (FText _) => Some (FText t) | _ => v end
    | None => v
    end = FText <$> y) as Ht.
  { intros x y v Hxy ->. destruct y, x; cbn; try done; exfalso; destruct Hxy as [H1 H2];
      [by specialize (H2 eq_refl)|by specialize (H1 eq_refl)]. }
  unfold put_live_fields. split_and!; part_lookup; try (eapply Hk; [apply U|done]).
  - by rewrite F1, (up_id _ _ U).
  - by rewrite F2, (up_kind _ _ U).
  - eapply Ht; [apply (up_text _ _ U)|done].
  - eapply Ht; [apply (up_reasoning _ _ U)|done].
  - by rewrite F13, (up_chat _ _ U).
  - by rewrite F14, (up_title _ _ U).
  - constructor.
Qed.

(** ** One flush *)

Definition holds (item : PItem) (p : MessagePart) : Prop := ∃ m, item = PartMap m ∧ flat m (to_doc_part p).

Lemma push_holds p : holds (push_part p) p.
Proof. destruct (push_part_flat p) as (m & -> & H). by exists m. Qed.

Lemma prefix_app old new : String.prefix old new = true → new = old +:+ str_drop (String.length old) new.
Proof.
  revert new. induction old as [|a old IH]; intros [|b new]; cbn; try done.
  destruct (ascii_dec a b) as [->|]; [|done]. intros H. f_equal. by apply IH.
Qed.

Lemma flat_text m id text text' :
  flat m (to_doc_part (PText id text)) → flat (<["text" := FText text']> m) (to_doc_part (PText id text')).
Proof.
  unfold flat, dp_fields. cbn. intros H. decompose [and] H. clear H.
  split_and!; part_lookup; try done. 
Qed.

Lemma flat_reasoning m id text text' :
  flat m (to_doc_part (PReasoning id text)) → flat (<["reasoning" := FText text']> m) (to_doc_part (PReasoning id text')).
Proof.
  unfold flat, dp_fields. cbn. intros H. decompose [and] H. clear H.
  split_and!; part_lookup; try done.
Qed.

Lemma at_part_ok i f parts m m' :
  parts !! i = Some (PartMap m) → f m = Ok m' → at_part i f parts = Ok (<[i := PartMap m']> parts).
Proof. intros H1 H2. unfold at_part. by rewrite H1, H2. Qed.

Lemma sync_part_follows i prev part parts item :
  parts !! i = Some item → holds item prev → part_le prev part →
  ∃ item', sync_part i prev part parts = Ok (<[i := item']> parts) ∧ holds item' part.
Proof.
  intros Hi (m & -> & Hf) Hle. unfold sync_part. destruct (grown prev part) as [[field delta]|] eqn:Eg.
  - assert (∀ text, delta = "" → text = text +:+ delta) as Hnil by (intros text ->; by rewrite str_app_nil_r).
    destruct prev as [id old| |id old| | | |], part as [id' new| |id' new| | | |]; try done; cbn in Eg;
      (destruct (String.prefix old new) eqn:Ep; [|done]); injection Eg as <- <-;
      pose proof (up_id _ _ Hle) as Eid; cbn in Eid; subst id'; apply prefix_app in Ep.
    + case_bool_decide as Hd.
      * exists (PartMap m). rewrite list_insert_id by done. split; [done|]. exists m. split; [done|].
        rewrite Ep, Hd, str_app_nil_r. exact Hf.
      * exists (PartMap (<["text" := FText new]> m)). split; [|eexists; split; [done|by eapply flat_text]].
        apply (at_part_ok _ _ _ m); [done|]. unfold append_text.
        assert (m !! "text" = Some (FText old)) as -> by apply Hf.
        by rewrite <- Ep.
    + case_bool_decide as Hd.
      * exists (PartMap m). rewrite list_insert_id by done. split; [done|]. exists m. split; [done|].
        rewrite Ep, Hd, str_app_nil_r. exact Hf.
      * exists (PartMap (<["reasoning" := FText new]> m)). split; [|eexists; split; [done|by eapply flat_reasoning]].
        apply (at_part_ok _ _ _ m); [done|]. unfold append_text.
        assert (m !! "reasoning" = Some (FText old)) as -> by apply Hf.
        by rewrite <- Ep.
  - exists (PartMap (update_part_fields part m)). split; [by apply (at_part_ok _ _ _ m)|].
    eexists. split; [done|]. by eapply flat_update.
Qed.

(** The folded parts go on from the written ones. *)
Definition evolves (old new : list MessagePart) : Prop :=
  (length old ≤ length new)%nat ∧ ∀ i o n, old !! i = Some o → new !! i = Some n → part_le o n.

Lemma sync_loop_follows folded : ∀ i parts written,
  Forall2 holds parts written → (i ≤ length written)%nat → (length written ≤ i + length folded)%nat →
  (∀ k o n, written !! (i + k)%nat = Some o → folded !! k = Some n → part_le o n) →
  ∃ parts', sync_loop i folded parts written = (parts', take i written ++ folded, Ok tt) ∧
    Forall2 holds parts' (take i written ++ folded).
Proof.
  induction folded as [|part folded IH]; intros i parts written Hh Hi Hl Hu; cbn [sync_loop].
  - exists parts. cbn in Hl. rewrite take_ge, app_nil_r by lia. done.
  - assert (∀ prev, written !! i = Some prev → part_le prev part) as Hp
      by (intros prev E; apply (Hu 0%nat); [by rewrite Nat.add_0_r|done]).
    assert (∀ w x, take (S i) w = take i w ++ [x] → take (S i) w ++ folded = take i w ++ x :: folded) as Happ
      by (intros w x ->; by rewrite <- app_assoc).
    destruct (written !! i) as [prev|] eqn:Ew.
    + apply lookup_lt_Some in Ew as Hlt. case_bool_decide as Heq.
      * subst part. destruct (IH (S i) parts written) as (parts' & E & H'); [done|lia|cbn in Hl; lia| |].
        { intros k o n Ho Hn. apply (Hu (S k)); [by rewrite Nat.add_succ_r|done]. }
        exists parts'. rewrite (Happ written prev) in E, H' by (by apply take_S_r). done.
      * destruct (Forall2_lookup_r _ _ _ _ _ Hh Ew) as (item & Hitem & Hold).
        destruct (sync_part_follows i prev part parts item Hitem Hold (Hp prev eq_refl)) as (item' & -> & Hnew).
        assert (take (S i) (<[i := part]> written) = take i (<[i := part]> written) ++ [part]) as Htk
          by (apply take_S_r; by apply list_lookup_insert_eq).
        destruct (IH (S i) (<[i := item']> parts) (<[i := part]> written)) as (parts' & E & H').
        { by apply Forall2_insert. } { rewrite length_insert. lia. } { rewrite length_insert. cbn in Hl. lia. }
        { intros k o n Ho Hn. rewrite list_lookup_insert_ne in Ho by lia.
          apply (Hu (S k)); [by rewrite Nat.add_succ_r|done]. }
        exists parts'. rewrite (Happ _ _ Htk) in E, H'. rewrite take_insert_ge in E, H' by lia. done.
    + apply lookup_ge_None_1 in Ew. assert (i = length written) as -> by lia.
      destruct (IH (S (length written)) (parts ++ [push_part part]) (written ++ [part])) as (parts' & E & H').
      { apply Forall2_app; [done|]. constructor; [apply push_holds|done]. }
      { rewrite length_app. cbn. lia. } { rewrite length_app. cbn in *. lia. }
      { intros k o n Ho. rewrite lookup_ge_None_2 in Ho; [done|]. rewrite length_app. cbn. lia. }
      exists parts'. rewrite (take_ge (written ++ [part])) in E, H' by (rewrite length_app; cbn; lia).
      rewrite take_ge by done. rewrite <- app_assoc in E, H'. done.
Qed.

(** ** The fold goes on from what was written *)

#[export] Instance evolves_preorder : PreOrder evolves.
Proof.
  split.
  - intros l. split; [done|]. intros i o n H1 H2. by simplify_eq.
  - intros l1 l2 l3 [H1 H2] [H3 H4]. split; [lia|]. intros i o n Ho Hn.
    destruct (lookup_lt_is_Some_2 l2 i) as [x Hx]; [apply lookup_lt_Some in Ho; lia|].
    etrans; [by eapply H2|by eapply H4].
Qed.

Lemma evolves_app l k : evolves l (l ++ k).
Proof.
  split; [rewrite length_app; lia|]. intros i o n Ho Hn. apply lookup_lt_Some in Ho as Hl.
  rewrite lookup_app_l in Hn by done. by simplify_eq.
Qed.

Lemma evolves_middle l1 x y l2 : part_le x y → evolves (l1 ++ x :: l2) (l1 ++ y :: l2).
Proof.
  intros Hxy. split; [rewrite !length_app; done|]. intros i o n.
  destruct (decide (i = length l1)) as [->|Hi].
  - rewrite !list_lookup_middle by done. by intros [= <-] [= <-].
  - destruct (decide (i < length l1)%nat).
    + rewrite !lookup_app_l by done. intros. by simplify_eq.
    + rewrite !lookup_app_r by lia. destruct (i - length l1)%nat as [|k] eqn:E; [lia|]. cbn. intros. by simplify_eq.
Qed.

Lemma evolves_map (f : MessagePart → MessagePart) l : (∀ p, p ∈ l → part_le p (f p)) → evolves l (f <$> l).
Proof.
  intros H. split; [by rewrite length_fmap|]. intros i o n Ho Hn. rewrite list_lookup_fmap, Ho in Hn.
  injection Hn as <-. apply H. by eapply list_elem_of_lookup_2.
Qed.

(** A tool part the fold made has no output, diff text or output size. *)
Definition lean (p : MessagePart) : Prop :=
  match p with
  | PTool t => tp_output t = None ∧ tp_diff t = None ∧ tp_output_bytes t = None
  | _ => True
  end.

(** An event of the entry that the stored parts can follow: it starts no new
    entry, an image takes no other part's id, and a second result of a call
    does not withdraw its diff. *)
Definition followed (out : list MessagePart) (e : AgentEvent) : Prop :=
  match e with
  | SessionStarted _ _ _ _ _ _ | Steered _ _ => False
  | GeneratedImage id _ _ _ => ∀ p, p ∈ out → part_id p = id → ∃ path name mime, p = PImage id path name mime
  | EvToolResult id _ _ None => ∀ t, PTool t ∈ out → tp_id t = id → tp_diff_stats t = None
  | _ => True
  end.

Section Follow.
Variable line_changes : string → string → Z * Z.

Let fold_event := fold_event_into_parts line_changes.

Lemma text_le id a b : part_le (PText id a) (PText id b).
Proof. by split. Qed.
Lemma reasoning_le id a b : part_le (PReasoning id a) (PReasoning id b).
Proof. by split. Qed.

Lemma resolve_le is_error diff t :
  lean (PTool t) → (diff = None → tp_diff_stats t = None) → part_le (PTool t) (PTool (resolve_tool line_changes is_error diff t)).
Proof.
  intros (H1 & H2 & H3) Hd. split; cbn; try done; rewrite ?H1, ?H2, ?H3; try done.
  unfold kept. destruct diff; cbn; [done|]. intros _. by rewrite Hd.
Qed.

Lemma lifecycle_le s t : part_le (PTool t) (PTool (fold_lifecycle s t)).
Proof. unfold fold_lifecycle. destruct s; [by split|]. destruct (tp_subagent_status t) as [[]|]; by split. Qed.

Lemma fold_event_lean out e : Forall lean out → Forall lean (fold_event out e).
Proof.
  intros Hl. assert (∀ p, lean p → Forall lean (out ++ [p])) as Happ
    by (intros p Hp; apply Forall_app; split; [done|by constructor]).
  assert (∀ f, (∀ p, lean p → lean (f p)) → Forall lean (f <$> out)) as Hmap
    by (intros f Hf; apply Forall_fmap; eapply Forall_impl; [exact Hl|done]).
  assert (∀ l, last out = Some l → Forall lean (removelast out)) as Hrem
    by (intros l E; rewrite (last_removelast _ _ E), Forall_app in Hl; apply Hl).
  assert (∀ f g p, lean p → (∀ p, lean p → lean (g p)) → Forall lean (default (out ++ [p]) (replace_first f g out))) as Hrep.
  { intros f g p Hp Hg. destruct (replace_first f g out) as [l|] eqn:E; [|by apply Happ]. cbn.
    apply replace_first_Some in E as (l1 & x & l2 & E & -> & _). rewrite E in Hl.
    apply Forall_app in Hl as [H1 [H2 H3]%Forall_cons]. apply Forall_app. split; [done|]. constructor; auto. }
  destruct e; cbn [fold_event fold_event_into_parts]; try done; try (by apply Happ).
  - destruct (last out) as [[]|] eqn:E; try (by apply Happ). apply Forall_app. split; [by eapply Hrem|by constructor].
  - by apply Hrep.
  - case_bool_decide; [done|]. destruct (last out) as [[]|] eqn:E; try (by apply Happ).
    apply Forall_app. split; [by eapply Hrem|by constructor].
  - apply Hrep; [done|]. by intros [].
  - apply Hmap. intros [] Hp; try done. by case_bool_decide.
  - destruct (existsb _ out); [done|by apply Happ].
  - apply Hmap. by intros [].
  - destruct error; [by apply Happ|done].
  - apply Hmap. intros [| | |t| | |] Hp; try done. destruct (_ && _); [|done]. unfold fold_lifecycle.
    destruct (subagent_lifecycle e); [done|]. by destruct (tp_subagent_status t) as [[]|].
Qed.

Lemma fold_event_evolves out e : Forall lean out → followed out e → evolves out (fold_event out e).
Proof.
  intros Hl Hf. destruct e; cbn [fold_event fold_event_into_parts] in *; try done; try apply evolves_app.
  - destruct (last out) as [[]|] eqn:E; try apply evolves_app.
    rewrite (last_removelast _ _ E) at 1. apply evolves_middle, text_le.
  - destruct (replace_first _ _ out) as [l|] eqn:E; [|apply evolves_app]. cbn.
    apply replace_first_Some in E as (l1 & x & l2 & -> & -> & Hx & _). apply evolves_middle.
    apply bool_decide_eq_true in Hx. destruct (Hf x) as (p & n & m & ->); [set_solver|done|by split].
  - case_bool_decide; [done|]. destruct (last out) as [[]|] eqn:E; try apply evolves_app.
    rewrite (last_removelast _ _ E) at 1. apply evolves_middle, reasoning_le.
  - destruct (replace_first _ _ out) as [l|] eqn:E; [|apply evolves_app]. cbn.
    apply replace_first_Some in E as (l1 & x & l2 & -> & -> & Hx & _). apply evolves_middle.
    by destruct x.
  - apply evolves_map. intros [| | |t| | |] Hp; try done. case_bool_decide as Hid; [|done]. apply resolve_le.
    + rewrite Forall_forall in Hl. by apply Hl.
    + intros ->. by apply Hf.
  - destruct (existsb _ out); [done|apply evolves_app].
  - apply evolves_map. by intros [| | | |i r q b| |] Hp.
  - destruct error; [apply evolves_app|done].
  - apply evolves_map. intros [| | |t| | |] Hp; try done. destruct (_ && _); [apply lifecycle_le|done].
Qed.

(** Every event is followed where it comes. *)
Fixpoint all_followed (out : list MessagePart) (events : list AgentEvent) : Prop :=
  match events with
  | [] => True
  | e :: events => followed out e ∧ all_followed (fold_event out e) events
  end.

Lemma fold_events_evolves events : ∀ out,
  Forall lean out → all_followed out events →
  Forall lean (fold_events line_changes events out) ∧ evolves out (fold_events line_changes events out).
Proof.
  induction events as [|e events IH]; intros out Hl Hf; [done|]. destruct Hf as [Hf Hfs].
  destruct (IH (fold_event out e)) as [H1 H2]; [by apply fold_event_lean|done|]. split; [exact H1|].
  etrans; [by apply fold_event_evolves|exact H2].
Qed.

Lemma all_followed_app out es fs :
  all_followed out (es ++ fs) ↔ all_followed out es ∧ all_followed (fold_events line_changes es out) fs.
Proof.
  revert out. induction es as [|e es IH]; intros out; [cbn; tauto|]. cbn [app all_followed]. rewrite IH.
  unfold fold_events. cbn [fold_left]. tauto.
Qed.
End Follow.

(** ** A streamed entry *)

(** The last entry of the document shows [written]; the fields are those of
    [e]. *)
Definition mirrors (base : list MItem) (e : SessionMessageEntry) (written : list MessagePart) (d : SessionDoc) : Prop :=
  ∃ m parts, sd_messages d = base ++ [EntryMap m] ∧ entry_fields m e ∧
    m !! "parts" = Some (EParts parts) ∧ Forall2 holds parts written.

Lemma mirrors_reads hash base e written d :
  mirrors base e written d → Forall part_ok written → is_i64 (me_created_at e) →
  (∀ n, me_duration_ms e = Some n → is_i64 n) →
  read_entries hash d = omap (λ x, entry_from_json hash (deep_entry x)) base ++
    [mkMessage (me_id e) (me_role e) (stored <$> written) (me_created_at e) (me_device_id e) (me_status e)
       (me_continuation_of e) (me_duration_ms e)].
Proof.
  intros (m & parts & Hd & He & Hp & Hh) Hok Hc Hdur. unfold read_entries. rewrite Hd, omap_app. f_equal.
  cbn [omap list_omap]. rewrite (entry_reads hash m e parts (stored <$> written)); [done|done|done| |done|done].
  clear Hp. revert Hok. induction Hh as [|item p items ps (pm & -> & Hf) _ IH]; intros Hok; [constructor|].
  apply Forall_cons in Hok as [Hp Hps]. constructor; [|by apply IH]. exists (to_doc_part p).
  split; [by apply flat_reads; [|apply to_doc_part_ok]|by apply to_from_doc_part].
Qed.

Lemma fields_parts m e l : entry_fields m e → entry_fields (<["parts" := EParts l]> m) e.
Proof. intros []. split; by entry_lookup. Qed.

(** A flush: the writer is resumed from the index and the mirror. *)
Lemma flush_mirrors base e written d folded :
  mirrors base e written d → evolves written folded → is_i64 (me_created_at e) →
  ∃ d', sync folded (resume (length base) written d) d =
      (mkWriter (length base) folded (me_created_at e), d', Ok tt) ∧ mirrors base e folded d'.
Proof.
  intros (m & parts & Hd & He & Hp & Hh) [Hl Hu] Hc. unfold sync, resume. cbn [sw_entry_index sw_written sw_created_at].
  rewrite Hd, list_lookup_middle by done. rewrite Hp, (ef_created _ _ He). rewrite as_i64_number by done. cbn [default].
  destruct (sync_loop_follows folded 0 parts written) as (parts' & -> & Hh'); [done|lia|lia|exact Hu|].
  cbn [take app] in *. eexists. split; [reflexivity|]. eexists _, parts'. split_and!.
  - cbn [set_messages sd_messages]. by rewrite insert_app_r_alt, Nat.sub_diag by done.
  - by apply fields_parts.
  - by rewrite lookup_insert_eq.
  - done.
Qed.

Lemma begin_mirrors entry_id device created d :
  let e := mkMessage entry_id RoleAssistant [] created device (Some Streaming) None None in
  let '(w, d') := begin entry_id device created d in
  sw_entry_index w = length (sd_messages d) ∧ sw_written w = [] ∧ mirrors (sd_messages d) e [] d'.
Proof.
  cbn. split_and!; [done|done|]. eexists _, []. split; [reflexivity|].
  split; [apply (write_entry_fields (mkMessage entry_id RoleAssistant [] created device (Some Streaming) None None) [])|].
  split; [by rewrite lookup_insert_eq|constructor].
Qed.

Section Stream.
Variable line_changes : string → string → Z * Z.

(** The events of a turn, flushed in batches: the fold, the mirror the sink
    keeps between flushes, the document, and the result. *)
Fixpoint stream (batches : list (list AgentEvent)) (folded : list MessagePart) (index : nat)
    (written : list MessagePart) (d : SessionDoc) : list MessagePart * SessionDoc * result string unit :=
  match batches with
  | [] => (folded, d, Ok tt)
  | batch :: batches =>
      let folded := fold_events line_changes batch folded in
      match sync folded (resume index written d) d with
      | (w, d, Ok _) => stream batches folded index (sw_written w) d
      | (_, d, Err e) => (folded, d, Err e)
      end
  end.

Lemma stream_mirrors batches : ∀ base e folded d,
  mirrors base e folded d → is_i64 (me_created_at e) → Forall lean folded →
  all_followed line_changes folded (concat batches) →
  ∃ d', stream batches folded (length base) folded d = (fold_events line_changes (concat batches) folded, d', Ok tt) ∧
    mirrors base e (fold_events line_changes (concat batches) folded) d'.
Proof.
  induction batches as [|b batches IH]; intros base e folded d Hm Hc Hl Hf; [by exists d|].
  cbn [concat] in Hf. apply all_followed_app in Hf as [Hf Hfs].
  destruct (fold_events_evolves line_changes b folded Hl Hf) as [Hl' He].
  destruct (flush_mirrors base e folded d (fold_events line_changes b folded) Hm He Hc) as (d1 & E & Hm1).
  destruct (IH base e (fold_events line_changes b folded) d1 Hm1 Hc Hl' Hfs) as (d' & E' & Hm').
  exists d'. cbn [stream concat]. cbv zeta. rewrite E. cbn [sw_written]. rewrite E'.
  unfold fold_events in *. rewrite fold_left_app. done.
Qed.

Definition turn_duration (created : Z) (clock : option Z) : option Z :=
  if 0 <? created then Some (Z.max (wrap_i64 (default created clock - created)) 0) else None.

Lemma finish_mirrors clock base e written d folded status :
  mirrors base e written d → evolves written folded → is_i64 (me_created_at e) → me_duration_ms e = None →
  ∃ d', finish clock folded status (resume (length base) written d) d = (d', Ok tt) ∧
    mirrors base (mkMessage (me_id e) (me_role e) (me_parts e) (me_created_at e) (me_device_id e) (Some status)
      (me_continuation_of e) (turn_duration (me_created_at e) clock)) folded d'.
Proof.
  intros Hm He Hc Hn. destruct (flush_mirrors base e written d folded Hm He Hc) as (d1 & E & m & parts & Hd & Hf & Hp & Hh).
  unfold finish. rewrite E. cbn [sw_entry_index sw_created_at]. rewrite Hd, list_lookup_middle by done.
  eexists. split; [reflexivity|]. unfold turn_duration. cbn [set_messages sd_messages].
  eexists _, parts. split; [by rewrite insert_app_r_alt, Nat.sub_diag by done|].
  destruct Hf as [F1 F2 F3 F4 F5 F6 F7]. rewrite Hn in F7.
  destruct (0 <? me_created_at e); (split; [split; entry_lookup; cbn; done|split; [by entry_lookup|done]]).
Qed.

End Stream.

(** A second result that carries no diff takes the diff out of the fold, but the
    stored part keeps it: no update removes a field. *)
Example withdrawn_diff_stays :
  let changes := λ _ _, (1, 0) in
  let first := fold_events changes [EvToolCall "c" (EditFile "a" None None);
                                    EvToolResult "c" false None (Some (mkDiff "a" None "x"))] [] in
  let second := fold_events changes [EvToolResult "c" false None None] first in
  let '(w, d) := begin "m" "dev" 5 (init "chat") in
  let '(w, d, _) := sync first w d in
  let '(_, d, _) := sync second w d in
  second = [PTool (resolve_tool changes false None (new_tool "c" (EditFile "a" None None)))] ∧
  me_parts <$> read_entries (λ _, "0") d = [first].
Proof. vm_compute. done. Qed.

(** ** Witnesses *)

