(* ===== verification/Rebuild.v ===== *)
(** * Rebuild: the thin copy of a session document

    Models crates/doc/src/rebuild.rs, with [summarize_tool_output] of parts.rs:
    the copy of a document in which every tool output is a summary and every
    diff a count, and what the copy owes the sidecar.  The commands are those
    the source reads. *)

From S2P Require Import Prelude Text Json Entities Agent Parts Commands ToolJson Schema SchemaSpec.

(** ** The summary of an output *)

Definition TOOL_OUTPUT_SUMMARY_MAX : nat := 160.

(** [str::lines] *)
Fixpoint lines (s : string) : list string :=
  match s with
  | EmptyString => []
  | String c r =>
      if (c =? "010")%char then "" :: lines r
      else
        let rest := match lines r with l :: ls => String c l :: ls | [] => [String c ""] end in
        match r with
        | String d r' => if (c =? "013")%char && (d =? "010")%char then "" :: lines r' else rest
        | EmptyString => rest
        end
  end.

(** [join("\n")] *)
Fixpoint join_lines (l : list string) : string :=
  match l with
  | [] => ""
  | [s] => s
  | s :: l => s +:+ String "010" (join_lines l)
  end.

(** [chars().count()] *)
Fixpoint char_len (s : string) : nat :=
  match s with
  | EmptyString => O
  | String c s => ((if is_continuation c then 0 else 1) + char_len s)%nat
  end.

(** The first [n] characters. *)
Fixpoint take_chars (n : nat) (s : string) : string :=
  match s with
  | EmptyString => ""
  | String c r =>
      if is_continuation c then String c (take_chars n r)
      else match n with O => "" | S n => String c (take_chars n r) end
  end.

Definition ELLIPSIS : string := String "226" (String "128" (String "166" "")).

Definition summarize_tool_output (text : string) : option string :=
  let kept := filter (λ l, String.prefix "```" (trim_start l) = false) (lines text) in
  let stripped := trim (join_lines kept) in
  if bool_decide (stripped = "") then None
  else if (char_len stripped <=? TOOL_OUTPUT_SUMMARY_MAX)%nat then Some stripped
  else
    let line := trim_end (default stripped (head (filter (λ l, trim l ≠ "") (lines stripped)))) in
    Some (take_chars TOOL_OUTPUT_SUMMARY_MAX line +:+ ELLIPSIS).

(** ** The strip of one part *)

Section Rebuild.
Variable line_changes : string → string → Z * Z.
Variable stable_hash : Value → string.
Variable usage_text : ContextUsage → string.
Variable usage_parse : string → option ContextUsage.

(** The output side: what the part keeps, and the payload. *)
Definition strip_output (chat_id : string) (t : ToolPart) : ToolPart * option string :=
  let keep output bytes ref :=
    mkTool (tp_id t) (tp_call t) (tp_is_error t) (tp_resolved t) output (tp_diff t) ref bytes
      (tp_diff_ref t) (tp_diff_stats t) (tp_subagent_ref t) (tp_subagent_status t) (tp_subagent_tail t) in
  match tp_output_ref t, tp_output t with
  | None, Some full =>
      if bool_decide (trim full = "") then (keep None (tp_output_bytes t) None, None)
      else (keep (summarize_tool_output full) (Some (str_len full)) (Some (chat_id +:+ "/" +:+ tp_id t)), Some full)
  | _, _ => (t, None)
  end.

Definition strip_diff (chat_id : string) (t : ToolPart) : ToolPart * option ToolDiff :=
  match tp_diff t with
  | Some full =>
      (mkTool (tp_id t) (tp_call t) (tp_is_error t) (tp_resolved t) (tp_output t) None (tp_output_ref t)
        (tp_output_bytes t)
        (match tp_diff_ref t with Some r => Some r | None => Some (chat_id +:+ "/" +:+ tp_id t +:+ ".diff") end)
        (Some [diff_stat line_changes full]) (tp_subagent_ref t) (tp_subagent_status t) (tp_subagent_tail t),
       Some full)
  | None => (t, None)
  end.

Definition strip_part (chat_id : string) (p : MessagePart) : MessagePart * option SidecarPayload :=
  match p with
  | PTool t =>
      let '(t, output) := strip_output chat_id t in
      let '(t, diff) := strip_diff chat_id t in
      (PTool t, if bool_decide (is_Some output) || bool_decide (is_Some diff)
                then Some (mkSidecar (tp_id t) output diff) else None)
  | p => (p, None)
  end.

(** ** The copy *)

Definition THIN_DOC_EPOCH : Z := 2.

(** [n.max(0) as u32] *)
Definition doc_epoch (d : SessionDoc) : Z :=
  match sd_meta d !! "epoch" ≫= as_i64 with Some n => wrap_u32 (Z.max n 0) | None => 0 end.

Record ThinRebuild := mkRebuild {
  tr_doc : SessionDoc;
  tr_commands : list SessionCommandEntry;
  tr_sidecar : list SidecarPayload;
  tr_entries : nat;
  tr_commands_copied : nat
}.

Definition strip_entry (chat_id : string) (e : SessionMessageEntry) : SessionMessageEntry :=
  mkMessage (me_id e) (me_role e) ((λ p, (strip_part chat_id p).1) <$> me_parts e) (me_created_at e)
    (me_device_id e) (me_status e) (me_continuation_of e) (me_duration_ms e).

Definition copy_entry (chat_id : string) (st : SessionDoc * list SidecarPayload) (e : SessionMessageEntry)
    : SessionDoc * list SidecarPayload :=
  (push_message (strip_entry chat_id e) st.1, st.2 ++ omap (λ p, (strip_part chat_id p).2) (me_parts e)).

Definition rebuild_thin_doc (source : SessionDoc) (commands : list SessionCommandEntry) : result string ThinRebuild :=
  match chat_id source with
  | None => Err "source doc has no chatId"
  | Some chat =>
      let thin := init chat in
      let thin := set_meta (<["epoch" := Number THIN_DOC_EPOCH]> (sd_meta thin)) thin in
      let thin := match context_usage usage_parse source with
                  | Some u => update_context_usage usage_text usage_parse (cu_tokens u) (cu_window u) thin
                  | None => thin
                  end in
      let entries := read_entries stable_hash source in
      let '(thin, sidecar) := fold_left (copy_entry chat) entries (thin, []) in
      let pending := filter (λ c, ce_status c = SPending) commands in
      Ok (mkRebuild thin pending sidecar (length entries) (length pending))
  end.

Example summary_example :
  summarize_tool_output (join_lines ["```console"; "  one"; "two  "; "```"]) = Some ("one" +:+ String "010" "two").
Proof. reflexivity. Qed.

(** ** A stripped part is thin *)

Lemma char_len_app a b : char_len (a +:+ b) = (char_len a + char_len b)%nat.
Proof. induction a as [|c a IH]; [done|]. change (String c a +:+ b) with (String c (a +:+ b)). cbn. rewrite IH. lia. Qed.

Lemma char_len_take n s : (char_len (take_chars n s) ≤ n)%nat.
Proof.
  revert n. induction s as [|c s IH]; intros n; cbn; [lia|]. destruct (is_continuation c) eqn:E; cbn; [rewrite E; apply IH|].
  destruct n as [|n]; cbn; [lia|]. rewrite E. specialize (IH n). lia.
Qed.

Lemma summary_length text s : summarize_tool_output text = Some s → (char_len s ≤ TOOL_OUTPUT_SUMMARY_MAX + 1)%nat.
Proof.
  unfold summarize_tool_output. case_bool_decide; [done|].
  destruct (Nat.leb_spec (char_len (trim (join_lines (filter (λ l, String.prefix "```" (trim_start l) = false) (lines text)))))
    TOOL_OUTPUT_SUMMARY_MAX); intros [= <-]; [lia|].
  rewrite char_len_app. pose proof (char_len_take TOOL_OUTPUT_SUMMARY_MAX) as H'. etrans; [apply Nat.add_le_mono_r, H'|].
  done.
Qed.

(** Nothing inline but a summary. *)
Definition thin (p : MessagePart) : Prop :=
  match p with
  | PTool t => tp_diff t = None ∧ (tp_output_ref t = None → tp_output t = None)
  | _ => True
  end.

Lemma strip_thin chat p : thin p → strip_part chat p = (p, None).
Proof.
  destruct p as [| | |t| | |]; try done. intros [Hd Ho]. cbn. unfold strip_output, strip_diff.
  destruct t as [id call err res out diff oref bytes dref stats sr ss st]; cbn in *. subst diff.
  destruct oref; cbn; [done|]. rewrite Ho by done. done.
Qed.

Lemma strip_part_thin chat p : thin (strip_part chat p).1.
Proof.
  destruct p as [| | |t| | |]; try done. cbn. unfold strip_output, strip_diff.
  destruct t as [id call err res out diff oref bytes dref stats sr ss st]; cbn.
  destruct oref as [r|], out as [full|]; cbn; try case_bool_decide; cbn; destruct diff as [df|]; cbn; try done.
Qed.

(** The strip of a part loses nothing and is done once: the text it takes
    out is in the payload, unless it was blank; what stays of an output is a
    summary of bounded length, of a diff its counts; nothing else of the part
    changes, and stripping the result again owes nothing. *)
Theorem strip_part_exact chat p :
  let '(p', owed) := strip_part chat p in
  strip_part chat p' = (p', None) ∧
  match p, p' with
  | PTool t, PTool t' =>
      tp_id t' = tp_id t ∧ tp_call t' = tp_call t ∧ tp_is_error t' = tp_is_error t ∧ tp_resolved t' = tp_resolved t ∧
      (∀ o, tp_output t = Some o →
        tp_output t' = Some o ∨ trim o = "" ∨ (tp_output t' = summarize_tool_output o ∧ (owed ≫= sc_output) = Some o)) ∧
      (∀ df, tp_diff t = Some df →
        (owed ≫= sc_diff) = Some df ∧ tp_diff_stats t' = Some [diff_stat line_changes df]) ∧
      (∀ o, tp_output t' = Some o → tp_output_ref t = None → (char_len o ≤ TOOL_OUTPUT_SUMMARY_MAX + 1)%nat)
  | PTool _, _ => False
  | _, _ => p' = p
  end.
Proof.
  destruct (strip_part chat p) as [p' owed] eqn:E. split.
  { apply strip_thin. pose proof (strip_part_thin chat p) as Ht. by rewrite E in Ht. }
  destruct p as [| | |t| | |]; try (by injection E as <- <-). unfold strip_part, strip_output, strip_diff in E.
  destruct t as [id call err res out diff oref bytes dref stats sr ss st]. cbn in E.
  destruct oref as [r|], out as [full|]; cbn in E;
    [| |case_bool_decide as Hb; cbn in E|]; destruct diff as [df|]; cbn in E; injection E as <- <-; cbn;
    split_and!; try done; try (intros ? [= <-]); try (by left); try (by right; left); try (by right; right).
  all: try done; intros o Ho _; by apply (summary_length full).
Qed.

Lemma copy_entries chat es : ∀ d sc,
  Forall entry_ok (strip_entry chat <$> es) →
  let '(d', sc') := fold_left (copy_entry chat) es (d, sc) in
  read_entries stable_hash d' = read_entries stable_hash d ++ (stored_entry ∘ strip_entry chat <$> es) ∧
  sd_meta d' = sd_meta d ∧ sc' = sc ++ (es ≫= λ e, omap (λ p, (strip_part chat p).2) (me_parts e)).
Proof.
  induction es as [|e es IH]; intros d sc Hok; [by rewrite !app_nil_r|].
  cbn [fmap list_fmap] in Hok. apply Forall_cons in Hok as [He Hes]. cbn [fold_left].
  specialize (IH (push_message (strip_entry chat e) d) (sc ++ omap (λ p, (strip_part chat p).2) (me_parts e)) Hes).
  unfold copy_entry at 2. cbn [fst snd]. destruct (fold_left _ _ _) as [d' sc']. destruct IH as (H1 & H2 & H3).
  split; [|split; [done|]].
  - rewrite H1. unfold read_entries at 1, push_message. cbn [sd_messages set_messages]. rewrite omap_app, <- app_assoc.
    f_equal. cbn [omap list_omap]. rewrite pushed_entry_reads by done. reflexivity.
  - rewrite H3, <- app_assoc. done.
Qed.

Lemma stored_thin p : thin p → thin (stored p).
Proof. destruct p as [|id path name mime| |t| | |]; try done. intros _. cbn [stored image_part]. by destruct (_ && _). Qed.

Lemma thin_owes_nothing chat es d sc :
  Forall (λ e, Forall thin (me_parts e)) es → (fold_left (copy_entry chat) es (d, sc)).2 = sc.
Proof.
  intros Ht. revert d sc. induction Ht as [|e es He Hes IH]; intros d sc; [done|]. cbn [fold_left]. unfold copy_entry at 2.
  cbn [fst snd]. rewrite IH. assert (omap (λ p, (strip_part chat p).2) (me_parts e) = []) as ->; [|by rewrite app_nil_r].
  induction He as [|p ps Hp Hps IHp]; [done|]. cbn. by rewrite strip_thin.
Qed.


End Rebuild.

(** ** Witness *)

Definition fat_tool : ToolPart :=
  mkTool "c" (Exec "ls") false true (Some "out") (Some (mkDiff "a" None "x")) None None None None None None None.

Definition fat_source : SessionDoc :=
  push_message (mkMessage "m" RoleAssistant [PText "t0" "hi"; PTool fat_tool] 5 "dev" (Some Complete) None None)
    (init "chat").

