(* ===== verification/Transcript.v ===== *)
(** * Transcript: delta frames of a watched transcript

    Models crates/doc/src/transcript_delta.rs: the diff of two transcript
    states into a frame, the application of a frame on the other side, and the
    replay baseline.  [diff_apply] proves the round trip. *)

From S2P Require Import Prelude Text Json Entities Agent Parts ToolJson Schema.

Record TranscriptUpsert := mkUpsert { up_after : option string; up_entry : SessionMessageEntry }.
Record TextAppend := mkAppend { ta_entry : string; ta_part : string; ta_text : string; ta_len : nat }.

Inductive TranscriptFrame :=
  | Reset (reset : list SessionMessageEntry)
  | Delta (upsert : list TranscriptUpsert) (append : list TextAppend) (remove : list string) (count : nat).

Definition is_empty_delta (f : TranscriptFrame) : bool :=
  match f with Delta [] [] [] _ => true | _ => false end.

(** ** Diff *)

(** [nt.strip_prefix(pt)] *)
Fixpoint strip_prefix (pt nt : string) : option string :=
  match pt, nt with
  | EmptyString, _ => Some nt
  | String a pt, String b nt => if (a =? b)%char then strip_prefix pt nt else None
  | _, EmptyString => None
  end.

(** The text-bodied parts: same kind, ids and bodies. *)
Definition text_pair (p n : MessagePart) : option ((string * string) * (string * string)) :=
  match p, n with
  | PText pid pt, PText nid nt | PReasoning pid pt, PReasoning nid nt => Some ((pid, pt), (nid, nt))
  | _, _ => None
  end.

Fixpoint append_loop (entry : string) (ps ns : list MessagePart) (append : option TextAppend)
    : option TextAppend :=
  match ps, ns with
  | p :: ps, n :: ns =>
      if bool_decide (p = n) then append_loop entry ps ns append else
      match text_pair p n with
      | None => None
      | Some ((pid, pt), (nid, nt)) =>
          match strip_prefix pt nt with
          | Some tail =>
              if negb (bool_decide (pid = nid)) || bool_decide (is_Some append) then None
              else append_loop entry ps ns (Some (mkAppend entry nid tail (String.length nt)))
          | None => None
          end
      end
  | _, _ => append
  end.

Definition try_text_append (prev next : SessionMessageEntry) : option TextAppend :=
  if bool_decide (me_id prev = me_id next) && bool_decide (me_role prev = me_role next)
     && bool_decide (me_created_at prev = me_created_at next)
     && bool_decide (me_device_id prev = me_device_id next)
     && bool_decide (me_status prev = me_status next)
     && bool_decide (me_continuation_of prev = me_continuation_of next)
     && (length (me_parts prev) =? length (me_parts next))%nat
  then append_loop (me_id next) (me_parts prev) (me_parts next) None
  else None.

(** [prev_by_id]: the last entry of that id, with its predecessor's id. *)
Fixpoint prev_by_id (before : option string) (prev : list SessionMessageEntry) (id : string)
    : option (option string * SessionMessageEntry) :=
  match prev with
  | [] => None
  | e :: prev =>
      match prev_by_id (Some (me_id e)) prev id with
      | Some r => Some r
      | None => if bool_decide (me_id e = id) then Some (before, e) else None
      end
  end.

Fixpoint diff_loop (prev : list SessionMessageEntry) (after : option string)
    (next : list SessionMessageEntry) : list TranscriptUpsert * list TextAppend :=
  match next with
  | [] => ([], [])
  | entry :: next =>
      let '(ups, apps) := diff_loop prev (Some (me_id entry)) next in
      match prev_by_id None prev (me_id entry) with
      | Some (prev_after, prev_entry) =>
          if bool_decide (prev_entry = entry) && bool_decide (prev_after = after) then (ups, apps)
          else match (if bool_decide (prev_after = after) then try_text_append prev_entry entry else None) with
               | Some a => (ups, a :: apps)
               | None => (mkUpsert after entry :: ups, apps)
               end
      | None => (mkUpsert after entry :: ups, apps)
      end
  end.

Definition ids (l : list SessionMessageEntry) : list string := me_id <$> l.

Definition diff_transcript (prev next : list SessionMessageEntry) : TranscriptFrame :=
  let remove := ids (filter (λ e, me_id e ∉ ids next) prev) in
  let '(upsert, append) := diff_loop prev None next in
  if (Nat.max (length next) 1 <=? length upsert * 2)%nat && (4 <? length next)%nat then Reset next
  else Delta upsert append remove (length next).

(** ** Application *)

Fixpoint position_of (id : string) (l : list SessionMessageEntry) : option nat :=
  match l with
  | [] => None
  | e :: l => if bool_decide (me_id e = id) then Some O else S <$> position_of id l
  end.

Definition apply_upsert (u : TranscriptUpsert) (current : list SessionMessageEntry)
    : result string (list SessionMessageEntry) :=
  let current := match position_of (me_id (up_entry u)) current with
                 | Some existing => delete existing current
                 | None => current
                 end in
  match up_after u with
  | None => Ok (up_entry u :: current)
  | Some anchor =>
      match position_of anchor current with
      | Some ix => Ok (insert_at (S ix) (up_entry u) current)
      | None => Err ("missing anchor " +:+ anchor)
      end
  end.

Fixpoint apply_upserts (us : list TranscriptUpsert) (current : list SessionMessageEntry)
    : result string (list SessionMessageEntry) :=
  match us with
  | [] => Ok current
  | u :: us => current <-? apply_upsert u current;; apply_upserts us current
  end.

Definition is_tail (part : string) (p : MessagePart) : bool :=
  match p with PText id _ | PReasoning id _ => bool_decide (id = part) | _ => false end.
Definition push_tail (text : string) (p : MessagePart) : MessagePart :=
  match p with
  | PText id t => PText id (t +:+ text)
  | PReasoning id t => PReasoning id (t +:+ text)
  | p => p
  end.
Definition tail_len (p : MessagePart) : nat :=
  match p with PText _ t | PReasoning _ t => String.length t | _ => O end.

Definition with_parts (parts : list MessagePart) (e : SessionMessageEntry) : SessionMessageEntry :=
  mkMessage (me_id e) (me_role e) parts (me_created_at e) (me_device_id e) (me_status e)
    (me_continuation_of e) (me_duration_ms e).

Definition apply_append (a : TextAppend) (current : list SessionMessageEntry)
    : result string (list SessionMessageEntry) :=
  match position_of (ta_entry a) current ≫= λ i, (λ e, (i, e)) <$> current !! i with
  | None => Err ("missing append entry " +:+ ta_entry a)
  | Some (i, target) =>
      match replace_first (is_tail (ta_part a)) (push_tail (ta_text a)) (me_parts target) with
      | None => Err ("missing append part " +:+ ta_part a)
      | Some parts =>
          if bool_decide (tail_len <$> List.find (is_tail (ta_part a)) parts = Some (ta_len a))
          then Ok (<[i := with_parts parts target]> current)
          else Err ("append length mismatch on " +:+ ta_entry a +:+ "#" +:+ ta_part a)
      end
  end.

Fixpoint apply_appends (us : list TextAppend) (current : list SessionMessageEntry)
    : result string (list SessionMessageEntry) :=
  match us with
  | [] => Ok current
  | a :: us => current <-? apply_append a current;; apply_appends us current
  end.

Definition apply_transcript_frame (current : list SessionMessageEntry) (frame : TranscriptFrame)
    : result string (list SessionMessageEntry) :=
  match frame with
  | Reset reset => Ok reset
  | Delta upsert append remove count =>
      let current := filter (λ e, me_id e ∉ remove) current in
      current <-? apply_upserts upsert current;;
      current <-? apply_appends append current;;
      if (length current =? count)%nat then Ok current else Err "count mismatch"
  end.

(** ** Replay baseline *)

Abbreviation TranscriptBaseline := (gmap string (gmap string nat)).

Definition covers_part (parts : gmap string nat) (p : MessagePart) : bool :=
  match parts !! part_id p with
  | Some len => match p with
                | PText _ text | PReasoning _ text => (String.length text <=? len)%nat
                | _ => true
                end
  | None => false
  end.

Definition covers (b : TranscriptBaseline) (e : SessionMessageEntry) : bool :=
  match b !! me_id e with
  | Some parts => forallb (covers_part parts) (me_parts e)
  | None => false
  end.

Definition capture_entry (e : SessionMessageEntry) : gmap string nat :=
  foldl (λ m p, <[part_id p := tail_len p]> m) ∅ (me_parts e).

Definition capture (entries : list SessionMessageEntry) : TranscriptBaseline :=
  foldl (λ m e, <[me_id e := capture_entry e]> m) ∅ entries.

(** The cutoff never falls inside a character. *)
Definition truncate (len : nat) (text : string) : string :=
  str_take (back_to_boundary text (len `min` String.length text)) text.

Definition historical_part (parts : gmap string nat) (p : MessagePart) : option MessagePart :=
  len ← parts !! part_id p;
  Some (match p with
        | PText id text => PText id (truncate len text)
        | PReasoning id text => PReasoning id (truncate len text)
        | p => p
        end).

Definition historical_entry (b : TranscriptBaseline) (e : SessionMessageEntry)
    : option SessionMessageEntry :=
  parts ← b !! me_id e;
  Some (with_parts (omap (historical_part parts) (me_parts e)) e).

(** ** A text append rebuilds the entry *)

Lemma strip_prefix_Some pt nt tail : strip_prefix pt nt = Some tail → nt = pt +:+ tail.
Proof.
  revert nt. induction pt as [|a pt IH]; intros nt; cbn; [by intros [= ->]|].
  destruct nt as [|b nt]; [done|]. destruct (Ascii.eqb_spec a b) as [->|]; [|done].
  intros H. f_equal. by apply IH.
Qed.

Lemma append_loop_same entry ps ns a :
  length ps = length ns → append_loop entry ps ns (Some a) = Some a ∧ ps = ns ∨
  append_loop entry ps ns (Some a) = None.
Proof.
  revert ns. induction ps as [|p ps IH]; intros [|n ns] Hl; try done; [by left|].
  injection Hl as Hl. cbn [append_loop]. case_bool_decide as E.
  - subst n. destruct (IH ns Hl) as [[H ->]|H]; [by left|by right].
  - right. destruct (text_pair p n) as [[[pid pt] [nid nt]]|]; [|done].
    destruct (strip_prefix pt nt); [|done].
    rewrite (bool_decide_eq_true_2 (is_Some (Some a))) by eauto. by rewrite orb_true_r.
Qed.

(** The one part that grew. *)
Lemma append_loop_spec entry ps ns a :
  length ps = length ns → append_loop entry ps ns None = Some a →
  ∃ l1 p l2, ps = l1 ++ p :: l2 ∧ ns = l1 ++ push_tail (ta_text a) p :: l2 ∧ part_id p = ta_part a ∧
    is_tail (ta_part a) p = true ∧ tail_len (push_tail (ta_text a) p) = ta_len a ∧ ta_entry a = entry.
Proof.
  revert ns. induction ps as [|p ps IH]; intros [|n ns] Hl; try done.
  injection Hl as Hl. cbn [append_loop]. case_bool_decide as E.
  - subst n. intros H. destruct (IH ns Hl H) as (l1 & q & l2 & -> & -> & Hq). by exists (p :: l1), q, l2.
  - destruct (text_pair p n) as [[[pid pt] [nid nt]]|] eqn:Ep; [|done].
    destruct (strip_prefix pt nt) as [tail|] eqn:Es; [|done]. apply strip_prefix_Some in Es.
    case_bool_decide as Hid; cbn [negb orb]; [|done]. rewrite bool_decide_eq_false_2 by (by intros [? [=]]).
    intros H. destruct (append_loop_same entry ps ns (mkAppend entry nid tail (String.length nt)) Hl)
      as [[H1 ->]|H1]; rewrite H1 in H; [|done]. injection H as <-. cbn.
    exists [], p, ns. subst nt nid.
    destruct p, n; cbn in Ep; try done; injection Ep as -> -> -> ->; cbn; rewrite bool_decide_eq_true_2 by done; done.
Qed.

Lemma is_tail_push part text p : is_tail part (push_tail text p) = is_tail part p.
Proof. by destruct p. Qed.

(** The only part of that id is the one found. *)
Lemma tail_unique l1 p l2 part :
  NoDup (part_id <$> l1 ++ p :: l2) → part_id p = part → is_tail part p = true →
  ∀ q, q ∈ l1 → is_tail part q = false.
Proof.
  intros Hn Hp Ht q Hq. rewrite fmap_app, fmap_cons in Hn. apply NoDup_app in Hn as (_ & Hd & _).
  destruct (is_tail part q) eqn:E; [|done]. exfalso. apply (Hd (part_id q)).
  - by apply list_elem_of_fmap_2.
  - rewrite Hp. assert (part_id q = part) as -> by (destruct q; cbn in E; try done; by apply bool_decide_eq_true in E). left.
Qed.

Lemma replace_first_at {A} (f : A → bool) g l1 x l2 :
  (∀ y, y ∈ l1 → f y = false) → f x = true → replace_first f g (l1 ++ x :: l2) = Some (l1 ++ g x :: l2).
Proof.
  intros H Hx. induction l1 as [|y l1 IH]; cbn; [by rewrite Hx|].
  rewrite H by left. rewrite IH by (intros; apply H; by right). done.
Qed.

Lemma find_at {A} (f : A → bool) l1 x l2 :
  (∀ y, y ∈ l1 → f y = false) → f x = true → List.find f (l1 ++ x :: l2) = Some x.
Proof.
  intros H Hx. induction l1 as [|y l1 IH]; cbn; [by rewrite Hx|].
  rewrite H by left. apply IH. intros. apply H. by right.
Qed.

Lemma position_of_at l1 e l2 :
  me_id e ∉ ids l1 → position_of (me_id e) (l1 ++ e :: l2) = Some (length l1).
Proof.
  induction l1 as [|x l1 IH]; cbn; [by rewrite bool_decide_eq_true_2|].
  intros H. rewrite bool_decide_eq_false_2 by (intros E; apply H; rewrite E; left).
  rewrite IH; [done|]. intros Hin. apply H. by right.
Qed.

Lemma position_of_None id l : id ∉ ids l → position_of id l = None.
Proof.
  induction l as [|x l IH]; cbn; [done|].
  intros H. rewrite bool_decide_eq_false_2 by (intros E; apply H; rewrite E; left).
  rewrite IH; [done|]. intros Hin. apply H. by right.
Qed.

Lemma apply_append_exact a p n l1 l2 :
  try_text_append p n = Some a → me_duration_ms p = me_duration_ms n → NoDup (part_id <$> me_parts n) →
  me_id p ∉ ids l1 → apply_append a (l1 ++ p :: l2) = Ok (l1 ++ n :: l2).
Proof.
  unfold try_text_append. destruct (_ && _) eqn:E; [|done]. intros H Hd Hn Hl.
  rewrite !andb_true_iff, !bool_decide_eq_true, Nat.eqb_eq in E.
  destruct E as ((((((E1 & E2) & E3) & E4) & E5) & E6) & E7).
  destruct (append_loop_spec _ _ _ _ E7 H) as (q1 & q & q2 & Hp & Hq & Hid & Ht & Hlen & Hentry).
  unfold apply_append. rewrite Hentry, <- E1, position_of_at by done. cbn [mbind option_bind].
  rewrite list_lookup_middle by done. cbn [fmap option_fmap option_map].
  assert (∀ y, y ∈ q1 → is_tail (ta_part a) y = false) as Hu.
  { eapply tail_unique; [|exact Hid|exact Ht]. rewrite Hq in Hn.
    rewrite fmap_app, fmap_cons in Hn |- *. assert (part_id (push_tail (ta_text a) q) = part_id q) as <-; [by destruct q|done]. }
  rewrite Hp, replace_first_at by done.
  rewrite find_at; [|done|by rewrite is_tail_push]. cbn [fmap option_fmap option_map].
  rewrite Hlen, bool_decide_eq_true_2 by done. f_equal.
  rewrite <- (Nat.add_0_r (length l1)), insert_app_r. cbn. f_equal. f_equal.
  unfold with_parts. rewrite <- Hq, E1, E2, E3, E4, E5, E6, Hd. by destruct n.
Qed.

(** ** Applying a diff *)

Lemma prev_by_id_Some b prev id pa pe :
  prev_by_id b prev id = Some (pa, pe) → me_id pe = id ∧ pe ∈ prev.
Proof.
  revert b. induction prev as [|e prev IH]; intros b; cbn; [done|].
  destruct (prev_by_id (Some (me_id e)) prev id) as [r|] eqn:E.
  - intros [= ->]. apply IH in E as [??]. split; [done|by right].
  - case_bool_decide; [|done]. intros [= _ <-]. split; [done|left].
Qed.

Lemma prev_by_id_None b prev id : prev_by_id b prev id = None ↔ id ∉ ids prev.
Proof.
  revert b. induction prev as [|e prev IH]; intros b; cbn.
  - split; [intros _ H; by apply not_elem_of_nil in H|done].
  - specialize (IH (Some (me_id e))). destruct (prev_by_id (Some (me_id e)) prev id) as [r|].
    + split; [done|]. intros H. exfalso. assert (id ∉ ids prev) as Hn by (intros Hi; apply H; by right).
      apply IH in Hn. done.
    + case_bool_decide as Hid.
      * split; [done|]. intros H. exfalso. apply H. rewrite <- Hid. left.
      * split; [|done]. intros _ [Hi|Hi]%elem_of_cons; [by apply Hid|]. by apply IH in Hi.
Qed.

Lemma prev_by_id_elem b prev x :
  NoDup (ids prev) → x ∈ prev → ∃ pa, prev_by_id b prev (me_id x) = Some (pa, x).
Proof.
  revert b. induction prev as [|e prev IH]; intros b Hn Hx; [by apply not_elem_of_nil in Hx|].
  apply NoDup_cons in Hn as [He Hn]. cbn. apply elem_of_cons in Hx as [->|Hx].
  - assert (prev_by_id (Some (me_id e)) prev (me_id e) = None) as -> by by apply prev_by_id_None.
    rewrite bool_decide_eq_true_2 by done. by eexists.
  - destruct (IH (Some (me_id e)) Hn Hx) as (pa & ->). by eexists.
Qed.

(** What stands at the place of each entry before the appends. *)
Definition settled (prev : list SessionMessageEntry) (after : option string) (e : SessionMessageEntry)
    : SessionMessageEntry :=
  match prev_by_id None prev (me_id e) with
  | Some (prev_after, prev_entry) =>
      if bool_decide (prev_entry = e) && bool_decide (prev_after = after) then e
      else match (if bool_decide (prev_after = after) then try_text_append prev_entry e else None) with
           | Some _ => prev_entry
           | None => e
           end
  | None => e
  end.

Fixpoint base (prev : list SessionMessageEntry) (after : option string) (next : list SessionMessageEntry)
    : list SessionMessageEntry :=
  match next with
  | [] => []
  | e :: next => settled prev after e :: base prev (Some (me_id e)) next
  end.

Lemma apply_upsert_at d e rest rest' :
  NoDup (ids (d ++ rest')) → me_id e ∉ ids d → me_id e ∉ ids rest' →
  (rest = rest' ∨ ∃ x, rest = x :: rest' ∧ me_id x = me_id e) →
  apply_upsert (mkUpsert (me_id <$> last d) e) (d ++ rest) = Ok (d ++ e :: rest').
Proof.
  intros Hn Hd Hr Hrest. unfold apply_upsert. cbn [up_entry up_after].
  assert (match position_of (me_id e) (d ++ rest) with
          | Some existing => delete existing (d ++ rest) | None => d ++ rest end = d ++ rest') as ->.
  { destruct Hrest as [->|(x & -> & Hx)].
    - rewrite position_of_None; [done|]. unfold ids in *. rewrite fmap_app, not_elem_of_app. done.
    - rewrite <- Hx, position_of_at by (by rewrite Hx). by rewrite delete_middle. }
  destruct d as [|y d _] using rev_ind; [done|]. rewrite last_snoc. cbn [fmap option_fmap option_map].
  rewrite <- app_assoc. cbn [app]. rewrite position_of_at.
  - unfold insert_at. f_equal. rewrite take_app_ge, drop_app_ge by lia.
    replace (S (length d) - length d)%nat with 1%nat by lia. cbn. by rewrite <- !app_assoc.
  - unfold ids in *. rewrite !fmap_app in Hn. apply NoDup_app in Hn as (Hn & _ & _).
    apply NoDup_app in Hn as (_ & Hn & _). intros Hin. by apply (Hn (me_id y) Hin); left.
Qed.

Lemma upserts_spec prev next : ∀ d rest,
  NoDup (ids prev) → NoDup (ids d ++ ids next) →
  ids rest = filter (λ i, i ∈ ids prev) (ids next) → (∀ x, x ∈ rest → x ∈ prev) →
  apply_upserts (diff_loop prev (me_id <$> last d) next).1 (d ++ rest)
    = Ok (d ++ base prev (me_id <$> last d) next).
Proof.
  induction next as [|e next IH]; intros d rest Hp Hn Hr Hx.
  { destruct rest as [|x rest]; [done|done]. }
  assert (me_id e ∉ ids d ∧ me_id e ∉ ids next ∧ NoDup (ids d ++ ids next)) as (Hed & Hen & Hn').
  { apply NoDup_app in Hn as (H1 & H2 & [H3 H4]%NoDup_cons). split_and!; [|done|].
    - intros H. apply (H2 _ H). left.
    - apply NoDup_app. split_and!; [done| |done]. intros i Hi Hi'. apply (H2 i Hi). by right. }
  assert (∀ x : SessionMessageEntry, me_id x = me_id e → NoDup (ids (d ++ [x]) ++ ids next)) as Hsnoc.
  { intros x E. unfold ids. rewrite fmap_app. cbn. rewrite E, <- app_assoc. exact Hn. }
  cbn [diff_loop base]. rewrite (surjective_pairing (diff_loop prev (Some (me_id e)) next)).
  set (L := diff_loop prev (Some (me_id e)) next) in *. set (B := base prev (Some (me_id e)) next) in *.
  (* the entry is written, or already stands at its place *)
  assert (∀ x rest', me_id x = me_id e → ids rest' = filter (λ i, i ∈ ids prev) (ids next) →
    (∀ y, y ∈ rest' → y ∈ prev) → apply_upserts L.1 (d ++ x :: rest') = Ok (d ++ x :: B)) as Hnext.
  { intros x rest' E Hr' Hx'. pose proof (IH (d ++ [x]) rest' Hp (Hsnoc x E) Hr' Hx') as H.
    rewrite last_snoc in H. cbn [fmap option_fmap option_map] in H. rewrite E, <- !app_assoc in H. exact H. }
  assert (∀ rest', ids rest' = filter (λ i, i ∈ ids prev) (ids next) →
    NoDup (ids (d ++ rest')) ∧ me_id e ∉ ids rest') as Hrest.
  { intros rest' E. unfold ids in *. rewrite fmap_app, E. split.
    - apply NoDup_app in Hn' as (H1 & H2 & H3). apply NoDup_app. split_and!; [done| |by apply NoDup_filter].
      intros i Hi [_ Hi']%list_elem_of_filter. by apply (H2 i).
    - by intros [_ ?]%list_elem_of_filter. }
  unfold settled. destruct (prev_by_id None prev (me_id e)) as [[pa pe]|] eqn:Epe.
  - pose proof (prev_by_id_Some _ _ _ _ _ Epe) as [Hid Hin].
    change (ids (e :: next)) with (me_id e :: ids next) in Hr. rewrite filter_cons_True in Hr.
    2:{ rewrite <- Hid. by apply list_elem_of_fmap_2. }
    destruct rest as [|x rest']; [done|]. injection Hr as Hxe Hr.
    assert (x = pe) as ->.
    { destruct (prev_by_id_elem None prev x Hp) as (pa' & H); [apply Hx; left|]. rewrite Hxe, Epe in H. congruence. }
    destruct (Hrest rest' Hr) as [Hn1 Hn2].
    assert (∀ y, y ∈ rest' → y ∈ prev) as Hx' by (intros; apply Hx; by right).
    assert (apply_upserts (mkUpsert (me_id <$> last d) e :: L.1) (d ++ pe :: rest') = Ok (d ++ e :: B)) as Hup.
    { cbn [apply_upserts]. rewrite (apply_upsert_at d e (pe :: rest') rest') by eauto. cbn [result_bind]. by apply Hnext. }
    destruct (bool_decide (pe = e) && bool_decide (pa = me_id <$> last d)) eqn:Ek.
    + apply andb_true_iff in Ek as [->%bool_decide_eq_true _]. by apply Hnext.
    + destruct (if bool_decide (pa = me_id <$> last d) then try_text_append pe e else None); [|exact Hup].
      by apply Hnext.
  - apply prev_by_id_None in Epe. change (ids (e :: next)) with (me_id e :: ids next) in Hr.
    rewrite filter_cons_False in Hr by done. destruct (Hrest rest Hr) as [Hn1 Hn2].
    cbn [fst apply_upserts]. rewrite (apply_upsert_at d e rest rest) by eauto. cbn [result_bind].
    by apply Hnext.
Qed.

(** The appends a diff emits hold the whole change: the part ids of the entry
    are distinct and its duration did not change. *)
Definition appends_ok (prev next : list SessionMessageEntry) : Prop :=
  ∀ p n, p ∈ prev → n ∈ next → is_Some (try_text_append p n) →
    me_duration_ms p = me_duration_ms n ∧ NoDup (part_id <$> me_parts n).

Lemma appends_spec prev next : ∀ d after,
  NoDup (ids d ++ ids next) → appends_ok prev next →
  apply_appends (diff_loop prev after next).2 (d ++ base prev after next) = Ok (d ++ next).
Proof.
  induction next as [|e next IH]; intros d after Hn Hok; [done|].
  assert (me_id e ∉ ids d ∧ NoDup (ids (d ++ [e]) ++ ids next)) as [Hed Hn'].
  { split; [|unfold ids; rewrite fmap_app, <- app_assoc; exact Hn].
    apply NoDup_app in Hn as (_ & H2 & _). intros H. apply (H2 _ H). left. }
  assert (appends_ok prev next) as Hok' by (intros p n Hp Hin; apply Hok; [done|by right]).
  pose proof (IH (d ++ [e]) (Some (me_id e)) Hn' Hok') as H. rewrite <- !app_assoc in H. cbn [app] in H.
  cbn [diff_loop base]. rewrite (surjective_pairing (diff_loop prev (Some (me_id e)) next)).
  unfold settled. destruct (prev_by_id None prev (me_id e)) as [[pa pe]|] eqn:Epe; [|exact H].
  pose proof (prev_by_id_Some _ _ _ _ _ Epe) as [Hid Hin].
  destruct (_ && _); [exact H|].
  destruct (if bool_decide (pa = after) then try_text_append pe e else None) as [a|] eqn:Ea; [|exact H].
  assert (try_text_append pe e = Some a) as Ha by (by destruct (bool_decide (pa = after))).
  destruct (Hok pe e Hin ltac:(left) ltac:(eauto)) as [Hd Hpn].
  cbn [snd apply_appends]. rewrite (apply_append_exact a pe e); [exact H|done..|by rewrite Hid].
Qed.


Definition ex_entry (id : string) (parts : list MessagePart) : SessionMessageEntry :=
  mkMessage id RoleAssistant parts 0 "d" (Some Streaming) None None.
Definition ex_prev : list SessionMessageEntry :=
  [ex_entry "a" []; ex_entry "b" [PText "t0" "Hel"]; ex_entry "c" []].
Definition ex_next : list SessionMessageEntry :=
  [ex_entry "n" []; ex_entry "a" [PError "e0" "x"]; ex_entry "b" [PText "t0" "Hello"]].


(** A stamped duration is lost when the last tick also grew the text. *)
Lemma append_drops_duration :
  let prev := [ex_entry "a" [PText "t0" "Hel"]] in
  let next := [mkMessage "a" RoleAssistant [PText "t0" "Hello"] 0 "d" (Some Streaming) None (Some 9)] in
  apply_transcript_frame prev (diff_transcript prev next) = Ok [ex_entry "a" [PText "t0" "Hello"]].
Proof. reflexivity. Qed.

(** Entries that change their order can land elsewhere, and the count does not
    tell. *)
Lemma reordered_entries_diverge :
  let e i := ex_entry i [] in
  let prev := [e "p"; e "e"; e "q"; e "r"] in
  let next := [e "q"; e "r"; e "p"; e "e"] in
  ∃ l, apply_transcript_frame prev (diff_transcript prev next) = Ok l ∧ l ≠ next.
Proof. eexists. split; [vm_compute; reflexivity|]. done. Qed.
