(* ===== verification/Frames.v ===== *)
(** * Frames: the binary frames of the chat socket and of the device relay

    Models the codec of crates/sync/src/chat_frames.rs
    ([type][header length, u32 LE][header JSON][payload]) and the one of
    crates/rpc/src/device_room.rs (uleb128 header length, header JSON, payload).
    A [Vec<u8>] is a list of bytes.  The JSON text of a header is serde_json's:
    [to_vec] and [from_slice] are parameters. *)

From S2P Require Import Prelude Text Json.

Abbreviation byte := Byte.byte.
Abbreviation bytes := (list Byte.byte).

#[export] Instance byte_eq_dec : EqDecision byte := Byte.byte_eq_dec.

(** ** Bytes *)

(** [n as u8] *)
Definition byte_of_Z (n : Z) : byte := default Byte.x00 (Byte.of_N (Z.to_N (n mod 256))).
Definition Z_of_byte (b : byte) : Z := Z.of_N (Byte.to_N b).

Lemma Z_of_byte_range b : 0 ≤ Z_of_byte b < 256.
Proof. unfold Z_of_byte. pose proof (Byte.to_N_bounded b). lia. Qed.

Lemma Z_of_byte_of_Z n : Z_of_byte (byte_of_Z n) = n mod 256.
Proof.
  unfold Z_of_byte, byte_of_Z. pose proof (Z.mod_pos_bound n 256 ltac:(lia)).
  destruct (Byte.of_N (Z.to_N (n mod 256))) as [b|] eqn:E; simpl.
  - apply Byte.to_of_N in E. rewrite E. lia.
  - apply Byte.of_N_None_iff in E. lia.
Qed.

Lemma byte_of_Z_of_byte b : byte_of_Z (Z_of_byte b) = b.
Proof.
  unfold byte_of_Z. pose proof (Z_of_byte_range b). rewrite Z.mod_small by lia.
  unfold Z_of_byte. rewrite N2Z.id, Byte.of_to_N. done.
Qed.

Lemma byte_eq_Z b n : Z_of_byte b = n mod 256 → b = byte_of_Z n.
Proof.
  intros H. rewrite <- (byte_of_Z_of_byte b), H. unfold byte_of_Z. by rewrite Zmod_mod.
Qed.

Definition blen (l : bytes) : Z := Z.of_nat (length l).

Lemma blen_nonneg l : 0 ≤ blen l.
Proof. unfold blen. lia. Qed.
Lemma blen_cons b l : blen (b :: l) = 1 + blen l.
Proof. unfold blen. cbn [length]. lia. Qed.
Lemma blen_app l1 l2 : blen (l1 ++ l2) = blen l1 + blen l2.
Proof. unfold blen. rewrite length_app. lia. Qed.

(** [u32::to_le_bytes] and [u32::from_le_bytes] *)
Definition to_le_bytes (n : Z) : bytes :=
  [byte_of_Z n; byte_of_Z (Z.shiftr n 8); byte_of_Z (Z.shiftr n 16); byte_of_Z (Z.shiftr n 24)].
Definition from_le_bytes (a b c d : byte) : Z :=
  Z_of_byte a + Z.shiftl (Z_of_byte b) 8 + Z.shiftl (Z_of_byte c) 16 + Z.shiftl (Z_of_byte d) 24.

Lemma to_le_from_le n a b c d :
  is_u32 n → to_le_bytes n = [a; b; c; d] ↔ from_le_bytes a b c d = n.
Proof.
  unfold is_u32, to_le_bytes, from_le_bytes. intros Hn.
  rewrite !Z.shiftr_div_pow2, !Z.shiftl_mul_pow2 by lia.
  change (2 ^ 8) with 256. change (2 ^ 16) with 65536. change (2 ^ 24) with 16777216.
  split.
  - intros [= <- <- <- <-]. rewrite !Z_of_byte_of_Z. Z.to_euclidean_division_equations. lia.
  - pose proof (Z_of_byte_range a). pose proof (Z_of_byte_range b).
    pose proof (Z_of_byte_range c). pose proof (Z_of_byte_range d). intros Hs.
    f_equal; [|f_equal; [|f_equal; [|f_equal]]]; symmetry; apply byte_eq_Z;
      Z.to_euclidean_division_equations; lia.
Qed.

(** ** Chat frames *)

Definition MAX_HEADER_BYTES : Z := 4096.

Record WireFrame := mkFrame {
  wf_kind : byte;
  wf_header : Value;
  wf_payload : bytes
}.

Section Chat.
Context {H : Type}.
Variable to_vec : H → option bytes.
Variable from_slice : bytes → option Value.

(** [encode]: [None] is the panic of [expect] on a header that does not
    serialize. *)
Definition encode (kind : byte) (header : H) (payload : bytes) : option bytes :=
  header ← to_vec header;
  Some (kind :: to_le_bytes (wrap_u32 (blen header)) ++ header ++ payload).

Definition is_object (v : Value) : bool := match v with Object _ => true | _ => false end.

Definition decode (l : bytes) : option WireFrame :=
  if blen l <? 5 then None
  else match l with
  | kind :: a :: b :: c :: d :: rest =>
      let header_len := from_le_bytes a b c d in
      if (MAX_HEADER_BYTES <? header_len) || (blen l <? 5 + header_len) then None
      else
        header ← from_slice (take (Z.to_nat header_len) rest);
        if is_object header
        then Some (mkFrame kind header (drop (Z.to_nat header_len) rest))
        else None
  | _ => None
  end.

(** What decoding makes of a layout. *)
Lemma decode_layout kind text payload :
  is_u32 (blen text) →
  decode (kind :: to_le_bytes (blen text) ++ text ++ payload) =
    if MAX_HEADER_BYTES <? blen text then None
    else v ← from_slice text; if is_object v then Some (mkFrame kind v payload) else None.
Proof.
  intros Hu. destruct (to_le_from_le (blen text) (byte_of_Z (blen text))
    (byte_of_Z (Z.shiftr (blen text) 8)) (byte_of_Z (Z.shiftr (blen text) 16))
    (byte_of_Z (Z.shiftr (blen text) 24)) Hu) as [Hle _].
  specialize (Hle eq_refl). unfold decode, to_le_bytes. cbn [app]. rewrite Hle.
  rewrite !blen_cons, blen_app.
  pose proof (blen_nonneg text). pose proof (blen_nonneg payload).
  destruct (Z.ltb_spec (1 + (1 + (1 + (1 + (1 + (blen text + blen payload)))))) 5); [lia|].
  destruct (Z.ltb_spec (1 + (1 + (1 + (1 + (1 + (blen text + blen payload))))))
    (5 + blen text)); [lia|].
  rewrite orb_false_r. unfold blen. by rewrite Nat2Z.id, take_app_length, drop_app_length.
Qed.

Lemma decode_spec l f :
  decode l = Some f ↔
  ∃ text, from_slice text = Some (wf_header f) ∧ is_object (wf_header f) = true ∧
    blen text ≤ MAX_HEADER_BYTES ∧
    l = wf_kind f :: to_le_bytes (blen text) ++ text ++ wf_payload f.
Proof.
  split.
  - unfold decode, MAX_HEADER_BYTES. destruct (Z.ltb_spec (blen l) 5); [done|].
    destruct l as [|kind [|a [|b [|c [|d rest]]]]]; try done.
    set (n := from_le_bytes a b c d).
    destruct (Z.ltb_spec 4096 n); [done|]. destruct (Z.ltb_spec (blen (kind :: a :: b :: c :: d :: rest)) (5 + n)); [done|].
    cbn [orb]. destruct (from_slice _) as [v|] eqn:Ev; [|done]. cbn [mbind option_bind].
    destruct (is_object v) eqn:Eo; [|done]. intros [= <-]. cbn [wf_kind wf_header wf_payload].
    exists (take (Z.to_nat n) rest). unfold blen in *. cbn [length] in *.
    assert (0 ≤ n).
    { unfold n, from_le_bytes. pose proof (Z_of_byte_range a). pose proof (Z_of_byte_range b).
      pose proof (Z_of_byte_range c). pose proof (Z_of_byte_range d).
      rewrite !Z.shiftl_mul_pow2 by lia. lia. }
    assert (Z.of_nat (length (take (Z.to_nat n) rest)) = n) as Hlen
      by (rewrite length_take; lia).
    split_and!; [done|done|lia|]. rewrite Hlen, take_drop.
    assert (to_le_bytes n = [a; b; c; d]) as ->; [|done].
    apply to_le_from_le; [unfold is_u32; lia|done].
  - destruct f as [kind v payload]. cbn [wf_kind wf_header wf_payload].
    intros (text & Ht & Ho & Hmax & ->). rewrite decode_layout by (unfold is_u32, MAX_HEADER_BYTES, blen in *; lia).
    destruct (Z.ltb_spec MAX_HEADER_BYTES (blen text)) as [Hm|]; [unfold MAX_HEADER_BYTES in *; lia|].
    rewrite Ht. cbn [mbind option_bind]. by rewrite Ho.
Qed.

(** Encoding lays a frame out so that decoding gives it back exactly when
    its header fits the limit and is a JSON object; and the byte strings that
    decode at all are those layouts. *)
Theorem chat_frame_exact kind header payload text
  (Hv : to_vec header = Some text) (Hlen : is_u32 (blen text)) :
  (∃ out, encode kind header payload = Some out ∧
    decode out = if MAX_HEADER_BYTES <? blen text then None
                 else v ← from_slice text;
                      if is_object v then Some (mkFrame kind v payload) else None) ∧
  (∀ l f, decode l = Some f ↔
    ∃ text, from_slice text = Some (wf_header f) ∧ is_object (wf_header f) = true ∧
      blen text ≤ MAX_HEADER_BYTES ∧
      l = wf_kind f :: to_le_bytes (blen text) ++ text ++ wf_payload f).
Proof.
  split; [|apply decode_spec]. unfold encode. rewrite Hv. cbn [mbind option_bind].
  eexists. split; [done|]. rewrite wrap_u32_small by done. by apply decode_layout.
Qed.
End Chat.

(** ** Device frames *)

Record DeviceFrameHeader := mkHeader {
  fh_s : string;
  fh_k : string;
  fh_to : option string;
  fh_from : option string
}.

#[export] Instance DeviceFrameHeader_eq_dec : EqDecision DeviceFrameHeader.
Proof. solve_decision. Defined.

Definition header_new (s k : string) : DeviceFrameHeader := mkHeader s k None None.
Definition with_to (conn_id : string) (h : DeviceFrameHeader) : DeviceFrameHeader :=
  mkHeader (fh_s h) (fh_k h) (Some conn_id) (fh_from h).

(** The length loop of the encoder; [fuel] bounds its rounds, 10 of 7 bits
    write any [usize]. *)
Fixpoint uleb128 (fuel : nat) (n : Z) : bytes :=
  match fuel with
  | O => []
  | S fuel =>
      let byte := Z.land n 127 in
      let n := Z.shiftr n 7 in
      if n =? 0 then [byte_of_Z byte]
      else byte_of_Z (Z.lor byte 128) :: uleb128 fuel n
  end.

(** The length loop of the decoder, on the bytes from [offset] on: the length,
    the offset behind it and the remaining bytes. *)
Fixpoint read_uleb128 (l : bytes) (offset len shift : Z) : result string (Z * Z * bytes) :=
  match l with
  | [] => Err "truncated uleb128"
  | byte :: l =>
      if 32 <=? shift then Err "uleb128 overflow"
      else
        let len := Z.lor len (Z.shiftl (Z.land (Z_of_byte byte) 127) shift) in
        if Z.land (Z_of_byte byte) 128 =? 0 then Ok (len, offset + 1, l)
        else read_uleb128 l (offset + 1) len (shift + 7)
  end.

Section Device.
Variable to_vec : DeviceFrameHeader → result string bytes.
Variable from_slice : bytes → result string DeviceFrameHeader.

Definition encode_device_frame (header : DeviceFrameHeader) (payload : bytes) : result string bytes :=
  match to_vec header with
  | Err e => Err ("encode frame header: " +:+ e)
  | Ok json => Ok (uleb128 10 (blen json) ++ json ++ payload)
  end.

Definition bad {A} (r : result string A) : result string A :=
  match r with Ok a => Ok a | Err m => Err ("device frame: " +:+ m) end.

Definition decode_device_frame (l : bytes) : result string (DeviceFrameHeader * bytes) :=
  bad (read <-? read_uleb128 l 0 0 0;;
       let '(len, offset, rest) := read in
       if 2 ^ 64 <=? offset + len then Err "header length overflow"
       else if blen l <? offset + len then Err "truncated header"
       else match from_slice (take (Z.to_nat len) rest) with
            | Err e => Err ("bad header JSON: " +:+ e)
            | Ok header => Ok (header, drop (Z.to_nat len) rest)
            end).
End Device.

(** ** What the codecs promise *)

Lemma land_127 n : Z.land n 127 = n mod 2 ^ 7.
Proof. by rewrite <- Z.land_ones by lia. Qed.

Lemma low_byte n : Z_of_byte (byte_of_Z (Z.land n 127)) = n mod 128.
Proof. rewrite Z_of_byte_of_Z, land_127. change (2 ^ 7) with 128. Z.to_euclidean_division_equations. lia. Qed.

Lemma high_byte n : Z_of_byte (byte_of_Z (Z.lor (Z.land n 127) 128)) = n mod 128 + 128.
Proof.
  rewrite Z_of_byte_of_Z, land_127. change (2 ^ 7) with 128.
  assert (Z.lor (n mod 128) 128 = n mod 128 + 128) as ->; [|Z.to_euclidean_division_equations; lia].
  rewrite <- Z.lxor_lor, Z.add_nocarry_lxor; try done.
  all: apply Z.bits_inj'; intros i Hi; rewrite Z.land_spec, Z.bits_0;
    change 128 with (2 ^ 7); rewrite Z.pow2_bits_eqb by lia;
    destruct (Z.eqb_spec 7 i) as [<-|]; [|by rewrite andb_false_r];
    by rewrite Z.mod_pow2_bits_high by lia.
Qed.

Lemma land_128 b : 0 ≤ b < 256 → (Z.land b 128 =? 0) = (b <? 128).
Proof.
  intros Hb. rewrite <- (Z2Nat.id b) by lia.
  generalize (Z.to_nat b) (ltac:(lia) : (Z.to_nat b < 256)%nat). clear Hb. intros n Hn.
  do 256 (destruct n as [|n]; [done|]). lia.
Qed.

Lemma lor_shift len m s :
  0 ≤ s → 0 ≤ len < 2 ^ s → 0 ≤ m → Z.lor len (Z.shiftl m s) = len + m * 2 ^ s.
Proof.
  intros Hs Hlen Hm. rewrite <- Z.shiftl_mul_pow2 by lia.
  rewrite <- Z.lxor_lor, Z.add_nocarry_lxor; try done.
  all: apply Z.bits_inj'; intros i Hi; rewrite Z.land_spec, Z.bits_0;
    destruct (Z.lt_ge_cases i s);
    [by rewrite (Z.shiftl_spec_low m s i), andb_false_r by lia|];
    rewrite <- (Z.mod_small len (2 ^ s)) by lia; by rewrite Z.mod_pow2_bits_high by lia.
Qed.

(** One round of the decoder, with its bit operations as arithmetic. *)
Lemma read_step byte l offset len shift :
  0 ≤ shift → 0 ≤ len < 2 ^ shift →
  read_uleb128 (byte :: l) offset len shift =
    if 32 <=? shift then Err "uleb128 overflow"
    else
      let len := len + Z_of_byte byte mod 128 * 2 ^ shift in
      if Z_of_byte byte <? 128 then Ok (len, offset + 1, l)
      else read_uleb128 l (offset + 1) len (shift + 7).
Proof.
  intros Hs Hlen. cbn [read_uleb128]. pose proof (Z_of_byte_range byte).
  rewrite land_128 by done. rewrite land_127. change (2 ^ 7) with 128.
  rewrite lor_shift; [done|done|done|]. Z.to_euclidean_division_equations. lia.
Qed.

Lemma pow2_shift i : 0 ≤ i → 2 ^ (i + 7) = 128 * 2 ^ i.
Proof. intros. rewrite Z.pow_add_r by lia. change (2 ^ 7) with 128. lia. Qed.

(** The decoder reads back what the encoder wrote; six bytes are too many. *)
Lemma read_uleb128_encoded fuel i n l offset len :
  (i + fuel = 10)%nat → (i ≤ 5)%nat → 0 ≤ n → (i ≠ 0%nat → 0 < n) → 0 ≤ len < 2 ^ (7 * Z.of_nat i) →
  read_uleb128 (uleb128 fuel n ++ l) offset len (7 * Z.of_nat i) =
    if n <? 2 ^ (35 - 7 * Z.of_nat i)
    then Ok (len + n * 2 ^ (7 * Z.of_nat i), offset + blen (uleb128 fuel n), l)
    else Err "uleb128 overflow".
Proof.
  revert i n offset len. induction fuel as [|fuel IH]; intros i n offset len Hf Hi Hn Hn0 Hlen; [lia|].
  cbn [uleb128]. rewrite Z.shiftr_div_pow2 by lia. change (2 ^ 7) with 128.
  destruct (decide (i = 5%nat)) as [->|Hi5].
  { destruct (Z.ltb_spec n (2 ^ (35 - 7 * Z.of_nat 5))) as [Hlt|_].
    - change (2 ^ (35 - 7 * Z.of_nat 5)) with 1 in Hlt. specialize (Hn0 ltac:(done)). lia.
    - destruct (n / 128 =? 0); cbn [app]; (rewrite read_step; [done|lia|lia]). }
  assert (2 ^ (35 - 7 * Z.of_nat i) = 128 * 2 ^ (35 - 7 * Z.of_nat (S i))) as Hp.
  { rewrite <- pow2_shift by lia. f_equal. lia. }
  assert (2 ^ (7 * Z.of_nat (S i)) = 128 * 2 ^ (7 * Z.of_nat i)) as Hq.
  { rewrite <- pow2_shift by lia. f_equal. lia. }
  pose proof (Z.pow_pos_nonneg 2 (35 - 7 * Z.of_nat (S i)) ltac:(lia) ltac:(lia)).
  destruct (Z.eqb_spec (n / 128) 0) as [Hz|Hz]; cbn [app]; rewrite read_step by lia.
  - rewrite low_byte. destruct (Z.leb_spec 32 (7 * Z.of_nat i)); [lia|].
    assert (n < 128 ∧ n mod 128 = n) as [? ->] by (Z.to_euclidean_division_equations; lia).
    rewrite Z.mod_small by lia.
    destruct (Z.ltb_spec n 128); [|lia]. destruct (Z.ltb_spec n (2 ^ (35 - 7 * Z.of_nat i))); [|nia].
    done.
  - rewrite high_byte. destruct (Z.leb_spec 32 (7 * Z.of_nat i)); [lia|].
    destruct (Z.ltb_spec (n mod 128 + 128) 128); [Z.to_euclidean_division_equations; lia|].
    assert ((n mod 128 + 128) mod 128 = n mod 128) as -> by (Z.to_euclidean_division_equations; lia).
    replace (7 * Z.of_nat i + 7) with (7 * Z.of_nat (S i)) by lia.
    rewrite IH; [|lia|lia|Z.to_euclidean_division_equations; lia
                |intros _; Z.to_euclidean_division_equations; lia|].
    2:{ rewrite Hq. pose proof (Z.mod_pos_bound n 128 ltac:(lia)). nia. }
    rewrite Hp. destruct (Z.ltb_spec (n / 128) (2 ^ (35 - 7 * Z.of_nat (S i))));
      destruct (Z.ltb_spec n (128 * 2 ^ (35 - 7 * Z.of_nat (S i)))); [| | |done].
    + rewrite Hq, blen_cons. do 3 f_equal; [|lia]. rewrite (Z.div_mod n 128) at 3 by lia. lia.
    + Z.to_euclidean_division_equations; lia.
    + Z.to_euclidean_division_equations; lia.
Qed.

(** The length a prefix of 7-bit groups spells. *)
Fixpoint uleb_value (l : bytes) : Z :=
  match l with [] => 0 | b :: l => Z_of_byte b mod 128 + 128 * uleb_value l end.

Lemma read_uleb128_sound l offset len i len' offset' rest :
  0 ≤ len < 2 ^ (7 * Z.of_nat i) →
  read_uleb128 l offset len (7 * Z.of_nat i) = Ok (len', offset', rest) →
  ∃ pre, l = pre ++ rest ∧ pre ≠ [] ∧ (i + length pre ≤ 5)%nat ∧ offset' = offset + blen pre ∧
    len' = len + uleb_value pre * 2 ^ (7 * Z.of_nat i).
Proof.
  revert offset len i. induction l as [|b l IH]; intros offset len i Hlen; [done|].
  rewrite read_step by lia. destruct (Z.leb_spec 32 (7 * Z.of_nat i)); [done|]. cbv zeta.
  destruct (Z_of_byte b <? 128).
  - intros [= <- <- <-]. exists [b]. cbn [app length uleb_value]. rewrite blen_cons.
    split_and!; [done|done|lia|unfold blen; simpl; lia|lia].
  - assert (2 ^ (7 * Z.of_nat (S i)) = 128 * 2 ^ (7 * Z.of_nat i)) as Hq.
    { rewrite <- pow2_shift by lia. f_equal. lia. }
    replace (7 * Z.of_nat i + 7) with (7 * Z.of_nat (S i)) by lia. intros Hr.
    apply IH in Hr as (pre & -> & _ & Hi & -> & ->).
    2:{ rewrite Hq. pose proof (Z.mod_pos_bound (Z_of_byte b) 128 ltac:(lia)). nia. }
    exists (b :: pre). cbn [app length uleb_value]. rewrite blen_cons, Hq.
    split_and!; [done|done|lia|lia|lia].
Qed.

Lemma uleb128_length fuel n : blen (uleb128 fuel n) ≤ Z.of_nat fuel.
Proof.
  revert n. induction fuel as [|fuel IH]; intros n; cbn [uleb128]; [done|].
  case_match; rewrite blen_cons; [unfold blen; simpl; lia|]. specialize (IH (Z.shiftr n 7)). lia.
Qed.

Section DeviceSpec.
Variable to_vec : DeviceFrameHeader → result string bytes.
Variable from_slice : bytes → result string DeviceFrameHeader.

Lemma uleb_value_nonneg l : 0 ≤ uleb_value l.
Proof.
  induction l as [|b l IH]; cbn [uleb_value]; [lia|].
  pose proof (Z.mod_pos_bound (Z_of_byte b) 128 ltac:(lia)). lia.
Qed.

(** C32: a device frame decodes to the header and payload it was made of while
    its header stays below 2^35 bytes, and is refused beyond; whatever decodes
    is a length of at most five bytes, a header text of exactly that length and
    the payload. *)
Theorem device_frame_exact header payload text
  (Hv : to_vec header = Ok text) (Hp : from_slice text = Ok header)
  (Hlen : 10 + blen text < 2 ^ 64) :
  (∃ out, encode_device_frame to_vec header payload = Ok out ∧
    decode_device_frame from_slice out =
      if blen text <? 2 ^ 35 then Ok (header, payload)
      else Err "device frame: uleb128 overflow") ∧
  (∀ l h p, decode_device_frame from_slice l = Ok (h, p) →
    ∃ pre text, l = pre ++ text ++ p ∧ (1 ≤ length pre ≤ 5)%nat ∧
      uleb_value pre = blen text ∧ from_slice text = Ok h).
Proof.
  split.
  - unfold encode_device_frame. rewrite Hv. eexists. split; [done|].
    unfold decode_device_frame. pose proof (blen_nonneg text) as H0.
    pose proof (blen_nonneg payload).
    pose proof (read_uleb128_encoded 10 0 (blen text) (text ++ payload) 0 0
      ltac:(done) ltac:(lia) H0 ltac:(done) ltac:(done)) as Hr.
    change (7 * Z.of_nat 0) with 0 in Hr. rewrite Hr. change (35 - 0) with 35. destruct (Z.ltb_spec (blen text) (2 ^ 35)); [|done].
    cbn [result_bind]. rewrite Z.mul_1_r, !Z.add_0_l, !blen_app. pose proof (blen_nonneg (uleb128 10 (blen text))).
    assert (blen (uleb128 10 (blen text)) ≤ 10) by (apply (uleb128_length 10)).
    destruct (Z.leb_spec (2 ^ 64) (blen (uleb128 10 (blen text)) + blen text)); [lia|].
    destruct (Z.ltb_spec (blen (uleb128 10 (blen text)) + (blen text + blen payload))
      (blen (uleb128 10 (blen text)) + blen text)); [lia|].
    unfold blen. by rewrite Nat2Z.id, take_app_length, drop_app_length, Hp.
  - clear header payload text Hv Hp Hlen. intros l h p. unfold decode_device_frame.
    destruct (read_uleb128 l 0 0 0) as [[[len offset] rest]|] eqn:E; [|done]. cbn [result_bind].
    apply (read_uleb128_sound _ _ _ 0) in E as (pre & -> & Hne & Hle & -> & ->); [|done].
    change (7 * Z.of_nat 0) with 0. rewrite Z.mul_1_r, !Z.add_0_l.
    pose proof (uleb_value_nonneg pre). pose proof (blen_nonneg rest).
    destruct (Z.leb_spec (2 ^ 64) (blen pre + uleb_value pre)); [done|]. rewrite blen_app.
    destruct (Z.ltb_spec (blen pre + blen rest) (blen pre + uleb_value pre)); [done|].
    destruct (from_slice _) as [h'|] eqn:Ef; [|done]. intros [= <- <-].
    exists pre, (take (Z.to_nat (uleb_value pre)) rest). rewrite take_drop.
    split_and!; [done| |lia| |done].
    + destruct pre; [done|simpl; lia].
    + unfold blen in *. rewrite length_take. lia.
Qed.
End DeviceSpec.

(** ** Witnesses and wire vectors *)

(** The layout both ends pin in their tests: a push frame of an empty header. *)
Definition ex_object_text : bytes := [Byte.x7b; Byte.x7d].
Definition ex_chat_to_vec (_ : unit) : option bytes := Some ex_object_text.
Definition ex_chat_from_slice (text : bytes) : option Value :=
  if bool_decide (text = ex_object_text) then Some (Object []) else None.

Lemma chat_frame_exact_witness :
  encode ex_chat_to_vec Byte.x06 () [Byte.x09; Byte.x08] =
    Some [Byte.x06; Byte.x02; Byte.x00; Byte.x00; Byte.x00; Byte.x7b; Byte.x7d; Byte.x09; Byte.x08] ∧
  (∃ out, encode ex_chat_to_vec Byte.x06 () [Byte.x09; Byte.x08] = Some out ∧
    decode ex_chat_from_slice out = Some (mkFrame Byte.x06 (Object []) [Byte.x09; Byte.x08])).
Proof.
  split; [by vm_compute|].
  destruct (chat_frame_exact ex_chat_to_vec ex_chat_from_slice Byte.x06 () [Byte.x09; Byte.x08]
    ex_object_text eq_refl ltac:(by vm_compute)) as [(out & H1 & H2) _].
  exists out. split; [exact H1|]. rewrite H2. by vm_compute.
Defined.

(** The text of the header with stream [a] and kind [b]. *)
Definition ex_header : DeviceFrameHeader := header_new "a" "b".
Definition ex_header_text : bytes :=
  [Byte.x7b; Byte.x22; Byte.x73; Byte.x22; Byte.x3a; Byte.x22; Byte.x61; Byte.x22; Byte.x2c;
   Byte.x22; Byte.x6b; Byte.x22; Byte.x3a; Byte.x22; Byte.x62; Byte.x22; Byte.x7d].
Definition ex_to_vec (h : DeviceFrameHeader) : result string bytes :=
  if bool_decide (h = ex_header) then Ok ex_header_text else Err "not shown".
Definition ex_from_slice (text : bytes) : result string DeviceFrameHeader :=
  if bool_decide (text = ex_header_text) then Ok ex_header else Err "expected value".

Lemma device_frame_exact_witness :
  ∃ out, encode_device_frame ex_to_vec ex_header [Byte.xff] = Ok out ∧
    decode_device_frame ex_from_slice out = Ok (ex_header, [Byte.xff]).
Proof.
  destruct (device_frame_exact ex_to_vec ex_from_slice ex_header [Byte.xff] ex_header_text
    eq_refl eq_refl ltac:(by vm_compute)) as [(out & H1 & H2) _].
  exists out. split; [exact H1|]. rewrite H2. by vm_compute.
Defined.

(** The classic 624485, and a length spelled with a redundant zero group. *)
Example uleb128_vectors :
  uleb128 10 624485 = [Byte.xe5; Byte.x8e; Byte.x26] ∧
  read_uleb128 [Byte.xe5; Byte.x8e; Byte.x26] 0 0 0 = Ok (624485, 3, []) ∧
  read_uleb128 [Byte.x81; Byte.x00] 0 0 0 = Ok (1, 2, []).
Proof. by vm_compute. Qed.
