(* ===== verification/ChatClient.v ===== *)
(** * ChatClient: the state a chat-room client keeps and its frame handlers

    Models crates/sync/src/chat_client.rs: the catch-up plan, the cursor rules,
    the outbox of unacknowledged batches and the handling of the room's frames.
    [Shared] has the fields of the struct of that name and [Client] adds the
    actor's flags and the events it broadcast.  The document behind the
    [ChatDocSink] trait and the clock are arguments: a function takes the
    answer of the sink it calls.  ChatSync.v runs these functions against a
    room, on two concurrent roads. *)

From S2P Require Import Prelude Text Json Frames.

(** ** Constants and data *)

(** [MAX_PUSH_BYTES]; durations are milliseconds. *)
Definition MAX_PUSH_BYTES : Z := 1024 * 1024 - 4096.
Definition QUOTA_RETRY : Z := 5000.

Record StateHeader := mkState {
  head_seq : Z;
  seq_floor : Z;
  checkpoint_seq : Z;
  checkpoint_size : Z;
  row_count : Z;
  row_bytes : Z
}.

Inductive ChatEvent :=
  | Connected
  | CaughtUp (head_seq : Z)
  | Applied
  | Disconnected
  | Presence
  | ServerReset
  | PushRejected.

#[export] Instance ChatEvent_eq_dec : EqDecision ChatEvent.
Proof. solve_decision. Defined.

Inductive RowImportOutcome := RowApplied | PendingDependencies.

Record PendingPush := mkPush {
  pp_batch_id : string;
  pp_bytes : bytes;
  pp_durable : bool
}.

(** ** Shared client state *)

Record Shared := mkShared {
  cursor : Z;
  caught_up : bool;
  refresh_requested : Z;
  refresh_completed : Z;
  pending : list PendingPush;
  server : option StateHeader;
  retry_at : option Z;
  quota_blocked : bool;
  gap_repair : bool;
  rows_req_outstanding : bool;
  replaying_gap : bool;
  row_gap_generation : Z;
  http_replay_epoch : Z;
  http_live_epoch : option Z;
  needs_checkpoint : bool;
  causal_gap_generation : Z
}.

Definition set_cursor (v : Z) (s : Shared) : Shared :=
  mkShared v (caught_up s) (refresh_requested s) (refresh_completed s) (pending s) (server
    s) (retry_at s) (quota_blocked s) (gap_repair s) (rows_req_outstanding s) (replaying_gap
    s) (row_gap_generation s) (http_replay_epoch s) (http_live_epoch s) (needs_checkpoint s)
    (causal_gap_generation s).
Definition set_caught_up (v : bool) (s : Shared) : Shared :=
  mkShared (cursor s) v (refresh_requested s) (refresh_completed s) (pending s) (server s)
    (retry_at s) (quota_blocked s) (gap_repair s) (rows_req_outstanding s) (replaying_gap s)
    (row_gap_generation s) (http_replay_epoch s) (http_live_epoch s) (needs_checkpoint s)
    (causal_gap_generation s).
Definition set_refresh_requested (v : Z) (s : Shared) : Shared :=
  mkShared (cursor s) (caught_up s) v (refresh_completed s) (pending s) (server s) (retry_at
    s) (quota_blocked s) (gap_repair s) (rows_req_outstanding s) (replaying_gap s)
    (row_gap_generation s) (http_replay_epoch s) (http_live_epoch s) (needs_checkpoint s)
    (causal_gap_generation s).
Definition set_refresh_completed (v : Z) (s : Shared) : Shared :=
  mkShared (cursor s) (caught_up s) (refresh_requested s) v (pending s) (server s) (retry_at
    s) (quota_blocked s) (gap_repair s) (rows_req_outstanding s) (replaying_gap s)
    (row_gap_generation s) (http_replay_epoch s) (http_live_epoch s) (needs_checkpoint s)
    (causal_gap_generation s).
Definition set_pending (v : list PendingPush) (s : Shared) : Shared :=
  mkShared (cursor s) (caught_up s) (refresh_requested s) (refresh_completed s) v (server s)
    (retry_at s) (quota_blocked s) (gap_repair s) (rows_req_outstanding s) (replaying_gap s)
    (row_gap_generation s) (http_replay_epoch s) (http_live_epoch s) (needs_checkpoint s)
    (causal_gap_generation s).
Definition set_server (v : option StateHeader) (s : Shared) : Shared :=
  mkShared (cursor s) (caught_up s) (refresh_requested s) (refresh_completed s) (pending s)
    v (retry_at s) (quota_blocked s) (gap_repair s) (rows_req_outstanding s) (replaying_gap
    s) (row_gap_generation s) (http_replay_epoch s) (http_live_epoch s) (needs_checkpoint s)
    (causal_gap_generation s).
Definition set_retry_at (v : option Z) (s : Shared) : Shared :=
  mkShared (cursor s) (caught_up s) (refresh_requested s) (refresh_completed s) (pending s)
    (server s) v (quota_blocked s) (gap_repair s) (rows_req_outstanding s) (replaying_gap s)
    (row_gap_generation s) (http_replay_epoch s) (http_live_epoch s) (needs_checkpoint s)
    (causal_gap_generation s).
Definition set_quota_blocked (v : bool) (s : Shared) : Shared :=
  mkShared (cursor s) (caught_up s) (refresh_requested s) (refresh_completed s) (pending s)
    (server s) (retry_at s) v (gap_repair s) (rows_req_outstanding s) (replaying_gap s)
    (row_gap_generation s) (http_replay_epoch s) (http_live_epoch s) (needs_checkpoint s)
    (causal_gap_generation s).
Definition set_gap_repair (v : bool) (s : Shared) : Shared :=
  mkShared (cursor s) (caught_up s) (refresh_requested s) (refresh_completed s) (pending s)
    (server s) (retry_at s) (quota_blocked s) v (rows_req_outstanding s) (replaying_gap s)
    (row_gap_generation s) (http_replay_epoch s) (http_live_epoch s) (needs_checkpoint s)
    (causal_gap_generation s).
Definition set_rows_req_outstanding (v : bool) (s : Shared) : Shared :=
  mkShared (cursor s) (caught_up s) (refresh_requested s) (refresh_completed s) (pending s)
    (server s) (retry_at s) (quota_blocked s) (gap_repair s) v (replaying_gap s)
    (row_gap_generation s) (http_replay_epoch s) (http_live_epoch s) (needs_checkpoint s)
    (causal_gap_generation s).
Definition set_replaying_gap (v : bool) (s : Shared) : Shared :=
  mkShared (cursor s) (caught_up s) (refresh_requested s) (refresh_completed s) (pending s)
    (server s) (retry_at s) (quota_blocked s) (gap_repair s) (rows_req_outstanding s) v
    (row_gap_generation s) (http_replay_epoch s) (http_live_epoch s) (needs_checkpoint s)
    (causal_gap_generation s).
Definition set_row_gap_generation (v : Z) (s : Shared) : Shared :=
  mkShared (cursor s) (caught_up s) (refresh_requested s) (refresh_completed s) (pending s)
    (server s) (retry_at s) (quota_blocked s) (gap_repair s) (rows_req_outstanding s)
    (replaying_gap s) v (http_replay_epoch s) (http_live_epoch s) (needs_checkpoint s)
    (causal_gap_generation s).
Definition set_http_replay_epoch (v : Z) (s : Shared) : Shared :=
  mkShared (cursor s) (caught_up s) (refresh_requested s) (refresh_completed s) (pending s)
    (server s) (retry_at s) (quota_blocked s) (gap_repair s) (rows_req_outstanding s)
    (replaying_gap s) (row_gap_generation s) v (http_live_epoch s) (needs_checkpoint s)
    (causal_gap_generation s).
Definition set_http_live_epoch (v : option Z) (s : Shared) : Shared :=
  mkShared (cursor s) (caught_up s) (refresh_requested s) (refresh_completed s) (pending s)
    (server s) (retry_at s) (quota_blocked s) (gap_repair s) (rows_req_outstanding s)
    (replaying_gap s) (row_gap_generation s) (http_replay_epoch s) v (needs_checkpoint s)
    (causal_gap_generation s).
Definition set_needs_checkpoint (v : bool) (s : Shared) : Shared :=
  mkShared (cursor s) (caught_up s) (refresh_requested s) (refresh_completed s) (pending s)
    (server s) (retry_at s) (quota_blocked s) (gap_repair s) (rows_req_outstanding s)
    (replaying_gap s) (row_gap_generation s) (http_replay_epoch s) (http_live_epoch s) v
    (causal_gap_generation s).
Definition set_causal_gap_generation (v : Z) (s : Shared) : Shared :=
  mkShared (cursor s) (caught_up s) (refresh_requested s) (refresh_completed s) (pending s)
    (server s) (retry_at s) (quota_blocked s) (gap_repair s) (rows_req_outstanding s)
    (replaying_gap s) (row_gap_generation s) (http_replay_epoch s) (http_live_epoch s)
    (needs_checkpoint s) v.

(** The actor's part: the flags the actor keeps and the events it sent. *)
Record Client := mkClient {
  cl_shared : Shared;
  cl_connected : bool;
  cl_rejoins : Z;
  cl_disconnects : Z;
  cl_rejected : Z;
  cl_server_resets : Z;
  cl_amnesty_done : bool;
  cl_events : list ChatEvent
}.

Definition with_shared (f : Shared → Shared) (c : Client) : Client :=
  mkClient (f (cl_shared c)) (cl_connected c) (cl_rejoins c) (cl_disconnects c) (cl_rejected c)
    (cl_server_resets c) (cl_amnesty_done c) (cl_events c).
Definition emit (e : ChatEvent) (c : Client) : Client :=
  mkClient (cl_shared c) (cl_connected c) (cl_rejoins c) (cl_disconnects c) (cl_rejected c)
    (cl_server_resets c) (cl_amnesty_done c) (cl_events c ++ [e]).
Definition count_rejected (c : Client) : Client :=
  mkClient (cl_shared c) (cl_connected c) (cl_rejoins c) (cl_disconnects c)
    (wrap_u64 (cl_rejected c + 1)) (cl_server_resets c) (cl_amnesty_done c) (cl_events c).

(** A new client: the cursor and the outbox the sink persisted. *)
Definition new_client (initial_cursor : Z) (persisted : list (string * bytes)) : Client :=
  mkClient
    (mkShared initial_cursor false 0 0 ((λ p, mkPush p.1 p.2 true) <$> persisted) None None false
       false false false 0 0 None false 0)
    false 0 0 0 0 false [].

(** ** Catch-up planning *)

Inductive CatchUpPlan := RowsOnly (after : Z) | CheckpointThenRows (after : Z).

Definition plan_catch_up (cursor : Z) (state : StateHeader) (frontier_contained : bool)
    : CatchUpPlan :=
  let cursor := if head_seq state <? cursor then 0 else cursor in
  if checkpoint_size state =? 0 then RowsOnly cursor
  else if frontier_contained then RowsOnly (Z.max cursor (checkpoint_seq state))
  else CheckpointThenRows (checkpoint_seq state).

Definition plan_after (p : CatchUpPlan) : Z :=
  match p with RowsOnly after => after | CheckpointThenRows after => after end.

(** ** The outbox *)

(** Retry the durable write of a batch that is still queued; [persist_ok] is
    the sink's answer. *)
Fixpoint make_durable (id : string) (persist_ok : bool) (l : list PendingPush)
    : list PendingPush * bool :=
  match l with
  | [] => ([], true)
  | p :: l =>
      if bool_decide (pp_batch_id p = id) then
        if pp_durable p then (p :: l, true)
        else if persist_ok then (mkPush (pp_batch_id p) (pp_bytes p) true :: l, true)
        else (p :: l, false)
      else let '(l, ok) := make_durable id persist_ok l in (p :: l, ok)
  end.

Definition ensure_durable (push : PendingPush) (persist_ok : bool) (s : Shared) : Shared * bool :=
  if pp_durable push then (s, true)
  else let '(l, ok) := make_durable (pp_batch_id push) persist_ok (pending s) in
       (set_pending l s, ok).

Definition enqueue_batch (batch_id : string) (data : bytes) (persist_ok : bool) (c : Client)
    : Client :=
  if MAX_PUSH_BYTES <? blen data then emit PushRejected (count_rejected c)
  else with_shared (λ s,
         if bool_decide (batch_id ∈ (pp_batch_id <$> pending s)) then s
         else set_pending (pending s ++ [mkPush batch_id data persist_ok]) s) c.

Definition retain_not (id : string) (l : list PendingPush) : list PendingPush :=
  filter (λ p, pp_batch_id p ≠ id) l.

(** ** Cursor rules *)

Definition saturating_add1 (n : Z) : Z := Z.min (n + 1) (2 ^ 64 - 1).

(** The one-time repair of a cursor an old client persisted; [verified] is
    [cursor_is_verified] of the sink.  The boolean tells whether the sink's
    cursor is reset. *)
Definition apply_cursor_amnesty (verified : bool) (state : StateHeader) (c : Client)
    : Client * bool :=
  let done := cl_amnesty_done c in
  let c := mkClient (cl_shared c) (cl_connected c) (cl_rejoins c) (cl_disconnects c)
             (cl_rejected c) (cl_server_resets c) true (cl_events c) in
  if done || verified then (c, false)
  else
    let clamp_to := if 0 <? checkpoint_size state then checkpoint_seq state else 0 in
    if clamp_to <? cursor (cl_shared c) then (with_shared (set_cursor clamp_to) c, true)
    else (c, false).

(** [apply_remote_row] locks twice, around the import: the first half proposes
    a cursor, the second takes the outcome of the import. *)
Definition flag_gap (s : Shared) : Shared :=
  set_row_gap_generation (wrap_u64 (row_gap_generation s + 1)) (set_gap_repair true s).

Definition propose_row (seq : Z) (s : Shared) : Shared * Z :=
  if saturating_add1 (cursor s) <? seq then (flag_gap s, cursor s)
  else (s, Z.max (cursor s) seq).

Definition conclude_row (proposed : Z) (outcome : RowImportOutcome) (s : Shared) : Shared :=
  match outcome with
  | RowApplied => set_cursor (Z.max (cursor s) proposed) s
  | PendingDependencies =>
      set_causal_gap_generation (wrap_u64 (causal_gap_generation s + 1))
        (set_needs_checkpoint true s)
  end.

Definition apply_remote_row (seq : Z) (outcome : RowImportOutcome) (s : Shared) : Shared :=
  let '(s, proposed) := propose_row seq s in conclude_row proposed outcome s.

(** ** Frames of the room *)

(** Decoded frames with their typed header; [None] where it does not parse. *)
Inductive Inbound :=
  | IRow (seq : option Z)
  | IAck (header : option (string * Z))
  | IPresence
  | IRowsDone (head : option Z)
  | IProbeOk (head : option Z)
  | IState (state : option StateHeader)
  | IError (code message batch_id : string)
  | IUnknown (kind : byte).

(** The sink's and the clock's answers while a frame is handled. *)
Record FrameOracle := mkFrameOracle {
  fo_outcome : RowImportOutcome;   (* of importing the row *)
  fo_sink_ok : bool;               (* of acknowledge_update or reject_update *)
  fo_now : Z
}.

Definition handle_ack (batch_id : string) (seq : Z) (o : FrameOracle) (s : Shared) : Shared :=
  let s := if fo_sink_ok o then set_pending (retain_not batch_id (pending s)) s
           else set_retry_at (Some (fo_now o + QUOTA_RETRY)) s in
  let s := if wrap_u64 (cursor s + 1) <? seq then flag_gap s
           else set_cursor (Z.max (cursor s) seq) s in
  if quota_blocked s then
    if bool_decide (pending s = []) then set_quota_blocked false s
    else set_retry_at (Some (fo_now o)) s
  else s.

Definition permanent_codes : list string := ["too_large"; "empty"; "bad_push"].

Definition handle_error (code batch_id : string) (o : FrameOracle) (c : Client) : option Client :=
  let c := count_rejected c in
  if bool_decide (code ∈ permanent_codes) && negb (bool_decide (batch_id = "")) then
    if fo_sink_ok o then
      let before := length (pending (cl_shared c)) in
      let c := with_shared (λ s, set_pending (retain_not batch_id (pending s)) s) c in
      Some (if (before =? length (pending (cl_shared c)))%nat then c else emit PushRejected c)
    else None
  else if bool_decide (code = "quota") then
    Some (with_shared (λ s, set_retry_at (Some (fo_now o + QUOTA_RETRY)) (set_quota_blocked true s)) c)
  else Some c.

(** [handle_frame_with_replay]; [None] is [false], a protocol breakdown.  The
    replay flag only selects how the document presents an imported row. *)
Definition handle_frame (o : FrameOracle) (f : Inbound) (c : Client) : option Client :=
  match f with
  | IRow None | IAck None => None
  | IRow (Some seq) => Some (emit Applied (with_shared (apply_remote_row seq (fo_outcome o)) c))
  | IAck (Some (batch_id, seq)) => Some (emit Applied (with_shared (handle_ack batch_id seq o) c))
  | IPresence => Some (emit Presence c)
  | IRowsDone _ =>
      Some (with_shared (λ s, set_rows_req_outstanding false (set_replaying_gap false s)) c)
  | IProbeOk (Some head) =>
      Some (with_shared (λ s,
        match server s with
        | Some st => set_server (Some (mkState (Z.max (head_seq st) head) (seq_floor st)
                       (checkpoint_seq st) (checkpoint_size st) (row_count st) (row_bytes st))) s
        | None => s
        end) c)
  | IProbeOk None => Some c
  | IState (Some st) => Some (with_shared (set_server (Some st)) c)
  | IState None => Some c
  | IError code _ batch_id => handle_error code batch_id o c
  | IUnknown _ => Some c
  end.

(** ** Requests *)

Inductive Outgoing :=
  | OHello (cursor : Z)
  | ORowsReq (after : Z) (exclude_own : bool)
  | OPush (batch_id : string) (data : bytes).

(** One batch after the other, until a durable write fails; [durable] answers
    the writes that are retried. *)
Fixpoint push_batches (batches : list PendingPush) (durable : string → bool) (s : Shared)
    (in_flight : list string) : Shared * list string * list Outgoing * bool :=
  match batches with
  | [] => (s, in_flight, [], true)
  | push :: batches =>
      let '(s, ok) := ensure_durable push (durable (pp_batch_id push)) s in
      if ok then
        let '(s, in_flight, out, ok) :=
          push_batches batches durable s (in_flight ++ [pp_batch_id push]) in
        (s, in_flight, OPush (pp_batch_id push) (pp_bytes push) :: out, ok)
      else (s, in_flight, [], false)
  end.

Definition push_pending (durable : string → bool) (s : Shared) (in_flight : list string)
    : Shared * list string * list Outgoing * bool :=
  let in_flight := filter (λ id, id ∈ (pp_batch_id <$> pending s)) in_flight in
  if quota_blocked s then (s, in_flight, [], true)
  else push_batches (filter (λ p, pp_batch_id p ∉ in_flight) (pending s)) durable s in_flight.

Definition push_head (durable : string → bool) (s : Shared) : Shared * list Outgoing * bool :=
  match pending s with
  | [] => (s, [], true)
  | push :: _ =>
      let '(s, ok) := ensure_durable push (durable (pp_batch_id push)) s in
      if ok then (s, [OPush (pp_batch_id push) (pp_bytes push)], true) else (s, [], false)
  end.

Definition MAX_GAP_REPAIRS_PER_SESSION : Z := 3.

(** [maybe_repair_gap]: the request to send, the repairs counted so far, and
    whether the session goes on. *)
Definition maybe_repair_gap (repairs : Z) (s : Shared) : Shared * Z * list Outgoing * bool :=
  if needs_checkpoint s then (s, repairs, [], false)
  else if rows_req_outstanding s then (s, repairs, [], true)
  else
    let repair := gap_repair s in
    let s := set_gap_repair false s in
    if negb repair then (s, repairs, [], true)
    else
      let s := set_rows_req_outstanding true (set_replaying_gap true s) in
      let repairs := wrap_u32 (repairs + 1) in
      if MAX_GAP_REPAIRS_PER_SESSION <? repairs then (s, repairs, [], false)
      else (s, repairs, [ORowsReq (cursor s) false], true).

(** ** The client's own calls *)

Definition probe (c : Client) : Client :=
  with_shared (λ s, set_http_replay_epoch (wrap_u64 (http_replay_epoch s + 1)) s) c.

Definition request_catch_up (c : Client) : Client * Z :=
  let ticket := wrap_u64 (refresh_requested (cl_shared c) + 1) in
  (with_shared (set_refresh_requested ticket) c, ticket).

Definition catch_up_completed (ticket : Z) (c : Client) : bool :=
  let s := cl_shared c in
  (ticket <=? refresh_completed s) && caught_up s && negb (needs_checkpoint s)
    && negb (gap_repair s).

Definition note_checkpoint (seq_covered size : Z) (c : Client) : Client :=
  with_shared (λ s,
    match server s with
    | Some st => set_server (Some (mkState (head_seq st) seq_covered seq_covered size 0 0)) s
    | None => s
    end) c.

Definition delivery_live (c : Client) : bool :=
  let s := cl_shared c in
  caught_up s && negb (needs_checkpoint s) && negb (gap_repair s)
    && (cl_connected c || bool_decide (http_live_epoch s = Some (http_replay_epoch s))).

Definition is_caught_up (c : Client) : bool :=
  let s := cl_shared c in
  caught_up s && negb (needs_checkpoint s) && negb (gap_repair s)
    && (refresh_requested s <=? refresh_completed s).
