(* ===== verification/ChatSync.v ===== *)
(** * ChatSync: a chat client against its room, over socket and HTTPS at once

    Runs the functions of ChatClient.v the way [run_session] and
    [spawn_offline_sync] of crates/sync/src/chat_client.rs do: the session of
    the socket and the HTTPS cycle are two tasks that share the client's state,
    and one step is what a task does between two points where the other may
    run (one lock of the shared state, one call of the sink, one await).

    The room is what the edge promises: a log whose head and checkpoint only
    grow; answers are snapshots taken between the request and the answer; a
    pull returns every row behind the asked cursor the log still has; one
    [IRowsDone] answers one rows request.  Rows arrive on the socket in any
    order, and none has to arrive.  The document is the set of the rows it
    contains. *)

From S2P Require Import Prelude Text Json Frames ChatClient.

(** ** The room *)

Record Room := mkRoom {
  rm_head : Z;
  rm_checkpoint : Z;
  rm_size : Z;
  rm_floor : Z
}.

Definition room_ok (r : Room) : Prop :=
  0 ≤ rm_floor r ≤ rm_checkpoint r ∧ rm_checkpoint r ≤ rm_head r ∧ 0 ≤ rm_size r ∧
  (rm_size r = 0 → rm_checkpoint r = 0).

(** A header the room can have sent between the states [r0] and [r]. *)
Definition snapshot (r0 r : Room) (st : StateHeader) : bool :=
  (rm_head r0 <=? head_seq st) && (head_seq st <=? rm_head r)
  && (rm_checkpoint r0 <=? checkpoint_seq st) && (checkpoint_seq st <=? rm_checkpoint r)
  && (0 <=? seq_floor st) && (seq_floor st <=? checkpoint_seq st)
  && (checkpoint_seq st <=? head_seq st)
  && ((0 <? checkpoint_size st) || ((checkpoint_size st =? 0) && (checkpoint_seq st =? 0))).

(** The rows an HTTPS pull behind [after] returns. *)
Definition pull_rows (after : Z) (st : StateHeader) : list Z :=
  let from := Z.max after (seq_floor st) in seqZ (from + 1) (head_seq st - from).

Definition has_upto (n : Z) (doc : gset Z) : bool := bool_decide (Forall (λ s, s ∈ doc) (seqZ 1 n)).

(** ** The two tasks *)

Inductive WsPhase :=
  | WDown
  | WHello (at_hello : Room)
  | WPlanning (st : StateHeader) (read : Z) (repair : bool) (generation : Z)
  | WFetching (st : StateHeader) (generation ticket : Z) (buffered : list Inbound)
  | WImported (st : StateHeader) (generation ticket : Z) (buffered : list Inbound)
  | WClearing (generation ticket : Z) (buffered : list Inbound)
  | WBackfill (ticket : Z) (buffered : list Inbound) (head : option Z)
  | WCatching (ticket head : Z)
  | WPost (refresh : option Z) (repairs : Z) (refreshed : option Z)
  | WRepair (refresh : option Z) (repairs : Z)
  | WSteady (refresh : option Z) (repairs : Z).

(** What a pull remembers: the room when it was asked, and the client's. *)
Record Pull := mkPull {
  pl_room : Room;
  pl_cursor : Z;
  pl_epoch : Z;
  pl_ticket : Z;
  pl_gap_generation : Z
}.

Inductive HttpPhase :=
  | HIdle
  | HPushing (batches : list PendingPush)
  | HPosting (batches : list PendingPush)
  | HPulling (p : Pull)
  | HStated (p : Pull) (st : StateHeader)
  | HFetching (p : Pull) (st : StateHeader) (generation after : Z)
  | HCommitting (p : Pull) (st : StateHeader) (generation after : Z)
  | HRows (p : Pull) (st : StateHeader) (rows : list Z) (applied : bool).

(** [w_row] and [w_hrow] are the rows whose import is under way: the sequence
    number and the proposed cursor.  [w_req] is the room's head when the
    outstanding rows request of the session was sent, [w_asked] the head at
    each [request_catch_up]; [w_enqueued] and [w_settled] are the batches that
    were enqueued, and those acknowledged or rejected in the durable outbox. *)
Record World := mkWorld {
  w_client : Client;
  w_doc : gset Z;
  w_room : Room;
  w_ws : WsPhase;
  w_row : option (Z * Z);
  w_in_flight : list string;
  w_req : option Z;
  w_resumed : bool;
  w_http : HttpPhase;
  w_hrow : option (Z * Z);
  w_asked : list Z;
  w_enqueued : gset string;
  w_settled : gset string
}.

Definition put_client (v : Client) (w : World) : World :=
  mkWorld v (w_doc w) (w_room w) (w_ws w) (w_row w) (w_in_flight w) (w_req w) (w_resumed w)
    (w_http w) (w_hrow w) (w_asked w) (w_enqueued w) (w_settled w).
Definition put_doc (v : gset Z) (w : World) : World :=
  mkWorld (w_client w) v (w_room w) (w_ws w) (w_row w) (w_in_flight w) (w_req w) (w_resumed w)
    (w_http w) (w_hrow w) (w_asked w) (w_enqueued w) (w_settled w).
Definition put_room (v : Room) (w : World) : World :=
  mkWorld (w_client w) (w_doc w) v (w_ws w) (w_row w) (w_in_flight w) (w_req w) (w_resumed w)
    (w_http w) (w_hrow w) (w_asked w) (w_enqueued w) (w_settled w).
Definition put_ws (v : WsPhase) (w : World) : World :=
  mkWorld (w_client w) (w_doc w) (w_room w) v (w_row w) (w_in_flight w) (w_req w)
    (w_resumed w) (w_http w) (w_hrow w) (w_asked w) (w_enqueued w) (w_settled w).
Definition put_row (v : option (Z * Z)) (w : World) : World :=
  mkWorld (w_client w) (w_doc w) (w_room w) (w_ws w) v (w_in_flight w) (w_req w) (w_resumed w)
    (w_http w) (w_hrow w) (w_asked w) (w_enqueued w) (w_settled w).
Definition put_in_flight (v : list string) (w : World) : World :=
  mkWorld (w_client w) (w_doc w) (w_room w) (w_ws w) (w_row w) v (w_req w) (w_resumed w)
    (w_http w) (w_hrow w) (w_asked w) (w_enqueued w) (w_settled w).
Definition put_req (v : option Z) (w : World) : World :=
  mkWorld (w_client w) (w_doc w) (w_room w) (w_ws w) (w_row w) (w_in_flight w) v (w_resumed w)
    (w_http w) (w_hrow w) (w_asked w) (w_enqueued w) (w_settled w).
Definition put_resumed (v : bool) (w : World) : World :=
  mkWorld (w_client w) (w_doc w) (w_room w) (w_ws w) (w_row w) (w_in_flight w) (w_req w) v
    (w_http w) (w_hrow w) (w_asked w) (w_enqueued w) (w_settled w).
Definition put_http (v : HttpPhase) (w : World) : World :=
  mkWorld (w_client w) (w_doc w) (w_room w) (w_ws w) (w_row w) (w_in_flight w) (w_req w)
    (w_resumed w) v (w_hrow w) (w_asked w) (w_enqueued w) (w_settled w).
Definition put_hrow (v : option (Z * Z)) (w : World) : World :=
  mkWorld (w_client w) (w_doc w) (w_room w) (w_ws w) (w_row w) (w_in_flight w) (w_req w)
    (w_resumed w) (w_http w) v (w_asked w) (w_enqueued w) (w_settled w).
Definition put_settled (v : gset string) (w : World) : World :=
  mkWorld (w_client w) (w_doc w) (w_room w) (w_ws w) (w_row w) (w_in_flight w) (w_req w)
    (w_resumed w) (w_http w) (w_hrow w) (w_asked w) (w_enqueued w) v.
Definition map_client (f : Client → Client) (w : World) : World := put_client (f (w_client w)) w.
Definition map_shared (f : Shared → Shared) : World → World := map_client (with_shared f).
Definition w_shared (w : World) : Shared := cl_shared (w_client w).

(** ** The socket session *)

(** [Reconnect]: a session that had joined invalidates the HTTPS replay epoch. *)
Definition end_session (c : Client) : Client :=
  let joined := cl_connected c in
  let c := mkClient (cl_shared c) false (cl_rejoins c) (wrap_u64 (cl_disconnects c + 1))
             (cl_rejected c) (cl_server_resets c) (cl_amnesty_done c)
             (cl_events c ++ [Disconnected]) in
  if joined then probe c else c.

Definition ws_down (w : World) : World :=
  put_ws WDown (put_row None (put_in_flight [] (put_req None (map_client end_session w)))).

Definition clear_replay : Shared → Shared :=
  λ s, set_rows_req_outstanding false (set_replaying_gap false s).

Definition count_reset (c : Client) : Client :=
  mkClient (cl_shared c) (cl_connected c) (cl_rejoins c) (cl_disconnects c) (cl_rejected c)
    (wrap_u64 (cl_server_resets c + 1)) (cl_amnesty_done c) (cl_events c).
Definition join (c : Client) : Client :=
  mkClient (cl_shared c) true (wrap_u64 (cl_rejoins c + 1)) (cl_disconnects c) (cl_rejected c)
    (cl_server_resets c) (cl_amnesty_done c) (cl_events c).

(** The state frame arrives: the reset check on the raw cursor, the amnesty,
    the join. *)
Definition receive_state (verified : bool) (st : StateHeader) (c : Client) : Client :=
  let c := with_shared (λ s, clear_replay (set_server (Some st) s)) c in
  let c := if head_seq st <? cursor (cl_shared c) then emit ServerReset (count_reset c) else c in
  let c := (apply_cursor_amnesty verified st c).1 in
  emit Connected (join c).

Definition contained (answer repair : bool) (st : StateHeader) (doc : gset Z) : bool :=
  (checkpoint_size st =? 0) || (negb repair && answer && has_upto (checkpoint_seq st) doc).

(** Clears the causal gap unless a newer one was flagged since. *)
Definition clear_causal_gap (generation : Z) (s : Shared) : Shared :=
  if causal_gap_generation s =? generation then set_needs_checkpoint false s else s.

Definition complete_refresh (ticket : Z) (s : Shared) : Shared :=
  set_refresh_completed (Z.max (refresh_completed s) ticket) s.

(** The end of the first backfill, after [needs_checkpoint] was read as false. *)
Definition catch_up (ticket head : Z) (s : Shared) : Shared :=
  let s := set_caught_up true s in
  if negb (gap_repair s) && (head <=? cursor s) then complete_refresh ticket s else s.

(** A [rowsDone] of the steady state answers the wake in flight. *)
Definition settle_refresh (ticket head : Z) (s : Shared) : Shared :=
  if (head <=? cursor s) && negb (needs_checkpoint s) && negb (gap_repair s)
  then complete_refresh ticket s
  else if cursor s <? head then flag_gap s else s.

(** Frames the room can send at this moment. *)
Definition frame_possible (w : World) (f : Inbound) : bool :=
  match f with
  | IRow (Some seq) => (1 <=? seq) && (seq <=? rm_head (w_room w))
  | IAck (Some (_, seq)) => (1 <=? seq) && (seq <=? rm_head (w_room w)) && bool_decide (seq ∈ w_doc w)
  | IRowsDone head =>
      match w_req w with
      | Some h0 => from_option (λ h, (h0 <=? h) && (h <=? rm_head (w_room w))) true head
      | None => false
      end
  | _ => true
  end.

(** A rows request answered is no longer outstanding. *)
Definition take_answer (f : Inbound) (w : World) : World :=
  match f with IRowsDone _ => put_req None w | _ => w end.

(** The batch a frame settles in the durable outbox. *)
Definition settled_by (o : FrameOracle) (f : Inbound) : gset string :=
  match f with
  | IAck (Some (id, _)) => if fo_sink_ok o then {[id]} else ∅
  | IError code _ id =>
      if bool_decide (code ∈ permanent_codes) && negb (bool_decide (id = "")) && fo_sink_ok o
      then {[id]} else ∅
  | _ => ∅
  end.

(** A frame that is not a row, handled in one go. *)
Definition receive (o : FrameOracle) (f : Inbound) (next : WsPhase) (w : World) : World :=
  match handle_frame o f (w_client w) with
  | Some c => put_ws next (put_settled (settled_by o f ∪ w_settled w) (put_client c w))
  | None => ws_down w
  end.

Definition begin_row (seq : Z) (w : World) : World :=
  let '(s, proposed) := propose_row seq (w_shared w) in
  put_row (Some (seq, proposed)) (map_shared (λ _, s) w).

Definition import_row (seq : Z) (outcome : RowImportOutcome) (doc : gset Z) : gset Z :=
  match outcome with RowApplied => {[seq]} ∪ doc | PendingDependencies => doc end.

Definition import_checkpoint (st : StateHeader) (doc : gset Z) : gset Z :=
  list_to_set (seqZ 1 (checkpoint_seq st)) ∪ doc.

(** What the session does with a frame it takes next: from the buffer or the
    socket during the backfill, from the socket afterwards. *)
Definition ws_take (o : FrameOracle) (f : Inbound) (w : World) : World :=
  match w_ws w, f with
  | WBackfill ticket buffered None, IRowsDone (Some head) =>
      put_ws (WBackfill ticket buffered (Some head)) w
  | WBackfill ticket buffered None, IRowsDone None => ws_down w
  | WBackfill _ _ _, IRow (Some seq) | WSteady _ _, IRow (Some seq) => begin_row seq w
  | WBackfill _ _ _, _ => receive o f (w_ws w) w
  | WSteady refresh repairs, IRowsDone head =>
      receive o f (WPost refresh repairs head) w
  | WSteady refresh repairs, _ => receive o f (WPost refresh repairs None) w
  | _, _ => w
  end.

Definition WPlanStep (answer : bool) (durable : string → bool) (w : World) : World :=
  match w_ws w with
  | WPlanning st read repair generation =>
      let plan := plan_catch_up read st (contained answer repair st (w_doc w)) in
      let s := set_cursor (plan_after plan) (w_shared w) in
      let ticket := refresh_requested s in
      let '(s, in_flight, _, ok) := push_pending durable s [] in
      let w := put_req (Some (rm_head (w_room w))) (put_in_flight in_flight (map_shared (λ _, s) w)) in
      if ok then
        put_ws (match plan with
                | RowsOnly _ => WClearing generation ticket []
                | CheckpointThenRows _ => WFetching st generation ticket []
                end) w
      else ws_down w
  | _ => w
  end.

(** After a frame of the steady state: the wake it answers, then the gaps. *)
Definition WPostStep (w : World) : World :=
  match w_ws w with
  | WPost (Some ticket) repairs (Some head) =>
      put_ws (WRepair None repairs) (map_shared (settle_refresh ticket head) w)
  | WPost refresh repairs _ => put_ws (WRepair refresh repairs) w
  | _ => w
  end.

Definition WRepairStep (w : World) : World :=
  match w_ws w with
  | WRepair refresh repairs =>
      let '(s, repairs, out, ok) := maybe_repair_gap repairs (w_shared w) in
      let w := map_shared (λ _, s) w in
      let w := match out with [] => w | _ => put_req (Some (rm_head (w_room w))) w end in
      if ok then put_ws (WSteady refresh repairs) w else ws_down w
  | _ => w
  end.

(** The top of the loop: a wake asks for the rows behind the cursor unless a
    request is outstanding. *)
Definition WRefreshStep (w : World) : World :=
  match w_ws w with
  | WSteady None repairs =>
      let s := w_shared w in
      if (refresh_completed s <? refresh_requested s) && negb (rows_req_outstanding s) then
        put_ws (WSteady (Some (refresh_requested s)) repairs)
          (put_req (Some (rm_head (w_room w))) (map_shared (set_rows_req_outstanding true) w))
      else w
  | _ => w
  end.

(** ** The HTTPS cycle *)

Definition http_ack (id : string) (seq : Z) (sink_ok : bool) (s : Shared) : Shared :=
  let s := if sink_ok then set_pending (retain_not id (pending s)) s else s in
  if seq <=? wrap_u64 (cursor s + 1) then set_cursor (Z.max (cursor s) seq) s else s.

(** One batch of the flush: the durable write, then the answer to its POST;
    [Ok None] is an answer without a batch and a sequence number. *)
Definition HPushStep (durable : string → bool) (w : World) : World :=
  match w_http w with
  | HPushing (push :: batches) =>
      let '(s, ok) := ensure_durable push (durable (pp_batch_id push)) (w_shared w) in
      put_http (if ok then HPosting batches else HPushing []) (map_shared (λ _, s) w)
  | _ => w
  end.

Definition HPostedStep (posted : result unit (option (string * Z))) (sink_ok : bool) (w : World)
    : World :=
  match w_http w, posted with
  | HPosting batches, Ok (Some (id, seq)) =>
      if (1 <=? seq) && (seq <=? rm_head (w_room w)) && bool_decide (seq ∈ w_doc w) then
        put_http (HPushing batches)
          (put_settled ((if sink_ok then {[id]} else ∅) ∪ w_settled w)
            (map_client (emit Applied) (map_shared (http_ack id seq sink_ok) w)))
      else w
  | HPosting batches, Ok None => put_http (HPushing batches) w
  | HPosting batches, Err _ => put_http (HPushing []) w
  | _, _ => w
  end.

Definition HPullStep (w : World) : World :=
  match w_http w with
  | HPushing [] =>
      let s := w_shared w in
      put_http (HPulling (mkPull (w_room w) (cursor s) (http_replay_epoch s) (refresh_requested s)
                            (row_gap_generation s)))
        (map_shared (set_http_live_epoch None) w)
  | _ => w
  end.

Definition HStateStep (st : StateHeader) (verified : bool) (w : World) : World :=
  match w_http w with
  | HPulling p =>
      if snapshot (pl_room p) (w_room w) st then
        let w := map_client (λ c, (apply_cursor_amnesty verified st
                   (with_shared (set_server (Some st)) c)).1) w in
        if (cursor (w_shared w) <? pl_cursor p) && (pl_cursor p <=? head_seq st)
        then put_http HIdle w
        else put_http (HStated p st) w
      else w
  | _ => w
  end.

Definition HPlanStep (answer : bool) (w : World) : World :=
  match w_http w with
  | HStated p st =>
      let s := w_shared w in
      match plan_catch_up (pl_cursor p) st (contained answer (needs_checkpoint s) st (w_doc w)) with
      | RowsOnly after => put_http (HCommitting p st (causal_gap_generation s) after) w
      | CheckpointThenRows after => put_http (HFetching p st (causal_gap_generation s) after) w
      end
  | _ => w
  end.

Definition commit_pull (st : StateHeader) (generation after : Z) (s : Shared) : Shared :=
  clear_causal_gap generation
    (set_cursor (if head_seq st <? cursor s then after else Z.max (cursor s) after) s).

(** [rowsDone] of the pull: only in the replay epoch it was asked in. *)
Definition finish_pull (p : Pull) (head : Z) (s : Shared) : Shared :=
  if (http_replay_epoch s =? pl_epoch p) && (head <=? cursor s) && negb (needs_checkpoint s) then
    let s := set_caught_up true (set_http_live_epoch (Some (pl_epoch p)) s) in
    let s := if row_gap_generation s =? pl_gap_generation p then set_gap_repair false s else s in
    if negb (gap_repair s) then complete_refresh (pl_ticket p) s else s
  else s.

(** ** Steps *)

Inductive UserAction :=
  | ARequest | AProbe | AEnqueue (id : string) (data : bytes) (persist_ok : bool)
  | APeerRow | AOwnRow | ACheckpoint (seq size floor : Z).

Inductive WsAction :=
  | WDial | WState (st : StateHeader) (verified : bool)
  | WPlan (answer : bool) (durable : string → bool)
  | WBuffer (f : Inbound) | WFetched | WRaise | WClear
  | WReplay (o : FrameOracle) | WFrame (f : Inbound) (o : FrameOracle)
  | WRowDone (outcome : RowImportOutcome)
  | WFinish | WCatch | WAfter | WRepairGap | WRefresh
  | WNudge (durable : string → bool) | WRetry (durable : string → bool) | WEnd.

Inductive HttpAction :=
  | HStart | HPush (durable : string → bool)
  | HPosted (posted : result unit (option (string * Z))) (sink_ok : bool)
  | HPull | HFail | HState (st : StateHeader) (verified : bool) | HPlan (answer : bool)
  | HFetched (ok : bool) | HCommit | HRow | HRowDone (outcome : RowImportOutcome) | HDone | HStop.

Inductive Action := User (a : UserAction) | Ws (a : WsAction) | Http (a : HttpAction).

Definition room_step (a : UserAction) (r : Room) : Room :=
  match a with
  | APeerRow | AOwnRow => mkRoom (rm_head r + 1) (rm_checkpoint r) (rm_size r) (rm_floor r)
  | ACheckpoint seq size floor =>
      if (rm_checkpoint r <=? seq) && (seq <=? rm_head r) && (0 <? size)
         && (0 <=? floor) && (floor <=? seq)
      then mkRoom (rm_head r) seq size floor else r
  | _ => r
  end.

Definition ws_step (a : WsAction) (w : World) : World :=
  match a, w_ws w with
  | WDial, WDown =>
      put_ws (WHello (w_room w)) (put_in_flight [] (put_req None (map_shared clear_replay w)))
  | WState st verified, WHello r0 =>
      if snapshot r0 (w_room w) st then
        let w := map_client (receive_state verified st) w in
        let s := w_shared w in
        put_ws (WPlanning st (cursor s) (needs_checkpoint s) (causal_gap_generation s)) w
      else w
  | WPlan answer durable, _ => WPlanStep answer durable w
  | WBuffer f, WFetching st generation ticket buffered =>
      if frame_possible w f
      then take_answer f (put_ws (WFetching st generation ticket (buffered ++ [f])) w) else w
  | WFetched, WFetching st generation ticket buffered =>
      put_ws (WImported st generation ticket buffered)
        (put_doc (import_checkpoint st (w_doc w)) w)
  | WRaise, WImported st generation ticket buffered =>
      put_ws (WClearing generation ticket buffered)
        (map_client (emit Applied) (map_shared
          (λ s, set_cursor (Z.max (cursor s) (checkpoint_seq st)) s) w))
  | WClear, WClearing generation ticket buffered =>
      put_ws (WBackfill ticket buffered None) (map_shared (clear_causal_gap generation) w)
  | WReplay o, WBackfill ticket (f :: buffered) head =>
      ws_take o f (put_ws (WBackfill ticket buffered head) w)
  | WFrame f o, WBackfill _ [] None | WFrame f o, WSteady _ _ =>
      if frame_possible w f then ws_take o f (take_answer f w) else w
  | WFinish, WBackfill ticket [] (Some head) =>
      let w := put_resumed true w in
      if needs_checkpoint (w_shared w) then put_ws (WRepair None 0) w
      else put_ws (WCatching ticket head) w
  | WCatch, WCatching ticket head =>
      put_ws (WRepair None 0) (map_client (emit (CaughtUp head)) (map_shared (catch_up ticket head) w))
  | WAfter, _ => WPostStep w
  | WRepairGap, _ => WRepairStep w
  | WRefresh, _ => WRefreshStep w
  | WNudge durable, WSteady _ _ =>
      let '(s, in_flight, _, ok) := push_pending durable (w_shared w) (w_in_flight w) in
      let w := put_in_flight in_flight (map_shared (λ _, s) w) in
      if ok then w else ws_down w
  | WRetry durable, WSteady _ _ =>
      let '(s, _, ok) := push_head durable (set_retry_at None (w_shared w)) in
      let w := map_shared (λ _, s) w in
      if ok then w else ws_down w
  | WEnd, WDown => w
  | WEnd, _ => ws_down w
  | _, _ => w
  end.

(** The import of a row is not an await point: the session does nothing else
    meanwhile. *)
Definition ws_actor (a : WsAction) (w : World) : World :=
  match w_row w with
  | None => ws_step a w
  | Some (seq, proposed) =>
      match a with
      | WRowDone outcome =>
          let w := put_row None (put_doc (import_row seq outcome (w_doc w))
                     (map_client (emit Applied) (map_shared (conclude_row proposed outcome) w))) in
          match w_ws w with
          | WSteady refresh repairs => put_ws (WPost refresh repairs None) w
          | _ => w
          end
      | _ => w
      end
  end.

Definition http_step (a : HttpAction) (w : World) : World :=
  match a, w_http w with
  | HStart, HIdle => put_http (HPushing (pending (w_shared w))) w
  | HPush durable, _ => HPushStep durable w
  | HPosted posted sink_ok, _ => HPostedStep posted sink_ok w
  | HPull, _ => HPullStep w
  | HFail, HPulling p => put_http HIdle (map_client probe w)
  | HState st verified, _ => HStateStep st verified w
  | HPlan answer, _ => HPlanStep answer w
  | HFetched ok, HFetching p st generation after =>
      if ok then
        put_http (HCommitting p st generation after)
          (map_client (emit Applied) (put_doc (import_checkpoint st (w_doc w)) w))
      else put_http HIdle w
  | HCommit, HCommitting p st generation after =>
      put_http (HRows p st (pull_rows (pl_cursor p) st) false)
        (map_shared (commit_pull st generation after) w)
  | HRow, HRows p st (seq :: rows) _ =>
      let '(s, proposed) := propose_row seq (w_shared w) in
      put_hrow (Some (seq, proposed)) (put_http (HRows p st rows true) (map_shared (λ _, s) w))
  | HDone, HRows p st [] applied =>
      let w := map_shared (finish_pull p (head_seq st)) w in
      put_http HIdle (if applied then map_client (emit Applied) w else w)
  | HStop, HRows p st rows applied => put_http HIdle (if applied then map_client (emit Applied) w else w)
  | HStop, HPulling p => put_http HIdle w
  | _, _ => w
  end.

Definition http_actor (a : HttpAction) (w : World) : World :=
  match w_hrow w with
  | None => http_step a w
  | Some (seq, proposed) =>
      match a with
      | HRowDone outcome =>
          put_hrow None (put_doc (import_row seq outcome (w_doc w))
            (map_shared (conclude_row proposed outcome) w))
      | _ => w
      end
  end.

Definition user_step (a : UserAction) (w : World) : World :=
  match a with
  | ARequest =>
      let w' := map_client (λ c, (request_catch_up c).1) w in
      mkWorld (w_client w') (w_doc w) (w_room w) (w_ws w) (w_row w) (w_in_flight w) (w_req w)
        (w_resumed w) (w_http w) (w_hrow w) (w_asked w ++ [rm_head (w_room w)]) (w_enqueued w)
        (w_settled w)
  | AProbe => map_client probe w
  | AEnqueue id data persist_ok =>
      let w' := map_client (enqueue_batch id data persist_ok) w in
      mkWorld (w_client w') (w_doc w) (w_room w) (w_ws w) (w_row w) (w_in_flight w) (w_req w)
        (w_resumed w) (w_http w) (w_hrow w) (w_asked w) ({[id]} ∪ w_enqueued w)
        ((if MAX_PUSH_BYTES <? blen data then {[id]} else ∅) ∪ w_settled w)
  | APeerRow | ACheckpoint _ _ _ => put_room (room_step a (w_room w)) w
  | AOwnRow =>
      put_room (room_step a (w_room w)) (put_doc ({[rm_head (w_room w) + 1]} ∪ w_doc w) w)
  end.

Definition step (a : Action) (w : World) : World :=
  match a with User a => user_step a w | Ws a => ws_actor a w | Http a => http_actor a w end.

Definition run (acts : list Action) (w : World) : World := fold_left (λ w a, step a w) acts w.

Definition start (initial_cursor : Z) (persisted : list (string * bytes)) (doc : gset Z) (r : Room)
    : World :=
  mkWorld (new_client initial_cursor persisted) doc r WDown None [] None false HIdle None []
    (list_to_set persisted.*1) ∅.
