(* ===== verification/ChatSyncSpec.v ===== *)
(** * ChatSyncSpec: what the chat client's cursor and its promises mean

    Theorems about ChatSync.v: the cursor never claims a row the document
    lacks, a completed catch-up has brought every row that existed when it was
    asked for, and no batch leaves the outbox unsettled. *)

From S2P Require Import Prelude Text Json Frames ChatClient ChatSync.

(** ** Rows, snapshots and tickets *)

(** The document contains the rows up to [n]. *)
Definition upto (n : Z) (doc : gset Z) : Prop := ∀ s, 1 ≤ s ≤ n → s ∈ doc.

(** The rows up to [c] are in the document or covered by a checkpoint that
    covers the rows up to [F]. *)
Definition honest (F c : Z) (doc : gset Z) : Prop :=
  0 ≤ c ∧ ∀ s, 1 ≤ s ≤ c → s ∈ doc ∨ s ≤ F.

Lemma honest_upto c doc : honest 0 c doc → upto c doc.
Proof. intros [_ H] s Hs. destruct (H s Hs); [done|lia]. Qed.

Lemma upto_honest F c doc : 0 ≤ c → upto c doc → honest F c doc.
Proof. intros Hc H. split; [done|]. intros s Hs. left. by apply H. Qed.

Lemma honest_mono F F' c doc doc' : honest F c doc → F ≤ F' → doc ⊆ doc' → honest F' c doc'.
Proof. intros [? H] HF Hd. split; [done|]. intros s Hs. destruct (H s Hs); [left; set_solver|right; lia]. Qed.

Lemma honest_drop F k c doc : honest F c doc → F ≤ k → upto k doc → honest 0 c doc.
Proof.
  intros [? H] HF Hk. split; [done|]. intros s Hs. destruct (H s Hs); [by left|]. left. apply Hk. lia.
Qed.

Lemma honest_max F a b doc : honest F a doc → honest F b doc → honest F (Z.max a b) doc.
Proof. intros Ha Hb. by destruct (Z.max_spec a b) as [[_ ->]|[_ ->]]. Qed.

Lemma upto_mono n n' doc doc' : upto n doc → n' ≤ n → doc ⊆ doc' → upto n' doc'.
Proof. intros H Hn Hd s Hs. apply Hd, H. lia. Qed.

Lemma has_upto_true n doc : has_upto n doc = true → upto n doc.
Proof.
  unfold has_upto. rewrite bool_decide_eq_true, Forall_forall. intros H s Hs. apply H.
  apply elem_of_seqZ. lia.
Qed.

Lemma import_checkpoint_upto st doc : upto (checkpoint_seq st) (import_checkpoint st doc).
Proof.
  intros s Hs. unfold import_checkpoint. rewrite elem_of_union, elem_of_list_to_set, elem_of_seqZ.
  left. lia.
Qed.

Lemma import_checkpoint_mono st doc : doc ⊆ import_checkpoint st doc.
Proof. unfold import_checkpoint. set_solver. Qed.

(** A room that has only grown. *)
Definition room_le (r r' : Room) : Prop :=
  rm_head r ≤ rm_head r' ∧ rm_checkpoint r ≤ rm_checkpoint r'.

#[export] Instance room_le_preorder : PreOrder room_le.
Proof. split; [by intros r|]. unfold room_le. intros r1 r2 r3. lia. Qed.

Lemma snapshot_spec r0 r st :
  snapshot r0 r st = true →
  rm_head r0 ≤ head_seq st ≤ rm_head r ∧ rm_checkpoint r0 ≤ checkpoint_seq st ≤ rm_checkpoint r ∧
  0 ≤ seq_floor st ≤ checkpoint_seq st ∧ checkpoint_seq st ≤ head_seq st ∧
  (checkpoint_size st = 0 → checkpoint_seq st = 0) ∧ 0 ≤ checkpoint_size st.
Proof. unfold snapshot. rewrite !andb_true_iff, orb_true_iff, andb_true_iff. lia. Qed.

(** The room had head [h] or more after each of the first [t] requests. *)
Definition below (t h : Z) (asked : list Z) : Prop :=
  t ≤ Z.of_nat (length asked) ∧ ∀ i x, asked !! i = Some x → Z.of_nat i < t → x ≤ h.

Lemma below_app t h asked l : below t h asked → below t h (asked ++ l).
Proof.
  intros [Ht H]. split; [rewrite length_app; lia|]. intros i x Hi Hlt. apply (H i); [|done].
  rewrite lookup_app_l in Hi by lia. done.
Qed.

Lemma below_le t h h' asked : below t h asked → h ≤ h' → below t h' asked.
Proof. intros [Ht H] Hle. split; [done|]. intros i x Hi Hlt. specialize (H i x Hi Hlt). lia. Qed.

Lemma below_head t r asked :
  t ≤ Z.of_nat (length asked) → Forall (λ h, h ≤ rm_head r) asked → below t (rm_head r) asked.
Proof.
  intros Ht Ha. split; [done|]. intros i x Hi _. rewrite Forall_forall in Ha. apply Ha.
  by eapply list_elem_of_lookup_2.
Qed.

(** ** The invariant *)

Definition joined_phase (ws : WsPhase) : bool :=
  match ws with
  | WDown | WHello _ | WPlanning _ _ _ _ | WFetching _ _ _ _ => false
  | _ => true
  end.

Definition online_phase (ws : WsPhase) : bool :=
  match ws with WDown | WHello _ => false | _ => true end.

(** The answer of the first backfill covers the ticket read before it, and the
    buffered acks are of rows the document has. *)
Definition backfill_ok (t : Z) (buffered : list Inbound) (head req : option Z) (doc : gset Z)
    (asked : list Z) : Prop :=
  (∀ id seq, IAck (Some (id, seq)) ∈ buffered → seq ∈ doc) ∧
  t ≤ Z.of_nat (length asked) ∧
  match head with
  | Some h => below t h asked
  | None => (∀ h0, req = Some h0 → below t h0 asked) ∧
            (∀ h, IRowsDone (Some h) ∈ buffered → below t h asked)
  end.

Definition refresh_ok (refresh : option Z) (req : option Z) (asked : list Z) : Prop :=
  ∀ t, refresh = Some t → t ≤ Z.of_nat (length asked) ∧ ∀ h0, req = Some h0 → below t h0 asked.

Definition ws_inv (ws : WsPhase) (F : Z) (doc : gset Z) (r : Room) (req : option Z) (asked : list Z)
    : Prop :=
  match ws with
  | WDown => True
  | WHello r0 => F ≤ rm_checkpoint r0 ∧ room_le r0 r
  | WPlanning st read _ _ =>
      F ≤ checkpoint_seq st ≤ rm_checkpoint r ∧ (checkpoint_size st = 0 → checkpoint_seq st = 0) ∧
      honest F read doc
  | WFetching st _ t buffered =>
      F ≤ checkpoint_seq st ≤ rm_checkpoint r ∧ backfill_ok t buffered None req doc asked
  | WImported st _ t buffered =>
      upto (checkpoint_seq st) doc ∧ backfill_ok t buffered None req doc asked
  | WClearing _ t buffered => backfill_ok t buffered None req doc asked
  | WBackfill t buffered head => backfill_ok t buffered head req doc asked
  | WCatching t h => below t h asked
  | WPost refresh _ refreshed =>
      refresh_ok refresh req asked ∧
      ∀ t h, refresh = Some t → refreshed = Some h → below t h asked
  | WRepair refresh _ | WSteady refresh _ => refresh_ok refresh req asked
  end.

Definition pull_ok (p : Pull) (doc : gset Z) (r : Room) (epoch : Z) (asked : list Z) : Prop :=
  room_le (pl_room p) r ∧ pl_epoch p ≤ epoch ∧ below (pl_ticket p) (rm_head (pl_room p)) asked ∧
  honest (rm_checkpoint (pl_room p)) (pl_cursor p) doc.

Definition answer_ok (p : Pull) (st : StateHeader) (r : Room) : Prop :=
  rm_head (pl_room p) ≤ head_seq st ∧ rm_checkpoint (pl_room p) ≤ checkpoint_seq st ∧
  checkpoint_seq st ≤ rm_checkpoint r ∧ 0 ≤ seq_floor st ≤ checkpoint_seq st ∧
  (checkpoint_size st = 0 → checkpoint_seq st = 0).

(** The rows of the pull up to [pos] are taken: they are in the document, one
    of them just being imported, unless the pull's verdict is void anyway:
    [live] tells that a causal gap is flagged or a session has joined. *)
Definition pulled (p : Pull) (pos : Z) (hrow : option (Z * Z)) (doc : gset Z) (epoch : Z) (live : bool)
    : Prop :=
  pl_epoch p < epoch ∨ live = true ∨
  ∀ s, 1 ≤ s ≤ pos → s ∈ doc ∨ ∃ c, hrow = Some (s, c).

Definition http_inv (h : HttpPhase) (hrow : option (Z * Z)) (doc : gset Z) (r : Room) (epoch : Z)
    (asked : list Z) (live : bool) : Prop :=
  match h with
  | HIdle | HPushing _ | HPosting _ => True
  | HPulling p => pull_ok p doc r epoch asked
  | HStated p st => pull_ok p doc r epoch asked ∧ answer_ok p st r
  | HFetching p st _ after =>
      pull_ok p doc r epoch asked ∧ answer_ok p st r ∧ after = checkpoint_seq st
  | HCommitting p st _ after =>
      pull_ok p doc r epoch asked ∧ answer_ok p st r ∧ upto (checkpoint_seq st) doc ∧ honest 0 after doc
  | HRows p st rows _ =>
      pull_ok p doc r epoch asked ∧ answer_ok p st r ∧
      ∃ pos, 0 ≤ pos ∧ rows = seqZ (pos + 1) (head_seq st - pos) ∧ pulled p pos hrow doc epoch live
  end.

Definition row_ok (F : Z) (row : option (Z * Z)) (doc : gset Z) : Prop :=
  ∀ seq c, row = Some (seq, c) → ∀ s, 1 ≤ s ≤ c → s ∈ doc ∨ s = seq ∨ s ≤ F.

Definition live (w : World) : bool := needs_checkpoint (w_shared w) || joined_phase (w_ws w).

Record inv (F n : Z) (w : World) : Prop := {
  i_room : room_ok (w_room w);
  i_floor : 0 ≤ F ≤ rm_checkpoint (w_room w);
  i_cursor : honest F (cursor (w_shared w)) (w_doc w);
  i_joined : joined_phase (w_ws w) = true → F = 0;
  i_row : row_ok F (w_row w) (w_doc w);
  i_hrow : row_ok F (w_hrow w) (w_doc w);
  i_hrow_rows : ∀ x, w_hrow w = Some x → ∃ p st rows b, w_http w = HRows p st rows b;
  i_ws : ws_inv (w_ws w) F (w_doc w) (w_room w) (w_req w) (w_asked w);
  i_http : http_inv (w_http w) (w_hrow w) (w_doc w) (w_room w) (http_replay_epoch (w_shared w))
             (w_asked w) (live w);
  i_heads : Forall (λ h, h ≤ rm_head (w_room w)) (w_asked w);
  i_asked : Z.of_nat (length (w_asked w)) = refresh_requested (w_shared w);
  i_done : ∀ i h, w_asked w !! i = Some h → Z.of_nat i < refresh_completed (w_shared w) →
             upto h (w_doc w);
  i_completed : refresh_completed (w_shared w) ≤ refresh_requested (w_shared w);
  i_epoch : 0 ≤ http_replay_epoch (w_shared w) ≤ n;
  i_requested : refresh_requested (w_shared w) ≤ n;
  i_connected : online_phase (w_ws w) = true → cl_connected (w_client w) = true
}.

(** ** Monotonicity *)

Lemma backfill_ok_mono t b h req doc doc' asked l :
  backfill_ok t b h req doc asked → doc ⊆ doc' → backfill_ok t b h req doc' (asked ++ l).
Proof.
  intros (Ha & Ht & H) Hd. split; [eauto|]. split; [rewrite length_app; lia|].
  destruct h as [h|]; [by apply below_app|]. destruct H as [H1 H2].
  split; intros; apply below_app; eauto.
Qed.

Lemma refresh_ok_app refresh req asked l : refresh_ok refresh req asked → refresh_ok refresh req (asked ++ l).
Proof.
  intros H t Ht. destruct (H t Ht) as [H1 H2]. split; [rewrite length_app; lia|].
  intros. apply below_app; eauto.
Qed.

Lemma ws_inv_mono ws F doc r req asked doc' r' l :
  ws_inv ws F doc r req asked → doc ⊆ doc' → room_le r r' → ws_inv ws F doc' r' req (asked ++ l).
Proof.
  intros H Hd Hr. assert (rm_checkpoint r ≤ rm_checkpoint r') by apply Hr.
  destruct ws; cbn [ws_inv] in *; eauto using backfill_ok_mono, refresh_ok_app, below_app.
  - destruct H as [? H]. split; [done|]. by etrans.
  - destruct H as (? & ? & ?). split_and!; [lia|lia|done|]. by eapply honest_mono.
  - destruct H as (? & ?). split; [lia|by eapply backfill_ok_mono].
  - destruct H as (? & ?). split; [by eapply upto_mono|by eapply backfill_ok_mono].
  - destruct H as (? & H). split; [by apply refresh_ok_app|]. intros. apply below_app. eauto.
Qed.

Lemma pull_ok_mono p doc r epoch asked doc' r' epoch' l :
  pull_ok p doc r epoch asked → doc ⊆ doc' → room_le r r' → epoch ≤ epoch' →
  pull_ok p doc' r' epoch' (asked ++ l).
Proof.
  intros (H1 & H2 & H3 & H4) Hd Hr He. split_and!; [by etrans|lia|by apply below_app|].
  by eapply honest_mono.
Qed.

Lemma answer_ok_mono p st r r' : answer_ok p st r → room_le r r' → answer_ok p st r'.
Proof. unfold answer_ok, room_le. intros (?&?&?&?&?) [??]. split_and!; try done; lia. Qed.

Lemma pulled_mono p pos hrow doc epoch live doc' epoch' live' :
  pulled p pos hrow doc epoch live → doc ⊆ doc' →
  epoch < epoch' ∧ pl_epoch p ≤ epoch ∨ epoch = epoch' ∧ (live = true → live' = true) →
  pulled p pos hrow doc' epoch' live'.
Proof.
  intros H Hd [[He Hp]|[-> Hl]]; [left; lia|]. destruct H as [H|[H|H]]; [by left|right; left; auto|].
  right; right. intros s Hs. destruct (H s Hs) as [|]; [left; set_solver|by right].
Qed.

Lemma http_inv_mono h hrow doc r epoch asked live doc' r' epoch' l live' :
  http_inv h hrow doc r epoch asked live → doc ⊆ doc' → room_le r r' →
  epoch < epoch' ∨ epoch = epoch' ∧ (live = true → live' = true) →
  http_inv h hrow doc' r' epoch' (asked ++ l) live'.
Proof.
  intros H Hd Hr He. assert (epoch ≤ epoch') by lia.
  destruct h; cbn [http_inv] in *; try done.
  - by eapply pull_ok_mono.
  - destruct H. eauto using pull_ok_mono, answer_ok_mono.
  - destruct H as (? & ? & ?). eauto using pull_ok_mono, answer_ok_mono.
  - destruct H as (? & ? & ? & ?).
    split_and!; eauto using pull_ok_mono, answer_ok_mono, upto_mono, honest_mono, Z.le_refl.
  - destruct H as (Hp & Ha & pos & H1 & H2 & H3).
    split_and!; eauto using pull_ok_mono, answer_ok_mono. exists pos. split_and!; [done|done|].
    eapply pulled_mono; [done|done|]. destruct He; [left; split; [done|apply Hp]|by right].
Qed.

Lemma row_ok_mono F F' row doc doc' : row_ok F row doc → F ≤ F' → doc ⊆ doc' → row_ok F' row doc'.
Proof.
  intros H HF Hd seq c E s Hs. destruct (H seq c E s Hs) as [|[|]]; [left; set_solver|by right; left|].
  right; right. lia.
Qed.

(** More rows in the document, a room that grew, one more request: the
    environment's steps. *)
Lemma inv_grow F n w doc' r' :
  inv F n w → w_doc w ⊆ doc' → room_le (w_room w) r' → room_ok r' →
  inv F n (put_doc doc' (put_room r' w)).
Proof.
  intros [] Hd Hr Hok. destruct w as [c doc r ws row inf req res http hrow asked enq set].
  cbn in *. assert (rm_checkpoint r ≤ rm_checkpoint r') by apply Hr.
  assert (rm_head r ≤ rm_head r') by apply Hr.
  constructor; cbn; try done; eauto using row_ok_mono, Z.le_refl.
  - lia.
  - by eapply honest_mono.
  - rewrite <- (app_nil_r asked). by eapply ws_inv_mono.
  - rewrite <- (app_nil_r asked). eapply http_inv_mono; [done|done|done|]. right. done.
  - eapply Forall_impl; [done|]. cbn. intros. lia.
  - intros. eapply upto_mono; eauto. lia.
Qed.

(** An imported checkpoint that covers [F] leaves nothing uncovered. *)
Lemma inv_drop F n w k : inv F n w → F ≤ k → upto k (w_doc w) → inv 0 n w.
Proof.
  intros [] HF Hk. assert (∀ row, row_ok F row (w_doc w) → row_ok 0 row (w_doc w)) as Hrow.
  { intros row H seq c E s Hs. destruct (H seq c E s Hs) as [|[|]]; [by left|by right; left|].
    left. apply Hk. lia. }
  constructor; try done; eauto using honest_drop.
  - lia.
  - destruct (w_ws w); cbn [ws_inv] in *; try done.
    + destruct i_ws0. split; [lia|done].
    + destruct i_ws0 as (? & ? & ?). split_and!; [lia|lia|done|]. by eapply honest_drop.
    + destruct i_ws0. split; [lia|done].
Qed.

(** A session about to fetch a checkpoint counts on it. *)
Lemma inv_raise F F' n w st read repair generation :
  inv F n w → w_ws w = WPlanning st read repair generation → F ≤ F' ≤ checkpoint_seq st →
  inv F' n w.
Proof.
  intros [] E HF. rewrite E in *. cbn [ws_inv joined_phase] in *. destruct i_ws0 as (? & ? & ?).
  constructor; rewrite ?E; cbn [ws_inv joined_phase]; try done; try lia.
  - eapply honest_mono; [done|lia|done].
  - eapply row_ok_mono; [done|lia|done].
  - eapply row_ok_mono; [done|lia|done].
  - split_and!; [lia|lia|done|]. eapply honest_mono; [done|lia|done].
Qed.

(** The completed tickets after a step: as before, or one more, whose rows are
    all there. *)
Definition completes (s s' : Shared) (asked : list Z) (doc : gset Z) : Prop :=
  refresh_completed s' = refresh_completed s ∨
  ∃ t, refresh_completed s' = Z.max (refresh_completed s) t ∧ t ≤ Z.of_nat (length asked) ∧
    ∀ i h, asked !! i = Some h → Z.of_nat i < t → upto h doc.

Lemma completes_below s s' t h asked doc :
  refresh_completed s' = Z.max (refresh_completed s) t → below t h asked → upto h doc →
  completes s s' asked doc.
Proof.
  intros E [Ht Hb] Hu. right. exists t. split_and!; [done|done|]. intros i x Hi Hlt.
  eapply upto_mono; [done|by eapply Hb|done].
Qed.

Lemma completes_done F n w s' :
  inv F n w → completes (w_shared w) s' (w_asked w) (w_doc w) →
  refresh_completed s' ≤ refresh_requested (w_shared w) ∧
  ∀ i h, w_asked w !! i = Some h → Z.of_nat i < refresh_completed s' → upto h (w_doc w).
Proof.
  intros [] [->|(t & -> & Ht & H)]; [done|]. split; [lia|]. intros i h Hi Hlt.
  destruct (decide (Z.of_nat i < t)); [by eapply H|]. eapply i_done0; [done|lia].
Qed.

Definition epoch_step (s s' : Shared) (l l' : bool) : Prop :=
  http_replay_epoch s' = http_replay_epoch s ∧ (l = true → l' = true) ∨
  http_replay_epoch s' = http_replay_epoch s + 1.

(** A step of the session that imports nothing. *)
Lemma inv_session F n w c' ws' row' inf' req' res' set' :
  inv F n w →
  honest F (cursor (cl_shared c')) (w_doc w) →
  (joined_phase ws' = true → F = 0) →
  row_ok F row' (w_doc w) →
  ws_inv ws' F (w_doc w) (w_room w) req' (w_asked w) →
  refresh_requested (cl_shared c') = refresh_requested (w_shared w) →
  completes (w_shared w) (cl_shared c') (w_asked w) (w_doc w) →
  epoch_step (w_shared w) (cl_shared c') (live w) (needs_checkpoint (cl_shared c') || joined_phase ws') →
  (online_phase ws' = true → cl_connected c' = true) →
  inv F (n + 1) (mkWorld c' (w_doc w) (w_room w) ws' row' inf' req' res' (w_http w) (w_hrow w)
                   (w_asked w) (w_enqueued w) set').
Proof.
  intros Hi Hc Hj Hr Hw Hq Hcomp He Hon. destruct (completes_done _ _ _ _ Hi Hcomp) as [Hc1 Hc2].
  destruct Hi. unfold epoch_step, live, w_shared in *.
  constructor; unfold live, w_shared; cbn; try done.
  - rewrite <- (app_nil_r (w_asked w)). eapply http_inv_mono; [done|done|done|].
    destruct He as [[E Hl]|E]; [right; split; [symmetry; exact E|exact Hl]|left; lia].
  - by rewrite Hq.
  - rewrite Hq. lia.
  - destruct He as [[E ?]|E]; rewrite E; lia.
  - rewrite Hq. lia.
Qed.

(** A step of the pull that imports nothing. *)
Lemma inv_pull F n w c' http' hrow' set' :
  inv F n w →
  honest F (cursor (cl_shared c')) (w_doc w) →
  row_ok F hrow' (w_doc w) →
  (∀ x, hrow' = Some x → ∃ p st rows b, http' = HRows p st rows b) →
  http_inv http' hrow' (w_doc w) (w_room w) (http_replay_epoch (cl_shared c')) (w_asked w)
    (needs_checkpoint (cl_shared c') || joined_phase (w_ws w)) →
  refresh_requested (cl_shared c') = refresh_requested (w_shared w) →
  completes (w_shared w) (cl_shared c') (w_asked w) (w_doc w) →
  (http_replay_epoch (w_shared w) ≤ http_replay_epoch (cl_shared c') ≤ http_replay_epoch (w_shared w) + 1) →
  cl_connected c' = cl_connected (w_client w) →
  inv F (n + 1) (mkWorld c' (w_doc w) (w_room w) (w_ws w) (w_row w) (w_in_flight w) (w_req w)
                   (w_resumed w) http' hrow' (w_asked w) (w_enqueued w) set').
Proof.
  intros Hi Hc Hr Hx Hh Hq Hcomp He Hon. destruct (completes_done _ _ _ _ Hi Hcomp) as [Hc1 Hc2].
  destruct Hi. unfold epoch_step, live, w_shared in *.
  constructor; unfold live, w_shared; cbn; try done.
  - by rewrite Hq.
  - rewrite Hq. lia.
  - lia.
  - rewrite Hq. lia.
  - rewrite Hon. done.
Qed.

(** ** What the handlers touch *)

(** The fields the invariant speaks of, the cursor apart, are as before. *)
Definition same_marks (s s' : Shared) : Prop :=
  refresh_requested s' = refresh_requested s ∧ refresh_completed s' = refresh_completed s ∧
  http_replay_epoch s' = http_replay_epoch s ∧ needs_checkpoint s' = needs_checkpoint s.

#[export] Instance same_marks_preorder : PreOrder same_marks.
Proof.
  split; [done|]. intros s1 s2 s3 (?&?&?&?) (?&?&?&?). unfold same_marks. split_and!; congruence.
Qed.

Lemma same_marks_completes s s' asked doc : same_marks s s' → completes s s' asked doc.
Proof. intros (_ & H & _). by left. Qed.

Lemma same_marks_epoch s s' (j j' : bool) :
  same_marks s s' → (j = true → j' = true) →
  epoch_step s s' (needs_checkpoint s || j) (needs_checkpoint s' || j').
Proof.
  intros (_ & _ & He & Hn) Hj. left. split; [done|]. rewrite Hn, !orb_true_iff. tauto.
Qed.

Lemma make_durable_ids id ok l : pp_batch_id <$> (make_durable id ok l).1 = pp_batch_id <$> l.
Proof.
  induction l as [|p l IH]; cbn; [done|]. case_bool_decide.
  - destruct (pp_durable p); [done|]. by destruct ok.
  - destruct (make_durable id ok l). cbn in *. by rewrite IH.
Qed.

(** A flush only rewrites durability flags of the queue. *)
Definition same_queue (s s' : Shared) : Prop :=
  ∃ l, s' = set_pending l s ∧ pp_batch_id <$> l = pp_batch_id <$> pending s.

#[export] Instance same_queue_preorder : PreOrder same_queue.
Proof.
  split; [intros []; by eexists|]. intros s1 s2 s3 (l & -> & H1) (l' & -> & H2).
  exists l'. split; [done|]. cbn in H2. congruence.
Qed.

Lemma same_queue_marks s s' :
  same_queue s s' → same_marks s s' ∧ cursor s' = cursor s ∧ pp_batch_id <$> pending s' = pp_batch_id <$> pending s.
Proof. intros (l & -> & H). done. Qed.

Lemma ensure_durable_queue push ok s : same_queue s (ensure_durable push ok s).1.
Proof.
  unfold ensure_durable. destruct (pp_durable push); [done|].
  pose proof (make_durable_ids (pp_batch_id push) ok (pending s)) as H.
  destruct (make_durable _ _ _) as [l b]. cbn in *. by exists l.
Qed.

Lemma push_batches_queue batches durable s inf :
  same_queue s (push_batches batches durable s inf).1.1.1.
Proof.
  revert s inf. induction batches as [|p batches IH]; intros s inf; cbn; [done|].
  pose proof (ensure_durable_queue p (durable (pp_batch_id p)) s) as He.
  destruct (ensure_durable _ _ _) as [s1 ok]. cbn in He. destruct ok; [|done].
  specialize (IH s1 (inf ++ [pp_batch_id p])).
  destruct (push_batches _ _ _ _) as [[[s2 inf2] out] ok2]. cbn in *. by etrans.
Qed.

Lemma push_pending_queue durable s inf : same_queue s (push_pending durable s inf).1.1.1.
Proof. unfold push_pending. destruct (quota_blocked s); [done|]. apply push_batches_queue. Qed.

Lemma push_head_queue durable s : same_queue s (push_head durable s).1.1.
Proof.
  unfold push_head. destruct (pending s) as [|p l]; [done|].
  pose proof (ensure_durable_queue p (durable (pp_batch_id p)) s) as He.
  destruct (ensure_durable _ _ _) as [s1 ok]. by destruct ok.
Qed.

Lemma wrap_u64_le n : 0 ≤ n → wrap_u64 n ≤ n.
Proof. intros. unfold wrap_u64. by apply Z.mod_le. Qed.

(** An acknowledged row the document has moves the cursor honestly. *)
Lemma honest_ack F c seq doc : honest F c doc → seq ≤ c + 1 → seq ∈ doc → honest F (Z.max c seq) doc.
Proof.
  intros [? H] Hs Hin. split; [lia|]. intros s [H1 H2].
  destruct (decide (s = seq)) as [->|]; [by left|]. apply H. lia.
Qed.

Lemma handle_ack_marks id seq o s F doc :
  honest F (cursor s) doc → seq ∈ doc →
  same_marks s (handle_ack id seq o s) ∧ honest F (cursor (handle_ack id seq o s)) doc ∧
  cursor s ≤ cursor (handle_ack id seq o s).
Proof.
  intros Hh Hin. assert (0 ≤ cursor s) as H0 by apply Hh. unfold handle_ack.
  set (s1 := if fo_sink_ok o then _ else _).
  assert (same_marks s s1 ∧ cursor s1 = cursor s) as [Hm Hc] by (unfold s1; by destruct (fo_sink_ok o)).
  clearbody s1.
  set (s2 := if wrap_u64 (cursor s1 + 1) <? seq then _ else _).
  assert (same_marks s s2 ∧ honest F (cursor s2) doc ∧ cursor s ≤ cursor s2) as (Hm2 & Hh2 & Hle).
  { unfold s2. pose proof (wrap_u64_le (cursor s1 + 1)).
    destruct (Z.ltb_spec (wrap_u64 (cursor s1 + 1)) seq).
    - split_and!; [done|cbn; by rewrite Hc|cbn; lia].
    - split_and!; [done|cbn; rewrite Hc in *; apply honest_ack; [done|lia|done]|cbn; lia]. }
  clearbody s2. destruct (quota_blocked s2); [|done]. by case_bool_decide.
Qed.

Definition is_row (f : Inbound) : Prop := match f with IRow (Some _) => True | _ => False end.

Lemma handle_frame_marks o f c c' F doc :
  handle_frame o f c = Some c' → ¬ is_row f → honest F (cursor (cl_shared c)) doc →
  (∀ id seq, f = IAck (Some (id, seq)) → seq ∈ doc) →
  same_marks (cl_shared c) (cl_shared c') ∧ honest F (cursor (cl_shared c')) doc ∧
  cl_connected c' = cl_connected c.
Proof.
  intros E Hr Hh Ha. destruct f as [[]| [[id seq]|] | | | [] | [] | code msg id |]; cbn in *; try done;
    try (injection E as <-; done).
  - injection E as <-. cbn. destruct (handle_ack_marks id seq o (cl_shared c) F doc Hh) as (? & ? & _);
      [by eapply Ha|done].
  - injection E as <-. cbn. destruct (server (cl_shared c)); done.
  - unfold handle_error in E. destruct (_ && _) eqn:?.
    + destruct (fo_sink_ok o); [|done]. injection E as <-. by case_match.
    + case_bool_decide; by injection E as <-.
Qed.

Lemma propose_row_spec seq s F doc s' c :
  propose_row seq s = (s', c) → honest F (cursor s) doc →
  same_marks s s' ∧ cursor s' = cursor s ∧ 0 ≤ c ∧ c ≤ Z.max (cursor s) seq ∧
  row_ok F (Some (seq, c)) doc.
Proof.
  unfold propose_row, saturating_add1. intros E [H0 Hh].
  destruct (Z.ltb_spec (Z.min (cursor s + 1) (2 ^ 64 - 1)) seq); injection E as <- <-.
  - split_and!; [done|done|done|lia|]. intros seq' c [= <- <-] s' Hs. destruct (Hh s' Hs); auto.
  - split_and!; [done|done|lia|lia|]. intros seq' c [= <- <-] s' Hs.
    destruct (decide (s' = seq)) as [->|]; [by right; left|].
    destruct (Hh s' ltac:(lia)); auto.
Qed.

Lemma conclude_row_spec proposed outcome s seq F doc :
  honest F (cursor s) doc → row_ok F (Some (seq, proposed)) doc →
  let s' := conclude_row proposed outcome s in
  honest F (cursor s') (import_row seq outcome doc) ∧
  refresh_requested s' = refresh_requested s ∧ refresh_completed s' = refresh_completed s ∧
  http_replay_epoch s' = http_replay_epoch s ∧ (needs_checkpoint s = true → needs_checkpoint s' = true).
Proof.
  intros Hh Hr. destruct outcome; cbn; [|done]. split; [|done].
  split; [destruct Hh; lia|]. intros s' Hs. destruct Hh as [? Hh].
  destruct (decide (s' ≤ cursor s)).
  - destruct (Hh s' ltac:(lia)); [left; set_solver|by right].
  - destruct (Hr seq proposed eq_refl s' ltac:(lia)) as [|[->|]]; [left; set_solver|left; set_solver|by right].
Qed.

Lemma import_row_mono seq outcome doc : doc ⊆ import_row seq outcome doc.
Proof. destruct outcome; cbn; set_solver. Qed.

(** ** Every step keeps the invariant *)

Section Steps.
Variable n : Z.
Hypothesis small : n + 1 < 2 ^ 64.

Lemma epoch_bump F w :
  inv F n w →
  wrap_u64 (http_replay_epoch (w_shared w) + 1) = http_replay_epoch (w_shared w) + 1.
Proof. intros []. apply wrap_u64_small. unfold is_u64. lia. Qed.

Lemma inv_ws_down F w : inv F n w → inv F (n + 1) (ws_down w).
Proof.
  intros Hi. pose proof (epoch_bump _ _ Hi) as Hb. pose proof (i_cursor _ _ _ Hi).
  pose proof (i_connected _ _ _ Hi) as Hc.
  assert (cursor (cl_shared (end_session (w_client w))) = cursor (w_shared w) ∧
    refresh_requested (cl_shared (end_session (w_client w))) = refresh_requested (w_shared w) ∧
    refresh_completed (cl_shared (end_session (w_client w))) = refresh_completed (w_shared w)) as (E1&E2&E3)
    by (unfold end_session, w_shared; by destruct (cl_connected (w_client w))).
  apply (inv_session F n w (end_session (w_client w)) WDown None [] None); try done.
  - by rewrite E1.
  - by left.
  - unfold epoch_step, live, end_session, w_shared in *.
    destruct (cl_connected (w_client w)) eqn:E; cbn; [by right|]. left. split; [done|].
    destruct (joined_phase (w_ws w)) eqn:Hj; [|by rewrite !orb_false_r].
    assert (online_phase (w_ws w) = true) by (by destruct (w_ws w)). naive_solver.
Qed.

Lemma inv_mono F n' w : inv F n w → n ≤ n' → inv F n' w.
Proof. intros [] ?. constructor; try done; lia. Qed.

Lemma inv_user F a w : inv F n w → inv F (n + 1) (user_step a w).
Proof.
  intros Hi. destruct a; cbn [user_step].
  - (* a request *)
    destruct Hi. unfold live, w_shared in *.
    assert (refresh_requested (cl_shared (request_catch_up (w_client w)).1) =
      refresh_requested (cl_shared (w_client w)) + 1) as Hq.
    { cbn. apply wrap_u64_small. unfold is_u64. lia. }
    constructor; unfold live, w_shared; cbn; try done.
    + by eapply ws_inv_mono.
    + eapply http_inv_mono; [done|done|done|by right].
    + rewrite Forall_app, Forall_singleton. done.
    + rewrite length_app. cbn in *. rewrite Hq. lia.
    + intros i h Hl Hlt. eapply i_done0; [|done].
      rewrite lookup_app_l in Hl by lia. done.
    + cbn in *. lia.
    + lia.
    + cbn in *. lia.
  - (* a probe *)
    pose proof (epoch_bump _ _ Hi) as Hb. unfold w_shared in *.
    apply (inv_session F n w); try done; try apply Hi.
    + by left.
    + right. done.
  - (* a new batch *)
    destruct w as [c doc r ws row inf req res http hrow asked enq set].
    assert (∀ c' set' enq', cl_connected c' = cl_connected c →
      (∃ l, cl_shared c' = set_pending l (cl_shared c)) →
      inv F (n + 1) (mkWorld c' doc r ws row inf req res http hrow asked enq' set')) as Hgoal.
    { intros c' set' enq' Hc [l Hs]. destruct Hi. unfold live, w_shared in *. cbn in *.
      constructor; unfold live, w_shared; cbn; rewrite ?Hs, ?Hc; try done; cbn; lia. }
    unfold map_client, enqueue_batch. cbn. apply Hgoal; destruct (MAX_PUSH_BYTES <? blen data); try done.
    + exists (pending (cl_shared c)). by destruct c as [[]].
    + cbn. case_bool_decide; [|by eexists]. exists (pending (cl_shared c)). by destruct c as [[]].
  - pose proof (i_room _ _ _ Hi). apply inv_mono; [|lia].
    assert (inv F n (put_doc (w_doc w) (put_room (room_step APeerRow (w_room w)) w))) as Hg
      by (apply inv_grow; [done|done|..]; unfold room_le, room_ok in *; cbn in *; lia).
    by destruct w.
  - pose proof (i_room _ _ _ Hi). apply inv_mono; [|lia].
    assert (inv F n (put_doc ({[rm_head (w_room w) + 1]} ∪ w_doc w)
      (put_room (room_step AOwnRow (w_room w)) w))) as Hg
      by (apply inv_grow; [done|set_solver|..]; unfold room_le, room_ok in *; cbn in *; lia).
    by destruct w.
  - pose proof (i_room _ _ _ Hi). apply inv_mono; [|lia].
    assert (inv F n (put_doc (w_doc w) (put_room (room_step (ACheckpoint seq size floor) (w_room w)) w)))
      as Hg.
    { apply inv_grow; [done|done|..]; unfold room_le, room_ok in *; cbn in *;
        destruct (_ && _) eqn:E; cbn; rewrite ?andb_true_iff in E; lia. }
    by destruct w.
Qed.

(** The session moves to a phase of the same standing. *)
Lemma inv_phase F w ws' req' :
  inv F n w → joined_phase ws' = joined_phase (w_ws w) → online_phase ws' = online_phase (w_ws w) →
  ws_inv ws' F (w_doc w) (w_room w) req' (w_asked w) → inv F n (put_ws ws' (put_req req' w)).
Proof.
  intros [] Hj Ho Hw. unfold live, w_shared in *.
  constructor; unfold live, w_shared; cbn; rewrite ?Hj, ?Ho; try done.
Qed.

Lemma inv_put_ws F w ws' :
  inv F n w → joined_phase ws' = joined_phase (w_ws w) → online_phase ws' = online_phase (w_ws w) →
  ws_inv ws' F (w_doc w) (w_room w) (w_req w) (w_asked w) → inv F n (put_ws ws' w).
Proof. intros. assert (inv F n (put_ws ws' (put_req (w_req w) w))) by (by apply inv_phase). by destruct w. Qed.

Lemma backfill_ok_answered t b h req doc asked :
  backfill_ok t b h req doc asked → backfill_ok t b h None doc asked.
Proof. intros (? & ? & H). split_and!; [done|done|]. destruct h; [done|]. by split; [|apply H]. Qed.

Lemma refresh_ok_answered r req asked : refresh_ok r req asked → refresh_ok r None asked.
Proof. intros H t Ht. split; [|done]. by destruct (H t Ht). Qed.

Lemma inv_answered F w : inv F n w → inv F n (put_req None w).
Proof.
  intros Hi. assert (inv F n (put_ws (w_ws w) (put_req None w))); [|by destruct w].
  apply inv_phase; [done|done|done|]. pose proof (i_ws _ _ _ Hi) as Hw.
  destruct (w_ws w); cbn [ws_inv] in *; try done; intuition eauto using backfill_ok_answered, refresh_ok_answered.
Qed.

Lemma inv_take_answer F w f : inv F n w → inv F n (take_answer f w).
Proof. intros. destruct f; try done. by apply inv_answered. Qed.

(** A step that moves the shared state within its marks. *)
Lemma inv_marks F w c' ws' inf' req' res' set' :
  inv F n w → same_marks (w_shared w) (cl_shared c') → honest F (cursor (cl_shared c')) (w_doc w) →
  (joined_phase ws' = true → F = 0) → (joined_phase (w_ws w) = true → joined_phase ws' = true) →
  ws_inv ws' F (w_doc w) (w_room w) req' (w_asked w) →
  (online_phase ws' = true → cl_connected c' = true) →
  inv F n (mkWorld c' (w_doc w) (w_room w) ws' (w_row w) inf' req' res' (w_http w) (w_hrow w)
             (w_asked w) (w_enqueued w) set').
Proof.
  intros [] (Hm1 & Hm2 & Hm3 & Hm4) Hh Hj Hj' Hw Hon. unfold live, w_shared in *.
  constructor; unfold live, w_shared; cbn; rewrite ?Hm1, ?Hm2, ?Hm3, ?Hm4; try done.
  rewrite <- (app_nil_r (w_asked w)). eapply http_inv_mono; [done|done|done|]. right. split; [done|].
  rewrite !orb_true_iff. tauto.
Qed.

Lemma inv_receive F w o f next :
  inv F n w → ¬ is_row f → (∀ id seq, f = IAck (Some (id, seq)) → seq ∈ w_doc w) →
  joined_phase next = joined_phase (w_ws w) → online_phase next = online_phase (w_ws w) →
  ws_inv next F (w_doc w) (w_room w) (w_req w) (w_asked w) →
  inv F (n + 1) (receive o f next w).
Proof.
  intros Hi Hr Ha Hj Ho Hw. unfold receive. destruct (handle_frame o f (w_client w)) as [c|] eqn:E;
    [|by apply inv_ws_down].
  destruct (handle_frame_marks o f _ _ F (w_doc w) E Hr) as (Hm & Hh & Hc); [apply Hi|done|].
  eapply inv_mono; [apply (inv_marks F w c next); try done; rewrite ?Hj, ?Ho, ?Hc; try apply Hi; done|lia].
Qed.

Lemma inv_begin_row F w seq :
  inv F n w → w_row w = None → inv F (n + 1) (begin_row seq w).
Proof.
  intros Hi Hn. unfold begin_row. destruct (propose_row seq (w_shared w)) as [s c] eqn:E.
  destruct (propose_row_spec seq _ F (w_doc w) _ _ E) as (Hm & Hc & _ & _ & Hr); [apply Hi|].
  apply (inv_session F n w (with_shared (λ _, s) (w_client w))); cbn; try done; try apply Hi.
  - rewrite Hc. apply Hi.
  - apply Hm.
  - by apply same_marks_completes.
  - by apply same_marks_epoch.
Qed.

Lemma inv_take F w o f :
  inv F n w → w_row w = None → (∀ id seq, f = IAck (Some (id, seq)) → seq ∈ w_doc w) →
  (∀ h, f = IRowsDone (Some h) →
    match w_ws w with
    | WBackfill t _ None => below t h (w_asked w)
    | WSteady r _ => ∀ t, r = Some t → below t h (w_asked w)
    | _ => True
    end) →
  inv F (n + 1) (ws_take o f w).
Proof.
  intros Hi Hn Ha Hd. pose proof (i_ws _ _ _ Hi) as Hw.
  assert (inv F (n + 1) w) as Hi1 by (eapply inv_mono; [done|lia]).
  unfold ws_take. destruct (w_ws w) as [| | | | | |t b h| | | |r reps] eqn:Ews; try done.
  - assert (¬ is_row f → inv F (n + 1) (receive o f (WBackfill t b h) w)) as Hrec.
    { intros Hr. by apply inv_receive; rewrite ?Ews in *. }
    destruct h as [h|].
    + destruct f as [[]| | | | | | |]; try (by apply inv_begin_row); apply Hrec; by intros [].
    + destruct f as [[]| | |[h|]| | | |]; try (by apply inv_begin_row); try (apply Hrec; by intros []).
      * assert (inv F n (put_ws (WBackfill t b (Some h)) w)); [|eapply inv_mono; [done|lia]].
        apply inv_put_ws; rewrite ?Ews in *; try done. destruct Hw as (? & ? & _).
        split_and!; [done|done|]. by apply Hd.
      * by apply inv_ws_down.
  - assert (∀ h, f = IRowsDone h ∨ h = None → ¬ is_row f → inv F (n + 1) (receive o f (WPost r reps h) w))
      as Hrec.
    { intros h Hh Hr. apply inv_receive; rewrite ?Ews in *; try done.
      split; [done|]. intros t h' E ->. destruct Hh as [->|]; [by apply Hd|done]. }
    destruct f as [[]| | | | | | |]; try (by apply inv_begin_row); apply Hrec; auto; by intros [].
Qed.

(** *** Catching up *)

Lemma amnesty_spec verified st c F doc :
  honest F (cursor (cl_shared c)) doc → 0 ≤ checkpoint_seq st →
  let c' := (apply_cursor_amnesty verified st c).1 in
  same_marks (cl_shared c) (cl_shared c') ∧ honest F (cursor (cl_shared c')) doc ∧
  cl_connected c' = cl_connected c.
Proof.
  intros Hh H0. unfold apply_cursor_amnesty. destruct (_ || _); [done|]. cbn.
  destruct (Z.ltb_spec (if 0 <? checkpoint_size st then checkpoint_seq st else 0) (cursor (cl_shared c)));
    [|done]. cbn. split_and!; [done|..|done]. destruct Hh as [? Hh]. split; [by case_match|].
  intros x Hx. apply Hh. lia.
Qed.

Lemma receive_state_spec verified st c F doc :
  honest F (cursor (cl_shared c)) doc → 0 ≤ checkpoint_seq st →
  let c' := receive_state verified st c in
  same_marks (cl_shared c) (cl_shared c') ∧ honest F (cursor (cl_shared c')) doc ∧
  cl_connected c' = true.
Proof.
  intros Hh H0. unfold receive_state.
  set (c1 := with_shared (λ s, clear_replay (set_server (Some st) s)) c).
  set (c2 := if head_seq st <? cursor (cl_shared c1) then emit ServerReset (count_reset c1) else c1).
  assert (same_marks (cl_shared c) (cl_shared c2) ∧ cursor (cl_shared c2) = cursor (cl_shared c)) as [Hm Hc].
  { unfold c2. by destruct (_ <? _). }
  destruct (amnesty_spec verified st c2 F doc) as (Hm' & Hh' & _); [by rewrite Hc|done|].
  cbn. split_and!; [by etrans|done|done].
Qed.

(** What the plan claims: with [RowsOnly] the document has every row up to it;
    with a checkpoint, the checkpoint has. *)
Lemma plan_spec F read st answer repair doc :
  honest F read doc → F ≤ checkpoint_seq st → 0 ≤ checkpoint_seq st →
  (checkpoint_size st = 0 → checkpoint_seq st = 0) →
  match plan_catch_up read st (contained answer repair st doc) with
  | RowsOnly after => upto (checkpoint_seq st) doc ∧ honest 0 after doc
  | CheckpointThenRows after => after = checkpoint_seq st
  end.
Proof.
  intros Hh HF H0 Hsz. unfold plan_catch_up, contained.
  set (read' := if head_seq st <? read then 0 else read).
  assert (honest F read' doc) as Hr.
  { unfold read'. destruct (_ <? _); [|done]. split; [done|]. intros s Hs. lia. }
  clearbody read'. destruct (Z.eqb_spec (checkpoint_size st) 0) as [Hz|Hz]; cbn [orb].
  - assert (upto (checkpoint_seq st) doc) as Hu by (rewrite Hsz by done; intros s Hs; lia).
    split; [done|]. by eapply honest_drop.
  - destruct (negb repair && answer && has_upto (checkpoint_seq st) doc) eqn:E; [|done].
    apply andb_true_iff in E as [_ Hu%has_upto_true]. split; [done|]. apply honest_max.
    + by eapply honest_drop.
    + by apply upto_honest.
Qed.

Lemma backfill_start t h req doc asked r :
  t = Z.of_nat (length asked) → Forall (λ h, h ≤ rm_head r) asked → req = Some (rm_head r) → h = None →
  backfill_ok t [] h req doc asked.
Proof.
  intros -> Ha -> ->. split; [by intros ? ? ?%elem_of_nil|]. split; [done|]. split.
  - intros h0 [= <-]. by apply below_head.
  - by intros ? ?%elem_of_nil.
Qed.

Lemma inv_plan F w answer durable : inv F n w → ∃ F', inv F' (n + 1) (WPlanStep answer durable w).
Proof.
  intros Hi. unfold WPlanStep. destruct (w_ws w) as [| |st read repair generation| | | | | | | |] eqn:Ews;
    try (exists F; eapply inv_mono; [done|lia]).
  pose proof (i_ws _ _ _ Hi) as Hw. rewrite Ews in Hw. destruct Hw as (Hck & Hsz & Hr).
  pose proof (i_floor _ _ _ Hi). pose proof (i_asked _ _ _ Hi) as Has. pose proof (i_heads _ _ _ Hi) as Hhd.
  pose proof (plan_spec F read st answer repair (w_doc w) Hr ltac:(lia) ltac:(lia) Hsz) as Hp.
  set (plan := plan_catch_up _ _ _) in *.
  pose proof (push_pending_queue durable (set_cursor (plan_after plan) (w_shared w)) []) as Hq.
  destruct (push_pending _ _ _) as [[[s inf] out] ok]. cbn [fst] in Hq.
  apply same_queue_marks in Hq as (Hm & Hcur & _).
  assert (same_marks (w_shared w) s) as Hm' by (etrans; [|exact Hm]; done). cbn in Hcur.
  assert (∃ F', inv F' n w ∧ honest F' (plan_after plan) (w_doc w) ∧ F' ≤ checkpoint_seq st ∧
    match plan with RowsOnly _ => F' = 0 | _ => True end) as (F' & Hi' & Hh & HF & H0).
  { destruct plan as [after|after]; cbn.
    - destruct Hp. exists 0. split_and!; [by eapply inv_drop; [done|apply Hck|]|done|lia|done].
    - exists (checkpoint_seq st). subst after. split_and!; [eapply inv_raise; [done|done|lia]|..|done|done].
      split; [lia|]. intros; right; lia. }
  pose proof (i_floor _ _ _ Hi'). pose proof (i_connected _ _ _ Hi') as Hcon. rewrite Ews in Hcon.
  assert (∀ ws', online_phase ws' = true → (joined_phase ws' = true → F' = 0) →
    ws_inv ws' F' (w_doc w) (w_room w) (Some (rm_head (w_room w))) (w_asked w) →
    inv F' n (put_ws ws' (put_req (Some (rm_head (w_room w))) (put_in_flight inf
      (map_shared (λ _, s) w))))) as Hgo.
  { intros ws' Ho Hj Hw. apply (inv_marks F' w (with_shared (λ _, s) (w_client w))); try done;
      cbn; rewrite ?Hcur, ?Ews; auto; done. }
  assert (backfill_ok (refresh_requested (w_shared w)) [] None (Some (rm_head (w_room w))) (w_doc w) (w_asked w))
    as Hb by (by eapply backfill_start).
  exists F'. destruct ok.
  - eapply inv_mono; [|lia].
    destruct plan as [after|after]; apply Hgo; try done. cbn [ws_inv]. split; [lia|done].
  - apply inv_ws_down. refine (Hgo (w_ws w) _ _ _); rewrite Ews; [done|done|].
    pose proof (i_ws _ _ _ Hi') as Hw'. by rewrite Ews in Hw'.
Qed.

(** *** Frames, gaps and wakes *)

Lemma inv_imported F w doc' k :
  inv F n w → w_doc w ⊆ doc' → F ≤ k → upto k doc' → inv 0 n (put_doc doc' w).
Proof.
  intros Hi Hd HF Hk. eapply inv_drop; [|exact HF|exact Hk].
  assert (inv F n (put_doc doc' (put_room (w_room w) w))) as Hg by (apply inv_grow; [done|done|done|apply Hi]).
  by destruct w.
Qed.

Lemma frame_possible_ack w id seq : frame_possible w (IAck (Some (id, seq))) = true → seq ∈ w_doc w.
Proof. cbn. rewrite !andb_true_iff, bool_decide_eq_true. tauto. Qed.

Lemma frame_possible_done w h :
  frame_possible w (IRowsDone (Some h)) = true → ∃ h0, w_req w = Some h0 ∧ h0 ≤ h.
Proof. cbn. destruct (w_req w) as [h0|]; [|done]. cbn. rewrite andb_true_iff, !Z.leb_le. intros []. by exists h0. Qed.

Lemma backfill_ok_buffer w t buffered f asked :
  backfill_ok t buffered None (w_req w) (w_doc w) asked → frame_possible w f = true →
  backfill_ok t (buffered ++ [f]) None (w_req (take_answer f w)) (w_doc w) asked.
Proof.
  intros (Ha & Ht & Hr & Hb) Hf. split_and!; [|done|..].
  - intros id seq [H|H%list_elem_of_singleton]%elem_of_app; [by eapply Ha|]. subst f.
    by eapply frame_possible_ack.
  - intros h0 E. apply Hr. by destruct f.
  - intros h [H|H%list_elem_of_singleton]%elem_of_app; [by eapply Hb|]. subst f.
    apply frame_possible_done in Hf as (h0 & E & Hle). eapply below_le; [by apply Hr|done].
Qed.

Lemma inv_done_here w h :
  inv 0 n w → h ≤ cursor (w_shared w) → upto h (w_doc w).
Proof. intros Hi Hle. eapply upto_mono; [apply honest_upto, Hi|done|done]. Qed.

Lemma inv_completing w c' ws' t h :
  inv 0 n w → joined_phase (w_ws w) = true →
  (same_marks (w_shared w) (cl_shared c') ∨
   refresh_requested (cl_shared c') = refresh_requested (w_shared w) ∧
   refresh_completed (cl_shared c') = Z.max (refresh_completed (w_shared w)) t ∧
   http_replay_epoch (cl_shared c') = http_replay_epoch (w_shared w) ∧ h ≤ cursor (w_shared w)) →
  cursor (cl_shared c') = cursor (w_shared w) →
  below t h (w_asked w) →
  joined_phase ws' = true → ws_inv ws' 0 (w_doc w) (w_room w) (w_req w) (w_asked w) →
  cl_connected c' = cl_connected (w_client w) →
  inv 0 (n + 1) (put_ws ws' (put_client c' w)).
Proof.
  intros Hi Hj Hm Hc Hb Hj' Hw Hcon.
  apply (inv_session 0 n w c' ws'); try done.
  - rewrite Hc. apply Hi.
  - apply Hi.
  - destruct Hm as [Hm|Hm]; apply Hm.
  - destruct Hm as [Hm|(_ & E & _ & Hle)]; [by apply same_marks_completes|].
    eapply completes_below; [done|done|]. by apply inv_done_here.
  - left. split; [destruct Hm as [Hm|Hm]; apply Hm|]. intros _. by rewrite Hj', orb_true_r.
  - intros _. rewrite Hcon. apply Hi. by destruct (w_ws w).
Qed.

Lemma catch_up_spec t h s :
  cursor (catch_up t h s) = cursor s ∧
  (same_marks s (catch_up t h s) ∨
   refresh_requested (catch_up t h s) = refresh_requested s ∧
   refresh_completed (catch_up t h s) = Z.max (refresh_completed s) t ∧
   http_replay_epoch (catch_up t h s) = http_replay_epoch s ∧ h ≤ cursor s).
Proof.
  unfold catch_up. destruct (negb (gap_repair _) && (h <=? cursor _)) eqn:E; [|by split; [|left]].
  apply andb_true_iff in E as [_ E]. split; [done|]. right. cbn in *. lia.
Qed.

Lemma settle_refresh_spec t h s :
  cursor (settle_refresh t h s) = cursor s ∧
  (same_marks s (settle_refresh t h s) ∨
   refresh_requested (settle_refresh t h s) = refresh_requested s ∧
   refresh_completed (settle_refresh t h s) = Z.max (refresh_completed s) t ∧
   http_replay_epoch (settle_refresh t h s) = http_replay_epoch s ∧ h ≤ cursor s).
Proof.
  unfold settle_refresh. destruct (_ && _) eqn:E.
  - rewrite !andb_true_iff in E. split; [done|]. right. cbn in *. lia.
  - destruct (_ <? _); by split; [|left].
Qed.

Lemma inv_joined F w : inv F n w → joined_phase (w_ws w) = true → inv 0 n w ∧ F = 0.
Proof. intros Hi Hj. pose proof (i_joined _ _ _ Hi Hj). by subst F. Qed.

Lemma refresh_ok_new refresh w F :
  inv F n w → (∀ t, refresh = Some t → t ≤ refresh_requested (w_shared w)) →
  refresh_ok refresh (Some (rm_head (w_room w))) (w_asked w).
Proof.
  intros Hi Ht t E. pose proof (i_asked _ _ _ Hi) as Ha. specialize (Ht t E).
  split; [lia|]. intros h0 [= <-]. apply below_head; [lia|apply Hi].
Qed.

Lemma inv_repair F w : inv F n w → inv F (n + 1) (WRepairStep w).
Proof.
  intros Hi. unfold WRepairStep. destruct (w_ws w) as [| | | | | | | | |refresh repairs|] eqn:Ews;
    try (eapply inv_mono; [done|lia]).
  pose proof (i_ws _ _ _ Hi) as Hw. rewrite Ews in Hw. cbn in Hw.
  assert (∀ s out repairs', same_marks (w_shared w) s → cursor s = cursor (w_shared w) →
    inv F n (let w := map_shared (λ _, s) w in
             match out : list Outgoing with [] => w | _ => put_req (Some (rm_head (w_room w))) w end) ∧
    inv F n (put_ws (WSteady refresh repairs')
      (let w := map_shared (λ _, s) w in
             match out with [] => w | _ => put_req (Some (rm_head (w_room w))) w end))) as Hgo.
  { intros s out repairs' Hm Hc.
    assert (refresh_ok refresh (Some (rm_head (w_room w))) (w_asked w)) as Hn.
    { eapply refresh_ok_new; [done|]. intros t E. destruct (Hw t E) as [Ht _].
      pose proof (i_asked _ _ _ Hi). lia. }
    pose proof (i_cursor _ _ _ Hi). pose proof (i_joined _ _ _ Hi) as Hj. rewrite Ews in Hj.
    pose proof (i_connected _ _ _ Hi) as Hcon. rewrite Ews in Hcon.
    assert (∀ ws' req', ws' = WSteady refresh repairs' ∨ ws' = w_ws w → req' = w_req w ∨ req' = Some (rm_head (w_room w)) →
      inv F n (put_ws ws' (put_req req' (map_shared (λ _, s) w)))) as Hall.
    { intros ws' req' Hws' Hreq'.
      apply (inv_marks F w (with_shared (λ _, s) (w_client w)) ws'); try done; cbn; rewrite ?Hc; try done.
      - by destruct Hws' as [->| ->]; rewrite ?Ews.
      - by destruct Hws' as [->| ->]; rewrite ?Ews.
      - destruct Hws' as [->| ->]; rewrite ?Ews; cbn; by destruct Hreq' as [->| ->].
      - by destruct Hws' as [->| ->]; rewrite ?Ews. }
    pose proof (Hall (w_ws w) (w_req w)). pose proof (Hall (w_ws w) (Some (rm_head (w_room w)))).
    pose proof (Hall (WSteady refresh repairs') (w_req w)).
    pose proof (Hall (WSteady refresh repairs') (Some (rm_head (w_room w)))).
    destruct w; destruct out; cbn in *; split; auto. }
  assert (∃ s reps out ok, maybe_repair_gap repairs (w_shared w) = (s, reps, out, ok) ∧
    same_marks (w_shared w) s ∧ cursor s = cursor (w_shared w)) as (s & reps & out & ok & E & Hm & Hc).
  { unfold maybe_repair_gap. repeat case_match; do 4 eexists; by split_and!. }
  rewrite E. destruct (Hgo s out reps Hm Hc) as [H1 H2]. destruct ok.
  - eapply inv_mono; [exact H2|lia].
  - by apply inv_ws_down.
Qed.

(** A flush keeps the phase; a failed durable write ends the session. *)
Lemma inv_flush F w s inf :
  inv F n w → same_queue (w_shared w) s → inv F n (put_in_flight inf (map_shared (λ _, s) w)).
Proof.
  intros Hi (Hm & Hc & _)%same_queue_marks.
  apply (inv_marks F w (with_shared (λ _, s) (w_client w)) (w_ws w)); try done; cbn; rewrite ?Hc; apply Hi.
Qed.

Lemma inv_ws_step F w a : inv F n w → w_row w = None → ∃ F', inv F' (n + 1) (ws_step a w).
Proof.
  intros Hi Hrow. pose proof (i_ws _ _ _ Hi) as Hw. pose proof (i_asked _ _ _ Hi) as Has.
  pose proof (i_joined _ _ _ Hi) as Hj. pose proof (i_connected _ _ _ Hi) as Hcon.
  pose proof (i_floor _ _ _ Hi) as Hfl.
  assert (∃ F', inv F' (n + 1) w) as Hsame by (exists F; eapply inv_mono; [done|lia]).
  destruct a; cbn [ws_step]; try done.
  - (* dial *)
    destruct (w_ws w) eqn:Ews; try done. exists F. eapply inv_mono; [|lia].
    apply (inv_marks F w (with_shared clear_replay (w_client w)) (WHello (w_room w))); rewrite ?Ews; try done; auto.
    + apply Hi.
    + split; [lia|done].
  - (* state *)
    destruct (w_ws w) as [|r0| | | | | | | | |] eqn:Ews; try done. destruct (snapshot _ _ _) eqn:Es; [|done].
    apply snapshot_spec in Es as (_ & Hck & _ & _ & Hsz & _). destruct Hw as [HF Hr].
    destruct (receive_state_spec verified st (w_client w) F (w_doc w)) as (Hm & Hh & Hc);
      [apply Hi|unfold room_le in *; lia|].
    exists F. eapply inv_mono; [|lia].
    apply (inv_marks F w (receive_state verified st (w_client w))); rewrite ?Ews; try done.
    split_and!; [lia|lia|done|]. exact Hh.
  - by eapply inv_plan.
  - (* buffer *)
    destruct (w_ws w) eqn:Ews; try done. destruct (frame_possible w f) eqn:Ef; [|done].
    destruct Hw as (Hck & Hb). exists F. eapply inv_mono; [|lia].
    assert (inv F n (put_ws (WFetching st generation ticket (buffered ++ [f]))
      (put_req (w_req (take_answer f w)) w))) as Hg.
    { apply inv_phase; rewrite ?Ews; try done. split; [done|]. by apply backfill_ok_buffer. }
    by destruct w, f.
  - (* the checkpoint *)
    destruct (w_ws w) eqn:Ews; try done. destruct Hw as (Hck & Hb). exists 0. eapply inv_mono; [|lia].
    pose proof (inv_imported F w (import_checkpoint st (w_doc w)) (checkpoint_seq st) Hi
      (import_checkpoint_mono _ _) ltac:(lia) (import_checkpoint_upto _ _)) as Hi'.
    apply (inv_marks 0 (put_doc (import_checkpoint st (w_doc w)) w) (w_client w)); cbn; rewrite ?Ews; try done; auto.
    + apply Hi'.
    + split; [apply import_checkpoint_upto|]. rewrite <- (app_nil_r (w_asked w)).
      eapply backfill_ok_mono; [done|apply import_checkpoint_mono].
  - (* the cursor *)
    destruct (w_ws w) eqn:Ews; try done. destruct Hw as (Hu & Hb). exists F. eapply inv_mono; [|lia].
    apply (inv_marks F w (emit Applied (with_shared (λ s, set_cursor (Z.max (cursor s) (checkpoint_seq st)) s)
      (w_client w)))); rewrite ?Ews; try done; auto.
    + cbn. destruct (i_cursor _ _ _ Hi) as [H0 Hc]. split; [unfold w_shared in *; lia|]. intros x Hx.
      destruct (decide (x ≤ checkpoint_seq st)); [left; apply Hu; lia|]. apply Hc. unfold w_shared. lia.
  - (* the causal gap *)
    destruct (w_ws w) eqn:Ews; try done. destruct (inv_joined F w Hi) as [Hi0 ->]; [by rewrite Ews|].
    exists 0.
    assert (∀ s', s' = clear_causal_gap generation (w_shared w) → refresh_requested s' = refresh_requested (w_shared w)
      ∧ refresh_completed s' = refresh_completed (w_shared w) ∧ http_replay_epoch s' = http_replay_epoch (w_shared w)
      ∧ cursor s' = cursor (w_shared w)) as Hs.
    { intros s' ->. unfold clear_causal_gap. by destruct (_ =? _). }
    destruct (Hs _ eq_refl) as (E1 & E2 & E3 & E4).
    apply (inv_session 0 n w (with_shared (clear_causal_gap generation) (w_client w))); cbn; rewrite ?E1; try done; auto.
    + unfold w_shared in E4. rewrite E4. apply Hi.
    + apply Hi.
    + by left.
    + left. split; [done|]. by rewrite orb_true_r.
  - (* a buffered frame *)
    destruct (w_ws w) as [| | | | | |t [|f b] h| | | |] eqn:Ews; try done.
    exists F. destruct Hw as (Ha & Ht & Hb).
    assert (backfill_ok t b h (w_req w) (w_doc w) (w_asked w)) as Hb'.
    { split_and!; [intros; eapply Ha; by right|done|]. destruct h; [done|]. destruct Hb as [Hb1 Hb2].
      split; [done|]. intros. apply Hb2. by right. }
    apply inv_take; [|done| |].
    + apply inv_put_ws; rewrite ?Ews; try done; auto.
    + intros id seq ->. eapply Ha. by left.
    + cbn. intros h' ->. destruct h; [done|]. apply Hb. by left.
  - (* a frame of the socket *)
    assert (frame_possible w f = true → (match w_ws w with WBackfill _ _ _ | WSteady _ _ => True | _ => False end) →
      ∃ F', inv F' (n + 1) (ws_take o f (take_answer f w))) as Hgo.
    { intros Hf Hph. exists F. apply inv_take; [by apply inv_take_answer|by destruct f| |].
      - intros id seq ->. by eapply frame_possible_ack.
      - intros h ->. apply frame_possible_done in Hf as (h0 & E & Hle). cbn.
        destruct (w_ws w) as [| | | | | |t b hd| | | |r reps]; try done.
        + destruct hd; [done|]. destruct Hw as (_ & _ & Hw & _). eapply below_le; [by apply Hw|done].
        + intros t Et. destruct (Hw t Et) as [_ Hb]. eapply below_le; [by apply Hb|done]. }
    destruct (w_ws w) as [| | | | | |t [|] []| | | |] eqn:Ews; try done;
      destruct (frame_possible w f) eqn:Ef; auto.
  - (* the end of the backfill *)
    destruct (w_ws w) as [| | | | | |t [|] [h|]| | | |] eqn:Ews; try done.
    destruct Hw as (_ & Ht & Hb). exists F. eapply inv_mono; [|lia].
    assert (∀ ws', (ws' = WRepair None 0 ∨ ws' = WCatching t h) →
      inv F n (put_ws ws' (put_resumed true w))) as Hgo.
    { intros ws' Hws'. apply (inv_marks F w (w_client w) ws'); rewrite ?Ews; try done; try apply Hi;
        destruct Hws' as [-> | ->]; try done; intros _; by apply Hcon. }
    destruct (needs_checkpoint _); apply Hgo; auto.
  - (* caught up *)
    destruct (w_ws w) as [| | | | | | |t h| | |] eqn:Ews; try done.
    destruct (inv_joined F w Hi) as [Hi0 ->]; [by rewrite Ews|]. exists 0.
    destruct (catch_up_spec t h (w_shared w)) as [Hc Hm].
    apply (inv_completing w (emit (CaughtUp h) (with_shared (catch_up t h) (w_client w))) (WRepair None 0) t h);
      rewrite ?Ews; try done.
  - (* after a frame *)
    unfold WPostStep. destruct (w_ws w) as [| | | | | | | |refresh reps refreshed| |] eqn:Ews; try done.
    destruct (inv_joined F w Hi) as [Hi0 ->]; [by rewrite Ews|]. exists 0. destruct Hw as [Hr Hb].
    assert (inv 0 (n + 1) (put_ws (WRepair refresh reps) w)) as Hplain.
    { eapply inv_mono; [|lia]. apply inv_put_ws; rewrite ?Ews; done. }
    destruct refresh as [t|]; [|done]. destruct refreshed as [h|]; [|done].
    destruct (settle_refresh_spec t h (w_shared w)) as [Hc Hm].
    apply (inv_completing w (with_shared (settle_refresh t h) (w_client w)) (WRepair None reps) t h);
      rewrite ?Ews; try done. by apply Hb.
  - exists F. by apply inv_repair.
  - (* a wake *)
    unfold WRefreshStep. destruct (w_ws w) as [| | | | | | | | | |[r|] reps] eqn:Ews; try done.
    destruct (_ && _); [|done]. exists F. eapply inv_mono; [|lia].
    apply (inv_marks F w (with_shared (set_rows_req_outstanding true) (w_client w))); rewrite ?Ews; try done; auto.
    + apply Hi.
    + cbn. eapply refresh_ok_new; [done|]. by intros ? [= <-].
  - (* a nudge *)
    destruct (w_ws w) eqn:Ews; try done.
    pose proof (push_pending_queue durable (w_shared w) (w_in_flight w)) as Hq.
    destruct (push_pending _ _ _) as [[[s inf] out] ok]. exists F.
    pose proof (inv_flush F w s inf Hi Hq). destruct ok; [eapply inv_mono; [done|lia]|by apply inv_ws_down].
  - (* a retry *)
    destruct (w_ws w) eqn:Ews; try done.
    pose proof (push_head_queue durable (set_retry_at None (w_shared w))) as Hq.
    destruct (push_head _ _) as [[s out] ok]. exists F. cbn [fst] in Hq.
    assert (inv F n (map_shared (λ _, s) w)) as Hs.
    { apply same_queue_marks in Hq as (Hm & Hc & _). cbn in Hc.
      apply (inv_marks F w (with_shared (λ _, s) (w_client w)) (w_ws w)); try done; cbn; rewrite ?Hc; apply Hi. }
    destruct ok; [eapply inv_mono; [done|lia]|by apply inv_ws_down].
  - destruct (w_ws w); try done; exists F; by apply inv_ws_down.
Qed.

Lemma inv_ws_actor F w a : inv F n w → ∃ F', inv F' (n + 1) (ws_actor a w).
Proof.
  intros Hi. unfold ws_actor. destruct (w_row w) as [[seq c]|] eqn:Er; [|by eapply inv_ws_step].
  destruct a; try (exists F; eapply inv_mono; [done|lia]).
  pose proof (i_row _ _ _ Hi) as Hrow. rewrite Er in Hrow.
  destruct (conclude_row_spec c outcome (w_shared w) seq F (w_doc w)) as (Hh & E1 & E2 & E3 & E4);
    [apply Hi|done|].
  assert (inv F n (put_doc (import_row seq outcome (w_doc w)) w)) as Hi1.
  { assert (inv F n (put_doc (import_row seq outcome (w_doc w)) (put_room (w_room w) w))) as Hg
      by (apply inv_grow; [done|apply import_row_mono|done|apply Hi]). by destruct w. }
  assert (∀ ws', ws' = w_ws w ∨ (∃ r reps, w_ws w = WSteady r reps ∧ ws' = WPost r reps None) →
    inv F (n + 1) (put_ws ws' (put_row None (put_doc (import_row seq outcome (w_doc w))
      (map_client (emit Applied) (map_shared (conclude_row c outcome) w)))))) as Hgo.
  { intros ws' Hws'. pose proof (i_ws _ _ _ Hi1) as Hw. pose proof (i_connected _ _ _ Hi) as Hcon.
    pose proof (i_joined _ _ _ Hi) as Hj. cbn in Hw.
    assert (joined_phase ws' = joined_phase (w_ws w) ∧ online_phase ws' = online_phase (w_ws w) ∧
      ws_inv ws' F (import_row seq outcome (w_doc w)) (w_room w) (w_req w) (w_asked w)) as (Hj' & Ho' & Hw').
    { destruct Hws' as [->|(r & reps & E & ->)]; [done|]. rewrite E in *. by split_and!; [| |split]. }
    apply (inv_session F n (put_doc (import_row seq outcome (w_doc w)) w)
      (emit Applied (with_shared (conclude_row c outcome) (w_client w))) ws' None); try done.
    - by rewrite Hj'.
    - by left.
    - left. split; [done|]. unfold live. cbn. rewrite Hj', !orb_true_iff.
      intros [|]; [left; by apply E4|by right].
    - cbn. by rewrite Ho'. }
  exists F. pose proof (Hgo (w_ws w) (or_introl eq_refl)) as Hstay. clear Hi Hi1 Er.
  destruct w as [cl doc r ws row inf req res http hrow asked enq set]. cbn in *.
  destruct ws; try exact Hstay. apply Hgo. right. eauto.
Qed.

(** *** The pull *)

Lemma inv_pull_marks F w c' http' set' :
  inv F n w → w_hrow w = None → same_marks (w_shared w) (cl_shared c') →
  honest F (cursor (cl_shared c')) (w_doc w) → cl_connected c' = cl_connected (w_client w) →
  http_inv http' None (w_doc w) (w_room w) (http_replay_epoch (w_shared w)) (w_asked w) (live w) →
  inv F (n + 1) (put_settled set' (put_http http' (put_client c' w))).
Proof.
  intros Hi Hn Hm Hh Hc Hw. pose proof Hm as (E1 & E2 & E3 & E4).
  assert (inv F (n + 1) (mkWorld c' (w_doc w) (w_room w) (w_ws w) (w_row w) (w_in_flight w) (w_req w)
    (w_resumed w) http' None (w_asked w) (w_enqueued w) set')) as Hg.
  { apply inv_pull; try done.
    - rewrite E3, E4. done.
    - by apply same_marks_completes.
    - rewrite E3. lia. }
  destruct w. cbn in *. by subst.
Qed.

Lemma inv_idle F w http' :
  inv F n w → w_hrow w = None →
  http_inv http' None (w_doc w) (w_room w) (http_replay_epoch (w_shared w)) (w_asked w) (live w) →
  inv F (n + 1) (put_http http' w).
Proof.
  intros Hi Hn Hw.
  assert (inv F (n + 1) (put_settled (w_settled w) (put_http http' (put_client (w_client w) w)))) as Hg
    by (apply inv_pull_marks; try done; apply Hi).
  by destruct w.
Qed.

Lemma http_ack_spec id seq sink_ok s F doc :
  honest F (cursor s) doc → seq ∈ doc →
  same_marks s (http_ack id seq sink_ok s) ∧ honest F (cursor (http_ack id seq sink_ok s)) doc.
Proof.
  intros Hh Hin. unfold http_ack. set (s1 := if sink_ok then _ else s).
  assert (same_marks s s1 ∧ cursor s1 = cursor s) as [Hm Hc] by (unfold s1; by destruct sink_ok).
  clearbody s1. rewrite <- Hc in Hh. pose proof (wrap_u64_le (cursor s1 + 1)).
  destruct (Z.leb_spec seq (wrap_u64 (cursor s1 + 1))); [|done].
  split; [by etrans; [exact Hm|]|]. apply honest_ack; [done| |done]. destruct Hh. lia.
Qed.

Lemma pull_rows_cons p head seq rows :
  seq :: rows = seqZ (p + 1) (head - p) → seq = p + 1 ∧ rows = seqZ (p + 1 + 1) (head - (p + 1)).
Proof.
  intros E. assert (0 < head - p) as Hp.
  { destruct (decide (0 < head - p)); [done|]. rewrite seqZ_nil in E by lia. done. }
  rewrite seqZ_cons in E by done. injection E as -> ->. split; [done|]. f_equal; lia.
Qed.

Lemma pull_rows_nil p head : [] = seqZ (p + 1) (head - p) → head ≤ p.
Proof.
  intros E. destruct (decide (head ≤ p)); [done|]. by rewrite seqZ_cons in E by lia.
Qed.

Lemma inv_http_marks F w c' http' :
  inv F n w → w_hrow w = None → same_marks (w_shared w) (cl_shared c') →
  honest F (cursor (cl_shared c')) (w_doc w) → cl_connected c' = cl_connected (w_client w) →
  http_inv http' None (w_doc w) (w_room w) (http_replay_epoch (w_shared w)) (w_asked w) (live w) →
  inv F (n + 1) (put_http http' (put_client c' w)).
Proof.
  intros Hi Hn Hm Hh Hc Hw. pose proof (inv_pull_marks F w c' http' (w_settled w) Hi Hn Hm Hh Hc Hw).
  by destruct w.
Qed.

(** The checkpoint of a pull. *)
Lemma inv_http_import F w p st generation :
  inv F n w → w_hrow w = None → pull_ok p (w_doc w) (w_room w) (http_replay_epoch (w_shared w)) (w_asked w) →
  answer_ok p st (w_room w) →
  inv (if decide (F ≤ checkpoint_seq st) then 0 else F) (n + 1)
    (put_http (HCommitting p st generation (checkpoint_seq st))
      (map_client (emit Applied) (put_doc (import_checkpoint st (w_doc w)) w))).
Proof.
  intros Hi Hn Hp Ha. set (doc' := import_checkpoint st (w_doc w)).
  pose proof (import_checkpoint_mono st (w_doc w)) as Hd. pose proof (import_checkpoint_upto st (w_doc w)) as Hu.
  pose proof Ha as (_ & _ & _ & ? & _). pose proof (i_floor _ _ _ Hi).
  assert (inv (if decide (F ≤ checkpoint_seq st) then 0 else F) n (put_doc doc' w)) as Hi'.
  { case_decide; [by eapply inv_imported|].
    assert (inv F n (put_doc doc' (put_room (w_room w) w))) as Hg by (apply inv_grow; [done|done|done|apply Hi]).
    by destruct w. }
  apply (inv_http_marks _ (put_doc doc' w) (emit Applied (w_client w))); try done; [apply Hi'|].
  split_and!; [|done|done|].
  - rewrite <- (app_nil_r (w_asked _)). by eapply pull_ok_mono.
  - apply upto_honest; [lia|done].
Qed.

Lemma inv_commit F w p st generation after :
  inv F n w → w_hrow w = None → w_http w = HCommitting p st generation after →
  inv F (n + 1) (http_step HCommit w).
Proof.
  intros Hi Hn E. cbn [http_step]. rewrite E. pose proof (i_http _ _ _ Hi) as Hh. rewrite E in Hh.
  destruct Hh as (Hp & Ha & Hu & Haf).
  assert (∀ s', s' = commit_pull st generation after (w_shared w) →
    refresh_requested s' = refresh_requested (w_shared w) ∧
    refresh_completed s' = refresh_completed (w_shared w) ∧
    http_replay_epoch s' = http_replay_epoch (w_shared w) ∧
    (cursor s' = after ∨ cursor s' = Z.max (cursor (w_shared w)) after)) as Hs.
  { intros s' ->. unfold commit_pull, clear_causal_gap. destruct (_ <? _), (_ =? _); cbn; auto. }
  destruct (Hs _ eq_refl) as (E1 & E2 & E3 & E4).
  assert (honest F after (w_doc w)) as Haf'.
  { destruct Haf as [? Haf]. split; [done|]. intros x Hx. destruct (Haf x Hx); [by left|lia]. }
  assert (inv F (n + 1) (mkWorld (with_shared (commit_pull st generation after) (w_client w)) (w_doc w)
    (w_room w) (w_ws w) (w_row w) (w_in_flight w) (w_req w) (w_resumed w)
    (HRows p st (pull_rows (pl_cursor p) st) false) None (w_asked w) (w_enqueued w) (w_settled w))) as Hg;
    [|by destruct w; cbn in *; subst].
  apply inv_pull; cbn; try done.
  - destruct E4 as [E4|E4]; unfold w_shared in E4; rewrite E4; [done|]. apply honest_max; [apply Hi|done].
  - unfold w_shared in E3. rewrite E3. split; [done|]. split; [done|].
    destruct Hp as (_ & _ & _ & Hc0 & Hc). destruct Ha as (_ & Hck & _ & Hfl & _).
    exists (Z.max (pl_cursor p) (seq_floor st)). split_and!; [lia|done|]. right; right.
    intros x Hx. left. destruct (decide (x ≤ checkpoint_seq st)); [apply Hu; lia|].
    destruct (Hc x ltac:(lia)) as [|Hx']; [done|lia].
  - by left.
  - unfold w_shared in *. rewrite E3. lia.
Qed.

Lemma inv_http_row F w p st seq rows b :
  inv F n w → w_hrow w = None → w_http w = HRows p st (seq :: rows) b →
  inv F (n + 1) (http_step HRow w).
Proof.
  intros Hi Hn E. cbn [http_step]. rewrite E. pose proof (i_http _ _ _ Hi) as Hh. rewrite E, Hn in Hh.
  destruct Hh as (Hp & Ha & pos & H0 & Hrows & Hpull). apply pull_rows_cons in Hrows as [-> Hrows].
  destruct (propose_row (pos + 1) (w_shared w)) as [s c] eqn:Er.
  destruct (propose_row_spec _ _ F (w_doc w) _ _ Er) as (Hm & Hc & _ & _ & Hr); [apply Hi|].
  pose proof Hm as (E1 & E2 & E3 & E4).
  apply (inv_pull F n w (with_shared (λ _, s) (w_client w))); cbn; try done.
  - rewrite Hc. apply Hi.
  - eauto.
  - rewrite E3, E4. split_and!; [done|done|]. exists (pos + 1). split_and!; [lia|done|].
    destruct Hpull as [|[|Hd]]; [by left|by right; left|]. right; right. intros x Hx.
    destruct (decide (x = pos + 1)) as [->|]; [right; by eexists|]. left.
    destruct (Hd x ltac:(lia)) as [|[? ?]]; done.
  - by apply same_marks_completes.
  - rewrite E3. lia.
Qed.

Lemma finish_pull_spec p h s :
  cursor (finish_pull p h s) = cursor s ∧ refresh_requested (finish_pull p h s) = refresh_requested s ∧
  http_replay_epoch (finish_pull p h s) = http_replay_epoch s ∧
  (refresh_completed (finish_pull p h s) = refresh_completed s ∨
   refresh_completed (finish_pull p h s) = Z.max (refresh_completed s) (pl_ticket p) ∧
   http_replay_epoch s = pl_epoch p ∧ h ≤ cursor s ∧ needs_checkpoint s = false).
Proof.
  unfold finish_pull. destruct (_ && _) eqn:E; [|auto 6].
  rewrite !andb_true_iff, negb_true_iff in E. destruct E as [[E1 E2] E3].
  destruct (_ =? pl_gap_generation p); cbn; [|destruct (gap_repair s); cbn; auto 6];
    (split_and!; [done|done|done|right; split_and!; [done|lia|lia|done]]).
Qed.

Lemma inv_http_done F w p st b :
  inv F n w → w_hrow w = None → w_http w = HRows p st [] b →
  inv F (n + 1) (http_step HDone w).
Proof.
  intros Hi Hn E. cbn [http_step]. rewrite E. pose proof (i_http _ _ _ Hi) as Hh. rewrite E, Hn in Hh.
  destruct Hh as (Hp & Ha & pos & H0 & Hrows%pull_rows_nil & Hpull).
  destruct (finish_pull_spec p (head_seq st) (w_shared w)) as (E1 & E2 & E3 & E4).
  assert (∀ c', cl_shared c' = finish_pull p (head_seq st) (w_shared w) →
    cl_connected c' = cl_connected (w_client w) →
    inv F (n + 1) (mkWorld c' (w_doc w) (w_room w) (w_ws w) (w_row w) (w_in_flight w) (w_req w)
      (w_resumed w) HIdle None (w_asked w) (w_enqueued w) (w_settled w))) as Hgo.
  { intros c' Hs Hc. apply inv_pull; rewrite ?Hs; try done.
    - rewrite E1. apply Hi.
    - destruct E4 as [E4|(E4 & He & Hle & Hnc)]; [by left|].
      destruct Hp as (_ & _ & Hb & _). eapply completes_below; [exact E4| |].
      + eapply below_le; [exact Hb|apply Ha].
      + destruct Hpull as [|[Hl|Hd]]; [lia| |].
        * unfold live in Hl. rewrite Hnc in Hl. destruct (inv_joined F w Hi Hl) as [Hi0 _].
          by apply inv_done_here.
        * intros x Hx. destruct (Hd x ltac:(lia)) as [|[? ?]]; done.
    - rewrite E3. lia. }
  pose proof (Hgo (with_shared (finish_pull p (head_seq st)) (w_client w)) eq_refl eq_refl).
  pose proof (Hgo (emit Applied (with_shared (finish_pull p (head_seq st)) (w_client w))) eq_refl eq_refl).
  destruct w, b; cbn in *; by subst.
Qed.

Lemma inv_http_step F w a : inv F n w → w_hrow w = None → ∃ F', inv F' (n + 1) (http_step a w).
Proof.
  intros Hi Hn. pose proof (i_http _ _ _ Hi) as Hh. rewrite Hn in Hh.
  pose proof (i_asked _ _ _ Hi) as Has. pose proof (i_floor _ _ _ Hi) as Hfl.
  assert (∃ F', inv F' (n + 1) w) as Hsame by (exists F; eapply inv_mono; [done|lia]).
  assert (∀ w', inv F (n + 1) w' → ∃ F', inv F' (n + 1) w') as Hkeep by eauto.
  assert (∃ F', inv F' (n + 1) (put_http HIdle w)) as Hidle by (apply Hkeep, inv_idle; done).
  destruct a; cbn [http_step]; try done.
  - (* the cycle starts *)
    destruct (w_http w) eqn:E; try done. by apply Hkeep, inv_idle.
  - (* a durable write *)
    unfold HPushStep. destruct (w_http w) as [|[|push batches]| | | | | |] eqn:E; try done.
    pose proof (ensure_durable_queue push (durable (pp_batch_id push)) (w_shared w)) as Hq.
    destruct (ensure_durable _ _ _) as [s ok]. apply same_queue_marks in Hq as (Hm & Hc & _). cbn in Hm, Hc.
    assert (∀ h, h = HPosting batches ∨ h = HPushing [] →
      inv F (n + 1) (put_settled (w_settled w) (put_http h (put_client (with_shared (λ _, s) (w_client w)) w))))
      as Hgo.
    { intros h Hh'. apply inv_pull_marks; try done; cbn; [rewrite Hc; apply Hi|by destruct Hh' as [-> | ->]]. }
    apply Hkeep. pose proof (Hgo (HPosting batches)). pose proof (Hgo (HPushing [])).
    destruct w, ok; cbn in *; auto.
  - (* the answer to a push *)
    unfold HPostedStep. destruct (w_http w) eqn:E; try done.
    destruct posted as [[[id seq]|]|]; try (by apply Hkeep, inv_idle).
    destruct (_ && _) eqn:Hp; [|done]. rewrite andb_true_iff, bool_decide_eq_true in Hp.
    destruct Hp as [_ Hin]. destruct (http_ack_spec id seq sink_ok (w_shared w) F (w_doc w)) as [Hm Hc];
      [apply Hi|done|].
    apply Hkeep, (inv_pull_marks F w (emit Applied (with_shared (http_ack id seq sink_ok) (w_client w)))
      (HPushing batches) ((if sink_ok then {[id]} else ∅) ∪ w_settled w)); done.
  - (* the request of a pull *)
    unfold HPullStep. destruct (w_http w) as [|[|? ?]| | | | | |] eqn:E; try done.
    apply Hkeep, (inv_http_marks F w (with_shared (set_http_live_epoch None) (w_client w))); try done.
    + apply Hi.
    + split_and!; [done|cbn; lia| |].
      * apply below_head; [|apply Hi]. cbn. unfold w_shared in *. lia.
      * eapply honest_mono; [apply Hi|cbn; lia|done].
  - (* it fails *)
    destruct (w_http w) eqn:E; try done. pose proof (epoch_bump _ _ Hi) as Hb. unfold w_shared in *.
    assert (inv F (n + 1) (mkWorld (probe (w_client w)) (w_doc w) (w_room w) (w_ws w) (w_row w)
      (w_in_flight w) (w_req w) (w_resumed w) HIdle None (w_asked w) (w_enqueued w) (w_settled w))) as Hg.
    { apply inv_pull; try done; [apply Hi|by left|]. cbn. unfold w_shared. lia. }
    apply Hkeep. destruct w. cbn in *. by subst.
  - (* its state *)
    unfold HStateStep. destruct (w_http w) as [| | |p| | | |] eqn:E; try done.
    destruct (snapshot _ _ _) eqn:Es; [|done]. apply snapshot_spec in Es as (H1 & H2 & H3 & H4 & H5 & _).
    destruct (amnesty_spec verified st (with_shared (set_server (Some st)) (w_client w)) F (w_doc w))
      as (Hm & Hc & Hcon); [apply Hi|lia|].
    assert (∀ h, h = HIdle ∨ h = HStated p st → inv F (n + 1) (put_settled (w_settled w) (put_http h (put_client
      (apply_cursor_amnesty verified st (with_shared (set_server (Some st)) (w_client w))).1 w)))) as Hgo.
    { intros h Hh'. apply inv_pull_marks; try done. destruct Hh' as [-> | ->]; [done|]. split; [done|].
      split_and!; [lia|lia|lia|lia|lia|done]. }
    apply Hkeep. pose proof (Hgo HIdle). pose proof (Hgo (HStated p st)).
    destruct w. cbn in *. destruct (_ && _); auto.
  - (* the plan *)
    unfold HPlanStep. destruct (w_http w) as [| | | |p st| | |] eqn:E; try done.
    destruct Hh as [Hp Ha]. pose proof Ha as (_ & Hck & _ & ? & Hsz). pose proof Hp as (_ & _ & _ & Hpc).
    pose proof (plan_spec (rm_checkpoint (pl_room p)) (pl_cursor p) st answer
      (needs_checkpoint (w_shared w)) (w_doc w) Hpc Hck ltac:(lia) Hsz) as Hplan.
    destruct (plan_catch_up _ _ _) as [after|after]; apply Hkeep, inv_idle; done.
  - (* the checkpoint *)
    destruct (w_http w) as [| | | | |p st generation after| |] eqn:E; try done.
    destruct ok; [|done]. destruct Hh as (Hp & Ha & ->).
    exists (if decide (F ≤ checkpoint_seq st) then 0 else F).
    apply (inv_http_import F w p st generation); done.
  - destruct (w_http w) eqn:E; try done. apply Hkeep.
    pose proof (inv_commit F w p st generation after Hi Hn E) as Hg. cbn [http_step] in Hg. by rewrite E in Hg.
  - destruct (w_http w) as [| | | | | | |p st [|seq rows] b] eqn:E; try done. apply Hkeep.
    pose proof (inv_http_row F w p st seq rows b Hi Hn E) as Hg. cbn [http_step] in Hg. by rewrite E in Hg.
  - destruct (w_http w) as [| | | | | | |p st [|seq rows] b] eqn:E; try done. apply Hkeep.
    pose proof (inv_http_done F w p st b Hi Hn E) as Hg. cbn [http_step] in Hg. by rewrite E in Hg.
  - (* the pull stops *)
    destruct (w_http w) as [| | |p| | | |p st rows b] eqn:E; try done. apply Hkeep.
    assert (∀ c', c' = w_client w ∨ c' = emit Applied (w_client w) →
      inv F (n + 1) (put_settled (w_settled w) (put_http HIdle (put_client c' w)))) as Hgo.
    { intros c' Hc'. apply inv_pull_marks; try done; by destruct Hc' as [-> | ->]; try apply Hi. }
    pose proof (Hgo (w_client w)). pose proof (Hgo (emit Applied (w_client w))).
    destruct w, b; cbn in *; auto.
Qed.

Lemma inv_http_actor F w a : inv F n w → ∃ F', inv F' (n + 1) (http_actor a w).
Proof.
  intros Hi. unfold http_actor. destruct (w_hrow w) as [[seq c]|] eqn:Er; [|by eapply inv_http_step].
  destruct a; try (exists F; eapply inv_mono; [done|lia]).
  pose proof (i_hrow _ _ _ Hi) as Hrow. rewrite Er in Hrow.
  destruct (conclude_row_spec c outcome (w_shared w) seq F (w_doc w)) as (Hh & E1 & E2 & E3 & E4);
    [apply Hi|done|].
  assert (inv F n (put_doc (import_row seq outcome (w_doc w)) w)) as Hi1.
  { assert (inv F n (put_doc (import_row seq outcome (w_doc w)) (put_room (w_room w) w))) as Hg
      by (apply inv_grow; [done|apply import_row_mono|done|apply Hi]). by destruct w. }
  destruct (i_hrow_rows _ _ _ Hi _ Er) as (p & st & rows & b & Eh).
  pose proof (i_http _ _ _ Hi1) as Hp. cbn in Hp. rewrite Eh, Er in Hp. destruct Hp as (Hp & Ha & pos & H0 & Hrows & Hpull).
  exists F. apply (inv_pull F n (put_doc (import_row seq outcome (w_doc w)) w)
    (with_shared (conclude_row c outcome) (w_client w))); try done.
  - cbn. rewrite Eh. cbn. unfold w_shared in E3. rewrite E3. split; [done|]. split; [done|].
    exists pos. split; [done|]. split; [done|].
    destruct Hpull as [|[Hl|Hd]]; [by left| |].
    + right; left. unfold live in Hl. cbn in Hl. apply orb_true_iff in Hl as [Hl|Hl]; apply orb_true_iff; [left; by apply E4|by right].
    + destruct outcome; [|by right; left]. right; right. intros s Hs. left.
      destruct (Hd s Hs) as [|[? [= -> _]]]; [done|]. cbn. set_solver.
  - by left.
  - cbn. unfold w_shared in *. cbn. rewrite E3. lia.
Qed.

Lemma inv_step F w a : inv F n w → ∃ F', inv F' (n + 1) (step a w).
Proof.
  intros Hi. destruct a; cbn [step]; eauto using inv_user, inv_ws_actor, inv_http_actor.
Qed.

End Steps.

Lemma inv_run acts n F w :
  n + Z.of_nat (length acts) < 2 ^ 64 → inv F n w →
  ∃ F', inv F' (n + Z.of_nat (length acts)) (run acts w).
Proof.
  revert n F w. induction acts as [|a acts IH]; intros n F w Hn Hi; cbn [length] in *.
  - exists F. change (Z.of_nat 0) with 0. by rewrite Z.add_0_r.
  - destruct (inv_step n ltac:(lia) F w a Hi) as [F' Hi'].
    destruct (IH (n + 1) F' (step a w) ltac:(lia) Hi') as [F'' Hi'']. exists F''.
    replace (n + Z.of_nat (S (length acts))) with (n + 1 + Z.of_nat (length acts)) by lia. done.
Qed.

(** ** Starting a client *)

(** A cursor as the sink persists it: the document has the rows up to it, but
    for those a checkpoint of the room covers. *)
Definition honest_start (cursor : Z) (doc : gset Z) (r : Room) : Prop :=
  room_ok r ∧ honest (rm_checkpoint r) cursor doc.

Lemma inv_start c persisted doc r :
  honest_start c doc r → inv (rm_checkpoint r) 0 (start c persisted doc r).
Proof.
  intros [Hr Hc]. constructor; cbn; try done.
  unfold room_ok in Hr. lia.
Qed.

Lemma inv_reachable acts c persisted doc r :
  honest_start c doc r → Z.of_nat (length acts) < 2 ^ 64 →
  ∃ F, inv F (Z.of_nat (length acts)) (run acts (start c persisted doc r)).
Proof. intros Hs Hn. by eapply (inv_run acts 0); [|apply inv_start]. Qed.


(** ** What the client may rely on *)

(** C4: At every moment of every run of the socket session, the HTTPS cycle
    and their failures against a room that only grows, the cursor claims no
    row it should not: each row up to it is in the document or, while no
    session has joined, covered by the room's checkpoint.  So a reconnect that
    asks for the rows behind the cursor misses none. *)
Theorem cursor_honest acts c persisted doc r :
  honest_start c doc r → Z.of_nat (length acts) < 2 ^ 64 →
  let w := run acts (start c persisted doc r) in
  0 ≤ cursor (w_shared w) ∧
  ∀ s, 1 ≤ s ≤ cursor (w_shared w) →
    s ∈ w_doc w ∨ s ≤ rm_checkpoint (w_room w) ∧ joined_phase (w_ws w) = false.
Proof.
  intros Hs Hn. destruct (inv_reachable acts c persisted doc r Hs Hn) as [F Hi].
  destruct (i_cursor _ _ _ Hi) as [H0 Hc]. split; [done|]. intros s Hle.
  pose proof (i_floor _ _ _ Hi). destruct (Hc s Hle) as [|HF]; [by left|]. right. split; [lia|].
  destruct (joined_phase _) eqn:Hj; [|done]. pose proof (i_joined _ _ _ Hi Hj). lia.
Qed.

(** C3: A completed catch-up is a fence: when [catch_up_completed] answers yes
    to the ticket of the [i]-th request, the document has every row the room
    had when that request was made, whichever road brought them and however
    the two raced. *)
Theorem catch_up_fenced acts c persisted doc r i h :
  honest_start c doc r → Z.of_nat (length acts) < 2 ^ 64 →
  let w := run acts (start c persisted doc r) in
  w_asked w !! i = Some h → catch_up_completed (Z.of_nat i + 1) (w_client w) = true →
  upto h (w_doc w).
Proof.
  intros Hs Hn w Hi Hc. destruct (inv_reachable acts c persisted doc r Hs Hn) as [F HI]. fold w in HI.
  unfold catch_up_completed in Hc. rewrite !andb_true_iff, Z.leb_le in Hc.
  eapply i_done; [done|done|]. unfold w_shared. lia.
Qed.

(** *** A run of both roads *)

Definition sample_oracle : FrameOracle := mkFrameOracle RowApplied true 0.

(** A client that lacks a row the checkpoint covers; the pull sees row 4 before
    the session does, and the session sees row 4 before row 3. *)
Definition sample_run : list Action :=
  [User ARequest; Ws WDial; Http HStart; Http (HPush (λ _, true)); Http (HPosted (Err tt) true);
   Http HPull; Ws (WState (mkState 3 2 2 10 1 100) true); Ws (WPlan false (λ _, true));
   User APeerRow; Http (HState (mkState 4 2 2 10 2 200) true); Http (HPlan true);
   Ws (WBuffer (IRow (Some 4))); Ws WFetched; Http (HFetched true); Ws WRaise; Ws WClear;
   Ws (WReplay sample_oracle); Http HCommit; Ws (WRowDone RowApplied); Http HRow;
   Ws (WFrame (IRow (Some 3)) sample_oracle); Http (HRowDone RowApplied); Ws (WRowDone RowApplied);
   Ws (WFrame (IRowsDone (Some 4)) sample_oracle); Http HRow; Ws WFinish; Ws WCatch;
   Http (HRowDone RowApplied); Http HDone; Ws WRepairGap;
   Ws (WFrame (IAck (Some ("a", 4))) sample_oracle); Ws WAfter; Ws WRepairGap;
   Ws (WFrame (IRowsDone (Some 4)) sample_oracle); Ws WAfter; Ws WRepairGap; Ws WRefresh;
   Ws (WFrame (IRowsDone (Some 4)) sample_oracle); Ws WAfter].

Definition sample_room : Room := mkRoom 3 2 10 2.

Lemma sample_honest : honest_start 2 {[1]} sample_room.
Proof. split; [unfold room_ok; cbn; lia|]. split; [done|]. cbn. intros s Hs. right. lia. Qed.

Lemma cursor_honest_witness :
  cursor (w_shared (run sample_run (start 2 [("a", [])] {[1]} sample_room))) = 4 ∧
  ∀ s, 1 ≤ s ≤ cursor (w_shared (run sample_run (start 2 [("a", [])] {[1]} sample_room))) →
    s ∈ w_doc (run sample_run (start 2 [("a", [])] {[1]} sample_room)) ∨
    s ≤ rm_checkpoint (w_room (run sample_run (start 2 [("a", [])] {[1]} sample_room))) ∧
    joined_phase (w_ws (run sample_run (start 2 [("a", [])] {[1]} sample_room))) = false.
Proof.
  split; [vm_compute; reflexivity|].
  exact (proj2 (cursor_honest sample_run 2 [("a", [])] {[1]} sample_room sample_honest ltac:(vm_compute; reflexivity))).
Defined.

Lemma catch_up_fenced_witness : upto 3 (w_doc (run sample_run (start 2 [("a", [])] {[1]} sample_room))).
Proof.
  exact (catch_up_fenced sample_run 2 [("a", [])] {[1]} sample_room 0 3 sample_honest
    ltac:(vm_compute; reflexivity) ltac:(vm_compute; reflexivity) ltac:(vm_compute; reflexivity)).
Defined.

(** The reset check of [run_session] reads the raw cursor: a pull that takes a
    row between the hello and the state frame makes it announce a reset of a
    room that lost nothing. *)
Example spurious_server_reset :
  cl_events (w_client (run
    [Ws WDial; User APeerRow; Http HStart; Http HPull; Http (HState (mkState 4 0 0 0 4 400) true);
     Http (HPlan true); Http HCommit; Http HRow; Http (HRowDone RowApplied); Http HRow;
     Http (HRowDone RowApplied); Http HRow; Http (HRowDone RowApplied); Http HRow;
     Http (HRowDone RowApplied); Http HDone; Ws (WState (mkState 3 0 0 0 3 300) true)]
    (start 0 [] ∅ (mkRoom 3 0 0 0)))) = [Applied; ServerReset; Connected].
Proof. vm_compute. reflexivity. Qed.
