(* ===== verification/ChatOutbox.v ===== *)
(** * ChatOutbox: no batch leaves the outbox of a chat client unsettled

    Theorems about ChatSync.v: whatever the socket session, the HTTPS cycle and
    their failures do, a batch that was enqueued is in the queue, in its order
    and once, until the durable outbox has settled it. *)

From S2P Require Import Prelude Text Json Frames ChatClient ChatSync ChatSyncSpec.

(** ** The outbox *)

Definition ids (w : World) : list string := pp_batch_id <$> pending (w_shared w).

(** A step that enqueues nothing: what leaves the queue is settled, the rest
    keeps its order. *)
Definition outbox_le (w w' : World) : Prop :=
  ids w' `sublist_of` ids w ∧ (∀ id, id ∈ ids w → id ∈ ids w' ∨ id ∈ w_settled w') ∧
  w_settled w ⊆ w_settled w' ∧ w_enqueued w' = w_enqueued w.

#[export] Instance outbox_le_preorder : PreOrder outbox_le.
Proof.
  split; [intros w; unfold outbox_le; set_solver|].
  intros w1 w2 w3 (H1 & H2 & H3 & H4) (H5 & H6 & H7 & H8). split_and!; [by etrans| |set_solver|congruence].
  intros id Hid. destruct (H2 id Hid) as [Hid'|]; [by apply H6|set_solver].
Qed.

Lemma outbox_le_same w w' :
  ids w' = ids w → w_settled w' = w_settled w → w_enqueued w' = w_enqueued w → outbox_le w w'.
Proof. intros E1 E2 E3. unfold outbox_le. rewrite E1, E2, E3. set_solver. Qed.

Lemma retain_not_ids id l :
  pp_batch_id <$> retain_not id l = filter (λ i, i ≠ id) (pp_batch_id <$> l).
Proof.
  unfold retain_not. induction l as [|p l IH]; [done|]. rewrite fmap_cons, !filter_cons. cbn.
  destruct (decide (pp_batch_id p ≠ id)); cbn; by rewrite IH.
Qed.

Lemma outbox_le_retain id w w' :
  ids w' = filter (λ i, i ≠ id) (ids w) → w_settled w' = {[id]} ∪ w_settled w →
  w_enqueued w' = w_enqueued w → outbox_le w w'.
Proof.
  intros E1 E2 E3. unfold outbox_le. rewrite E1, E2, E3. split_and!; [apply sublist_filter| |set_solver|done].
  intros i Hi. rewrite list_elem_of_filter. destruct (decide (i = id)) as [->|]; set_solver.
Qed.

Lemma ids_ws_down w : ids (ws_down w) = ids w.
Proof. unfold ids, w_shared. cbn. unfold end_session. by destruct (cl_connected (w_client w)). Qed.

Lemma outbox_ws_down w : outbox_le w (ws_down w).
Proof. apply outbox_le_same; [apply ids_ws_down|done|done]. Qed.

Lemma pending_queue s s' : same_queue s s' → pp_batch_id <$> pending s' = pp_batch_id <$> pending s.
Proof. by intros (l & -> & H). Qed.

(** The queue after a frame, read off the batch the frame settles. *)
Lemma handle_frame_ids o f c c' :
  handle_frame o f c = Some c' →
  (settled_by o f = ∅ ∧ pending (cl_shared c') = pending (cl_shared c)) ∨
  ∃ id, settled_by o f = {[id]} ∧ pending (cl_shared c') = retain_not id (pending (cl_shared c)).
Proof.
  intros E. destruct f as [[seq|]|[[id seq]|]| |[]|[h|]|[]|code msg id|]; cbn in *; try done;
    try (injection E as <-; by left).
  - injection E as <-. left. split; [done|]. cbn. unfold apply_remote_row, propose_row.
    by destruct (_ <? _), (fo_outcome o).
  - injection E as <-. cbn. unfold handle_ack. destruct (fo_sink_ok o).
    + right. exists id. split; [done|]. repeat case_match; done.
    + left. split; [done|]. repeat case_match; done.
  - injection E as <-. left. cbn. by destruct (server (cl_shared c)).
  - unfold handle_error in E. destruct (_ && negb _); cbn.
    + destruct (fo_sink_ok o); [|done]. right. exists id. split; [done|]. injection E as <-. by case_match.
    + left. split; [done|]. case_bool_decide; by injection E as <-.
Qed.

Lemma outbox_receive o f next w : outbox_le w (receive o f next w).
Proof.
  unfold receive. destruct (handle_frame o f (w_client w)) as [c|] eqn:E; [|apply outbox_ws_down].
  apply handle_frame_ids in E as [[E1 E2]|(id & E1 & E2)].
  - apply outbox_le_same; [unfold ids, w_shared; cbn; by rewrite E2| |done]. cbn. rewrite E1. set_solver.
  - apply (outbox_le_retain id); [unfold ids, w_shared; cbn; by rewrite E2, retain_not_ids| |done].
    cbn. by rewrite E1.
Qed.

Lemma outbox_begin_row seq w : outbox_le w (begin_row seq w).
Proof. unfold begin_row, propose_row. case_match; case_match; simplify_eq; by apply outbox_le_same. Qed.

Lemma outbox_take o f w : outbox_le w (ws_take o f w).
Proof.
  unfold ws_take.
  destruct (w_ws w) as [| | | | | |t b [h|]| | | |]; try done;
    destruct f as [[]| | |[]| | | |]; try done;
    first [apply outbox_begin_row | apply outbox_receive | apply outbox_ws_down | by apply outbox_le_same].
Qed.

Lemma outbox_down w w' : outbox_le w w' → outbox_le w (ws_down w').
Proof. intros. etrans; [done|apply outbox_ws_down]. Qed.

Lemma outbox_plan answer durable w : outbox_le w (WPlanStep answer durable w).
Proof.
  unfold WPlanStep. destruct (w_ws w); try done.
  set (s0 := set_cursor _ _). pose proof (push_pending_queue durable s0 []) as Hq%pending_queue.
  destruct (push_pending _ _ _) as [[[s inf] out] ok]. cbn in Hq.
  destruct ok; [|apply outbox_down]; by apply outbox_le_same.
Qed.

Lemma outbox_ws_step a w : outbox_le w (ws_step a w).
Proof.
  destruct a; cbn [ws_step]; try apply outbox_plan.
  - destruct (w_ws w); by apply outbox_le_same.
  - destruct (w_ws w); try done. destruct (snapshot _ _ _); [|done]. apply outbox_le_same; [|done|done].
    unfold ids, w_shared. cbn. unfold receive_state, apply_cursor_amnesty. by repeat case_match.
  - destruct (w_ws w); try done. destruct (frame_possible w f); [|done]. destruct f; by apply outbox_le_same.
  - destruct (w_ws w); by apply outbox_le_same.
  - destruct (w_ws w); by apply outbox_le_same.
  - destruct (w_ws w); try done. apply outbox_le_same; [|done|done].
    unfold ids, w_shared, clear_causal_gap. cbn. by case_match.
  - destruct (w_ws w) as [| | | | | |t [|f b] h| | | |]; try done.
    etrans; [|apply outbox_take]. by apply outbox_le_same.
  - assert (outbox_le w (if frame_possible w f then ws_take o f (take_answer f w) else w)) as Hgo.
    { destruct (frame_possible w f); [|done]. etrans; [|apply outbox_take]. destruct f; by apply outbox_le_same. }
    by destruct (w_ws w) as [| | | | | |t [] []| | | |].
  - done.
  - destruct (w_ws w) as [| | | | | |t [] []| | | |]; try done. cbn. case_match; by apply outbox_le_same.
  - destruct (w_ws w); try done. apply outbox_le_same; [|done|done].
    unfold ids, w_shared, catch_up. cbn. by case_match.
  - unfold WPostStep. destruct (w_ws w) as [| | | | | | | |[] ? []| |]; try by apply outbox_le_same.
    apply outbox_le_same; [|done|done].
    unfold ids, w_shared, settle_refresh. cbn. by repeat case_match.
  - unfold WRepairStep, maybe_repair_gap. destruct (w_ws w); try done. cbn.
    repeat (case_match; simplify_eq); try apply outbox_down; by apply outbox_le_same.
  - unfold WRefreshStep. destruct (w_ws w) as [| | | | | | | | | |[]]; try done.
    case_match; by apply outbox_le_same.
  - destruct (w_ws w); try done. pose proof (push_pending_queue durable (w_shared w) (w_in_flight w)) as Hq%pending_queue.
    destruct (push_pending _ _ _) as [[[s inf] out] ok]. cbn in Hq.
    destruct ok; [|apply outbox_down]; by apply outbox_le_same.
  - destruct (w_ws w); try done. pose proof (push_head_queue durable (set_retry_at None (w_shared w))) as Hq%pending_queue.
    destruct (push_head _ _) as [[s out] ok]. cbn in Hq.
    destruct ok; [|apply outbox_down]; by apply outbox_le_same.
  - by destruct (w_ws w); try apply outbox_ws_down.
Qed.

Lemma outbox_ws_actor a w : outbox_le w (ws_actor a w).
Proof.
  unfold ws_actor. destruct (w_row w) as [[seq c]|]; [|apply outbox_ws_step].
  destruct a; try done. cbn. destruct (w_ws w), outcome; by apply outbox_le_same.
Qed.

Lemma outbox_http_step a w : outbox_le w (http_step a w).
Proof.
  destruct a; cbn [http_step].
  - destruct (w_http w); by apply outbox_le_same.
  - unfold HPushStep. destruct (w_http w) as [|[|push batches]| | | | | |]; try done.
    pose proof (ensure_durable_queue push (durable (pp_batch_id push)) (w_shared w)) as Hq%pending_queue.
    destruct (ensure_durable _ _ _) as [s ok]. by apply outbox_le_same.
  - unfold HPostedStep. destruct (w_http w), posted as [[[id seq]|]|]; try by apply outbox_le_same.
    destruct (_ && _); [|done]. destruct sink_ok.
    + apply (outbox_le_retain id); [|done|done]. unfold ids, w_shared, http_ack. cbn.
      by case_match; rewrite <- retain_not_ids.
    + apply outbox_le_same; [|set_solver|done]. unfold ids, w_shared, http_ack. cbn. by case_match.
  - unfold HPullStep. destruct (w_http w) as [|[]| | | | | |]; by apply outbox_le_same.
  - destruct (w_http w); by apply outbox_le_same.
  - unfold HStateStep. destruct (w_http w); try done. destruct (snapshot _ _ _); [|done].
    set (w1 := map_client _ w). assert (outbox_le w w1).
    { apply outbox_le_same; [|done|done]. unfold ids, w_shared, w1. cbn. unfold apply_cursor_amnesty.
      by repeat case_match. }
    etrans; [done|]. case_match; by apply outbox_le_same.
  - unfold HPlanStep. destruct (w_http w); try done. case_match; by apply outbox_le_same.
  - destruct (w_http w), ok; by apply outbox_le_same.
  - destruct (w_http w); try done. apply outbox_le_same; [|done|done].
    unfold ids, w_shared, commit_pull, clear_causal_gap. cbn. by case_match.
  - destruct (w_http w) as [| | | | | | |p st [|seq rows] b]; try done. unfold propose_row.
    case_match; simplify_eq; case_match; simplify_eq; by apply outbox_le_same.
  - by destruct (w_http w) as [| | | | | | |? ? [|? ?] ?].
  - destruct (w_http w) as [| | | | | | |p st [|seq rows] b]; try done.
    apply outbox_le_same; destruct b; try done; unfold ids, w_shared, finish_pull; cbn; by repeat case_match.
  - destruct (w_http w) as [| | | | | | |p st rows []]; by apply outbox_le_same.
Qed.

Lemma outbox_http_actor a w : outbox_le w (http_actor a w).
Proof.
  unfold http_actor. destruct (w_hrow w) as [[seq c]|]; [|apply outbox_http_step].
  destruct a; try done. destruct outcome; by apply outbox_le_same.
Qed.

(** Every batch once, and every enqueued batch pending or settled. *)
Definition outbox_ok (w : World) : Prop :=
  NoDup (ids w) ∧ ∀ id, id ∈ w_enqueued w → id ∈ ids w ∨ id ∈ w_settled w.

Lemma outbox_ok_le w w' : outbox_ok w → outbox_le w w' → outbox_ok w'.
Proof.
  intros [H1 H2] (H3 & H4 & H5 & H6). split; [by eapply sublist_NoDup|]. rewrite H6. intros id Hid.
  destruct (H2 id Hid); [by apply H4|set_solver].
Qed.

Lemma outbox_ok_user a w : outbox_ok w → outbox_ok (user_step a w).
Proof.
  intros Hok. destruct a; cbn [user_step]; try (by eapply outbox_ok_le; [|apply outbox_le_same]).
  destruct Hok as [H1 H2]. unfold map_client, enqueue_batch, outbox_ok, ids, w_shared in *. cbn.
  destruct (MAX_PUSH_BYTES <? blen data); cbn; [set_solver|].
  case_bool_decide as Hin; cbn; [set_solver|]. rewrite fmap_app. cbn. split.
  - apply NoDup_app. split_and!; [done|set_solver|apply NoDup_singleton].
  - intros i Hi. rewrite elem_of_app, list_elem_of_singleton. set_solver.
Qed.

Lemma outbox_ok_step a w : outbox_ok w → outbox_ok (step a w).
Proof.
  intros Hok. destruct a; cbn [step]; [by apply outbox_ok_user|..];
    (eapply outbox_ok_le; [done|]); [apply outbox_ws_actor|apply outbox_http_actor].
Qed.

Lemma outbox_ok_run acts w : outbox_ok w → outbox_ok (run acts w).
Proof. revert w. induction acts; intros w Hw; [done|]. by apply IHacts, outbox_ok_step. Qed.

Lemma outbox_ok_start c persisted doc r : NoDup persisted.*1 → outbox_ok (start c persisted doc r).
Proof.
  intros Hn. unfold outbox_ok, ids, w_shared. cbn.
  assert (pp_batch_id <$> ((λ p : string * bytes, mkPush p.1 p.2 true) <$> persisted) = persisted.*1) as ->
    by (by rewrite <- list_fmap_compose).
  split; [done|]. set_solver.
Qed.

(** C33: The outbox loses and doubles nothing: in every run, no batch is queued
    twice, and each batch that was enqueued, or persisted by an earlier
    process, is still queued unless it was settled: acknowledged or
    permanently refused with the durable outbox updated, or too large to be
    sent at all. *)
Theorem outbox_exact acts c persisted doc r :
  NoDup persisted.*1 →
  let w := run acts (start c persisted doc r) in
  NoDup (pp_batch_id <$> pending (w_shared w)) ∧
  ∀ id, id ∈ w_enqueued w → id ∉ w_settled w → id ∈ (pp_batch_id <$> pending (w_shared w)).
Proof.
  intros Hn. destruct (outbox_ok_run acts _ (outbox_ok_start c persisted doc r Hn)) as [H1 H2].
  split; [done|]. intros id Hid Hs. by destruct (H2 id Hid).
Qed.


Lemma outbox_exact_witness :
  NoDup (pp_batch_id <$> pending (w_shared (run [Ws WDial; User (AEnqueue "b" [] false); User (AEnqueue "c" [] true);
      Http HStart; Http (HPush (λ _, true)); Http (HPosted (Ok (Some ("a", 1))) true)]
    (start 1 [("a", [])] {[1]} (mkRoom 1 0 0 0))))) ∧
  ∀ id, id ∈ w_enqueued (run [Ws WDial; User (AEnqueue "b" [] false); User (AEnqueue "c" [] true);
      Http HStart; Http (HPush (λ _, true)); Http (HPosted (Ok (Some ("a", 1))) true)]
    (start 1 [("a", [])] {[1]} (mkRoom 1 0 0 0))) →
  id ∉ w_settled (run [Ws WDial; User (AEnqueue "b" [] false); User (AEnqueue "c" [] true);
      Http HStart; Http (HPush (λ _, true)); Http (HPosted (Ok (Some ("a", 1))) true)]
    (start 1 [("a", [])] {[1]} (mkRoom 1 0 0 0))) → id ∈ ["b"; "c"].
Proof.
  destruct (outbox_exact [Ws WDial; User (AEnqueue "b" [] false); User (AEnqueue "c" [] true);
      Http HStart; Http (HPush (λ _, true)); Http (HPosted (Ok (Some ("a", 1))) true)]
    1 [("a", [])] {[1]} (mkRoom 1 0 0 0)) as [H1 H2]; [by apply NoDup_singleton|]. split; [exact H1|exact H2].
Defined.
