(* ===== verification/ChatRecovery.v ===== *)
(** * ChatRecovery: a chat client can always catch up again

    Theorems about ChatSync.v: from whatever state the socket session, the
    HTTPS cycle and their failures left the client in, one session with a room
    that answers brings the document and the cursor to the room's head and
    completes every catch-up that was asked for. *)

From S2P Require Import Prelude Text Json Frames ChatClient ChatSync ChatSyncSpec.

(** ** The session *)

(** The header of a room. *)
Definition header (r : Room) : StateHeader :=
  mkState (rm_head r) (rm_floor r) (rm_checkpoint r) (rm_size r) 0 0.

Definition willing : FrameOracle := mkFrameOracle RowApplied true 0.

Definition row_acts (seq : Z) : list Action :=
  [Ws (WFrame (IRow (Some seq)) willing); Ws (WRowDone RowApplied)].

(** Whatever is under way ends, the session dials, plans and takes the
    checkpoint if the plan asks for it. *)
Definition dial_acts (r : Room) : list Action :=
  Ws <$> [WRowDone RowApplied; WEnd; WDial; WState (header r) true; WPlan false (λ _, true);
          WFetched; WRaise; WClear].

(** The answer to the rows request, one gap repair, one wake. *)
Definition settle_acts (r : Room) : list Action :=
  let done := WFrame (IRowsDone (Some (rm_head r))) willing in
  Ws <$> [done; WFinish; WCatch; WRepairGap; done; WAfter; WRepairGap; WRefresh; done; WAfter; WRepairGap].

Definition recovery (after : Z) (r : Room) : list Action :=
  dial_acts r ++ mjoin (row_acts <$> seqZ (after + 1) (rm_head r - after)) ++ settle_acts r.

Lemma run_app a b w : run (a ++ b) w = run b (run a w).
Proof. apply fold_left_app. Qed.

Lemma run_cons a b w : run (a :: b) w = run b (step a w).
Proof. done. Qed.

(** ** Its stages *)

(** A session in phase [ws] that owes nothing; [req] is its open request. *)
Definition stage (r : Room) (ws : WsPhase) (req : option Z) (t : Z) (w : World) : Prop :=
  w_ws w = ws ∧ w_room w = r ∧ w_row w = None ∧ w_req w = req ∧
  rows_req_outstanding (w_shared w) = false ∧ refresh_requested (w_shared w) = t.

Lemma make_durable_true id l : (make_durable id true l).2 = true.
Proof.
  induction l as [|p l IH]; [done|]. cbn. case_bool_decide; [by destruct (pp_durable p)|].
  by destruct (make_durable id true l).
Qed.

Lemma ensure_durable_true push s : (ensure_durable push true s).2 = true.
Proof.
  unfold ensure_durable. destruct (pp_durable push); [done|].
  pose proof (make_durable_true (pp_batch_id push) (pending s)). by destruct (make_durable _ _ _).
Qed.

Lemma push_pending_true s inf : (push_pending (λ _, true) s inf).2 = true.
Proof.
  unfold push_pending. destruct (quota_blocked s); [done|].
  generalize (filter (λ id, id ∈ pp_batch_id <$> pending s) inf) as inf'. clear inf. intros inf.
  generalize (filter (λ p, pp_batch_id p ∉ inf) (pending s)) as l. intros l.
  revert s inf. induction l as [|p l IH]; intros s inf; [done|]. cbn.
  pose proof (ensure_durable_true p s) as He. destruct (ensure_durable p true s) as [s' ok]. cbn in He. subst ok.
  specialize (IH s' (inf ++ [pp_batch_id p])). by destruct (push_batches _ _ _ _) as [[[? ?] ?] ?].
Qed.

Lemma stage_hello w :
  let w' := run (Ws <$> [WRowDone RowApplied; WEnd; WDial]) w in
  stage (w_room w) (WHello (w_room w)) None (refresh_requested (w_shared w)) w' ∧
  cursor (w_shared w) ≤ cursor (w_shared w').
Proof.
  rewrite !fmap_cons, !run_cons. cbn [step].
  set (w1 := ws_actor (WRowDone RowApplied) w).
  assert (w_row w1 = None ∧ w_room w1 = w_room w ∧ refresh_requested (w_shared w1) = refresh_requested (w_shared w)
    ∧ cursor (w_shared w) ≤ cursor (w_shared w1)) as (H1 & H2 & H3 & H4).
  { unfold w1, ws_actor. destruct (w_row w) as [[seq c]|] eqn:E; [|done]. unfold w_shared. cbn.
    destruct (w_ws w); cbn; split_and!; try done; lia. }
  clearbody w1. rewrite <- H2, <- H3.
  enough (stage (w_room w1) (WHello (w_room w1)) None (refresh_requested (w_shared w1))
    (run (Ws <$> [WEnd; WDial]) w1) ∧ cursor (w_shared w1) = cursor (w_shared (run (Ws <$> [WEnd; WDial]) w1)))
    as [Hs Hc] by (split; [exact Hs|etrans; [exact H4|]; apply Z.eq_le_incl, Hc]).
  rewrite !fmap_cons, !run_cons. cbn [step]. clear H2 H3 H4 w.
  assert (ws_actor WEnd w1 = match w_ws w1 with WDown => w1 | _ => ws_down w1 end) as ->
    by (unfold ws_actor; by rewrite H1).
  assert (∀ w2, w_ws w2 = WDown → w_row w2 = None →
    stage (w_room w2) (WHello (w_room w2)) None (refresh_requested (w_shared w2)) (ws_actor WDial w2) ∧
    cursor (w_shared w2) = cursor (w_shared (ws_actor WDial w2))) as Hdial.
  { intros w2 E1 E2. unfold ws_actor. rewrite E2. cbn [ws_step]. rewrite E1. done. }
  assert (stage (w_room w1) (WHello (w_room w1)) None (refresh_requested (w_shared w1)) (ws_actor WDial (ws_down w1)) ∧
    cursor (w_shared w1) = cursor (w_shared (ws_actor WDial (ws_down w1)))) as Hd.
  { assert (refresh_requested (w_shared (ws_down w1)) = refresh_requested (w_shared w1) ∧
      cursor (w_shared (ws_down w1)) = cursor (w_shared w1)) as [<- <-]; [|by apply (Hdial (ws_down w1))].
    unfold w_shared. cbn. unfold end_session. by destruct (cl_connected (w_client w1)). }
  destruct (w_ws w1) eqn:E; try exact Hd. by apply Hdial.
Qed.

Lemma snapshot_header r : room_ok r → snapshot r r (header r) = true.
Proof.
  unfold room_ok, snapshot, header. cbn. intros (? & ? & ? & ?). rewrite !andb_true_iff, orb_true_iff, andb_true_iff.
  split_and!; lia.
Qed.

(** The plan of a session at the room's header, from the cursor [c]. *)
Definition plan_of (c : Z) (r : Room) : Z :=
  if rm_size r =? 0 then if rm_head r <? c then 0 else c else rm_checkpoint r.

Lemma stage_planning r t w :
  room_ok r → stage r (WHello r) None t w →
  let w' := step (Ws (WState (header r) true)) w in
  let s := w_shared w in
  stage r (WPlanning (header r) (cursor s) (needs_checkpoint s) (causal_gap_generation s)) None t w' ∧
  cursor (w_shared w') = cursor s ∧ causal_gap_generation (w_shared w') = causal_gap_generation s.
Proof.
  intros Hr (E1 & E2 & E3 & E4 & E5 & E6). cbn [step]. unfold ws_actor. rewrite E3. cbn [ws_step].
  rewrite E1, E2, snapshot_header by done. unfold stage, w_shared in *. cbn.
  unfold receive_state, apply_cursor_amnesty. rewrite orb_true_r. cbn.
  destruct (_ <? _); cbn; by rewrite E2, E3, E4.
Qed.

Lemma stage_planned r t read repair w :
  let st := header r in
  let generation := causal_gap_generation (w_shared w) in
  stage r (WPlanning st read repair generation) None t w →
  let w' := step (Ws (WPlan false (λ _, true))) w in
  stage r (if rm_size r =? 0 then WClearing generation t [] else WFetching st generation t [])
    (Some (rm_head r)) t w' ∧
  cursor (w_shared w') = plan_of read r ∧ causal_gap_generation (w_shared w') = generation.
Proof.
  intros st generation (E1 & E2 & E3 & E4 & E5 & E6). cbn [step]. unfold ws_actor. rewrite E3. cbn [ws_step].
  unfold WPlanStep. rewrite E1. set (plan := plan_catch_up _ _ _).
  assert (plan = if rm_size r =? 0 then RowsOnly (plan_of read r) else CheckpointThenRows (plan_of read r)) as ->.
  { unfold plan, plan_catch_up, contained, plan_of, st. cbn. rewrite andb_false_r. cbn. rewrite orb_false_r.
    by destruct (rm_size r =? 0). }
  pose proof (push_pending_true (set_cursor (plan_of read r) (w_shared w)) []) as Hok.
  pose proof (push_pending_queue (λ _, true) (set_cursor (plan_of read r) (w_shared w)) []) as (l & Hl & _).
  set (s := set_cursor _ _). assert (s = set_cursor (plan_of read r) (w_shared w)) as ->
    by (unfold s; by destruct (rm_size r =? 0)).
  destruct (push_pending _ _ _) as [[[s' inf] out] ok]. cbn in Hok, Hl. subst ok s'.
  unfold stage, w_shared in *. cbn. rewrite E2, E3, E6. by destruct (rm_size r =? 0).
Qed.

Lemma stage_fetched r t generation w :
  let phase := if rm_size r =? 0 then WClearing generation t [] else WFetching (header r) generation t [] in
  stage r phase (Some (rm_head r)) t w → (rm_size r ≠ 0 → cursor (w_shared w) = rm_checkpoint r) →
  generation = causal_gap_generation (w_shared w) →
  let w' := run (Ws <$> [WFetched; WRaise; WClear]) w in
  stage r (WBackfill t [] None) (Some (rm_head r)) t w' ∧ needs_checkpoint (w_shared w') = false ∧
  cursor (w_shared w') = cursor (w_shared w).
Proof.
  intros phase (E1 & E2 & E3 & E4 & E5 & E6) Hc ->. unfold phase in E1. clear phase.
  destruct w as [[s con rej dis rjc res am ev] doc r' ws row inf req rs http hrow asked enq set].
  unfold w_shared in *. cbn in *. subst r' row req.
  destruct (Z.eqb_spec (rm_size r) 0); subst ws; cbn; unfold ws_actor, clear_causal_gap, stage, w_shared; cbn;
    rewrite Z.eqb_refl; cbn; [done|]. rewrite Hc, Z.max_id by done. done.
Qed.

Lemma plan_of_bounds c r : room_ok r → 0 ≤ c → 0 ≤ plan_of c r ≤ rm_head r.
Proof.
  unfold room_ok, plan_of. intros. destruct (_ =? _); [|lia]. destruct (Z.ltb_spec (rm_head r) c); lia.
Qed.

Lemma stage_backfill w :
  let r := w_room w in let t := refresh_requested (w_shared w) in
  room_ok r → 0 ≤ cursor (w_shared w) →
  let w' := run (dial_acts r) w in
  stage r (WBackfill t [] None) (Some (rm_head r)) t w' ∧
  needs_checkpoint (w_shared w') = false ∧ 0 ≤ cursor (w_shared w') ≤ rm_head r.
Proof.
  intros r t Hr Hc.
  change (dial_acts r) with ((Ws <$> [WRowDone RowApplied; WEnd; WDial]) ++
    Ws (WState (header r) true) :: Ws (WPlan false (λ _, true)) :: (Ws <$> [WFetched; WRaise; WClear])).
  rewrite run_app, !run_cons. destruct (stage_hello w) as [H1 Hc1].
  fold r t in H1. set (w1 := run _ w) in *. clearbody w1.
  destruct (stage_planning r t w1 Hr H1) as (H2 & Hc2 & Hg2). set (w2 := step _ w1) in *. clearbody w2.
  rewrite <- Hg2 in H2. destruct (stage_planned _ _ _ _ _ H2) as (H3 & Hc3 & Hg3).
  set (w3 := step _ w2) in *. clearbody w3.
  destruct (stage_fetched r t (causal_gap_generation (w_shared w2)) w3) as (H4 & Hn4 & Hc4); [done| |done|].
  { intros Hz. rewrite Hc3. unfold plan_of. by destruct (Z.eqb_spec (rm_size r) 0). }
  cbn zeta. rewrite Hc4, Hc3. split_and!; [done|done|..]; apply plan_of_bounds; done || lia.
Qed.

Lemma stage_row r t w :
  let c := cursor (w_shared w) in
  stage r (WBackfill t [] None) (Some (rm_head r)) t w → needs_checkpoint (w_shared w) = false →
  0 ≤ c < rm_head r → rm_head r < 2 ^ 64 →
  let w' := run (row_acts (c + 1)) w in
  stage r (WBackfill t [] None) (Some (rm_head r)) t w' ∧ needs_checkpoint (w_shared w') = false ∧
  cursor (w_shared w') = c + 1.
Proof.
  intros c (E1 & E2 & E3 & E4 & E5 & E6) Hn Hc Hm.
  destruct w as [[s con rej dis rjc res am ev] doc r' ws row inf req rs http hrow asked enq set].
  unfold w_shared, c in *. cbn in *. subst r' row req ws. clear c. unfold ws_actor. cbn.
  rewrite (proj2 (Z.leb_le 1 (cursor s + 1))), (proj2 (Z.leb_le (cursor s + 1) (rm_head r))) by lia. cbn.
  unfold begin_row, propose_row, saturating_add1, w_shared. cbn.
  destruct (Z.ltb_spec (Z.min (cursor s + 1) (2 ^ 64 - 1)) (cursor s + 1)); [lia|].
  unfold ws_actor, stage, w_shared. cbn. split_and!; try done. lia.
Qed.

Lemma stage_rows k r t w :
  rm_head r - cursor (w_shared w) = Z.of_nat k →
  stage r (WBackfill t [] None) (Some (rm_head r)) t w → needs_checkpoint (w_shared w) = false →
  0 ≤ cursor (w_shared w) ≤ rm_head r → rm_head r < 2 ^ 64 →
  let w' := run (mjoin (row_acts <$> seqZ (cursor (w_shared w) + 1) (rm_head r - cursor (w_shared w)))) w in
  stage r (WBackfill t [] None) (Some (rm_head r)) t w' ∧ needs_checkpoint (w_shared w') = false ∧
  cursor (w_shared w') = rm_head r.
Proof.
  revert w. induction k as [|k IH]; intros w Hk Hs Hn Hc Hm.
  - rewrite seqZ_nil by lia. cbn. split_and!; [done|done|lia].
  - rewrite seqZ_cons by lia. rewrite fmap_cons. cbn [mjoin list_join]. rewrite run_app.
    destruct (stage_row r t w Hs Hn ltac:(lia) Hm) as (Hs' & Hn' & Hc').
    set (w1 := run (row_acts _) w) in *. clearbody w1.
    specialize (IH w1 ltac:(lia) Hs' Hn' ltac:(lia) Hm). rewrite Hc' in IH.
    replace (Z.succ _) with (cursor (w_shared w) + 1 + 1) by lia.
    replace (Z.pred _) with (rm_head r - (cursor (w_shared w) + 1)) by lia. exact IH.
Qed.

(** A joined session in phase [ws] whose cursor is at the head; [gap] and
    [owed] tell of a row gap and an open request. *)
Definition at_head (r : Room) (ws : WsPhase) (req : option Z) (gap owed : bool) (w : World) : Prop :=
  w_ws w = ws ∧ w_room w = r ∧ w_row w = None ∧ w_req w = req ∧
  needs_checkpoint (w_shared w) = false ∧ cursor (w_shared w) = rm_head r ∧
  gap_repair (w_shared w) = gap ∧ rows_req_outstanding (w_shared w) = owed.

(** The tickets after a step. *)
Definition tickets (w : World) : bool * Z * Z :=
  (caught_up (w_shared w), refresh_requested (w_shared w), refresh_completed (w_shared w)).

Definition answered (r : Room) : WsAction := WFrame (IRowsDone (Some (rm_head r))) willing.

Ltac world w :=
  destruct w as [[[cu cau rr rc pen srv rat qb gr rro rg rgg hre hle nc cgg] con rej dis rjc res am ev]
    doc r' ws row inf req' rs http hrow asked enq set];
  unfold at_head, tickets, w_shared in *; cbn in *; subst; unfold ws_actor; cbn.

Ltac at_head_step w := intros (E1 & E2 & E3 & E4 & E5 & E6 & E7 & E8); world w; rewrite ?Z.leb_refl; cbn.

Lemma step_answered_backfill r t gap w :
  at_head r (WBackfill t [] None) (Some (rm_head r)) gap false w →
  let w' := ws_actor (answered r) w in
  at_head r (WBackfill t [] (Some (rm_head r))) None gap false w' ∧ tickets w' = tickets w.
Proof. at_head_step w. done. Qed.

Lemma step_finish r t h gap w :
  at_head r (WBackfill t [] (Some h)) None gap false w →
  let w' := ws_actor WFinish w in
  at_head r (WCatching t h) None gap false w' ∧ tickets w' = tickets w.
Proof. at_head_step w. done. Qed.

Lemma step_catch r t gap w :
  at_head r (WCatching t (rm_head r)) None gap false w →
  let w' := ws_actor WCatch w in
  at_head r (WRepair None 0) None gap false w' ∧
  tickets w' = (true, refresh_requested (w_shared w),
                if gap then refresh_completed (w_shared w) else Z.max (refresh_completed (w_shared w)) t).
Proof. at_head_step w. unfold catch_up. destruct gap; cbn; by rewrite ?Z.leb_refl. Qed.

Lemma step_repair r refresh reps w :
  at_head r (WRepair refresh reps) None false false w →
  let w' := ws_actor WRepairGap w in
  at_head r (WSteady refresh reps) None false false w' ∧ tickets w' = tickets w.
Proof. at_head_step w. done. Qed.

Lemma step_repair_gap r refresh w :
  at_head r (WRepair refresh 0) None true false w →
  let w' := ws_actor WRepairGap w in
  at_head r (WSteady refresh 1) (Some (rm_head r)) false true w' ∧ tickets w' = tickets w.
Proof. at_head_step w. done. Qed.

Lemma step_answered r refresh reps w :
  at_head r (WSteady refresh reps) (Some (rm_head r)) false true w →
  let w' := ws_actor (answered r) w in
  at_head r (WPost refresh reps (Some (rm_head r))) None false false w' ∧ tickets w' = tickets w.
Proof. at_head_step w. done. Qed.

Lemma step_after r refresh reps w :
  at_head r (WPost refresh reps (Some (rm_head r))) None false false w →
  let w' := ws_actor WAfter w in
  at_head r (WRepair None reps) None false false w' ∧
  tickets w' = (caught_up (w_shared w), refresh_requested (w_shared w),
                from_option (Z.max (refresh_completed (w_shared w))) (refresh_completed (w_shared w)) refresh).
Proof. destruct refresh; at_head_step w; unfold settle_refresh; cbn; by rewrite ?Z.leb_refl. Qed.

Lemma step_refresh r reps w :
  at_head r (WSteady None reps) None false false w →
  let t := refresh_requested (w_shared w) in
  let w' := ws_actor WRefresh w in
  tickets w' = tickets w ∧
  (at_head r (WSteady None reps) None false false w' ∧ t ≤ refresh_completed (w_shared w) ∨
   at_head r (WSteady (Some t) reps) (Some (rm_head r)) false true w').
Proof.
  at_head_step w. unfold WRefreshStep, w_shared. cbn. destruct (Z.ltb_spec rc rr); cbn; auto 12.
Qed.

(** An idle session ignores the answer that was not asked for. *)
Definition round (r : Room) (w : World) : World := run (Ws <$> [answered r; WAfter; WRepairGap]) w.

Lemma round_idle r reps w : at_head r (WSteady None reps) None false false w → round r w = w.
Proof.
  intros (E1 & E2 & E3 & E4 & _). unfold round. rewrite !fmap_cons, !run_cons. cbn [step].
  assert (ws_actor (answered r) w = w) as -> by (unfold ws_actor, answered; rewrite E3; cbn; by rewrite E1, E4).
  assert (ws_actor WAfter w = w) as -> by (unfold ws_actor; rewrite E3; cbn; unfold WPostStep; by rewrite E1).
  cbn. unfold ws_actor. rewrite E3. cbn. unfold WRepairStep. by rewrite E1.
Qed.

Lemma round_answered r refresh reps w :
  at_head r (WSteady refresh reps) (Some (rm_head r)) false true w →
  at_head r (WSteady None reps) None false false (round r w) ∧
  tickets (round r w) = (caught_up (w_shared w), refresh_requested (w_shared w),
                from_option (Z.max (refresh_completed (w_shared w))) (refresh_completed (w_shared w)) refresh).
Proof.
  intros H. unfold round. rewrite !fmap_cons, !run_cons. cbn [step fmap list_fmap].
  destruct (step_answered _ _ _ _ H) as [H1 [= -> -> ->]%symmetry]. set (w1 := ws_actor _ w) in *. clearbody w1.
  destruct (step_after _ _ _ _ H1) as [H2 <-]. set (w2 := ws_actor _ w1) in *. clearbody w2.
  by apply step_repair in H2.
Qed.

Lemma stage_settled r t w :
  stage r (WBackfill t [] None) (Some (rm_head r)) t w → needs_checkpoint (w_shared w) = false →
  cursor (w_shared w) = rm_head r →
  let w' := run (settle_acts r) w in
  ∃ reps c, at_head r (WSteady None reps) None false false w' ∧ tickets w' = (true, t, c) ∧ t ≤ c.
Proof.
  intros (E1 & E2 & E3 & E4 & E5 & E6) Hn Hc.
  change (run (settle_acts r) w) with (round r (ws_actor WRefresh (round r (ws_actor WRepairGap
    (ws_actor WCatch (ws_actor WFinish (ws_actor (answered r) w))))))).
  assert (at_head r (WBackfill t [] None) (Some (rm_head r)) (gap_repair (w_shared w)) false w) as H by done.
  destruct (step_answered_backfill _ _ _ _ H) as [H1 T1]. set (w1 := ws_actor _ w) in *. clearbody w1.
  destruct (step_finish _ _ _ _ _ H1) as [H2 T2]. set (w2 := ws_actor _ w1) in *. clearbody w2.
  destruct (step_catch _ _ _ _ H2) as [H3 T3]. set (w3 := ws_actor _ w2) in *. clearbody w3.
  rewrite T1 in T2. injection T2 as _ E7 _. rewrite E7, E6 in T3.
  assert (∃ reps c, at_head r (WSteady None reps) None false false (round r (ws_actor WRepairGap w3)) ∧
    tickets (round r (ws_actor WRepairGap w3)) = (true, t, c)) as (reps & c & H4 & T4).
  { destruct (gap_repair (w_shared w)).
    - apply step_repair_gap in H3 as [H3 T]. rewrite T3 in T. apply round_answered in H3 as [H3 T'].
      injection T as Ta Tb Tc. rewrite Ta, Tb, Tc in T'. eauto.
    - apply step_repair in H3 as [H3 T]. rewrite T3 in T. rewrite (round_idle r 0) by done. eauto. }
  set (w4 := round r _) in *. clearbody w4. clear -H4 T4.
  destruct (step_refresh _ _ _ H4) as [T5 H5]. rewrite T4 in T5. injection T4 as _ Et Ec. rewrite Et, Ec in H5.
  set (w5 := ws_actor _ w4) in *. clearbody w5. destruct H5 as [[H5 Hle]|H5].
  - rewrite (round_idle r reps) by done. eauto.
  - apply round_answered in H5 as [H6 T6]. injection T5 as Ta Tb Tc. rewrite Ta, Tb, Tc in T6.
    do 2 eexists. split_and!; [done|done|cbn; lia].
Qed.

(** ** The recovery *)

Lemma run_recovery after r w :
  run (recovery after r) w =
  run (settle_acts r) (run (mjoin (row_acts <$> seqZ (after + 1) (rm_head r - after))) (run (dial_acts r) w)).
Proof. unfold recovery. by rewrite !run_app. Qed.

Lemma recovers w :
  room_ok (w_room w) → 0 ≤ cursor (w_shared w) → rm_head (w_room w) < 2 ^ 64 →
  ∃ after, 0 ≤ after ∧ let w' := run (recovery after (w_room w)) w in
    (∃ reps, w_ws w' = WSteady None reps) ∧ w_room w' = w_room w ∧ cursor (w_shared w') = rm_head (w_room w) ∧
    refresh_requested (w_shared w') = refresh_requested (w_shared w) ∧ is_caught_up (w_client w') = true.
Proof.
  intros Hr Hc Hm. pose proof (stage_backfill w Hr Hc) as Hb. cbn zeta in Hb.
  exists (cursor (w_shared (run (dial_acts (w_room w)) w))). cbn zeta. rewrite run_recovery.
  generalize dependent (run (dial_acts (w_room w)) w). intros w1 (H1 & Hn1 & Hb1).
  destruct (stage_rows (Z.to_nat (rm_head (w_room w) - cursor (w_shared w1))) (w_room w) _ w1
    ltac:(lia) H1 Hn1 Hb1 Hm)
    as (H2 & Hn2 & Hc2).
  set (w2 := run (mjoin _) w1) in *. clearbody w2.
  destruct (stage_settled _ _ _ H2 Hn2 Hc2) as (reps & c & H3 & T3 & Hle).
  set (w3 := run (settle_acts _) w2) in *. clearbody w3.
  destruct H3 as (H31 & H32 & _ & _ & H35 & H36 & H37 & _). injection T3 as T1 T2 T3.
  split_and!; [apply Hb1|eauto|done|done|done|]. unfold is_caught_up, w_shared in *. rewrite T1, T2, T3, H35, H37. cbn.
  by apply Z.leb_le.
Qed.

Lemma recovery_length after r :
  0 ≤ after → 0 ≤ rm_head r → Z.of_nat (length (recovery after r)) ≤ 2 * rm_head r + 19.
Proof.
  intros Ha Hh. unfold recovery. rewrite !length_app. cbn [length dial_acts settle_acts fmap list_fmap].
  assert (∀ l, length (mjoin (row_acts <$> l)) = (2 * length l)%nat) as ->.
  { intros l. induction l as [|x l IH]; [done|].
    change (length (row_acts x ++ mjoin (row_acts <$> l)) = 2 * S (length l))%nat.
    rewrite length_app, IH. cbn. lia. }
  rewrite length_seqZ. cbn. lia.
Qed.


