(* ===== verification/HostDrain.v ===== *)
(** * HostDrain: concurrent execution of commands on the host

    The drain ([drain_command_kind]) and the relay road
    ([ingest_relayed_command]) of crates/engine/src/doc_host.rs as workers that
    interleave.  One step of a worker is one access to shared state: a read of
    the document's commands, a check of one command by the sweep, an
    evaluation, the in-flight claim, the ledger write, the start of an
    execution, the outcome write, the release.  What the worker cannot decide
    itself (clock, transcript, attachments, I/O errors, the harness's outcome)
    comes from an oracle. *)

From S2P Require Import Prelude Text Json Entities Commands.

(** ** State *)

Definition is_prompt (e : SessionCommandEntry) : bool :=
  match ce_payload e with PRun _ _ | PSteer _ _ => true | _ => false end.

(** Where a drain is in its loop. *)
Inductive DrainPc :=
  | DTop
  | DSweep (snap rest : list SessionCommandEntry)
  | DFind (snap : list SessionCommandEntry)
  | DEval (snap : list SessionCommandEntry) (e : SessionCommandEntry)
  | DClaim (e : SessionCommandEntry) (d : CommandDisposition)
  | DMark (e : SessionCommandEntry) (d : CommandDisposition)
  | DExec (e : SessionCommandEntry) (d : CommandDisposition)
  | DResolve (e : SessionCommandEntry) (status : SessionCommandStatus) (resolution : option string)
  | DRelease (e : SessionCommandEntry).

Record Drain := mkDrain {
  dr_controls_only : bool;
  dr_guard : bool;
  dr_skipped : gset string;
  dr_pc : DrainPc
}.

Inductive RelayPc :=
  | RLock (e : SessionCommandEntry)
  | REval (e : SessionCommandEntry)
  | RClaim (e : SessionCommandEntry) (d : CommandDisposition)
  | RMark (e : SessionCommandEntry) (d : CommandDisposition)
  | RExec (e : SessionCommandEntry) (d : CommandDisposition)
  | RRelease (e : SessionCommandEntry).

Inductive Worker := WDrain (d : Drain) | WRelay (pc : RelayPc).

(** [hs_processed] is the persistent ledger, [hs_executing] the in-flight set
    of the process, [hs_lock] the holder of [command_drain_lock], [hs_log] the
    commands whose execution started, in order. *)
Record HostState := mkHost {
  hs_cmds : list SessionCommandEntry;
  hs_processed : gset string;
  hs_executing : gset string;
  hs_lock : option nat;
  hs_log : list SessionCommandEntry;
  hs_workers : gmap nat Worker
}.

Definition host_init : HostState := mkHost [] ∅ ∅ None [] ∅.

Record Oracle := mkOracle {
  or_now : Z;
  or_messages : list string;       (* ids of the transcript's entries *)
  or_missing : bool;               (* a pending attachment has not landed *)
  or_read_ok : bool;               (* the command list reads *)
  or_ledger_read_ok : bool;        (* the ledger reads *)
  or_ledger_ok : bool;             (* the ledger write succeeds *)
  or_outcome : SessionCommandStatus * option string
}.

(** ** Shared accesses *)

Definition with_cmds (f : list SessionCommandEntry → list SessionCommandEntry) (s : HostState) : HostState :=
  mkHost (f (hs_cmds s)) (hs_processed s) (hs_executing s) (hs_lock s) (hs_log s) (hs_workers s).
Definition with_worker (w : nat) (k : Worker) (s : HostState) : HostState :=
  mkHost (hs_cmds s) (hs_processed s) (hs_executing s) (hs_lock s) (hs_log s)
    (<[w := k]> (hs_workers s)).
Definition with_lock (l : option nat) (s : HostState) : HostState :=
  mkHost (hs_cmds s) (hs_processed s) (hs_executing s) l (hs_log s) (hs_workers s).
Definition mark_processed (id : string) (s : HostState) : HostState :=
  mkHost (hs_cmds s) ({[id]} ∪ hs_processed s) (hs_executing s) (hs_lock s) (hs_log s) (hs_workers s).
Definition start_executing (id : string) (s : HostState) : HostState :=
  mkHost (hs_cmds s) (hs_processed s) ({[id]} ∪ hs_executing s) (hs_lock s) (hs_log s) (hs_workers s).
Definition stop_executing (id : string) (s : HostState) : HostState :=
  mkHost (hs_cmds s) (hs_processed s) (hs_executing s ∖ {[id]}) (hs_lock s) (hs_log s) (hs_workers s).
Definition log_execution (e : SessionCommandEntry) (s : HostState) : HostState :=
  mkHost (hs_cmds s) (hs_processed s) (hs_executing s) (hs_lock s) (hs_log s ++ [e]) (hs_workers s).

(** [store.is_processed(id).unwrap_or(false)]: an unreadable ledger answers no. *)
Definition is_processed (s : HostState) (o : Oracle) (id : string) : bool :=
  or_ledger_read_ok o && bool_decide (id ∈ hs_processed s).

(** [set_command_status]: the first entry of that id; a missing one is logged
    and ignored by [resolve_command]. *)
Fixpoint set_command_status (id : string) (status : SessionCommandStatus) (resolution : option string)
    (cmds : list SessionCommandEntry) : list SessionCommandEntry :=
  match cmds with
  | [] => []
  | e :: cmds =>
      if bool_decide (ce_id e = id) then
        mkEntry (ce_id e) (ce_payload e) (ce_issued_by e) (ce_issued_at e) (ce_based_on e)
          (ce_expires_at e) status (match resolution with Some r => Some r | None => ce_resolution e end)
          :: cmds
      else e :: set_command_status id status resolution cmds
  end.

Definition resolve_command (id : string) (status : SessionCommandStatus) (resolution : option string)
    (s : HostState) : HostState :=
  with_cmds (set_command_status id status resolution) s.

(** A worker returns: a prompt lock it holds is released. *)
Definition worker_return (w : nat) (s : HostState) : HostState :=
  mkHost (hs_cmds s) (hs_processed s) (hs_executing s)
    (if bool_decide (hs_lock s = Some w) then None else hs_lock s) (hs_log s) (delete w (hs_workers s)).

Definition evaluation (s : HostState) (entries : list SessionCommandEntry) (o : Oracle) : EvaluationContext :=
  mkContextEval (is_processed s o) (or_now o) entries (last (or_messages o))
    (λ turn, existsb (String.eqb turn) (or_messages o)).

Definition sat_sub_i64 (a b : Z) : Z := Z.max (- 2 ^ 63) (Z.min (2 ^ 63 - 1) (a - b)).
Definition ATTACHMENT_WAIT_MAX_MS : Z := 15 * 60 * 1000.


Definition missing_attachments (o : Oracle) (e : SessionCommandEntry) : bool :=
  is_prompt e && or_missing o.

(** ** The drain *)

Definition drain_at (d : Drain) (pc : DrainPc) : Worker :=
  WDrain (mkDrain (dr_controls_only d) (dr_guard d) (dr_skipped d) pc).
Definition drain_skip (d : Drain) (id : string) (pc : DrainPc) : Worker :=
  WDrain (mkDrain (dr_controls_only d) (dr_guard d) ({[id]} ∪ dr_skipped d) pc).

(** The sweep's condition on one entry of the snapshot. *)
Definition dead_command (s : HostState) (o : Oracle) (d : Drain) (e : SessionCommandEntry) : bool :=
  bool_decide (ce_status e = SPending) && negb (bool_decide (ce_id e ∈ dr_skipped d))
  && is_processed s o (ce_id e) && negb (bool_decide (ce_id e ∈ hs_executing s)).

Definition eligible (s : HostState) (o : Oracle) (d : Drain) (e : SessionCommandEntry) : bool :=
  bool_decide (ce_status e = SPending) && negb (bool_decide (ce_id e ∈ dr_skipped d))
  && negb (is_processed s o (ce_id e)) && (dr_guard d || negb (is_prompt e)).

Definition INTERRUPTED : string := "interrupted before completion — retry to send again".
Definition NEVER_ARRIVED : string := "attachments never arrived".

Definition drain_step (w : nat) (d : Drain) (o : Oracle) (s : HostState) : HostState :=
  match dr_pc d with
  | DTop =>
      if or_read_ok o then with_worker w (drain_at d (DSweep (hs_cmds s) (hs_cmds s))) s
      else worker_return w s
  | DSweep snap [] => with_worker w (drain_at d (DFind snap)) s
  | DSweep snap (e :: rest) =>
      if dead_command s o d e then
        with_worker w (drain_skip d (ce_id e) (DSweep snap rest))
          (resolve_command (ce_id e) SRejected (Some INTERRUPTED) s)
      else with_worker w (drain_at d (DSweep snap rest)) s
  | DFind snap =>
      match List.find (eligible s o d) snap with
      | Some e => with_worker w (drain_at d (DEval snap e)) s
      | None =>
          if dr_guard d || dr_controls_only d then worker_return w s
          else match hs_lock s with
               | Some _ => s
               | None =>
                   with_worker w (WDrain (mkDrain (dr_controls_only d) true (dr_skipped d) DTop))
                     (with_lock (Some w) s)
               end
      end
  | DEval snap e =>
      let disposition := evaluate_command e (evaluation s snap o) in
      if bool_decide (disposition = Execute) && missing_attachments o e then
        if sat_sub_i64 (or_now o) (ce_issued_at e) <? ATTACHMENT_WAIT_MAX_MS then worker_return w s
        else if or_ledger_ok o then
          with_worker w (drain_at d DTop)
            (resolve_command (ce_id e) SRejected (Some NEVER_ARRIVED) (mark_processed (ce_id e) s))
        else worker_return w s
      else with_worker w (drain_at d (DClaim e disposition)) s
  | DClaim e disposition =>
      if bool_decide (ce_id e ∈ hs_executing s) then with_worker w (drain_skip d (ce_id e) DTop) s
      else with_worker w (drain_at d (DMark e disposition)) (start_executing (ce_id e) s)
  | DMark e disposition =>
      if or_ledger_ok o then
        with_worker w (drain_at d (DExec e disposition)) (mark_processed (ce_id e) s)
      else worker_return w (stop_executing (ce_id e) s)
  | DExec e Skip => with_worker w (drain_skip d (ce_id e) (DRelease e)) s
  | DExec e Expired => with_worker w (drain_at d (DResolve e SExpired None)) s
  | DExec e Superseded => with_worker w (drain_at d (DResolve e SSuperseded None)) s
  | DExec e Execute =>
      with_worker w (drain_at d (DResolve e (or_outcome o).1 (or_outcome o).2)) (log_execution e s)
  | DResolve e status resolution =>
      with_worker w (drain_at d (DRelease e)) (resolve_command (ce_id e) status resolution s)
  | DRelease e => with_worker w (drain_at d DTop) (stop_executing (ce_id e) s)
  end.

(** ** The relay *)

Definition relay_step (w : nat) (pc : RelayPc) (o : Oracle) (s : HostState) : HostState :=
  match pc with
  | RLock e =>
      if missing_attachments o e then worker_return w s
      else if is_prompt e then
        match hs_lock s with
        | Some _ => s
        | None => with_worker w (WRelay (REval e)) (with_lock (Some w) s)
        end
      else with_worker w (WRelay (REval e)) s
  | REval e =>
      if or_read_ok o then
        let disposition := evaluate_command e (evaluation s (hs_cmds s) o) in
        if bool_decide (disposition = Skip) then worker_return w s
        else with_worker w (WRelay (RClaim e disposition)) s
      else worker_return w s
  | RClaim e disposition =>
      if bool_decide (ce_id e ∈ hs_executing s) then worker_return w s
      else with_worker w (WRelay (RMark e disposition)) (start_executing (ce_id e) s)
  | RMark e disposition =>
      if or_ledger_ok o && negb (bool_decide (ce_id e ∈ hs_processed s)) then
        with_worker w (WRelay (RExec e disposition)) (mark_processed (ce_id e) s)
      else with_worker w (WRelay (RRelease e)) s
  | RExec e Execute => with_worker w (WRelay (RRelease e)) (log_execution e s)
  | RExec e _ => with_worker w (WRelay (RRelease e)) s
  | RRelease e => worker_return w (stop_executing (ce_id e) s)
  end.

(** ** The host *)

Inductive HostAction :=
  | AQueue (e : SessionCommandEntry)
  | ASync (cmds : list SessionCommandEntry)      (* the document after a merge *)
  | ADrain (w : nat) (controls_only : bool)
  | ARelay (w : nat) (e : SessionCommandEntry)
  | AStep (w : nat) (o : Oracle)
  | ACrash.

(** A drain tries the prompt lock when it starts, unless it drains controls. *)
Definition spawn_drain (w : nat) (controls_only : bool) (s : HostState) : HostState :=
  let guard := negb controls_only && bool_decide (hs_lock s = None) in
  with_worker w (WDrain (mkDrain controls_only guard ∅ DTop))
    (if guard then with_lock (Some w) s else s).

Definition host_step (a : HostAction) (s : HostState) : HostState :=
  match a with
  | AQueue e => with_cmds (λ cmds, cmds ++ [e]) s
  | ASync cmds => with_cmds (λ _, cmds) s
  | ADrain w controls_only =>
      if bool_decide (is_Some (hs_workers s !! w)) then s else spawn_drain w controls_only s
  | ARelay w e =>
      if bool_decide (is_Some (hs_workers s !! w)) then s else with_worker w (WRelay (RLock e)) s
  | AStep w o =>
      match hs_workers s !! w with
      | Some (WDrain d) => drain_step w d o s
      | Some (WRelay pc) => relay_step w pc o s
      | None => s
      end
  | ACrash => mkHost (hs_cmds s) (hs_processed s) ∅ None (hs_log s) ∅
  end.

Definition host_run (acts : list HostAction) (s : HostState) : HostState :=
  fold_left (λ s a, host_step a s) acts s.

(** ** Exactly-once prompts *)

Definition worker_entry (k : Worker) : option SessionCommandEntry :=
  match k with
  | WDrain d =>
      match dr_pc d with
      | DEval _ e | DClaim e _ | DMark e _ | DExec e _ => Some e
      | _ => None
      end
  | WRelay (REval e | RClaim e _ | RMark e _ | RExec e _ | RRelease e) => Some e
  | WRelay (RLock _) => None
  end.

(** The execution a worker has decided on and not started. *)
Definition about_to_run (k : Worker) : option SessionCommandEntry :=
  match k with
  | WDrain d =>
      match dr_pc d with
      | DClaim e Execute | DMark e Execute | DExec e Execute => Some e
      | _ => None
      end
  | WRelay (RClaim e Execute | RMark e Execute | RExec e Execute) => Some e
  | WRelay _ => None
  end.

Definition marked (k : Worker) : option SessionCommandEntry :=
  match k with
  | WDrain d => match dr_pc d with DExec e _ => Some e | _ => None end
  | WRelay (RExec e _) => Some e
  | WRelay _ => None
  end.

Definition holds_lock (k : Worker) : Prop :=
  match k with
  | WDrain d => dr_guard d = true
  | WRelay _ => ∃ e, worker_entry k = Some e ∧ is_prompt e = true
  end.

Definition prompt_ids (log : list SessionCommandEntry) : list string :=
  ce_id <$> filter (λ e, is_prompt e = true) log.

Record worker_ok (s : HostState) (w : nat) (k : Worker) : Prop := {
  wo_lock : holds_lock k → hs_lock s = Some w;
  wo_entry e : worker_entry k = Some e → is_prompt e = true → holds_lock k;
  wo_run e : about_to_run k = Some e → is_prompt e = true → ce_id e ∉ prompt_ids (hs_log s);
  wo_marked e : marked k = Some e → ce_id e ∈ hs_processed s
}.

Record host_ok (s : HostState) : Prop := {
  ho_workers w k : hs_workers s !! w = Some k → worker_ok s w k;
  ho_log e : e ∈ hs_log s → ce_id e ∈ hs_processed s;
  ho_once : NoDup (prompt_ids (hs_log s))
}.

Lemma prompt_ids_app l1 l2 : prompt_ids (l1 ++ l2) = prompt_ids l1 ++ prompt_ids l2.
Proof. unfold prompt_ids. by rewrite filter_app, fmap_app. Qed.

Lemma prompt_ids_one e : prompt_ids [e] = if is_prompt e then [ce_id e] else [].
Proof. unfold prompt_ids. rewrite filter_cons. destruct (is_prompt e); done. Qed.

Lemma elem_of_prompt_ids id log :
  id ∈ prompt_ids log ↔ ∃ e, e ∈ log ∧ is_prompt e = true ∧ ce_id e = id.
Proof.
  unfold prompt_ids. rewrite list_elem_of_fmap.
  setoid_rewrite list_elem_of_filter. naive_solver.
Qed.

Lemma about_to_run_entry k e : about_to_run k = Some e → worker_entry k = Some e.
Proof.
  destruct k as [[c g sk pc]|pc]; destruct pc; simpl; try done; destruct d; congruence.
Qed.

Lemma marked_entry k e : marked k = Some e → worker_entry k = Some e.
Proof. destruct k as [[c g sk pc]|pc]; destruct pc; simpl; congruence. Qed.

(** A step of worker [w] that touches the lock only when it is free or its own,
    starts at most one execution it had decided on and marked, and keeps its own
    state in order keeps the host in order. *)
Lemma host_ok_step s s' w :
  host_ok s →
  (∀ w' k, w' ≠ w → hs_workers s' !! w' = Some k → hs_workers s !! w' = Some k) →
  hs_processed s ⊆ hs_processed s' →
  (hs_lock s' = hs_lock s ∨ hs_lock s = None ∨ hs_lock s = Some w) →
  (hs_log s' = hs_log s ∨
   ∃ e, hs_log s' = hs_log s ++ [e] ∧ ce_id e ∈ hs_processed s ∧
     (is_prompt e = true → hs_lock s = Some w ∧ ce_id e ∉ prompt_ids (hs_log s))) →
  (∀ k, hs_workers s' !! w = Some k → worker_ok s' w k) →
  host_ok s'.
Proof.
  intros [Hw Hl Ho] Hother Hproc Hlock Hlog Hown. split.
  - intros w' k Hk. destruct (decide (w' = w)) as [->|Hne]; [by apply Hown|].
    apply Hother in Hk; [|done]. destruct (Hw _ _ Hk) as [H1 H2 H3 H4].
    split; [|done| |by eauto].
    + intros H. specialize (H1 H). destruct Hlock as [->|[?|?]]; [done|congruence..].
    + intros e He Hp. specialize (H3 e He Hp).
      destruct Hlog as [->|(e' & -> & _ & Hq)]; [done|].
      rewrite prompt_ids_app, elem_of_app, prompt_ids_one. intros [?|Hin]; [done|].
      destruct (is_prompt e') eqn:E; [|set_solver].
      destruct (Hq eq_refl) as [Hq' _].
      assert (holds_lock k) as Hh.
      { apply (H2 e); [|done]. by apply about_to_run_entry. }
      specialize (H1 Hh). congruence.
  - intros e He. destruct Hlog as [Heq|(e' & Heq & Hm & _)]; rewrite Heq in He; [by apply Hproc, Hl|].
    apply elem_of_app in He as [He|He]; [by apply Hproc, Hl|].
    apply list_elem_of_singleton in He as ->. by apply Hproc.
  - destruct Hlog as [->|(e' & -> & _ & Hq)]; [done|].
    rewrite prompt_ids_app, prompt_ids_one. destruct (is_prompt e') eqn:E; [|by rewrite app_nil_r].
    apply NoDup_app. split_and!; [done| |apply NoDup_singleton].
    intros x Hx ->%list_elem_of_singleton. by apply (proj2 (Hq eq_refl)).
Qed.

Lemma host_ok_same s s' :
  hs_workers s' = hs_workers s → hs_processed s ⊆ hs_processed s' → hs_lock s' = hs_lock s →
  hs_log s' = hs_log s → host_ok s → host_ok s'.
Proof.
  intros H1 H2 H3 H4 [Hw Hl Ho]. split; rewrite ?H4; [|by auto|done].
  intros w k Hk. rewrite H1 in Hk. destruct (Hw _ _ Hk). split; rewrite ?H3, ?H4; auto.
Qed.

Lemma worker_ok_same s s' w k :
  hs_processed s ⊆ hs_processed s' → hs_lock s' = hs_lock s →
  hs_log s' = hs_log s → worker_ok s w k → worker_ok s' w k.
Proof. intros H2 H3 H4 []. split; rewrite ?H3, ?H4; auto. Qed.

Lemma host_ok_resolve id st r s : host_ok s → host_ok (resolve_command id st r s).
Proof. by apply host_ok_same. Qed.
Lemma host_ok_mark id s : host_ok s → host_ok (mark_processed id s).
Proof. apply host_ok_same; try done. simpl. set_solver. Qed.
Lemma host_ok_start id s : host_ok s → host_ok (start_executing id s).
Proof. by apply host_ok_same. Qed.
Lemma host_ok_stop id s : host_ok s → host_ok (stop_executing id s).
Proof. by apply host_ok_same. Qed.

Lemma host_ok_worker w k s : host_ok s → worker_ok s w k → host_ok (with_worker w k s).
Proof.
  intros Hs Hk. apply (host_ok_step s _ w); simpl; auto.
  - intros w' k' Hne. by rewrite lookup_insert_ne.
  - intros k' Hk'. rewrite lookup_insert_eq in Hk'. injection Hk' as <-.
    by apply (worker_ok_same s).
Qed.

Lemma host_ok_return w s : host_ok s → host_ok (worker_return w s).
Proof.
  intros Hs. apply (host_ok_step s _ w); simpl; auto.
  - intros w' k' Hne. by rewrite lookup_delete_ne.
  - case_bool_decide; auto.
  - intros k' Hk'. by rewrite lookup_delete_eq in Hk'.
Qed.

Lemma host_ok_take_lock w s : hs_lock s = None → host_ok s → host_ok (with_lock (Some w) s).
Proof.
  intros Hn [Hw Hl Ho]. split; [|done..].
  intros w' k Hk. destruct (Hw _ _ Hk) as [H1 H2 H3 H4]. split; simpl; [|done..].
  intros H. specialize (H1 H). congruence.
Qed.

(** Starting the execution [w] had decided on and marked. *)
Lemma host_ok_execute w k k' e s :
  host_ok s → hs_workers s !! w = Some k → about_to_run k = Some e → marked k = Some e →
  holds_lock k' = holds_lock k → about_to_run k' = None → marked k' = None →
  (∀ e', worker_entry k' = Some e' → e' = e) →
  host_ok (with_worker w k' (log_execution e s)).
Proof.
  intros Hs Hk Hr Hm Hh Hr' Hm' He'. pose proof (ho_workers _ Hs _ _ Hk) as [H1 H2 H3 H4].
  pose proof (about_to_run_entry _ _ Hr) as He.
  apply (host_ok_step s _ w); simpl; auto.
  - intros w' k2 Hne. by rewrite lookup_insert_ne.
  - right. exists e. split_and!; [done|by apply H4|]. intros Hp. split; [|by apply H3].
    apply H1. by apply (H2 e).
  - intros k2 Hk2. rewrite lookup_insert_eq in Hk2. injection Hk2 as <-.
    split; simpl; rewrite ?Hr', ?Hm', ?Hh; try done. intros e2 ->%He'. by apply H2.
Qed.

Lemma evaluate_execute_fresh s snap o e :
  or_ledger_read_ok o = true → evaluate_command e (evaluation s snap o) = Execute →
  ce_id e ∉ hs_processed s.
Proof.
  intros Ho H Hin. unfold evaluate_command, evaluation, is_processed in H. cbn [cx_is_processed] in H.
  rewrite Ho, bool_decide_eq_true_2 in H by done. done.
Qed.

Lemma host_ok_fresh s e : host_ok s → ce_id e ∉ hs_processed s → ce_id e ∉ prompt_ids (hs_log s).
Proof.
  intros Hs Hn (e' & Hin & _ & Heq)%elem_of_prompt_ids. apply Hn. rewrite <- Heq.
  by apply (ho_log _ Hs).
Qed.

Ltac worker_ok_tac :=
  split; simpl in *; intros; simplify_eq; try done;
  try (by apply elem_of_union_l, elem_of_singleton); try (by auto); try (by eauto).

Lemma drain_step_ok w d o s :
  or_ledger_read_ok o = true → host_ok s → hs_workers s !! w = Some (WDrain d) →
  host_ok (drain_step w d o s).
Proof.
  intros Ho Hs Hk. pose proof (ho_workers _ Hs _ _ Hk) as [H1 H2 H3 H4].
  destruct d as [c g sk pc]. unfold drain_step, drain_at, drain_skip.
  cbn [dr_pc dr_guard dr_controls_only dr_skipped] in *.
  destruct pc as [|snap [|e rest]|snap|snap e|e dp|e dp|e dp|e st r|e]; simpl in H1, H2, H3, H4.
  - destruct (or_read_ok o); [|by apply host_ok_return].
    apply host_ok_worker; [done|]. worker_ok_tac.
  - apply host_ok_worker; [done|]. worker_ok_tac.
  - destruct (dead_command _ _ _ _); apply host_ok_worker; auto using host_ok_resolve; worker_ok_tac.
  - destruct (List.find _ _) as [e|] eqn:Hf.
    + apply host_ok_worker; [done|]. worker_ok_tac. apply find_some in Hf as [_ Hf].
      unfold eligible in Hf. rewrite !andb_true_iff in Hf. destruct Hf as [_ Hf].
      apply orb_true_iff in Hf as [?|Hf]; [done|]. rewrite H0 in Hf. done.
    + destruct (g || c); [by apply host_ok_return|]. destruct (hs_lock s) eqn:El; [done|].
      apply host_ok_worker; [by apply host_ok_take_lock|]. worker_ok_tac.
  - destruct (bool_decide _ && missing_attachments o e); [repeat case_match|].
    + by apply host_ok_return.
    + apply host_ok_worker; [by apply host_ok_resolve, host_ok_mark|]. worker_ok_tac.
    + by apply host_ok_return.
    + apply host_ok_worker; [done|]. worker_ok_tac.
      destruct (evaluate_command e _) eqn:E; simplify_eq.
      apply (host_ok_fresh _ _ Hs). by eapply evaluate_execute_fresh.
  - case_bool_decide; [apply host_ok_worker; [done|]; worker_ok_tac|].
    apply host_ok_worker; [by apply host_ok_start|]. worker_ok_tac.
  - destruct (or_ledger_ok o); [|by apply host_ok_return, host_ok_stop].
    apply host_ok_worker; [by apply host_ok_mark|]. worker_ok_tac.
  - destruct dp; [apply host_ok_worker; [done|]; worker_ok_tac..|].
    by eapply host_ok_execute.
  - apply host_ok_worker; [by apply host_ok_resolve|]. worker_ok_tac.
  - apply host_ok_worker; [by apply host_ok_stop|]. worker_ok_tac.
Qed.

Lemma relay_step_ok w pc o s :
  or_ledger_read_ok o = true → host_ok s → hs_workers s !! w = Some (WRelay pc) →
  host_ok (relay_step w pc o s).
Proof.
  intros Ho Hs Hk. pose proof (ho_workers _ Hs _ _ Hk) as [H1 H2 H3 H4].
  unfold relay_step. destruct pc as [e|e|e dp|e dp|e dp|e]; simpl in H1, H2, H3, H4.
  - destruct (missing_attachments o e); [by apply host_ok_return|].
    destruct (is_prompt e) eqn:Ep; [destruct (hs_lock s) eqn:El; [done|]|].
    + apply host_ok_worker; [by apply host_ok_take_lock|]. worker_ok_tac.
    + apply host_ok_worker; [done|]. split; simpl; intros; simplify_eq; try done; naive_solver congruence.
  - destruct (or_read_ok o); [|by apply host_ok_return].
    case_bool_decide as Hd; [by apply host_ok_return|].
    apply host_ok_worker; [done|]. worker_ok_tac.
    destruct (evaluate_command e _) eqn:E; simplify_eq.
    apply (host_ok_fresh _ _ Hs). by eapply evaluate_execute_fresh.
  - case_bool_decide; [by apply host_ok_return|].
    apply host_ok_worker; [by apply host_ok_start|]. worker_ok_tac.
  - destruct (_ && _).
    + apply host_ok_worker; [by apply host_ok_mark|]. worker_ok_tac.
    + apply host_ok_worker; [done|]. worker_ok_tac.
  - destruct dp; [apply host_ok_worker; [done|]; worker_ok_tac..|].
    eapply host_ok_execute; naive_solver.
  - by apply host_ok_return, host_ok_stop.
Qed.

Definition ledger_reads (a : HostAction) : Prop :=
  match a with AStep _ o => or_ledger_read_ok o = true | _ => True end.

Lemma host_step_ok a s : ledger_reads a → host_ok s → host_ok (host_step a s).
Proof.
  intros Ha Hs. destruct a as [e|cmds|w c|w e|w o|]; simpl in *.
  - by apply (host_ok_same s).
  - by apply (host_ok_same s).
  - case_bool_decide; [done|]. unfold spawn_drain.
    destruct (negb c && bool_decide (hs_lock s = None)) eqn:E.
    + apply andb_true_iff in E as [_ E%bool_decide_eq_true].
      apply host_ok_worker; [by apply host_ok_take_lock|]. worker_ok_tac.
    + apply host_ok_worker; [done|]. worker_ok_tac.
  - case_bool_decide; [done|]. apply host_ok_worker; [done|].
    split; simpl; try done. intros (e' & ? & _). done.
  - destruct (hs_workers s !! w) as [[d|pc]|] eqn:Hk; [by apply drain_step_ok|by apply relay_step_ok|done].
  - destruct Hs as [_ Hl Ho]. by split.
Qed.

Lemma host_run_ok acts s : Forall ledger_reads acts → host_ok s → host_ok (host_run acts s).
Proof.
  intros Ha. revert s. induction Ha as [|a acts Ha _ IH]; intros s Hs; [done|].
  apply IH. by apply host_step_ok.
Qed.

Lemma host_init_ok : host_ok host_init.
Proof. split; [done| |constructor]. intros e He. by apply not_elem_of_nil in He. Qed.

(** ** In-flight claims *)

Definition claimed (k : Worker) : option string :=
  match k with
  | WDrain d =>
      match dr_pc d with
      | DMark e _ | DExec e _ | DResolve e _ _ | DRelease e => Some (ce_id e)
      | _ => None
      end
  | WRelay (RMark e _ | RExec e _ | RRelease e) => Some (ce_id e)
  | WRelay _ => None
  end.

Definition claim_of (s : HostState) (w : nat) : option string := hs_workers s !! w ≫= claimed.

Record claims_ok (s : HostState) : Prop := {
  cl_exact id : id ∈ hs_executing s ↔ ∃ w, claim_of s w = Some id;
  cl_unique w1 w2 id : claim_of s w1 = Some id → claim_of s w2 = Some id → w1 = w2
}.

Lemma claims_step s s' w :
  claims_ok s → (∀ w', w' ≠ w → claim_of s' w' = claim_of s w') →
  (claim_of s' w = claim_of s w ∧ hs_executing s' = hs_executing s ∨
   (∃ id, claim_of s w = None ∧ claim_of s' w = Some id ∧ id ∉ hs_executing s ∧
      hs_executing s' = {[id]} ∪ hs_executing s) ∨
   (∃ id, claim_of s w = Some id ∧ claim_of s' w = None ∧
      hs_executing s' = hs_executing s ∖ {[id]})) →
  claims_ok s'.
Proof.
  intros [He Hu] Hother [[Hc Hx]|[(id & Hn & Hc & Hf & Hx)|(id & Hn & Hc & Hx)]].
  - assert (∀ w', claim_of s' w' = claim_of s w') as H.
    { intros w'. destruct (decide (w' = w)) as [->|]; auto. }
    split; [intros id; rewrite Hx, He; by setoid_rewrite H|]. intros w1 w2 i. rewrite !H. apply Hu.
  - split.
    + intros i. rewrite Hx, elem_of_union, elem_of_singleton, He. split.
      * intros [->|(w' & Hw')]; [by exists w|]. exists w'. rewrite Hother; [done|]. congruence.
      * intros (w' & Hw'). destruct (decide (w' = w)) as [->|]; [left; congruence|].
        right. exists w'. by rewrite Hother in Hw'.
    + assert (∀ w', w' ≠ w → claim_of s w' ≠ Some id) as Hno by (intros w' _ H; apply Hf, He; eauto).
      intros w1 w2 i H1 H2.
      destruct (decide (w1 = w)) as [->|N1]; destruct (decide (w2 = w)) as [->|N2]; [done| | |].
      * rewrite Hother in H2 by done. destruct (Hno w2); congruence.
      * rewrite Hother in H1 by done. destruct (Hno w1); congruence.
      * rewrite Hother in H1, H2 by done. eauto.
  - split.
    + intros i. rewrite Hx, elem_of_difference, elem_of_singleton, He. split.
      * intros [(w' & Hw') Hne]. exists w'. rewrite Hother; congruence.
      * intros (w' & Hw'). destruct (decide (w' = w)) as [->|]; [congruence|].
        rewrite Hother in Hw' by done. split; [by exists w'|]. intros ->. eauto.
    + intros w1 w2 i H1 H2.
      destruct (decide (w1 = w)) as [->|]; [congruence|].
      destruct (decide (w2 = w)) as [->|]; [congruence|].
      rewrite Hother in H1, H2 by done. eauto.
Qed.

Lemma claim_of_worker w k s : claim_of (with_worker w k s) w = claimed k.
Proof. unfold claim_of. simpl. by rewrite lookup_insert_eq. Qed.
Lemma claim_of_return w s : claim_of (worker_return w s) w = None.
Proof. unfold claim_of. simpl. by rewrite lookup_delete_eq. Qed.

Lemma claims_worker w k s s' :
  claims_ok s → claim_of s w = claimed k → hs_workers s' = hs_workers s →
  hs_executing s' = hs_executing s → claims_ok (with_worker w k s').
Proof.
  intros Hs Hc Hw Hx. apply (claims_step s _ w); [done| |].
  - intros w' Hne. unfold claim_of. simpl. by rewrite lookup_insert_ne, Hw.
  - left. by rewrite claim_of_worker.
Qed.

Lemma claims_return w s s' :
  claims_ok s → claim_of s w = None → hs_workers s' = hs_workers s →
  hs_executing s' = hs_executing s → claims_ok (worker_return w s').
Proof.
  intros Hs Hc Hw Hx. apply (claims_step s _ w); [done| |].
  - intros w' Hne. unfold claim_of. simpl. by rewrite lookup_delete_ne, Hw.
  - left. by rewrite claim_of_return.
Qed.

Lemma claims_take w k id s :
  claims_ok s → claim_of s w = None → claimed k = Some id → id ∉ hs_executing s →
  claims_ok (with_worker w k (start_executing id s)).
Proof.
  intros Hs Hc Hk Hf. apply (claims_step s _ w); [done| |].
  - intros w' Hne. unfold claim_of. simpl. by rewrite lookup_insert_ne.
  - right; left. exists id. by rewrite claim_of_worker.
Qed.

Lemma claims_drop w k id s :
  claims_ok s → claim_of s w = Some id → claimed k = None →
  claims_ok (with_worker w k (stop_executing id s)).
Proof.
  intros Hs Hc Hk. apply (claims_step s _ w); [done| |].
  - intros w' Hne. unfold claim_of. simpl. by rewrite lookup_insert_ne.
  - right; right. exists id. by rewrite claim_of_worker.
Qed.

Lemma claims_drop_return w id s :
  claims_ok s → claim_of s w = Some id → claims_ok (worker_return w (stop_executing id s)).
Proof.
  intros Hs Hc. apply (claims_step s _ w); [done| |].
  - intros w' Hne. unfold claim_of. simpl. by rewrite lookup_delete_ne.
  - right; right. exists id. by rewrite claim_of_return.
Qed.

Lemma drain_step_claims w d o s :
  claims_ok s → hs_workers s !! w = Some (WDrain d) → claims_ok (drain_step w d o s).
Proof.
  intros Hs Hk. assert (claim_of s w = claimed (WDrain d)) as Hc by (unfold claim_of; by rewrite Hk).
  destruct d as [c g sk pc]. unfold drain_step, drain_at, drain_skip.
  cbn [dr_pc dr_guard dr_controls_only dr_skipped] in *.
  destruct pc as [|snap [|e rest]|snap|snap e|e dp|e dp|e dp|e st r|e]; simpl in Hc.
  - case_match; [by eapply claims_worker|by eapply claims_return].
  - by eapply claims_worker.
  - case_match; by eapply claims_worker.
  - repeat case_match; solve [done | by eapply claims_worker | by eapply claims_return].
  - repeat case_match; solve [by eapply claims_worker | by eapply claims_return].
  - case_bool_decide; [by eapply claims_worker|by apply claims_take].
  - case_match; [by eapply claims_worker|by apply claims_drop_return].
  - destruct dp; by eapply claims_worker.
  - by eapply claims_worker.
  - by apply claims_drop.
Qed.

Lemma relay_step_claims w pc o s :
  claims_ok s → hs_workers s !! w = Some (WRelay pc) → claims_ok (relay_step w pc o s).
Proof.
  intros Hs Hk. assert (claim_of s w = claimed (WRelay pc)) as Hc by (unfold claim_of; by rewrite Hk).
  unfold relay_step. destruct pc as [e|e|e dp|e dp|e dp|e]; simpl in Hc.
  - repeat case_match; solve [done | by eapply claims_worker | by eapply claims_return].
  - repeat case_match; solve [by eapply claims_worker | by eapply claims_return].
  - case_bool_decide; [by eapply claims_return|by apply claims_take].
  - case_match; by eapply claims_worker.
  - destruct dp; by eapply claims_worker.
  - by apply claims_drop_return.
Qed.

Lemma host_step_claims a s : claims_ok s → claims_ok (host_step a s).
Proof.
  intros Hs. destruct a as [e|cmds|w c|w e|w o|]; simpl.
  - destruct Hs. by split.
  - destruct Hs. by split.
  - case_bool_decide as Hn; [done|]. apply eq_None_not_Some in Hn.
    unfold spawn_drain. case_match; (eapply claims_worker; [done|unfold claim_of; by rewrite Hn|done..]).
  - case_bool_decide as Hn; [done|]. apply eq_None_not_Some in Hn.
    eapply claims_worker; [done|unfold claim_of; by rewrite Hn|done..].
  - destruct (hs_workers s !! w) as [[d|pc]|] eqn:Hk;
      [by apply drain_step_claims|by apply relay_step_claims|done].
  - split.
    + intros id. split; [intros H; by apply not_elem_of_empty in H|]. intros (w & H).
      unfold claim_of in H. simpl in H. by rewrite lookup_empty in H.
    + intros w1 w2 id H. unfold claim_of in H. simpl in H. by rewrite lookup_empty in H.
Qed.

Lemma host_run_claims acts s : claims_ok s → claims_ok (host_run acts s).
Proof.
  revert s. induction acts as [|a acts IH]; intros s Hs; [done|].
  apply IH. by apply host_step_claims.
Qed.

Lemma host_init_claims : claims_ok host_init.
Proof.
  split; [|intros w1 w2 id H; unfold claim_of in H; simpl in H; by rewrite lookup_empty in H].
  intros id. split; [intros H; by apply not_elem_of_empty in H|]. intros (w & H).
  unfold claim_of in H. simpl in H. by rewrite lookup_empty in H.
Qed.

(** C1: over any interleaving of drains, relays, merges and crashes whose ledger
    reads succeed, no prompt id starts executing twice, and every execution is
    in the persistent ledger. *)
Theorem prompts_execute_once acts :
  Forall ledger_reads acts →
  NoDup (prompt_ids (hs_log (host_run acts host_init))) ∧
  (∀ e, e ∈ hs_log (host_run acts host_init) → ce_id e ∈ hs_processed (host_run acts host_init)).
Proof.
  intros Ha. pose proof (host_run_ok _ _ Ha host_init_ok) as [_ Hl Ho]. done.
Qed.

(** C21: in every reachable state the in-flight set is exactly the set of ids
    claimed by live workers, and no id is claimed by two workers at once; so the
    sweep's test for a crashed command never fires on one being executed, and no
    claim outlives its worker. *)
Theorem claims_exclusive acts :
  (∀ id, id ∈ hs_executing (host_run acts host_init) ↔
     ∃ w, claim_of (host_run acts host_init) w = Some id) ∧
  (∀ w1 w2 id, claim_of (host_run acts host_init) w1 = Some id →
     claim_of (host_run acts host_init) w2 = Some id → w1 = w2).
Proof. destruct (host_run_claims acts _ host_init_claims) as [He Hu]. split; [exact He|exact Hu]. Qed.

(** ** Runs *)

Definition ex_oracle (read_ok : bool) : Oracle :=
  mkOracle 0 [] false true read_ok true (SApplied, None).
Definition ex_interrupt : SessionCommandEntry :=
  mkEntry "i" PInterrupt "d" 0 None None SPending None.
Definition ex_prompt : SessionCommandEntry :=
  mkEntry "p" (PSteer "go" None) "d" 0 None None SPending None.

(** [n] steps of worker [w]. *)
Definition ex_steps (w n : nat) (read_ok : bool) : list HostAction :=
  repeat (AStep w (ex_oracle read_ok)) n.

Definition statuses (s : HostState) : list (string * SessionCommandStatus) :=
  (λ e, (ce_id e, ce_status e)) <$> hs_cmds s.

(** The prompt arrives by relay and by document while a drain waits for the
    lock, and the host crashes in between. *)
Definition ex_run : list HostAction :=
  [AQueue ex_prompt; ADrain 1 false; ARelay 2 ex_prompt; ADrain 3 false]
  ++ ex_steps 1 8 true ++ ex_steps 2 3 true ++ ex_steps 3 5 true ++ [ACrash]
  ++ [ADrain 1 false; ARelay 2 ex_prompt] ++ ex_steps 1 9 true ++ ex_steps 2 6 true.

Lemma prompts_execute_once_witness :
  ce_id <$> hs_log (host_run ex_run host_init) = ["p"] ∧
  NoDup (prompt_ids (hs_log (host_run ex_run host_init))).
Proof.
  split; [reflexivity|]. apply (prompts_execute_once ex_run).
  repeat (constructor; [exact I || reflexivity|]). constructor.
Defined.

Lemma claims_exclusive_witness :
  hs_executing (host_run (firstn 14 ex_run) host_init) = {["p"]} ∧
  "p" ∈ hs_executing (host_run (firstn 14 ex_run) host_init).
Proof.
  split; [vm_compute; reflexivity|].
  apply (claims_exclusive (firstn 14 ex_run)). exists 1%nat. vm_compute. reflexivity.
Defined.

(** Two drains that evaluated the same control before either marked it both
    execute it: the drain ignores that [mark_processed] found the id taken. *)
Lemma control_executes_twice :
  let s := host_run ([AQueue ex_interrupt; ADrain 1 true; ADrain 2 true]
    ++ ex_steps 1 5 true ++ ex_steps 2 5 true ++ ex_steps 1 5 true ++ ex_steps 2 3 true) host_init in
  ce_id <$> hs_log s = ["i"; "i"].
Proof. reflexivity. Qed.

(** A sweep over a snapshot read before another drain resolved the command
    replaces its outcome. *)
Lemma stale_sweep_overwrites :
  let s1 := host_run ([AQueue ex_interrupt; ADrain 1 true; ADrain 2 true]
    ++ ex_steps 2 1 true ++ ex_steps 1 10 true) host_init in
  statuses s1 = [("i", SApplied)] ∧
  statuses (host_run (ex_steps 2 1 true) s1) = [("i", SRejected)].
Proof. split; reflexivity. Qed.

(** A prompt executed over the relay is rejected as interrupted when its row
    arrives with the document. *)
Lemma relayed_row_is_rejected :
  let s1 := host_run ([ARelay 1 ex_prompt] ++ ex_steps 1 6 true) host_init in
  ce_id <$> hs_log s1 = ["p"] ∧
  statuses (host_run ([AQueue ex_prompt; ADrain 2 false] ++ ex_steps 2 2 true) s1)
    = [("p", SRejected)].
Proof. split; reflexivity. Qed.

(** After a crash, a ledger that cannot be read makes the drain run the prompt
    again. *)
Lemma unreadable_ledger_runs_again :
  let s := host_run ([AQueue ex_prompt; ADrain 1 false] ++ ex_steps 1 8 true ++ [ACrash; ADrain 2 false]
    ++ ex_steps 2 8 false) host_init in
  ce_id <$> hs_log s = ["p"; "p"].
Proof. reflexivity. Qed.
